(** * Flood-fill micromouse controllers: a shallow embedding

    The repository holds several generations of one maze solver.  Two of
    them are embedded here, function by function:

    - [FF]   follows [src/algo/ff/ff.c]   (globals, exploration-biased return);
    - [FFv3] follows [src/algo/ff/ffv3.c] (state in structs, multi-source fill).

    Both files share the grid constants, the direction encoding and the
    shape of the breadth-first sweep; those live at the top of this file.

    C [int] is embedded as [Z].  Every value the programs compute stays far
    inside the 32-bit range (coordinates within a cell of the grid, distances
    bounded by the queue capacity times the largest bonus), so no wrap-around
    is written out.  The two- and three-dimensional arrays are embedded as
    total functions on cells: the programs guard every neighbour access with
    a bounds test, and those tests are kept in the embedding.  The accesses
    at the cell of the mouse itself carry no test.  In ff.c the mouse only
    ever steps onto a neighbour that passed the test; in ffv3.c the
    fallback of [choose_next_direction] can take it off the grid, and the
    one unguarded write there ([maze.visited] in [main]) is embedded with
    its bounds made explicit, see [FFv3.mark_visited]. *)

From Stdlib Require Import String Ascii ZArith List Bool Lia Arith Sorted Permutation.
Import ListNotations.
Import Init.Datatypes.
Local Open Scope Z_scope.


(** ** Constants *)

Definition MAZE_WIDTH : Z := 16.
Definition MAZE_HEIGHT : Z := 16.
Definition MAX_CELLS : Z := MAZE_WIDTH * MAZE_HEIGHT.
Definition INVALID_DISTANCE : Z := MAX_CELLS.

Definition GOAL_X1 : Z := 7.
Definition GOAL_Y1 : Z := 7.
Definition GOAL_X2 : Z := 8.
Definition GOAL_Y2 : Z := 8.

(** ** Directions, modes, cells *)

Inductive Direction : Type := NORTH | EAST | SOUTH | WEST.

Inductive RunMode : Type := SEARCH_MODE | RETURN_MODE | SPEED_MODE.

Record Point : Type := mkPoint { px : Z; py : Z }.

Definition DIRECTION_COUNT : Z := 4.

(** The numeric value of a direction, as in the [#define]s and the enum. *)
Definition dir_index (d : Direction) : Z :=
  match d with NORTH => 0 | EAST => 1 | SOUTH => 2 | WEST => 3 end.

(** The direction with a given numeric value in [0, 4). *)
Definition dir_of_index (z : Z) : Direction :=
  if z =? 0 then NORTH else if z =? 1 then EAST else if z =? 2 then SOUTH else WEST.

Definition mode_index (m : RunMode) : Z :=
  match m with SEARCH_MODE => 0 | RETURN_MODE => 1 | SPEED_MODE => 2 end.

(** [(d + k) % 4] on directions. *)
Definition dir_plus (d : Direction) (k : Z) : Direction :=
  dir_of_index (Z.rem (dir_index d + k) DIRECTION_COUNT).

(** [(target - from + 4) % 4]. *)
Definition dir_diff (target from : Direction) : Z :=
  Z.rem (dir_index target - dir_index from + DIRECTION_COUNT) DIRECTION_COUNT.

Definition all_dirs : list Direction := [NORTH; EAST; SOUTH; WEST].

(** [dx], [dy] of ff.c; the [direction_delta] table of ffv3.c. *)
Definition dx (d : Direction) : Z :=
  match d with NORTH => 0 | EAST => 1 | SOUTH => 0 | WEST => -1 end.

Definition dy (d : Direction) : Z :=
  match d with NORTH => 1 | EAST => 0 | SOUTH => -1 | WEST => 0 end.

Definition direction_delta (d : Direction) : Point := mkPoint (dx d) (dy d).

(** The cell reached from [p] by one step in direction [d]. *)
Definition neighbor (p : Point) (d : Direction) : Point :=
  mkPoint (px p + dx d) (py p + dy d).

Definition point_eqb (p q : Point) : bool :=
  (px p =? px q) && (py p =? py q).

Definition dir_eqb (a b : Direction) : bool := dir_index a =? dir_index b.

Definition is_within_bounds (p : Point) : bool :=
  (px p >=? 0) && (px p <? MAZE_WIDTH) && (py p >=? 0) && (py p <? MAZE_HEIGHT).

Definition is_at_goal (p : Point) : bool :=
  ((px p =? GOAL_X1) || (px p =? GOAL_X2)) && ((py p =? GOAL_Y1) || (py p =? GOAL_Y2)).

Definition is_at_start (p : Point) : bool := (px p =? 0) && (py p =? 0).

Definition get_opposite_direction (d : Direction) : Direction := dir_plus d 2.

Definition origin : Point := mkPoint 0 0.

(** ** Arrays indexed by cells *)

Definition Grid (A : Type) : Type := Point -> A.

Definition grid_set {A : Type} (g : Grid A) (p : Point) (v : A) : Grid A :=
  fun q => if point_eqb q p then v else g q.

Definition Walls : Type := Point -> Direction -> bool.

Definition walls_set (w : Walls) (p : Point) (d : Direction) (v : bool) : Walls :=
  fun q e => if point_eqb q p && dir_eqb e d then v else w q e.

(** An array of cells indexed by an [int] (the stored path). *)
Definition path_set (a : Z -> Point) (i : Z) (p : Point) : Z -> Point :=
  fun j => if j =? i then p else a j.

(** [0, 1, ..., n-1] as C loop counters. *)
Definition zrange (n : nat) : list Z := map Z.of_nat (seq 0 n).

(** The cells in the order of the nested [for x ... for y ...] loops. *)
Definition all_cells : list Point :=
  flat_map (fun x => map (fun y => mkPoint x y) (zrange 16)) (zrange 16).

(** The four cells of the goal region, in the order of
    [for x = GOAL_X1..GOAL_X2, for y = GOAL_Y1..GOAL_Y2]. *)
Definition goal_cells : list Point :=
  [mkPoint GOAL_X1 GOAL_Y1; mkPoint GOAL_X1 GOAL_Y2;
   mkPoint GOAL_X2 GOAL_Y1; mkPoint GOAL_X2 GOAL_Y2].

(** ** The simulator interface

    The programs talk to the simulator through [api.h].  Commands are
    recorded in a trace (most recent first).  Queries ([API_wallFront],
    [API_moveForward], [API_wasReset] ...) are answered by an arbitrary
    sequence of booleans, consumed in program order: quantifying over the
    sequence quantifies over every behaviour of the simulator. *)

Inductive Event : Type :=
| Log (fmt : string) (args : list Z)
| TurnLeft
| TurnRight
| MoveForward (moved : bool)
| AckReset
| ClearAllColor
| SetText (x y : Z) (fmt : string) (args : list Z)
| SetColor (x y : Z) (c : ascii)
| SetWall (x y : Z) (c : ascii).

Record World : Type := mkWorld {
  answers : nat -> bool;
  asked : nat;
  trace : list Event }.

(** Ways in which a run leaves the defined behaviour of the C program
    (a write past the end of a fixed array, a write outside a grid
    array), plus the model's own bound on loop iterations. *)
Inductive Fault : Type := QueueOverflow | PathOverflow | OutOfBounds | OutOfFuel.

Inductive Result (A : Type) : Type :=
| Ok (a : A)
| Fail (f : Fault).

Arguments Ok {A} a.
Arguments Fail {A} f.

(** State, simulator and faults threaded through the code. *)
Definition M (St A : Type) : Type := St -> World -> Result (A * St * World).

Definition ret {St A : Type} (a : A) : M St A := fun s w => Ok (a, s, w).

Definition bind {St A B : Type} (m : M St A) (k : A -> M St B) : M St B :=
  fun s w =>
    match m s w with
    | Ok (a, s1, w1) => k a s1 w1
    | Fail f => Fail f
    end.

Declare Scope prog_scope.
Delimit Scope prog_scope with prog.
Notation "x <- m ;; k" := (bind m (fun x => k))
  (at level 61, m at next level, right associativity) : prog_scope.
Notation "m ;; k" := (bind m (fun _ => k))
  (at level 61, right associativity) : prog_scope.

Definition gets {St A : Type} (f : St -> A) : M St A := fun s w => Ok (f s, s, w).

Definition modify {St : Type} (f : St -> St) : M St unit := fun s w => Ok (tt, f s, w).

Definition fail {St A : Type} (f : Fault) : M St A := fun _ _ => Fail f.

(** Run a pure, fallible state transformer (the flood fills). *)
Definition lift {St : Type} (f : St -> Result St) : M St unit :=
  fun s w => match f s with Ok s1 => Ok (tt, s1, w) | Fail e => Fail e end.

Definition emit {St : Type} (e : Event) : M St unit :=
  fun s w => Ok (tt, s, mkWorld (answers w) (asked w) (e :: trace w)).

(** A query to the simulator: the next boolean of the answer sequence. *)
Definition ask {St : Type} : M St bool :=
  fun s w => Ok (answers w (asked w), s, mkWorld (answers w) (S (asked w)) (trace w)).

Definition when {St : Type} (b : bool) (m : M St unit) : M St unit :=
  if b then m else ret tt.

(** [for (each element of l) body]. *)
Fixpoint for_each {St A : Type} (l : list A) (body : A -> M St unit) : M St unit :=
  match l with
  | [] => ret tt
  | a :: l' => bind (body a) (fun _ => for_each l' body)
  end.

(** [while (cond) body], cut off after [fuel] iterations. *)
Fixpoint while_do {St : Type} (fuel : nat) (cond : St -> bool) (body : M St unit) : M St unit :=
  match fuel with
  | O => fail OutOfFuel
  | S fuel' =>
      fun s w =>
        if cond s then bind body (fun _ => while_do fuel' cond body) s w
        else Ok (tt, s, w)
  end.

Definition logMessage {St : Type} (msg : string) : M St unit := emit (Log msg []).
Definition logFormat {St : Type} (fmt : string) (args : list Z) : M St unit := emit (Log fmt args).

Definition API_wallFront {St : Type} : M St bool := ask.
Definition API_wallRight {St : Type} : M St bool := ask.
Definition API_wallLeft {St : Type} : M St bool := ask.
Definition API_wasReset {St : Type} : M St bool := ask.
Definition API_ackReset {St : Type} : M St unit := emit AckReset.
Definition API_turnLeft {St : Type} : M St unit := emit TurnLeft.
Definition API_turnRight {St : Type} : M St unit := emit TurnRight.
Definition API_clearAllColor {St : Type} : M St unit := emit ClearAllColor.
Definition API_setColor {St : Type} (x y : Z) (c : ascii) : M St unit := emit (SetColor x y c).
Definition API_setWall {St : Type} (x y : Z) (c : ascii) : M St unit := emit (SetWall x y c).
Definition API_setText {St : Type} (x y : Z) (fmt : string) (args : list Z) : M St unit :=
  emit (SetText x y fmt args).

(** [API_moveForward]: the simulator answers whether the mouse advanced;
    the attempt is recorded in the trace with its outcome. *)
Definition API_moveForward {St : Type} : M St bool :=
  bind ask (fun ok => bind (emit (MoveForward ok)) (fun _ => ret ok)).

(** ** The breadth-first sweep

    All flood fills of both programs run the same loop: a fixed array
    [queue[MAX_CELLS]] with a read index and a write index, the current
    distance read once per dequeued cell, and the four neighbours relaxed
    in the order North, East, South, West.  The loop is parameterised by
    the wall test applied at the current cell and by the candidate distance
    offered to a neighbour ([d + 1] for the plain fill).

    The queue is the list of everything written to the array so far, so
    the write index [qBack] is its length; a write at index [MAX_CELLS]
    is past the end of the C array and is reported as [QueueOverflow]. *)

Record Bfs : Type := mkBfs {
  bdist : Grid Z;
  queue : list Point;
  qFront : nat }.

Definition qBack (b : Bfs) : nat := length (queue b).

(** [queue[qBack] = p; qBack++] *)
Definition enqueue (p : Point) (b : Bfs) : Result Bfs :=
  if Z.of_nat (qBack b) <? MAX_CELLS
  then Ok (mkBfs (bdist b) (queue b ++ [p]) (qFront b))
  else Fail QueueOverflow.

Section Sweep.

Variable blocked : Point -> Direction -> bool.
Variable candidate : Z -> Point -> Z.

(** One pass of the body of [for (dir = 0; dir < 4; dir++)]. *)
Definition relax (cur : Point) (d : Z) (b : Bfs) (dir : Direction) : Result Bfs :=
  if blocked cur dir then Ok b
  else
    let n := neighbor cur dir in
    if negb (is_within_bounds n) then Ok b
    else if bdist b n >? candidate d n
         then enqueue n (mkBfs (grid_set (bdist b) n (candidate d n)) (queue b) (qFront b))
         else Ok b.

Fixpoint relax_dirs (cur : Point) (d : Z) (dirs : list Direction) (b : Bfs) : Result Bfs :=
  match dirs with
  | [] => Ok b
  | dir :: rest =>
      match relax cur d b dir with
      | Ok b1 => relax_dirs cur d rest b1
      | Fail e => Fail e
      end
  end.

(** [while (qFront < qBack) { current = queue[qFront++]; ... }] *)
Fixpoint sweep (fuel : nat) (b : Bfs) : Result Bfs :=
  match fuel with
  | O => Fail OutOfFuel
  | S fuel' =>
      if (qFront b <? qBack b)%nat then
        let cur := nth (qFront b) (queue b) origin in
        let d := bdist b cur in
        match relax_dirs cur d all_dirs (mkBfs (bdist b) (queue b) (S (qFront b))) with
        | Ok b1 => sweep fuel' b1
        | Fail e => Fail e
        end
      else Ok b
  end.

End Sweep.

(** The queue holds at most [MAX_CELLS] entries and every iteration of the
    sweep consumes one, so this many iterations always suffice (see
    [sweep_never_out_of_fuel]). *)
Definition SWEEP_FUEL : nat := 257.

(** [abs] of stdlib.h on the values that occur. *)
Definition abs (z : Z) : Z := Z.abs z.

(** Manhattan distances to the four goal cells, in the order of the
    [goalDistances] array of ff.c. *)
Definition goal_manhattan (x y : Z) : list Z :=
  [abs (x - GOAL_X1) + abs (y - GOAL_Y1);
   abs (x - GOAL_X1) + abs (y - GOAL_Y2);
   abs (x - GOAL_X2) + abs (y - GOAL_Y1);
   abs (x - GOAL_X2) + abs (y - GOAL_Y2)].

(** * ff.c *)

Module FF.

Local Open Scope prog_scope.

(** The globals of ff.c, and the function-local [static bool justReachedGoal]
    of [moveToNextCellReturn]. *)
Record State : Type := mkState {
  posX : Z;
  posY : Z;
  direction : Direction;
  currentMode : RunMode;
  goalFound : bool;
  explorePhaseComplete : bool;
  distances : Grid Z;
  walls : Walls;
  visited : Grid bool;
  fastestPath : Z -> Point;
  pathLength : Z;
  justReachedGoal : bool }.

Definition pos (s : State) : Point := mkPoint (posX s) (posY s).

Definition set_pos (p : Point) (s : State) : State :=
  mkState (px p) (py p) (direction s) (currentMode s) (goalFound s) (explorePhaseComplete s)
          (distances s) (walls s) (visited s) (fastestPath s) (pathLength s) (justReachedGoal s).

Definition set_direction (d : Direction) (s : State) : State :=
  mkState (posX s) (posY s) d (currentMode s) (goalFound s) (explorePhaseComplete s)
          (distances s) (walls s) (visited s) (fastestPath s) (pathLength s) (justReachedGoal s).

Definition set_currentMode (m : RunMode) (s : State) : State :=
  mkState (posX s) (posY s) (direction s) m (goalFound s) (explorePhaseComplete s)
          (distances s) (walls s) (visited s) (fastestPath s) (pathLength s) (justReachedGoal s).

Definition set_goalFound (b : bool) (s : State) : State :=
  mkState (posX s) (posY s) (direction s) (currentMode s) b (explorePhaseComplete s)
          (distances s) (walls s) (visited s) (fastestPath s) (pathLength s) (justReachedGoal s).

Definition set_explorePhaseComplete (b : bool) (s : State) : State :=
  mkState (posX s) (posY s) (direction s) (currentMode s) (goalFound s) b
          (distances s) (walls s) (visited s) (fastestPath s) (pathLength s) (justReachedGoal s).

Definition set_distances (d : Grid Z) (s : State) : State :=
  mkState (posX s) (posY s) (direction s) (currentMode s) (goalFound s) (explorePhaseComplete s)
          d (walls s) (visited s) (fastestPath s) (pathLength s) (justReachedGoal s).

Definition set_walls (w : Walls) (s : State) : State :=
  mkState (posX s) (posY s) (direction s) (currentMode s) (goalFound s) (explorePhaseComplete s)
          (distances s) w (visited s) (fastestPath s) (pathLength s) (justReachedGoal s).

Definition set_visited (v : Grid bool) (s : State) : State :=
  mkState (posX s) (posY s) (direction s) (currentMode s) (goalFound s) (explorePhaseComplete s)
          (distances s) (walls s) v (fastestPath s) (pathLength s) (justReachedGoal s).

Definition set_path (a : Z -> Point) (n : Z) (s : State) : State :=
  mkState (posX s) (posY s) (direction s) (currentMode s) (goalFound s) (explorePhaseComplete s)
          (distances s) (walls s) (visited s) a n (justReachedGoal s).

Definition set_justReachedGoal (b : bool) (s : State) : State :=
  mkState (posX s) (posY s) (direction s) (currentMode s) (goalFound s) (explorePhaseComplete s)
          (distances s) (walls s) (visited s) (fastestPath s) (pathLength s) b.

(** The values of the globals when [main] starts (static storage is zeroed,
    the initialisers of ff.c apply). *)
Definition initial : State :=
  mkState 0 0 NORTH SEARCH_MODE false false
          (fun _ => 0) (fun _ _ => false) (fun _ => false) (fun _ => origin) 0 true.

(** The cells of the stored path, [fastestPath[0 .. pathLength-1]]. *)
Definition path_cells (s : State) : list Point :=
  map (fastestPath s) (zrange (Z.to_nat (pathLength s))).

(** ** Flood fills *)

(** [floodFill(targetX, targetY)] *)
Definition floodFill (target : Point) (s : State) : Result State :=
  let reset : Grid Z := fun _ => MAZE_WIDTH * MAZE_HEIGHT in
  let b0 := mkBfs (grid_set reset target 0) [target] 0 in
  match sweep (walls s) (fun d _ => d + 1) SWEEP_FUEL b0 with
  | Ok b => Ok (set_distances (bdist b) s)
  | Fail e => Fail e
  end.

(** The index of the first smallest entry of [goalDistances]
    ([for i = 1..3: if (goalDistances[i] < minDist) ...]). *)
Definition closest_goal_index (x y : Z) : Z :=
  let g := goal_manhattan x y in
  snd (fold_left
         (fun (acc : Z * Z) (i : Z) =>
            let gi := nth (Z.to_nat i) g 0 in
            if gi <? fst acc then (gi, i) else acc)
         [1; 2; 3] (nth 0 g 0, 0)).

(** The [switch (minIdx)] of [floodFillToGoal]. *)
Definition goal_target (minIdx : Z) : Point :=
  if minIdx =? 0 then mkPoint GOAL_X1 GOAL_Y1
  else if minIdx =? 1 then mkPoint GOAL_X1 GOAL_Y2
  else if minIdx =? 2 then mkPoint GOAL_X2 GOAL_Y1
  else mkPoint GOAL_X2 GOAL_Y2.

(** [floodFillToGoal]: the goal cell closest to the mouse is the target. *)
Definition floodFillToGoal (s : State) : Result State :=
  floodFill (goal_target (closest_goal_index (posX s) (posY s))) s.

Definition floodFillToStart (s : State) : Result State :=
  floodFill (mkPoint 0 0) s.

Definition explorationWeight (vis : Grid bool) (n : Point) : Z :=
  if negb (vis n) then 2 else 0.

Definition goalProximity (vis : Grid bool) (n : Point) : Z :=
  if negb (vis n) then
    let minGoalDist :=
      fold_left (fun m d => if d <? m then d else m)
                (goal_manhattan (px n) (py n)) (MAZE_WIDTH + MAZE_HEIGHT) in
    Z.quot (MAZE_WIDTH + MAZE_HEIGHT - minGoalDist) 2
  else 0.

Definition effectiveDistance (vis : Grid bool) (d : Z) (n : Point) : Z :=
  d + 1 - explorationWeight vis n - goalProximity vis n.

(** The closing normalisation of [floodFillToStartWithExploration]. *)
Definition normalize (dist : Grid Z) : Grid Z :=
  let minDist := fold_left (fun m c => if dist c <? m then dist c else m) all_cells 0 in
  if minDist <? 0 then fun c => dist c - minDist else dist.

(** [floodFillToStartWithExploration] *)
Definition floodFillToStartWithExploration (s : State) : Result State :=
  let reset : Grid Z := fun _ => MAZE_WIDTH * MAZE_HEIGHT in
  let b0 := mkBfs (grid_set reset (mkPoint 0 0) 0) [mkPoint 0 0] 0 in
  match sweep (walls s) (effectiveDistance (visited s)) SWEEP_FUEL b0 with
  | Ok b => Ok (set_distances (normalize (bdist b)) s)
  | Fail e => Fail e
  end.

Definition isAtGoal (s : State) : bool :=
  ((posX s =? GOAL_X1) || (posX s =? GOAL_X2)) && ((posY s =? GOAL_Y1) || (posY s =? GOAL_Y2)).

Definition isAtStart (s : State) : bool := (posX s =? 0) && (posY s =? 0).

(** [nx >= 0 && nx < MAZE_WIDTH && ny >= 0 && ny < MAZE_HEIGHT] *)
Definition inside (n : Point) : bool :=
  (px n >=? 0) && (px n <? MAZE_WIDTH) && (py n >=? 0) && (py n <? MAZE_HEIGHT).

(** ** Initialisation and sensing *)

(** The two boundary loops of [initializeMaze]. *)
Definition set_boundary (w : Walls) : Walls :=
  let w1 :=
    fold_left (fun w x => walls_set (walls_set w (mkPoint x 0) SOUTH true)
                                    (mkPoint x (MAZE_HEIGHT - 1)) NORTH true)
              (zrange 16) w in
  fold_left (fun w y => walls_set (walls_set w (mkPoint 0 y) WEST true)
                                  (mkPoint (MAZE_WIDTH - 1) y) EAST true)
            (zrange 16) w1.

(** [initializeMaze] *)
Definition initializeMaze : M State unit :=
  modify (fun s => set_distances (fun _ => MAZE_WIDTH * MAZE_HEIGHT)
                     (set_visited (fun _ => false) (set_walls (fun _ _ => false) s)));;
  modify (fun s => set_walls (set_boundary (walls s)) s);;
  modify (fun s => set_visited (grid_set (visited s) (mkPoint 0 0) true) s);;
  lift floodFillToGoal.

(** One of the three blocks of [updateWalls]: the side [dir] of the current
    cell and, when the neighbour is inside the grid, the facing side of the
    neighbour are both overwritten with the sensor reading. *)
Definition sense_side (dir : Direction) (reading : bool) (s : State) : State :=
  let w1 := walls_set (walls s) (pos s) dir reading in
  let n := neighbor (pos s) dir in
  let w2 := if inside n then walls_set w1 n (dir_plus dir 2) reading else w1 in
  set_walls w2 s.

(** [updateWalls] *)
Definition updateWalls : M State unit :=
  frontWall <- API_wallFront;;
  rightWall <- API_wallRight;;
  leftWall <- API_wallLeft;;
  s <- gets (fun s => s);;
  logFormat "Detecting walls at (%d,%d): front=%d, right=%d, left=%d"
            [posX s; posY s; Z.b2z frontWall; Z.b2z rightWall; Z.b2z leftWall];;
  modify (fun s => sense_side (direction s) frontWall s);;
  modify (fun s => sense_side (dir_plus (direction s) 1) rightWall s);;
  modify (fun s => sense_side (dir_plus (direction s) 3) leftWall s).

(** ** Navigation *)

(** The exploration bonus of [moveToNextCell]. *)
Definition bonus (s : State) (dir : Direction) : Z :=
  match currentMode s with
  | SEARCH_MODE =>
      if walls s (pos s) dir then 0
      else
        let n := neighbor (pos s) dir in
        if negb (inside n) then 0
        else if negb (visited s n) then 1 else 0
  | _ => 0
  end.

(** The selection loop shared by [moveToNextCell] and
    [moveToNextCellReturn]: [(minDir, minDist)] after the four directions,
    [None] standing for [minDir == -1]. *)
Definition select_direction (s : State) (adjust : Direction -> Z) : option Direction * Z :=
  fold_left
    (fun (acc : option Direction * Z) (dir : Direction) =>
       if walls s (pos s) dir then acc
       else
         let n := neighbor (pos s) dir in
         if negb (inside n) then acc
         else
           let adjustedDist := distances s n - adjust dir in
           if adjustedDist <? snd acc then (Some dir, adjustedDist) else acc)
    all_dirs (None, MAZE_WIDTH * MAZE_HEIGHT).

(** The body of [while (direction != minDir) { ... }]. *)
Definition turn_step (minDir : Direction) : M State unit :=
  d <- gets direction;;
  let diff := dir_diff minDir d in
  if diff =? 1 then
    API_turnRight;; modify (fun s => set_direction (dir_plus (direction s) 1) s)
  else if diff =? 3 then
    API_turnLeft;; modify (fun s => set_direction (dir_plus (direction s) 3) s)
  else
    API_turnRight;; modify (fun s => set_direction (dir_plus (direction s) 1) s);;
    API_turnRight;; modify (fun s => set_direction (dir_plus (direction s) 1) s).

Definition turn_to (minDir : Direction) : M State unit :=
  while_do 4 (fun s => negb (dir_eqb (direction s) minDir)) (turn_step minDir).

(** The wall bookkeeping after a failed move. *)
Definition record_blocked (s : State) : State :=
  let w1 := walls_set (walls s) (pos s) (direction s) true in
  let n := neighbor (pos s) (direction s) in
  let w2 := if inside n then walls_set w1 n (dir_plus (direction s) 2) true else w1 in
  set_walls w2 s.

(** [moveToNextCell] *)
Definition moveToNextCell : M State unit :=
  s <- gets (fun s => s);;
  match fst (select_direction s (bonus s)) with
  | None => logMessage "=== ERROR: no valid direction found! ==="
  | Some minDir =>
      turn_to minDir;;
      moved <- API_moveForward;;
      if moved then
        modify (fun s => set_pos (neighbor (pos s) (direction s)) s)
      else
        modify record_blocked;;
        mode <- gets currentMode;;
        match mode with
        | SEARCH_MODE => lift floodFillToGoal
        | RETURN_MODE => lift floodFillToStart
        | SPEED_MODE => ret tt
        end
  end.

(** [getMazeCoverage] returns [(float)visitedCount / totalCells]; the
    quotient by 256 is exact in binary floating point, so it is kept as the
    numerator [visitedCount] over the fixed denominator [totalCells]. *)
Definition visitedCount (s : State) : Z :=
  fold_left (fun n c => if visited s c then n + 1 else n) all_cells 0.

Definition totalCells : Z := MAZE_WIDTH * MAZE_HEIGHT.

(** [coverage > 0.75] *)
Definition coverage_above_threshold (s : State) : bool :=
  4 * visitedCount s >? 3 * totalCells.

(** The body of the double loop of [criticalPathsExplored]: does cell [c]
    add one to [unvisitedInPath]? *)
Definition unvisited_candidate (s : State) (c : Point) : bool :=
  (distances s c <=? distances s (mkPoint 0 0)) &&
  existsb (fun dir =>
             negb (walls s c dir) &&
             inside (neighbor c dir) &&
             (distances s (neighbor c dir) =? distances s c - 1) &&
             negb (visited s c))
          all_dirs.

(** [criticalPathsExplored] *)
Definition criticalPathsExplored : M State bool :=
  lift floodFillToGoal;;
  s <- gets (fun s => s);;
  let unvisitedInPath :=
    fold_left (fun n c => if unvisited_candidate s c then n + 1 else n) all_cells 0 in
  logFormat "Unvisited cells in potential shortest path: %d" [unvisitedInPath];;
  ret (unvisitedInPath =? 0).

(** [moveToNextCellReturn] *)
Definition moveToNextCellReturn : M State unit :=
  first <- gets justReachedGoal;;
  when first
    (logMessage "First move after reaching goal - updating wall knowledge";;
     updateWalls;;
     modify (set_justReachedGoal false));;
  s0 <- gets (fun s => s);;
  logFormat "Maze coverage: %.1f%%" [visitedCount s0; totalCells];;
  direct <-
    (if coverage_above_threshold s0 then ret true
     else
       critical <- criticalPathsExplored;;
       if critical then ret true
       else gets (fun s => (posX s =? 0) && (posY s =? 0)));;
  (if direct then
     done <- gets explorePhaseComplete;;
     when (negb done)
       (logMessage "Exploration phase complete, returning directly to start";;
        modify (set_explorePhaseComplete true));;
     lift floodFillToStart
   else lift floodFillToStartWithExploration);;
  s <- gets (fun s => s);;
  logFormat "Current position (%d,%d), distance to start: %d"
            [posX s; posY s; distances s (pos s)];;
  for_each all_dirs
    (fun dir =>
       if walls s (pos s) dir then ret tt
       else
         let n := neighbor (pos s) dir in
         if negb (inside n) then ret tt
         else logFormat "Direction %d: leads to (%d,%d), distance: %d"
                        [dir_index dir; px n; py n; distances s n]);;
  match fst (select_direction s (fun _ => 0)) with
  | None =>
      logMessage "=== ERROR: no valid direction found! ===";;
      logFormat "Current position: (%d,%d), walls: N=%d, E=%d, S=%d, W=%d"
                [posX s; posY s;
                 Z.b2z (walls s (pos s) NORTH); Z.b2z (walls s (pos s) EAST);
                 Z.b2z (walls s (pos s) SOUTH); Z.b2z (walls s (pos s) WEST)];;
      lift floodFillToStart
  | Some minDir =>
      logFormat "Chosen direction: %d" [dir_index minDir];;
      turn_to minDir;;
      moved <- API_moveForward;;
      if moved then
        modify (fun s => set_pos (neighbor (pos s) (direction s)) s)
      else
        modify record_blocked;;
        done <- gets explorePhaseComplete;;
        if done then lift floodFillToStart
        else lift floodFillToStartWithExploration
  end.

(** ** Path planning *)

(** The inner loop of [computeShortestPath]: the open in-bounds neighbour
    of [(x, y)] with the lowest distance below [MAZE_WIDTH * MAZE_HEIGHT],
    first minimum in scan order; [None] stands for [nextX == -1]. *)
Definition lowest_neighbor (s : State) (cur : Point) : option Point :=
  fst (fold_left
         (fun (acc : option Point * Z) (dir : Direction) =>
            if walls s cur dir then acc
            else
              let n := neighbor cur dir in
              if negb (inside n) then acc
              else if distances s n <? snd acc then (Some n, distances s n) else acc)
         all_dirs (None, MAZE_WIDTH * MAZE_HEIGHT)).

(** The [while] loop of [computeShortestPath] and the log line after it.
    [fastestPath] has [MAZE_WIDTH * MAZE_HEIGHT] rows; a write past the
    last one is reported as [PathOverflow]. *)
Fixpoint trace_path (fuel : nat) (cur : Point) : M State unit :=
  match fuel with
  | O => fail OutOfFuel
  | S fuel' =>
      if is_at_goal cur then
        n <- gets pathLength;;
        logFormat "Shortest path length: %d steps" [n - 1]
      else
        s <- gets (fun s => s);;
        match lowest_neighbor s cur with
        | None => logMessage "ERROR: Failed to compute shortest path!"
        | Some next =>
            (if pathLength s <? MAZE_WIDTH * MAZE_HEIGHT
             then modify (fun s => set_path (path_set (fastestPath s) (pathLength s) next)
                                            (pathLength s + 1) s)
             else fail PathOverflow);;
            n <- gets pathLength;;
            logFormat "Path point %d: (%d,%d)" [n - 1; px next; py next];;
            trace_path fuel' next
        end
  end.

(** [computeShortestPath] *)
Definition computeShortestPath : M State unit :=
  logMessage "Computing shortest path from start to goal";;
  modify (fun s => set_path (path_set (fastestPath s) 0 (mkPoint 0 0)) 1 s);;
  lift floodFillToGoal;;
  trace_path 257 (mkPoint 0 0).

(** The direction search used by the path followers:
    the first [dir] with [(x + dx[dir], y + dy[dir]) == target]. *)
Definition find_move (from target : Point) : option Direction :=
  find (fun dir => point_eqb (neighbor from dir) target) all_dirs.

(** The loop of [verifyShortestPath], from path index [i] on. *)
Fixpoint verify_steps (idx : list Z) (cur : Point) : M State unit :=
  match idx with
  | [] => logMessage "Path verification successful. No obstacles detected."
  | i :: rest =>
      s <- gets (fun s => s);;
      let target := fastestPath s i in
      match find_move cur target with
      | None =>
          logFormat "ERROR: Path verification failed! Can't find direction from (%d,%d) to (%d,%d)"
                    [px cur; py cur; px target; py target]
      | Some moveDir =>
          if walls s cur moveDir then
            logFormat "ERROR: Wall detected in path! Cannot move from (%d,%d) to (%d,%d)"
                      [px cur; py cur; px target; py target]
          else verify_steps rest target
      end
  end.

(** The indices [1 .. n-1]. *)
Definition indices_from_1 (n : Z) : list Z :=
  map Z.of_nat (seq 1 (Z.to_nat (n - 1))).

(** [verifyShortestPath] *)
Definition verifyShortestPath : M State unit :=
  logMessage "Verifying shortest path for consistency...";;
  n <- gets pathLength;;
  verify_steps (indices_from_1 n) (mkPoint 0 0).

(** [recomputePathIfNeeded] *)
Definition recomputePathIfNeeded : M State unit :=
  updateWalls;;
  s <- gets (fun s => s);;
  let needsRecompute :=
    if pathLength s >? 1 then
      match find_move (pos s) (fastestPath s 1) with
      | Some moveDir => walls s (pos s) moveDir
      | None => false
      end
    else false in
  when needsRecompute
    (logMessage "Path conflicted with detected walls - recomputing path";;
     lift floodFillToGoal;;
     computeShortestPath;;
     verifyShortestPath).

(** [while (direction != NORTH) { API_turnRight(); direction = (direction + 1) % 4; }] *)
Definition face_north : M State unit :=
  while_do 4 (fun s => negb (dir_eqb (direction s) NORTH))
    (API_turnRight;; modify (fun s => set_direction (dir_plus (direction s) 1) s)).

(** [prepareForSpeedRun] *)
Definition prepareForSpeedRun : M State unit :=
  logMessage "Preparing for speed run";;
  s <- gets (fun s => s);;
  if negb (posX s =? 0) || negb (posY s =? 0) then
    logMessage "ERROR: Not at start position for speed run!"
  else
    r <- API_wasReset;;
    when r (logMessage "Reset detected before speed run, acknowledging";; API_ackReset);;
    face_north;;
    updateWalls;;
    recomputePathIfNeeded;;
    API_clearAllColor;;
    s <- gets (fun s => s);;
    for_each (zrange (Z.to_nat (pathLength s)))
      (fun i => API_setColor (px (fastestPath s i)) (py (fastestPath s i)) "C");;
    API_setColor 0 0 "r";;
    logMessage "First steps of speed run:";;
    for_each (zrange (Z.to_nat (Z.min 5 (pathLength s))))
      (fun i => logFormat "  Step %d: (%d,%d)" [i; px (fastestPath s i); py (fastestPath s i)]).

(** The candidate test of [updateDisplay] (the same gradient test as in
    [criticalPathsExplored], without the visited flag). *)
Definition onPotentialPath (s : State) (c : Point) : bool :=
  (distances s c <=? distances s (mkPoint 0 0)) &&
  existsb (fun dir =>
             negb (walls s c dir) &&
             inside (neighbor c dir) &&
             (distances s (neighbor c dir) =? distances s c - 1))
          all_dirs.

(** The colouring of one cell in the first double loop of [updateDisplay]. *)
Definition display_cell (c : Point) : M State unit :=
  s <- gets (fun s => s);;
  API_setText (px c) (py c) "%d" [distances s c];;
  (if (px c =? posX s) && (py c =? posY s) then API_setColor (px c) (py c) "r"
   else if is_at_goal c then API_setColor (px c) (py c) "G"
   else if match currentMode s with RETURN_MODE => true | _ => false end
           && negb (explorePhaseComplete s) then
     if visited s c then API_setColor (px c) (py c) "B"
     else
       lift floodFillToGoal;;
       s1 <- gets (fun s => s);;
       (if onPotentialPath s1 c then API_setColor (px c) (py c) "A"
        else API_setColor (px c) (py c) "Y");;
       done <- gets explorePhaseComplete;;
       if done then lift floodFillToStart
       else lift floodFillToStartWithExploration
   else if visited s c then API_setColor (px c) (py c) "B"
   else API_setColor (px c) (py c) "Y");;
  s2 <- gets (fun s => s);;
  match currentMode s2 with
  | SPEED_MODE =>
      when (existsb (fun i => point_eqb c (fastestPath s2 i))
                    (zrange (Z.to_nat (pathLength s2))))
           (API_setColor (px c) (py c) "C")
  | _ => ret tt
  end.

(** The second double loop of [updateDisplay]. *)
Definition display_walls (c : Point) : M State unit :=
  s <- gets (fun s => s);;
  when (walls s c NORTH) (API_setWall (px c) (py c) "n");;
  when (walls s c EAST) (API_setWall (px c) (py c) "e");;
  when (walls s c SOUTH) (API_setWall (px c) (py c) "s");;
  when (walls s c WEST) (API_setWall (px c) (py c) "w").

(** [updateDisplay] *)
Definition updateDisplay : M State unit :=
  for_each all_cells display_cell;;
  for_each all_cells display_walls.

(** The [for] loop of [followShortestPath]; [false] reports the early
    [return]s. *)
Fixpoint follow_steps (idx : list Z) : M State bool :=
  match idx with
  | [] => ret true
  | i :: rest =>
      s <- gets (fun s => s);;
      let target := fastestPath s i in
      match find_move (pos s) target with
      | None =>
          logFormat "ERROR: Invalid path point! Cannot find direction from (%d,%d) to (%d,%d)"
                    [posX s; posY s; px target; py target];;
          ret false
      | Some moveDir =>
          logFormat "Moving from (%d,%d) to (%d,%d), need to face direction: %d, currently facing: %d"
                    [posX s; posY s; px target; py target; dir_index moveDir; dir_index (direction s)];;
          turn_to moveDir;;
          logMessage "Moving forward";;
          moved <- API_moveForward;;
          if negb moved then
            s1 <- gets (fun s => s);;
            logFormat "ERROR: Failed to move during speed run! At (%d,%d), facing %d"
                      [posX s1; posY s1; dir_index (direction s1)];;
            logMessage "Checking for walls in front:";;
            front <- API_wallFront;;
            (if front
             then logMessage "Wall detected in front - map data is inconsistent with actual maze!"
             else logMessage "No wall in front - this is unexpected!");;
            ret false
          else
            modify (set_pos target);;
            updateDisplay;;
            s2 <- gets (fun s => s);;
            logFormat "Speed run: now at (%d,%d) facing %d"
                      [posX s2; posY s2; dir_index (direction s2)];;
            follow_steps rest
      end
  end.

(** [followShortestPath] *)
Definition followShortestPath : M State unit :=
  face_north;;
  updateWalls;;
  s <- gets (fun s => s);;
  logFormat "Real wall state at start: N=%d, E=%d, S=%d, W=%d"
            [Z.b2z (walls s (mkPoint 0 0) NORTH); Z.b2z (walls s (mkPoint 0 0) EAST);
             Z.b2z (walls s (mkPoint 0 0) SOUTH); Z.b2z (walls s (mkPoint 0 0) WEST)];;
  logMessage "Starting speed run from (0,0)";;
  finished <- follow_steps (indices_from_1 (pathLength s));;
  when finished
    (s1 <- gets (fun s => s);;
     API_setColor (posX s1) (posY s1) "G";;
     logMessage "=== Speed run complete! Goal reached! ===").

(** ** The main loop *)

(** The four goal cells are marked visited when the goal is reached. *)
Definition mark_goal_visited (s : State) : State :=
  set_visited
    (grid_set (grid_set (grid_set (grid_set (visited s)
       (mkPoint GOAL_X1 GOAL_Y1) true)
       (mkPoint GOAL_X1 GOAL_Y2) true)
       (mkPoint GOAL_X2 GOAL_Y1) true)
       (mkPoint GOAL_X2 GOAL_Y2) true) s.

(** [case SEARCH_MODE:] *)
Definition search_case : M State unit :=
  s <- gets (fun s => s);;
  if isAtGoal s then
    logMessage "=== Goal reached! Switching to return mode ===";;
    modify (set_goalFound true);;
    modify (set_currentMode RETURN_MODE);;
    modify mark_goal_visited;;
    modify (set_explorePhaseComplete false);;
    lift floodFillToStart;;
    updateDisplay;;
    logFormat "At goal (%d,%d), preparing to return to start" [posX s; posY s]
  else
    lift floodFillToGoal;;
    moveToNextCell.

(** [case RETURN_MODE:] *)
Definition return_case : M State unit :=
  s <- gets (fun s => s);;
  if isAtStart s then
    logMessage "=== Back at start! Computing shortest path ===";;
    computeShortestPath;;
    verifyShortestPath;;
    s1 <- gets (fun s => s);;
    logFormat "Final maze coverage: %.1f%%" [visitedCount s1; totalCells];;
    critical <- criticalPathsExplored;;
    when (negb critical)
      (logMessage "WARNING: Some potential shortest paths may not be fully explored";;
       logMessage "Testing path viability with extra verification...");;
    prepareForSpeedRun;;
    modify (set_currentMode SPEED_MODE)
  else
    moveToNextCellReturn.

(** [case SPEED_MODE:]; the program returns from [main] on both paths. *)
Definition speed_case : M State unit :=
  logMessage "=== Beginning speed run ===";;
  prepareForSpeedRun;;
  s <- gets (fun s => s);;
  let blockedFirst :=
    match find_move (pos s) (fastestPath s 1) with
    | Some moveDir => walls s (pos s) moveDir
    | None => false
    end in
  if blockedFirst then
    logMessage "ERROR: First move in path still blocked by a wall!";;
    logMessage "=== Speed run aborted ==="
  else
    followShortestPath;;
    logMessage "=== Speed run complete! ===".

(** One iteration of [while (1)] in [main].  The result is [true] when the
    loop goes on and [false] when [main] returns. *)
Definition tick : M State bool :=
  r <- API_wasReset;;
  when r
    (logMessage "Simulator reset detected!";;
     API_ackReset;;
     modify (fun s => set_path (fastestPath s) 0
                        (set_goalFound false
                           (set_currentMode SEARCH_MODE
                              (set_direction NORTH (set_pos (mkPoint 0 0) s)))));;
     initializeMaze);;
  updateWalls;;
  modify (fun s => set_visited (grid_set (visited s) (pos s) true) s);;
  updateDisplay;;
  mode <- gets currentMode;;
  match mode with
  | SEARCH_MODE =>
      search_case;;
      s <- gets (fun s => s);;
      logFormat "now at (%d,%d) facing %d, mode: %d"
                [posX s; posY s; dir_index (direction s); mode_index (currentMode s)];;
      ret true
  | RETURN_MODE =>
      return_case;;
      s <- gets (fun s => s);;
      logFormat "now at (%d,%d) facing %d, mode: %d"
                [posX s; posY s; dir_index (direction s); mode_index (currentMode s)];;
      ret true
  | SPEED_MODE =>
      speed_case;;
      ret false
  end.

(** The code of [main] before the loop. *)
Definition startup : M State unit :=
  logMessage "Starting maze solver";;
  initializeMaze;;
  modify (set_explorePhaseComplete false).

(** [n] iterations of the main loop, stopping early when [main] returns. *)
Fixpoint ticks (n : nat) : M State bool :=
  match n with
  | O => ret true
  | S n' => go <- tick;; if go then ticks n' else ret false
  end.

End FF.

(** * ffv3.c *)

Module FFv3.

Local Open Scope prog_scope.

(** [struct MouseState] *)
Record MouseState : Type := mkMouse {
  pos : Point;
  orientation : Direction;
  mode : RunMode;
  goal_found : bool;
  shortest_path : Z -> Point;
  path_length : Z }.

(** [struct Maze] *)
Record Maze : Type := mkMaze {
  distances : Grid Z;
  walls : Walls;
  visited : Grid bool }.

(** The two globals [mouse] and [maze]. *)
Record State : Type := mkState {
  mouse : MouseState;
  maze : Maze }.

Definition set_mouse (ms : MouseState) (s : State) : State := mkState ms (maze s).
Definition set_maze (m : Maze) (s : State) : State := mkState (mouse s) m.

Definition set_pos (p : Point) (ms : MouseState) : MouseState :=
  mkMouse p (orientation ms) (mode ms) (goal_found ms) (shortest_path ms) (path_length ms).

Definition set_orientation (d : Direction) (ms : MouseState) : MouseState :=
  mkMouse (pos ms) d (mode ms) (goal_found ms) (shortest_path ms) (path_length ms).

Definition set_mode (r : RunMode) (ms : MouseState) : MouseState :=
  mkMouse (pos ms) (orientation ms) r (goal_found ms) (shortest_path ms) (path_length ms).

Definition set_goal_found (b : bool) (ms : MouseState) : MouseState :=
  mkMouse (pos ms) (orientation ms) (mode ms) b (shortest_path ms) (path_length ms).

Definition set_path_length (n : Z) (ms : MouseState) : MouseState :=
  mkMouse (pos ms) (orientation ms) (mode ms) (goal_found ms) (shortest_path ms) n.

(** [ms->shortest_path[ms->path_length++] = p] *)
Definition push_path (p : Point) (ms : MouseState) : MouseState :=
  mkMouse (pos ms) (orientation ms) (mode ms) (goal_found ms)
          (path_set (shortest_path ms) (path_length ms) p) (path_length ms + 1).

Definition set_distances (d : Grid Z) (m : Maze) : Maze := mkMaze d (walls m) (visited m).
Definition set_walls (w : Walls) (m : Maze) : Maze := mkMaze (distances m) w (visited m).
Definition set_visited (v : Grid bool) (m : Maze) : Maze := mkMaze (distances m) (walls m) v.

Definition on_mouse (f : MouseState -> MouseState) : M State unit :=
  modify (fun s => set_mouse (f (mouse s)) s).

Definition on_maze (f : Maze -> Maze) : M State unit :=
  modify (fun s => set_maze (f (maze s)) s).

(** The globals when [main] starts (static storage is zeroed). *)
Definition initial : State :=
  mkState (mkMouse origin NORTH SEARCH_MODE false (fun _ => origin) 0)
          (mkMaze (fun _ => 0) (fun _ _ => false) (fun _ => false)).

(** The cells of the stored path, [shortest_path[0 .. path_length-1]]. *)
Definition path_cells (ms : MouseState) : list Point :=
  map (shortest_path ms) (zrange (Z.to_nat (path_length ms))).

(** ** Wall management *)

(** [set_wall] *)
Definition set_wall (p : Point) (dir : Direction) (m : Maze) : Maze :=
  if negb (is_within_bounds p) then m
  else
    let w1 := walls_set (walls m) p dir true in
    let neighbor_pos := mkPoint (px p + px (direction_delta dir)) (py p + py (direction_delta dir)) in
    if is_within_bounds neighbor_pos
    then set_walls (walls_set w1 neighbor_pos (get_opposite_direction dir) true) m
    else set_walls w1 m.

(** [has_wall] *)
Definition has_wall (m : Maze) (p : Point) (dir : Direction) : bool :=
  if negb (is_within_bounds p) then true else walls m p dir.

(** [update_walls_current_cell] *)
Definition update_walls_current_cell : M State unit :=
  s <- gets (fun s => s);;
  let current_pos := pos (mouse s) in
  let current_orient := orientation (mouse s) in
  let front_dir := current_orient in
  let right_dir := dir_plus current_orient 1 in
  let left_dir := dir_plus current_orient 3 in
  front <- API_wallFront;;
  when front (on_maze (set_wall current_pos front_dir));;
  right <- API_wallRight;;
  when right (on_maze (set_wall current_pos right_dir));;
  left <- API_wallLeft;;
  when left (on_maze (set_wall current_pos left_dir)).

(** ** Initialisation *)

(** [init_maze] *)
Definition init_maze (m : Maze) : Maze :=
  let cleared := mkMaze (fun _ => INVALID_DISTANCE) (fun _ _ => false) (fun _ => false) in
  let m1 :=
    fold_left (fun m i => set_wall (mkPoint i (MAZE_HEIGHT - 1)) NORTH
                            (set_wall (mkPoint i 0) SOUTH m))
              (zrange 16) cleared in
  fold_left (fun m i => set_wall (mkPoint (MAZE_WIDTH - 1) i) EAST
                          (set_wall (mkPoint 0 i) WEST m))
            (zrange 16) m1.

(** [init_mouse]; its last line writes the global [maze]. *)
Definition init_mouse : M State unit :=
  on_mouse (fun ms => set_path_length 0
                        (set_goal_found false
                           (set_mode SEARCH_MODE
                              (set_orientation NORTH (set_pos (mkPoint 0 0) ms)))));;
  on_maze (fun m => set_visited (grid_set (visited m) (mkPoint 0 0) true) m).

(** ** Flood fills *)

(** The breadth-first loop of [flood_fill] and [flood_fill_goal], started
    from a seeded queue. *)
Definition search_from (b0 : Bfs) (m : Maze) : Result Maze :=
  match sweep (has_wall m) (fun current_dist _ => current_dist + 1) SWEEP_FUEL b0 with
  | Ok b => Ok (set_distances (bdist b) m)
  | Fail e => Fail e
  end.

(** [flood_fill] on the maze alone, for a target inside the grid. *)
Definition flood_fill_maze (target : Point) (m : Maze) : Result Maze :=
  search_from (mkBfs (grid_set (fun _ => INVALID_DISTANCE) target 0) [target] 0) m.

(** [flood_fill] *)
Definition flood_fill (target : Point) : M State unit :=
  if is_within_bounds target then
    lift (fun s =>
            match flood_fill_maze target (maze s) with
            | Ok m => Ok (set_maze m s)
            | Fail e => Fail e
            end)
  else
    on_maze (set_distances (fun _ => INVALID_DISTANCE));;
    logMessage "ERROR: Flood fill target out of bounds!".

(** The seeding loop of [flood_fill_goal]. *)
Definition seed_goal (reset : Grid Z) : Bfs :=
  fold_left (fun b goal_cell =>
               if is_within_bounds goal_cell
               then mkBfs (grid_set (bdist b) goal_cell 0) (queue b ++ [goal_cell])%list (qFront b)
               else b)
            goal_cells (mkBfs reset [] 0).

(** [flood_fill_goal] on the maze alone. *)
Definition flood_fill_goal_maze (m : Maze) : Result Maze :=
  search_from (seed_goal (fun _ => INVALID_DISTANCE)) m.

(** [flood_fill_goal] *)
Definition flood_fill_goal : M State unit :=
  if (qBack (seed_goal (fun _ => INVALID_DISTANCE)) =? 0)%nat then
    on_maze (set_distances (fun _ => INVALID_DISTANCE));;
    logMessage "ERROR: No valid goal cells found for flood fill!"
  else
    lift (fun s =>
            match flood_fill_goal_maze (maze s) with
            | Ok m => Ok (set_maze m s)
            | Fail e => Fail e
            end).

(** [flood_fill_start] *)
Definition flood_fill_start : M State unit := flood_fill (mkPoint 0 0).

(** ** Movement *)

(** The loop of [choose_next_direction]: [(best_dir, min_dist)], with
    [None] while [found_move] is false. *)
Definition scan_moves (ms : MouseState) (m : Maze) : option Direction * Z :=
  fold_left
    (fun (acc : option Direction * Z) (dir : Direction) =>
       if has_wall m (pos ms) dir then acc
       else
         let n := neighbor (pos ms) dir in
         if negb (is_within_bounds n) then acc
         else
           let neighbor_dist := distances m n in
           let adjusted_dist :=
             if match mode ms with SEARCH_MODE => true | _ => false end && negb (visited m n)
             then neighbor_dist - 1 else neighbor_dist in
           if adjusted_dist <? snd acc then (Some dir, adjusted_dist) else acc)
    all_dirs (None, INVALID_DISTANCE + 10).

(** [choose_next_direction] *)
Definition choose_next_direction : M State Direction :=
  s <- gets (fun s => s);;
  match fst (scan_moves (mouse s) (maze s)) with
  | Some best_dir => ret best_dir
  | None =>
      logMessage "ERROR: No valid move found! Stuck?";;
      ret (get_opposite_direction (orientation (mouse s)))
  end.

(** [turn_to_direction] *)
Definition turn_to_direction (target_dir : Direction) : M State unit :=
  s <- gets (fun s => s);;
  if dir_eqb (orientation (mouse s)) target_dir then ret tt
  else
    let diff := dir_diff target_dir (orientation (mouse s)) in
    if diff =? 1 then
      logMessage "Turning right";;
      API_turnRight;;
      on_mouse (fun ms => set_orientation (dir_plus (orientation ms) 1) ms)
    else if diff =? 3 then
      logMessage "Turning left";;
      API_turnLeft;;
      on_mouse (fun ms => set_orientation (dir_plus (orientation ms) 3) ms)
    else
      logMessage "Turning around (two rights)";;
      API_turnRight;;
      on_mouse (fun ms => set_orientation (dir_plus (orientation ms) 1) ms);;
      API_turnRight;;
      on_mouse (fun ms => set_orientation (dir_plus (orientation ms) 1) ms).

(** [move_forward_update_state] *)
Definition move_forward_update_state : M State unit :=
  next_dir <- choose_next_direction;;
  turn_to_direction next_dir;;
  logMessage "Moving forward";;
  moved <- API_moveForward;;
  if moved then
    on_mouse (fun ms => set_pos (mkPoint (px (pos ms) + px (direction_delta (orientation ms)))
                                         (py (pos ms) + py (direction_delta (orientation ms)))) ms)
  else
    logMessage "WARN: Move failed - unexpected wall detected!";;
    modify (fun s => set_maze (set_wall (pos (mouse s)) (orientation (mouse s)) (maze s)) s);;
    r <- gets (fun s => mode (mouse s));;
    match r with
    | SEARCH_MODE =>
        logMessage "Recalculating distances to goal due to new wall.";;
        flood_fill_goal
    | RETURN_MODE =>
        logMessage "Recalculating distances to start due to new wall.";;
        flood_fill_start
    | SPEED_MODE => ret tt
    end.

(** ** Path planning *)

(** The inner loop of [compute_shortest_path]: the direction of the open
    in-bounds neighbour with the lowest distance strictly below the
    distance of [current_pos], first minimum in scan order; [None] while
    [found_next] is false. *)
Definition best_step (m : Maze) (current_pos : Point) : option Direction :=
  fst (fold_left
         (fun (acc : option Direction * Z) (dir : Direction) =>
            if has_wall m current_pos dir then acc
            else
              let n := neighbor current_pos dir in
              if is_within_bounds n && (distances m n <? snd acc)
              then (Some dir, distances m n) else acc)
         all_dirs (None, distances m current_pos)).

(** The [while (!is_at_goal(current_pos))] loop of [compute_shortest_path]
    and the log line after it. *)
Fixpoint trace_path (fuel : nat) (current_pos : Point) : M State unit :=
  match fuel with
  | O => fail OutOfFuel
  | S fuel' =>
      if is_at_goal current_pos then
        n <- gets (fun s => path_length (mouse s));;
        logFormat "Shortest path computed with %d steps (length %d including start)." [n - 1; n]
      else
        s <- gets (fun s => s);;
        match best_step (maze s) current_pos with
        | None =>
            logMessage "ERROR: Could not find next step while computing shortest path! Path broken?";;
            on_mouse (set_path_length 0)
        | Some best_dir =>
            let next := mkPoint (px current_pos + px (direction_delta best_dir))
                                (py current_pos + py (direction_delta best_dir)) in
            if path_length (mouse s) <? MAX_CELLS then
              on_mouse (push_path next);;
              trace_path fuel' next
            else
              logMessage "ERROR: Shortest path exceeds maximum length!";;
              on_mouse (set_path_length 0)
        end
  end.

(** [compute_shortest_path] *)
Definition compute_shortest_path : M State unit :=
  logMessage "Computing shortest path from start to goal...";;
  flood_fill_goal;;
  on_mouse (set_path_length 0);;
  s <- gets (fun s => s);;
  if distances (maze s) (mkPoint 0 0) =? INVALID_DISTANCE then
    logMessage "ERROR: Start cell is unreachable from goal!";;
    on_mouse (set_path_length 0)
  else
    on_mouse (push_path (mkPoint 0 0));;
    trace_path 257 (mkPoint 0 0).

(** The direction search of the path checks:
    the first [d] with [prev + direction_delta[d] == p]. *)
Definition find_move (prev_p p : Point) : option Direction :=
  find (fun d => (px prev_p + px (direction_delta d) =? px p) &&
                 (py prev_p + py (direction_delta d) =? py p)) all_dirs.

(** The [for] loop of [verify_path_exploration], over the indices [idx]. *)
Fixpoint verify_steps (ms : MouseState) (m : Maze) (idx : list Z) : M State bool :=
  match idx with
  | [] =>
      logMessage "Path verification PASSED: Path is fully explored.";;
      ret true
  | i :: rest =>
      let p := shortest_path ms i in
      if negb (is_within_bounds p) then
        logFormat "Path verification FAILED: Point %d (%d,%d) is out of bounds." [i; px p; py p];;
        ret false
      else if negb (visited m p) then
        logFormat "Path verification FAILED: Point %d (%d,%d) on path was not visited." [i; px p; py p];;
        ret false
      else
        let prev_p := shortest_path ms (i - 1) in
        let transition_bad :=
          if i >? 0 then
            match find_move prev_p p with
            | Some move_dir => has_wall m prev_p move_dir
            | None => true
            end
          else false in
        if transition_bad then
          logFormat "Path verification FAILED: Transition from (%d,%d) to (%d,%d) uses unknown/walled path segment."
                    [px prev_p; py prev_p; px p; py p];;
          ret false
        else verify_steps ms m rest
  end.

(** [verify_path_exploration] *)
Definition verify_path_exploration : M State bool :=
  s <- gets (fun s => s);;
  if path_length (mouse s) <=? 1 then
    logMessage "Path verification: Path is too short or invalid.";;
    ret false
  else
    logMessage "Verifying path exploration...";;
    verify_steps (mouse s) (maze s) (zrange (Z.to_nat (path_length (mouse s)))).

(** ** Display *)

(** The body of the double loop of [update_display]. *)
Definition display_cell (c : Point) : M State unit :=
  s <- gets (fun s => s);;
  let ms := mouse s in
  let m := maze s in
  (if distances m c =? INVALID_DISTANCE then API_setText (px c) (py c) "-" []
   else API_setText (px c) (py c) "%d" [distances m c]);;
  (if (px c =? px (pos ms)) && (py c =? py (pos ms)) then API_setColor (px c) (py c) "R"
   else if is_at_goal c then API_setColor (px c) (py c) "G"
   else if visited m c then API_setColor (px c) (py c) "B"
   else API_setColor (px c) (py c) "Y");;
  when (match mode ms with SPEED_MODE => true | _ => false end && (path_length ms >? 0))
       (let on_path :=
          existsb (fun i => (px (shortest_path ms i) =? px c) && (py (shortest_path ms i) =? py c))
                  (zrange (Z.to_nat (path_length ms))) in
        when (on_path && negb ((px c =? px (pos ms)) && (py c =? py (pos ms))) && negb (is_at_goal c))
             (API_setColor (px c) (py c) "C"));;
  when (walls m c NORTH) (API_setWall (px c) (py c) "n");;
  when (walls m c EAST) (API_setWall (px c) (py c) "e");;
  when (walls m c SOUTH) (API_setWall (px c) (py c) "s");;
  when (walls m c WEST) (API_setWall (px c) (py c) "w").

(** [update_display] *)
Definition update_display : M State unit := for_each all_cells display_cell.

(** ** Speed run *)

(** The [for] loop of [follow_shortest_path]; [false] reports the early
    [return]s. *)
Fixpoint follow_steps (idx : list Z) : M State bool :=
  match idx with
  | [] => ret true
  | i :: rest =>
      s <- gets (fun s => s);;
      let target_pos := shortest_path (mouse s) i in
      match find_move (pos (mouse s)) target_pos with
      | None =>
          logFormat "ERROR: Speed run path invalid. Cannot determine move direction from (%d,%d) to (%d,%d)"
                    [px (pos (mouse s)); py (pos (mouse s)); px target_pos; py target_pos];;
          ret false
      | Some move_dir =>
          turn_to_direction move_dir;;
          logMessage "Speed run: Moving forward";;
          moved <- API_moveForward;;
          if moved then
            on_mouse (set_pos target_pos);;
            update_display;;
            s1 <- gets (fun s => s);;
            logFormat "Speed run: Reached (%d,%d)" [px (pos (mouse s1)); py (pos (mouse s1))];;
            follow_steps rest
          else
            s1 <- gets (fun s => s);;
            logFormat "FATAL ERROR: Speed run failed! Hit unexpected wall moving from (%d,%d) towards (%d,%d) facing %d. Map is wrong!"
                      [px (shortest_path (mouse s1) (i - 1)); py (shortest_path (mouse s1) (i - 1));
                       px target_pos; py target_pos; dir_index (orientation (mouse s1))];;
            modify (fun s => set_maze (set_wall (pos (mouse s)) (orientation (mouse s)) (maze s)) s);;
            update_display;;
            ret false
      end
  end.

(** [follow_shortest_path] *)
Definition follow_shortest_path : M State unit :=
  logMessage "Starting speed run execution...";;
  s <- gets (fun s => s);;
  if negb (is_at_start (pos (mouse s))) then
    logMessage "ERROR: Cannot start speed run, mouse not at (0,0)!"
  else
    turn_to_direction NORTH;;
    if path_length (mouse s) <=? 1 then
      logMessage "WARN: No valid path computed for speed run."
    else
      finished <- follow_steps (map Z.of_nat (seq 1 (Z.to_nat (path_length (mouse s) - 1))));;
      when finished
        (s1 <- gets (fun s => s);;
         if is_at_goal (pos (mouse s1)) then
           logMessage "=== Speed run complete! Goal successfully reached! ===";;
           API_setColor (px (pos (mouse s1))) (py (pos (mouse s1))) "G"
         else logMessage "ERROR: Speed run finished, but not at a goal cell!").

(** ** The main loop *)

(** [init_simulation] *)
Definition init_simulation : M State unit :=
  logMessage "Initializing simulation state...";;
  on_maze init_maze;;
  init_mouse;;
  flood_fill_goal.

(** The first unvisited cell on the stored path, or the current position
    when there is none (the [for] loop in [case RETURN_MODE]). *)
Definition first_unvisited (ms : MouseState) (m : Maze) : option Point :=
  find (fun p => negb (visited m p)) (path_cells ms).

(** [case RETURN_MODE:] with the mouse on the start cell. *)
Definition return_at_start : M State unit :=
  logMessage "=== Back at start! Preparing for speed run ===";;
  update_walls_current_cell;;
  compute_shortest_path;;
  s <- gets (fun s => s);;
  if path_length (mouse s) >? 0 then
    verified <- verify_path_exploration;;
    if verified then
      logMessage "=== Path verified! Switching to SPEED_MODE ===";;
      on_mouse (set_mode SPEED_MODE)
    else
      logMessage "=== Path requires exploration! Returning to SEARCH_MODE ===";;
      s1 <- gets (fun s => s);;
      let target_unvisited :=
        match first_unvisited (mouse s1) (maze s1) with
        | Some p => p
        | None => pos (mouse s1)
        end in
      when (match first_unvisited (mouse s1) (maze s1) with Some _ => true | None => false end)
           (logFormat "Targeting first unvisited cell on path: (%d,%d)"
                      [px target_unvisited; py target_unvisited]);;
      flood_fill target_unvisited;;
      on_mouse (set_mode SEARCH_MODE)
  else
    logMessage "ERROR: No path computed after returning to start. Cannot proceed.";;
    logMessage "Attempting to re-initiate search from start.";;
    flood_fill_goal;;
    on_mouse (set_mode SEARCH_MODE).

(** The debug line at the end of an iteration. *)
Definition log_state : M State unit :=
  s <- gets (fun s => s);;
  logFormat "State: Pos=(%d,%d) Orient=%d Mode=%d GoalFound=%d"
            [px (pos (mouse s)); py (pos (mouse s)); dir_index (orientation (mouse s));
             mode_index (mode (mouse s)); Z.b2z (goal_found (mouse s))].

(** [maze.visited[mouse.pos.x][mouse.pos.y] = true;] in [main].  The
    statement carries no bounds test.  With the mouse off the grid the
    write falls outside the array [visited], which C leaves undefined: the
    run stops there with [OutOfBounds]. *)
Definition mark_visited : M State unit :=
  s <- gets (fun s => s);;
  if is_within_bounds (pos (mouse s))
  then on_maze (fun m => set_visited (grid_set (visited m) (pos (mouse s)) true) m)
  else fail OutOfBounds.

(** One iteration of [while (true)] in [main].  The result is [true] when
    the loop goes on and [false] when [main] returns. *)
Definition tick : M State bool :=
  r <- API_wasReset;;
  when r
    (logMessage "Simulator reset detected!";;
     API_ackReset;;
     init_simulation);;
  update_walls_current_cell;;
  mark_visited;;
  update_display;;
  r <- gets (fun s => mode (mouse s));;
  match r with
  | SEARCH_MODE =>
      s <- gets (fun s => s);;
      (if is_at_goal (pos (mouse s)) then
         logMessage "=== Goal reached! Switching to RETURN_MODE ===";;
         on_mouse (set_goal_found true);;
         on_mouse (set_mode RETURN_MODE);;
         flood_fill_start
       else
         flood_fill_goal;;
         move_forward_update_state);;
      log_state;;
      ret true
  | RETURN_MODE =>
      s <- gets (fun s => s);;
      (if is_at_start (pos (mouse s)) then return_at_start
       else
         flood_fill_start;;
         move_forward_update_state);;
      log_state;;
      ret true
  | SPEED_MODE =>
      logMessage "=== Beginning speed run ===";;
      follow_shortest_path;;
      logMessage "=== Speed run finished (check log for success/failure) ===";;
      ret false
  end.

(** The code of [main] before the loop. *)
Definition startup : M State unit :=
  logMessage "Starting maze solver";;
  init_simulation.

(** [n] iterations of the main loop, stopping early when [main] returns. *)
Fixpoint ticks (n : nat) : M State bool :=
  match n with
  | O => ret true
  | S n' => go <- tick;; if go then ticks n' else ret false
  end.

End FFv3.

(** * ffv1.c

    The first generation of the solver: one search run to the goal, no
    return trip and no speed run. *)

Module FFv1.

Local Open Scope prog_scope.

(** The globals of ffv1.c. *)
Record State : Type := mkState {
  posX : Z;
  posY : Z;
  direction : Direction;
  distances : Grid Z;
  walls : Walls;
  visited : Grid bool }.

Definition pos (s : State) : Point := mkPoint (posX s) (posY s).

Definition set_pos (p : Point) (s : State) : State :=
  mkState (px p) (py p) (direction s) (distances s) (walls s) (visited s).

Definition set_direction (d : Direction) (s : State) : State :=
  mkState (posX s) (posY s) d (distances s) (walls s) (visited s).

Definition set_distances (d : Grid Z) (s : State) : State :=
  mkState (posX s) (posY s) (direction s) d (walls s) (visited s).

Definition set_walls (w : Walls) (s : State) : State :=
  mkState (posX s) (posY s) (direction s) (distances s) w (visited s).

Definition set_visited (v : Grid bool) (s : State) : State :=
  mkState (posX s) (posY s) (direction s) (distances s) (walls s) v.

(** The globals when [main] starts. *)
Definition initial : State :=
  mkState 0 0 NORTH (fun _ => 0) (fun _ _ => false) (fun _ => false).

(** [(x == GOAL_X1 || x == GOAL_X2) && (y == GOAL_Y1 || y == GOAL_Y2)] *)
Definition goal_cell (c : Point) : bool :=
  ((px c =? GOAL_X1) || (px c =? GOAL_X2)) && ((py c =? GOAL_Y1) || (py c =? GOAL_Y2)).

(** [nx >= 0 && nx < MAZE_WIDTH && ny >= 0 && ny < MAZE_HEIGHT] *)
Definition inside (n : Point) : bool :=
  (px n >=? 0) && (px n <? MAZE_WIDTH) && (py n >=? 0) && (py n <? MAZE_HEIGHT).

(** The distance [initializeMaze] gives a cell: 0 on the goal cells, the
    Manhattan distance to the nearest goal cell elsewhere. *)
Definition seed_distance (c : Point) : Z :=
  if goal_cell c then 0
  else
    let d1 := abs (px c - GOAL_X1) + abs (py c - GOAL_Y1) in
    let d2 := abs (px c - GOAL_X1) + abs (py c - GOAL_Y2) in
    let d3 := abs (px c - GOAL_X2) + abs (py c - GOAL_Y1) in
    let d4 := abs (px c - GOAL_X2) + abs (py c - GOAL_Y2) in
    let d := d1 in
    let d := if d2 <? d then d2 else d in
    let d := if d3 <? d then d3 else d in
    if d4 <? d then d4 else d.

(** The two boundary loops of [initializeMaze]. *)
Definition set_boundary (w : Walls) : Walls :=
  let w1 :=
    fold_left (fun w x => walls_set (walls_set w (mkPoint x 0) SOUTH true)
                                    (mkPoint x (MAZE_HEIGHT - 1)) NORTH true)
              (zrange 16) w in
  fold_left (fun w y => walls_set (walls_set w (mkPoint 0 y) WEST true)
                                  (mkPoint (MAZE_WIDTH - 1) y) EAST true)
            (zrange 16) w1.

(** [initializeMaze] *)
Definition initializeMaze : M State unit :=
  modify (fun s => set_walls (fun _ _ => false)
                     (set_visited (fun _ => false) (set_distances seed_distance s)));;
  modify (fun s => set_walls (set_boundary (walls s)) s).

(** One of the three blocks of [updateWalls]: a wall on side [dir] of the
    current cell and, when the neighbour is inside the grid, on the facing
    side of the neighbour. *)
Definition mark_wall (dir : Direction) (s : State) : State :=
  let w1 := walls_set (walls s) (pos s) dir true in
  let n := neighbor (pos s) dir in
  set_walls (if inside n then walls_set w1 n (dir_plus dir 2) true else w1) s.

(** [updateWalls] *)
Definition updateWalls : M State unit :=
  frontWall <- API_wallFront;;
  rightWall <- API_wallRight;;
  leftWall <- API_wallLeft;;
  when frontWall (modify (fun s => mark_wall (direction s) s));;
  when rightWall (modify (fun s => mark_wall (dir_plus (direction s) 1) s));;
  when leftWall (modify (fun s => mark_wall (dir_plus (direction s) 3) s)).

(** The cells the reset loop of [floodFill] puts on the queue, in the
    order of the loop. *)
Definition seeds : list Point := filter goal_cell all_cells.

(** [floodFill] *)
Definition floodFill (s : State) : Result State :=
  let reset : Grid Z := fun c => if goal_cell c then 0 else MAZE_WIDTH * MAZE_HEIGHT in
  match sweep (walls s) (fun d _ => d + 1) SWEEP_FUEL (mkBfs reset seeds 0) with
  | Ok b => Ok (set_distances (bdist b) s)
  | Fail e => Fail e
  end.

(** [isAtGoal] *)
Definition isAtGoal (s : State) : bool := goal_cell (pos s).

(** The selection loop of [moveToNextCell]: [(minDir, minDist)], [None]
    standing for [minDir == -1]. *)
Definition select_direction (s : State) : option Direction * Z :=
  fold_left
    (fun (acc : option Direction * Z) (dir : Direction) =>
       if walls s (pos s) dir then acc
       else
         let n := neighbor (pos s) dir in
         if negb (inside n) then acc
         else if distances s n <? snd acc then (Some dir, distances s n) else acc)
    all_dirs (None, MAZE_WIDTH * MAZE_HEIGHT).

(** The body of [while (direction != minDir) { ... }]. *)
Definition turn_step (minDir : Direction) : M State unit :=
  d <- gets direction;;
  let diff := dir_diff minDir d in
  if diff =? 1 then
    API_turnRight;; modify (fun s => set_direction (dir_plus (direction s) 1) s)
  else if diff =? 3 then
    API_turnLeft;; modify (fun s => set_direction (dir_plus (direction s) 3) s)
  else
    API_turnRight;; modify (fun s => set_direction (dir_plus (direction s) 1) s);;
    API_turnRight;; modify (fun s => set_direction (dir_plus (direction s) 1) s).

Definition turn_to (minDir : Direction) : M State unit :=
  while_do 4 (fun s => negb (dir_eqb (direction s) minDir)) (turn_step minDir).

(** [moveToNextCell] *)
Definition moveToNextCell : M State unit :=
  s <- gets (fun s => s);;
  match fst (select_direction s) with
  | None => logMessage "=== ERROR: no valid direction found! ==="
  | Some minDir =>
      turn_to minDir;;
      moved <- API_moveForward;;
      if moved then
        modify (fun s => set_pos (neighbor (pos s) (direction s)) s)
      else
        modify (fun s => mark_wall (direction s) s);;
        lift floodFill
  end.

(** The body of the first double loop of [updateDisplay]. *)
Definition display_cell (c : Point) : M State unit :=
  s <- gets (fun s => s);;
  API_setText (px c) (py c) "%d" [distances s c];;
  if (px c =? posX s) && (py c =? posY s) then API_setColor (px c) (py c) "r"
  else if goal_cell c then API_setColor (px c) (py c) "G"
  else if visited s c then API_setColor (px c) (py c) "B"
  else API_setColor (px c) (py c) "Y".

(** The body of the second double loop of [updateDisplay]. *)
Definition display_walls (c : Point) : M State unit :=
  s <- gets (fun s => s);;
  when (walls s c NORTH) (API_setWall (px c) (py c) "n");;
  when (walls s c EAST) (API_setWall (px c) (py c) "e");;
  when (walls s c SOUTH) (API_setWall (px c) (py c) "s");;
  when (walls s c WEST) (API_setWall (px c) (py c) "w").

(** [updateDisplay] *)
Definition updateDisplay : M State unit :=
  for_each all_cells display_cell;;
  for_each all_cells display_walls.

(** The code of [main] before the loop. *)
Definition startup : M State unit :=
  logMessage "Starting maze solver";;
  initializeMaze.

(** One iteration of [while (1)] in [main].  The result is [true] when the
    loop goes on and [false] after the [break].  The accesses at the cell
    of the mouse carry no bounds test in ffv1.c; the mouse starts on (0,0)
    and [moveToNextCell] moves it to cells inside the grid only. *)
Definition tick : M State bool :=
  updateWalls;;
  modify (fun s => set_visited (grid_set (visited s) (pos s) true) s);;
  updateDisplay;;
  s <- gets (fun s => s);;
  if isAtGoal s then
    logMessage "=== goal reached! ===";;
    API_setColor (posX s) (posY s) "G";;
    ret false
  else
    lift floodFill;;
    moveToNextCell;;
    s1 <- gets (fun s => s);;
    logFormat "now at (%d,%d) facing %d" [posX s1; posY s1; dir_index (direction s1)];;
    ret true.

(** [n] iterations of the main loop, stopping at the [break]. *)
Fixpoint ticks (n : nat) : M State bool :=
  match n with
  | O => ret true
  | S n' => go <- tick;; if go then ticks n' else ret false
  end.

End FFv1.

(** * Specification vocabulary *)

(** ** The graph a flood fill explores

    A sweep started from the cells [srcs] leaves a cell [u] in direction
    [d] when the wall test at [u] does not block [d] and the neighbour is
    inside the grid.  [reach blocked srcs n p]: some chain of [n] such
    steps leads from a source to [p]. *)

Inductive reach (blocked : Point -> Direction -> bool) (srcs : list Point) : Z -> Point -> Prop :=
| reach_source : forall s, In s srcs -> reach blocked srcs 0 s
| reach_next : forall n u d,
    reach blocked srcs n u ->
    blocked u d = false ->
    is_within_bounds (neighbor u d) = true ->
    reach blocked srcs (n + 1) (neighbor u d).

(** ** Open edges of the wall map *)

(** The map records the edge from [u] to its neighbour [v] as open: both
    cells are inside the grid and no wall is recorded on the side of [u]
    that faces [v]. *)
Definition open_edge (w : Walls) (u v : Point) : Prop :=
  is_within_bounds u = true /\
  exists d, w u d = false /\ v = neighbor u d /\ is_within_bounds v = true.

(** [hops w n a b]: a chain of [n] open edges leads from [a] to [b]. *)
Inductive hops (w : Walls) : Z -> Point -> Point -> Prop :=
| hops_here : forall a, is_within_bounds a = true -> hops w 0 a a
| hops_edge : forall n a b c, open_edge w a b -> hops w n b c -> hops w (n + 1) a c.

(** [c] can reach one of the cells [targets] through open edges. *)
Definition reachable (w : Walls) (targets : list Point) (c : Point) : Prop :=
  exists n g, In g targets /\ hops w n c g.

(** [k] is the least number of open-edge hops from [c] to a cell of
    [targets]. *)
Definition min_hops (w : Walls) (targets : list Point) (c : Point) (k : Z) : Prop :=
  (exists g, In g targets /\ hops w k c g) /\
  (forall n g, In g targets -> hops w n c g -> k <= n).

(** Wall symmetry: an edge between two cells of the grid carries the same
    flag on both of its sides. *)
Definition wall_symmetric (w : Walls) : Prop :=
  forall c d,
    is_within_bounds c = true ->
    is_within_bounds (neighbor c d) = true ->
    w c d = w (neighbor c d) (get_opposite_direction d).

(** The side [d] of cell [c] lies on the outer boundary of the grid. *)
Definition on_boundary (c : Point) (d : Direction) : Prop :=
  is_within_bounds c = true /\ is_within_bounds (neighbor c d) = false.

(** Every boundary side has its wall recorded. *)
Definition boundary_walled (w : Walls) : Prop :=
  forall c d, on_boundary c d -> w c d = true.

(** * Basic facts about cells, directions and arrays *)

Lemma point_eqb_eq (p q : Point) : point_eqb p q = true <-> p = q.
Proof.
  destruct p as [a b], q as [c d]; unfold point_eqb; simpl.
  rewrite andb_true_iff, !Z.eqb_eq. split.
  - intros [-> ->]; reflexivity.
  - intros H; inversion H; auto.
Qed.

Lemma point_eqb_refl (p : Point) : point_eqb p p = true.
Proof. apply point_eqb_eq; reflexivity. Qed.

Lemma point_eqb_neq (p q : Point) : point_eqb p q = false <-> p <> q.
Proof.
  rewrite <- point_eqb_eq. destruct (point_eqb p q); split; congruence.
Qed.

Lemma point_eq_dec (p q : Point) : {p = q} + {p <> q}.
Proof.
  destruct (point_eqb p q) eqn:E.
  - left; apply point_eqb_eq; exact E.
  - right; apply point_eqb_neq; exact E.
Qed.

Lemma dir_eqb_eq (a b : Direction) : dir_eqb a b = true <-> a = b.
Proof. destruct a, b; unfold dir_eqb; simpl; split; congruence. Qed.

Lemma dir_eqb_refl (a : Direction) : dir_eqb a a = true.
Proof. destruct a; reflexivity. Qed.

Lemma grid_set_same {A : Type} (g : Grid A) (p : Point) (v : A) : grid_set g p v p = v.
Proof. unfold grid_set. rewrite point_eqb_refl. reflexivity. Qed.

Lemma grid_set_other {A : Type} (g : Grid A) (p q : Point) (v : A) :
  q <> p -> grid_set g p v q = g q.
Proof.
  intros H. unfold grid_set. apply point_eqb_neq in H. rewrite H. reflexivity.
Qed.

Lemma walls_set_same (w : Walls) (p : Point) (d : Direction) (v : bool) :
  walls_set w p d v p d = v.
Proof. unfold walls_set. rewrite point_eqb_refl, dir_eqb_refl. reflexivity. Qed.

Lemma walls_set_other (w : Walls) (p q : Point) (d e : Direction) (v : bool) :
  q <> p \/ e <> d -> walls_set w p d v q e = w q e.
Proof.
  intros H. unfold walls_set.
  destruct (point_eqb q p) eqn:Ep; simpl; [|reflexivity].
  destruct (dir_eqb e d) eqn:Ed; [|reflexivity].
  apply point_eqb_eq in Ep. apply dir_eqb_eq in Ed. destruct H; congruence.
Qed.

(** A wall written with [true] never clears another flag. *)
Lemma walls_set_true_mono (w : Walls) (p q : Point) (d e : Direction) :
  w q e = true -> walls_set w p d true q e = true.
Proof.
  intros H. unfold walls_set. destruct (point_eqb q p && dir_eqb e d); auto.
Qed.

Lemma within_iff (p : Point) :
  is_within_bounds p = true <-> 0 <= px p < 16 /\ 0 <= py p < 16.
Proof.
  unfold is_within_bounds, MAZE_WIDTH, MAZE_HEIGHT.
  rewrite !andb_true_iff, !Z.geb_le, !Z.ltb_lt. lia.
Qed.

Lemma within_false_iff (p : Point) :
  is_within_bounds p = false <-> ~ (0 <= px p < 16 /\ 0 <= py p < 16).
Proof.
  rewrite <- within_iff. destruct (is_within_bounds p); split; congruence.
Qed.

Lemma inside_is_within (p : Point) : FF.inside p = is_within_bounds p.
Proof. reflexivity. Qed.

Lemma opposite_involutive (d : Direction) :
  get_opposite_direction (get_opposite_direction d) = d.
Proof. destruct d; reflexivity. Qed.

Lemma neighbor_back (c : Point) (d : Direction) :
  neighbor (neighbor c d) (get_opposite_direction d) = c.
Proof.
  destruct c as [x y], d; unfold neighbor; simpl; f_equal; lia.
Qed.

Lemma neighbor_neq (c : Point) (d : Direction) : neighbor c d <> c.
Proof.
  destruct c as [x y], d; unfold neighbor; simpl; intros H; inversion H; lia.
Qed.

Lemma neighbor_inj_dir (c : Point) (d e : Direction) :
  neighbor c d = neighbor c e -> d = e.
Proof.
  destruct c as [x y], d, e; unfold neighbor; simpl; intros H; inversion H;
    try reflexivity; lia.
Qed.

Lemma all_dirs_complete (d : Direction) : In d all_dirs.
Proof. destruct d; simpl; tauto. Qed.

Lemma delta_neighbor (p : Point) (d : Direction) :
  mkPoint (px p + px (direction_delta d)) (py p + py (direction_delta d)) = neighbor p d.
Proof. reflexivity. Qed.

(** ** The grid has [MAX_CELLS] cells *)

Lemma in_zrange (n : nat) (z : Z) : In z (zrange n) <-> 0 <= z < Z.of_nat n.
Proof.
  unfold zrange. rewrite in_map_iff. split.
  - intros [k [<- Hk]]. apply in_seq in Hk. lia.
  - intros H. exists (Z.to_nat z). split; [lia|]. apply in_seq. lia.
Qed.

Lemma in_all_cells (p : Point) : In p all_cells <-> is_within_bounds p = true.
Proof.
  rewrite within_iff. unfold all_cells. rewrite in_flat_map. split.
  - intros [x [Hx Hp]]. apply in_map_iff in Hp. destruct Hp as [y [<- Hy]].
    apply in_zrange in Hx. apply in_zrange in Hy. simpl. lia.
  - intros [Hx Hy]. exists (px p). split; [apply in_zrange; lia|].
    apply in_map_iff. exists (py p). split; [destruct p; reflexivity|].
    apply in_zrange; lia.
Qed.

Lemma all_cells_length : length all_cells = 256%nat.
Proof. reflexivity. Qed.

(** Distinct cells of the grid are at most [MAX_CELLS] many. *)
Lemma distinct_cells_bound (l : list Point) :
  NoDup l -> Forall (fun p => is_within_bounds p = true) l -> (length l <= 256)%nat.
Proof.
  intros Hnd Hin. rewrite <- all_cells_length.
  apply NoDup_incl_length; [exact Hnd|].
  intros p Hp. apply in_all_cells. rewrite Forall_forall in Hin. auto.
Qed.

(** [MAX_CELLS] distinct cells of the grid are all of them. *)
Lemma distinct_cells_full (l : list Point) :
  NoDup l -> Forall (fun p => is_within_bounds p = true) l -> length l = 256%nat ->
  forall p, is_within_bounds p = true -> In p l.
Proof.
  intros Hnd Hin Hlen p Hp.
  assert (Hincl : incl all_cells l).
  { apply NoDup_length_incl; [exact Hnd | rewrite all_cells_length; lia |].
    intros q Hq. apply in_all_cells. rewrite Forall_forall in Hin. auto. }
  apply Hincl, in_all_cells, Hp.
Qed.

(** ** The state-and-fault monad *)

Lemma bind_ok {St A B : Type} (m : M St A) (k : A -> M St B) s w r :
  bind m k s w = Ok r ->
  exists a s1 w1, m s w = Ok (a, s1, w1) /\ k a s1 w1 = Ok r.
Proof.
  unfold bind. destruct (m s w) as [[[a s1] w1]|f]; [|discriminate].
  intros H. exists a, s1, w1. auto.
Qed.

Lemma bind_eq {St A B : Type} (m : M St A) (k : A -> M St B) s w a s1 w1 :
  m s w = Ok (a, s1, w1) -> bind m k s w = k a s1 w1.
Proof. unfold bind. intros ->. reflexivity. Qed.

(** [keeps I m]: every successful run of [m] from a state satisfying [I]
    ends in a state satisfying [I]. *)
Definition keeps {St A : Type} (I : St -> Prop) (m : M St A) : Prop :=
  forall s w a s' w', I s -> m s w = Ok (a, s', w') -> I s'.

Lemma keeps_ret {St A : Type} (I : St -> Prop) (a : A) : keeps I (ret a).
Proof. intros s w a' s' w' HI H. inversion H; subst; exact HI. Qed.

Lemma keeps_bind {St A B : Type} (I : St -> Prop) (m : M St A) (k : A -> M St B) :
  keeps I m -> (forall a, keeps I (k a)) -> keeps I (bind m k).
Proof.
  intros Hm Hk s w b s' w' HI H.
  apply bind_ok in H. destruct H as [a [s1 [w1 [H1 H2]]]].
  eapply Hk; [|exact H2]. eapply Hm; eauto.
Qed.

Lemma keeps_gets {St A : Type} (I : St -> Prop) (f : St -> A) : keeps I (gets f).
Proof. intros s w a s' w' HI H. inversion H; subst; exact HI. Qed.

Lemma keeps_modify {St : Type} (I : St -> Prop) (f : St -> St) :
  (forall s, I s -> I (f s)) -> keeps I (modify f).
Proof. intros Hf s w a s' w' HI H. inversion H; subst; auto. Qed.

Lemma keeps_emit {St : Type} (I : St -> Prop) (e : Event) : keeps I (@emit St e).
Proof. intros s w a s' w' HI H. inversion H; subst; exact HI. Qed.

Lemma keeps_ask {St : Type} (I : St -> Prop) : keeps I (@ask St).
Proof. intros s w a s' w' HI H. inversion H; subst; exact HI. Qed.

Lemma keeps_fail {St A : Type} (I : St -> Prop) (f : Fault) : keeps I (@fail St A f).
Proof. intros s w a s' w' HI H. discriminate. Qed.

Lemma keeps_lift {St : Type} (I : St -> Prop) (f : St -> Result St) :
  (forall s s', I s -> f s = Ok s' -> I s') -> keeps I (lift f).
Proof.
  intros Hf s w a s' w' HI H. unfold lift in H.
  destruct (f s) eqn:E; [|discriminate]. inversion H; subst. eauto.
Qed.

Lemma keeps_when {St : Type} (I : St -> Prop) (b : bool) (m : M St unit) :
  keeps I m -> keeps I (when b m).
Proof. intros H. destruct b; simpl; [exact H|apply keeps_ret]. Qed.

Lemma keeps_if {St A : Type} (I : St -> Prop) (b : bool) (m1 m2 : M St A) :
  keeps I m1 -> keeps I m2 -> keeps I (if b then m1 else m2).
Proof. destruct b; auto. Qed.

Lemma keeps_for_each {St A : Type} (I : St -> Prop) (l : list A) (body : A -> M St unit) :
  (forall a, keeps I (body a)) -> keeps I (for_each l body).
Proof.
  intros Hb. induction l as [|a l IH]; simpl.
  - apply keeps_ret.
  - apply keeps_bind; auto.
Qed.

Lemma keeps_while {St : Type} (I : St -> Prop) (fuel : nat) (cond : St -> bool) (body : M St unit) :
  keeps I body -> keeps I (while_do fuel cond body).
Proof.
  intros Hb. induction fuel as [|fuel IH]; simpl.
  - apply keeps_fail.
  - intros s w a s' w' HI H. destruct (cond s).
    + revert H. apply keeps_bind; auto.
    + inversion H; subst; exact HI.
Qed.

(** A program that reads the state before going on. *)
Lemma keeps_read {St A B : Type} (I : St -> Prop) (f : St -> A) (k : A -> M St B) :
  (forall a, keeps I (k a)) -> keeps I (bind (gets f) k).
Proof. intros H. apply keeps_bind; [apply keeps_gets|exact H]. Qed.

Lemma keeps_logMessage {St : Type} (I : St -> Prop) msg : keeps I (@logMessage St msg).
Proof. apply keeps_emit. Qed.

Lemma keeps_logFormat {St : Type} (I : St -> Prop) fmt args : keeps I (@logFormat St fmt args).
Proof. apply keeps_emit. Qed.

Lemma keeps_moveForward {St : Type} (I : St -> Prop) : keeps I (@API_moveForward St).
Proof.
  unfold API_moveForward. apply keeps_bind; [apply keeps_ask|].
  intros a. apply keeps_bind; [apply keeps_emit|]. intros _. apply keeps_ret.
Qed.

(** [establishes I m]: every successful run of [m], from any state, ends in
    a state satisfying [I]. *)
Definition establishes {St A : Type} (I : St -> Prop) (m : M St A) : Prop :=
  forall s w a s' w', m s w = Ok (a, s', w') -> I s'.

Lemma establishes_then {St A B : Type} (I : St -> Prop) (m : M St A) (k : A -> M St B) :
  establishes I m -> (forall a, keeps I (k a)) -> establishes I (bind m k).
Proof.
  intros Hm Hk s w b s' w' H.
  apply bind_ok in H. destruct H as [a [s1 [w1 [H1 H2]]]].
  eapply Hk; [|exact H2]. eapply Hm; eauto.
Qed.

Lemma establishes_after {St A B : Type} (I : St -> Prop) (m : M St A) (k : A -> M St B) :
  (forall a, establishes I (k a)) -> establishes I (bind m k).
Proof.
  intros Hk s w b s' w' H.
  apply bind_ok in H. destruct H as [a [s1 [w1 [H1 H2]]]].
  eapply Hk; eauto.
Qed.

(** A step from a state satisfying [Pre] to one satisfying [Post]. *)
Definition triple {St A : Type} (Pre : St -> Prop) (m : M St A) (Post : St -> Prop) : Prop :=
  forall s w a s' w', Pre s -> m s w = Ok (a, s', w') -> Post s'.

Lemma triple_bind {St A B : Type} (Pre Mid Post : St -> Prop) (m : M St A) (k : A -> M St B) :
  triple Pre m Mid -> (forall a, triple Mid (k a) Post) -> triple Pre (bind m k) Post.
Proof.
  intros Hm Hk s w b s' w' HI H.
  apply bind_ok in H. destruct H as [a [s1 [w1 [H1 H2]]]].
  eapply Hk; [|exact H2]. eapply Hm; eauto.
Qed.

Lemma triple_modify {St : Type} (Pre Post : St -> Prop) (f : St -> St) :
  (forall s, Pre s -> Post (f s)) -> triple Pre (modify f) Post.
Proof. intros Hf s w a s' w' HI H. inversion H; subst; auto. Qed.

Lemma triple_establishes {St A : Type} (I : St -> Prop) (m : M St A) :
  triple (fun _ => True) m I -> establishes I m.
Proof. intros H s w a s' w' E. eapply H; eauto. Qed.

Lemma establishes_keeps {St A : Type} (I : St -> Prop) (m : M St A) :
  establishes I m -> keeps I m.
Proof. intros H s w a s' w' _ E. eapply H; eauto. Qed.

Create HintDb keeps discriminated.

#[export] Hint Constants Opaque : keeps.

#[export] Hint Resolve keeps_ret keeps_gets keeps_emit keeps_ask keeps_fail
  keeps_logMessage keeps_logFormat keeps_moveForward : keeps.

(** * The plain breadth-first sweep computes shortest hop counts *)

(** The fuel of the sweep is never the reason it stops: the queue never
    holds more than [MAX_CELLS] entries and each iteration consumes one. *)
Section SweepFuel.

Variable blocked : Point -> Direction -> bool.
Variable candidate : Z -> Point -> Z.

Lemma enqueue_shape p b b' :
  enqueue p b = Ok b' ->
  qFront b' = qFront b /\ (qBack b' <= 256)%nat /\ (qBack b <= qBack b')%nat.
Proof.
  unfold enqueue, qBack. destruct (Z.of_nat (length (queue b)) <? MAX_CELLS) eqn:E; [|discriminate].
  intros H; inversion H; subst; simpl. apply Z.ltb_lt in E. unfold MAX_CELLS, MAZE_WIDTH, MAZE_HEIGHT in E.
  rewrite length_app; simpl. lia.
Qed.

Lemma enqueue_not_out_of_fuel p b : enqueue p b <> Fail OutOfFuel.
Proof. unfold enqueue. destruct (_ <? _); discriminate. Qed.

Lemma relax_shape cur d b dir b' :
  (qBack b <= 256)%nat ->
  relax blocked candidate cur d b dir = Ok b' ->
  qFront b' = qFront b /\ (qBack b' <= 256)%nat.
Proof.
  intros Hb. unfold relax.
  destruct (blocked cur dir); [intros H; inversion H; subst; auto|].
  destruct (negb (is_within_bounds (neighbor cur dir))); [intros H; inversion H; subst; auto|].
  destruct (bdist b (neighbor cur dir) >? candidate d (neighbor cur dir));
    [|intros H; inversion H; subst; auto].
  intros H. apply enqueue_shape in H. simpl in H. tauto.
Qed.

Lemma relax_not_out_of_fuel cur d b dir :
  relax blocked candidate cur d b dir <> Fail OutOfFuel.
Proof.
  unfold relax.
  destruct (blocked cur dir); [discriminate|].
  destruct (negb _); [discriminate|].
  destruct (_ >? _); [apply enqueue_not_out_of_fuel|discriminate].
Qed.

Lemma relax_dirs_shape cur d dirs : forall b b',
  (qBack b <= 256)%nat ->
  relax_dirs blocked candidate cur d dirs b = Ok b' ->
  qFront b' = qFront b /\ (qBack b' <= 256)%nat.
Proof.
  induction dirs as [|dir rest IH]; simpl; intros b b' Hb H.
  - inversion H; subst; auto.
  - destruct (relax blocked candidate cur d b dir) as [b1|f] eqn:E; [|discriminate].
    apply relax_shape in E; [|exact Hb]. destruct E as [E1 E2].
    apply IH in H; [|exact E2]. destruct H as [H1 H2]. split; [congruence|exact H2].
Qed.

Lemma relax_dirs_not_out_of_fuel cur d dirs : forall b,
  relax_dirs blocked candidate cur d dirs b <> Fail OutOfFuel.
Proof.
  induction dirs as [|dir rest IH]; simpl; intros b; [discriminate|].
  destruct (relax blocked candidate cur d b dir) as [b1|f] eqn:E; [apply IH|].
  intros H; inversion H; subst. exact (relax_not_out_of_fuel _ _ _ _ E).
Qed.

Lemma sweep_unfold fuel b :
  sweep blocked candidate (S fuel) b =
  if (qFront b <? qBack b)%nat then
    match relax_dirs blocked candidate (nth (qFront b) (queue b) origin)
                     (bdist b (nth (qFront b) (queue b) origin)) all_dirs
                     (mkBfs (bdist b) (queue b) (S (qFront b))) with
    | Ok b1 => sweep blocked candidate fuel b1
    | Fail e => Fail e
    end
  else Ok b.
Proof. reflexivity. Qed.

Lemma sweep_never_out_of_fuel : forall fuel b,
  (qBack b <= 256)%nat ->
  (256 - qFront b < fuel)%nat ->
  sweep blocked candidate fuel b <> Fail OutOfFuel.
Proof.
  induction fuel as [|fuel IH]; intros b Hb Hf; [lia|]. rewrite sweep_unfold.
  destruct (qFront b <? qBack b)%nat eqn:E; [|discriminate].
  apply Nat.ltb_lt in E.
  destruct (relax_dirs blocked candidate _ _ _ _) as [b1|f] eqn:R.
  - apply relax_dirs_shape in R; [|exact Hb]. simpl in R. destruct R as [R1 R2].
    apply IH; [exact R2|lia].
  - intros H; inversion H; subst. exact (relax_dirs_not_out_of_fuel _ _ _ _ R).
Qed.

End SweepFuel.

(** ** The invariants of the plain sweep *)

Section PlainSweep.

Variable blocked : Point -> Direction -> bool.
Variable srcs : list Point.

Definition plain : Z -> Point -> Z := fun d _ => d + 1.

(** What holds of every cell that has entered the queue [q]. *)
Record settled (dist : Grid Z) (q : list Point) : Prop := mkSettled {
  st_inb : Forall (fun p => is_within_bounds p = true) q;
  st_nodup : NoDup q;
  st_member : forall p, In p q <-> dist p <> MAX_CELLS;
  st_range : forall p, In p q -> 0 <= dist p < Z.of_nat (length q);
  st_sound : forall p, In p q -> reach blocked srcs (dist p) p;
  st_src : forall s, In s srcs -> In s q /\ dist s = 0 }.

(** The neighbours of [u] in the directions [dirs] have been offered
    [dist u + 1]. *)
Definition closed_at (dist : Grid Z) (u : Point) (dirs : list Direction) : Prop :=
  forall d, In d dirs -> blocked u d = false -> is_within_bounds (neighbor u d) = true ->
            dist (neighbor u d) <= dist u + 1.

(** Between two iterations of the [while] loop: [done] has been dequeued,
    [pending] is still queued. *)
Record between (dist : Grid Z) (done pending : list Point) : Prop := mkBetween {
  bt_settled : settled dist (done ++ pending);
  bt_sorted : StronglySorted (fun a b => dist a <= dist b) pending;
  bt_window : forall a p, In a pending -> In p (done ++ pending) -> dist p <= dist a + 1;
  bt_closed : forall u, In u done -> closed_at dist u all_dirs }.

(** Inside the [for] loop over the directions of the dequeued cell [cur],
    whose distance was [d], after the directions [seen]. *)
Record during (cur : Point) (d : Z) (seen : list Direction)
              (dist : Grid Z) (done pending : list Point) : Prop := mkDuring {
  du_settled : settled dist (done ++ cur :: pending);
  du_cur : dist cur = d;
  du_sorted : StronglySorted (fun a b => dist a <= dist b) pending;
  du_floor : forall a, In a pending -> d <= dist a;
  du_cap : forall p, In p (done ++ cur :: pending) -> dist p <= d + 1;
  du_closed : forall u, In u done -> closed_at dist u all_dirs;
  du_seen : closed_at dist cur seen }.

Lemma sorted_snoc (dist : Grid Z) (l : list Point) (x : Point) :
  StronglySorted (fun a b => dist a <= dist b) l ->
  (forall a, In a l -> dist a <= dist x) ->
  StronglySorted (fun a b => dist a <= dist b) (l ++ [x]).
Proof.
  induction l as [|a l IH]; simpl; intros Hs Hx.
  - constructor; constructor.
  - inversion Hs; subst. constructor.
    + apply IH; auto.
    + apply Forall_app. split; [assumption|]. constructor; [|constructor]. auto.
Qed.

Lemma sorted_agree (dist dist' : Grid Z) (l : list Point) :
  (forall a, In a l -> dist' a = dist a) ->
  StronglySorted (fun a b => dist a <= dist b) l ->
  StronglySorted (fun a b => dist' a <= dist' b) l.
Proof.
  induction l as [|a l IH]; intros Hag Hs; [constructor|].
  inversion Hs; subst. constructor.
  - apply IH; auto. intros b Hb. apply Hag. right; exact Hb.
  - rewrite Forall_forall in *. intros b Hb.
    rewrite (Hag a (or_introl eq_refl)), (Hag b (or_intror Hb)). auto.
Qed.

Lemma closed_lower (dist dist' : Grid Z) (u : Point) (dirs : list Direction) :
  dist' u = dist u -> (forall x, dist' x <= dist x) ->
  closed_at dist u dirs -> closed_at dist' u dirs.
Proof.
  intros Hu Hle Hc d Hd Hb Hn. rewrite Hu. specialize (Hc d Hd Hb Hn).
  specialize (Hle (neighbor u d)). lia.
Qed.

(** The start of an iteration: the head of the queue is dequeued. *)
Lemma between_pop dist done cur rest :
  between dist done (cur :: rest) ->
  during cur (dist cur) [] dist done rest.
Proof.
  intros [Hs Hsort Hw Hc]. inversion Hsort; subst.
  constructor; auto.
  - intros a Ha. rewrite Forall_forall in H2. auto.
  - intros p Hp. apply Hw; [left; reflexivity|exact Hp].
  - intros d Hd. destruct Hd.
Qed.

(** The end of an iteration: the four directions have been tried. *)
Lemma during_finish cur d seen dist done pending :
  (forall dir, In dir seen) ->
  during cur d seen dist done pending ->
  between dist (done ++ [cur]) pending.
Proof.
  intros Hall [Hs Hcur Hsort Hfloor Hcap Hc Hseen].
  assert (Eq : (done ++ [cur]) ++ pending = done ++ cur :: pending)
    by (rewrite <- app_assoc; reflexivity).
  constructor.
  - rewrite Eq. exact Hs.
  - exact Hsort.
  - intros a p Ha Hp. rewrite Eq in Hp. specialize (Hcap p Hp). specialize (Hfloor a Ha). lia.
  - intros u Hu. apply in_app_iff in Hu. destruct Hu as [Hu|[<-|[]]]; [auto|].
    intros dir _. apply Hseen, Hall.
Qed.

(** One direction of the [for] loop. *)
Lemma relax_during cur d seen done pending b dir :
  queue b = done ++ cur :: pending ->
  during cur d seen (bdist b) done pending ->
  exists b' pending',
    relax blocked plain cur d b dir = Ok b' /\
    qFront b' = qFront b /\
    queue b' = done ++ cur :: pending' /\
    during cur d (dir :: seen) (bdist b') done pending'.
Proof.
  intros Hq Hd. pose proof Hd as [Hs Hcur Hsort Hfloor Hcap Hc Hseen].
  pose proof Hs as [Hinb Hnd Hmem Hrange Hsound Hsrc].
  assert (Hcurin : In cur (done ++ cur :: pending)) by (apply in_elt).
  unfold relax.
  destruct (blocked cur dir) eqn:Eb.
  { exists b, pending. split; [reflexivity|]. split; [reflexivity|]. split; [exact Hq|].
    constructor; auto. intros e [<-|He]; [congruence|auto]. }
  destruct (is_within_bounds (neighbor cur dir)) eqn:En; simpl.
  2:{ exists b, pending. split; [reflexivity|]. split; [reflexivity|]. split; [exact Hq|].
      constructor; auto. intros e [<-|He]; [congruence|auto]. }
  set (n := neighbor cur dir) in *.
  destruct (bdist b n >? plain d n) eqn:Eg.
  2:{ exists b, pending. split; [reflexivity|]. split; [reflexivity|]. split; [exact Hq|].
      constructor; auto. intros e [<-|He]; [|auto].
      intros _ _. fold n. rewrite Hcur. unfold plain in Eg.
      rewrite Z.gtb_ltb in Eg. apply Z.ltb_ge in Eg. lia. }
  unfold plain in *. rewrite Z.gtb_ltb in Eg. apply Z.ltb_lt in Eg.
  set (q := done ++ cur :: pending) in *.
  assert (Hfresh : ~ In n q).
  { intros Hin. specialize (Hcap n Hin). lia. }
  assert (Hinf : bdist b n = MAX_CELLS).
  { destruct (Z.eq_dec (bdist b n) MAX_CELLS) as [E|E]; [exact E|].
    exfalso. apply Hfresh. apply Hmem. exact E. }
  assert (Hlen : (length (n :: q) <= 256)%nat).
  { apply distinct_cells_bound; [constructor; assumption|constructor; assumption]. }
  simpl in Hlen.
  unfold enqueue, qBack. simpl. rewrite Hq. fold q.
  replace (Z.of_nat (length q) <? MAX_CELLS) with true
    by (symmetry; apply Z.ltb_lt; unfold MAX_CELLS, MAZE_WIDTH, MAZE_HEIGHT; lia).
  exists (mkBfs (grid_set (bdist b) n (d + 1)) (q ++ [n]) (qFront b)), (pending ++ [n]).
  simpl. split; [reflexivity|]. split; [reflexivity|].
  split. { unfold q. rewrite <- app_assoc. reflexivity. }
  set (dist' := grid_set (bdist b) n (d + 1)).
  assert (Hag : forall p, In p q -> dist' p = bdist b p).
  { intros p Hp. unfold dist'. apply grid_set_other. intros ->. contradiction. }
  assert (Hn' : dist' n = d + 1) by (unfold dist'; apply grid_set_same).
  assert (Hlow : forall x, dist' x <= bdist b x).
  { intros x. destruct (point_eq_dec x n) as [->|Hx].
    - rewrite Hn'. lia.
    - unfold dist'. rewrite grid_set_other by exact Hx. lia. }
  assert (Hdnn : 0 <= d).
  { rewrite <- Hcur. apply Hrange. exact Hcurin. }
  assert (Eq' : done ++ cur :: pending ++ [n] = q ++ [n]).
  { unfold q. rewrite <- app_assoc. reflexivity. }
  constructor.
  - rewrite Eq'. constructor.
    + apply Forall_app. split; [exact Hinb|]. constructor; [exact En|constructor].
    + apply (Permutation_NoDup (Permutation_cons_append q n)). constructor; assumption.
    + intros p. rewrite in_app_iff. simpl. destruct (point_eq_dec p n) as [->|Hp].
      * rewrite Hn'. split; [intros _; lia|intros _; right; left; reflexivity].
      * unfold dist'. rewrite grid_set_other by exact Hp. rewrite <- Hmem.
        split; [intros [H|[H|[]]]; [exact H|congruence]|intros H; left; exact H].
    + intros p Hp. rewrite length_app. simpl. apply in_app_iff in Hp.
      destruct Hp as [Hp|[<-|[]]].
      * rewrite (Hag p Hp). specialize (Hrange p Hp). lia.
      * rewrite Hn'. specialize (Hrange cur Hcurin). lia.
    + intros p Hp. apply in_app_iff in Hp. destruct Hp as [Hp|[<-|[]]].
      * rewrite (Hag p Hp). auto.
      * rewrite Hn'. unfold n. apply reach_next; [|exact Eb|exact En].
        rewrite <- Hcur. apply Hsound. exact Hcurin.
    + intros s Hs'. destruct (Hsrc s Hs') as [H1 H2]. split.
      * apply in_app_iff. left. exact H1.
      * rewrite (Hag s H1). exact H2.
  - rewrite (Hag cur Hcurin). exact Hcur.
  - apply sorted_snoc.
    + apply sorted_agree with (dist := bdist b); [|exact Hsort].
      intros a Ha. apply Hag. unfold q. apply in_app_iff. right. right. exact Ha.
    + intros a Ha. rewrite Hn'.
      assert (Haq : In a q) by (unfold q; apply in_app_iff; right; right; exact Ha).
      rewrite (Hag a Haq). apply Hcap. exact Haq.
  - intros a Ha. apply in_app_iff in Ha. destruct Ha as [Ha|[<-|[]]].
    + assert (Haq : In a q) by (unfold q; apply in_app_iff; right; right; exact Ha).
      rewrite (Hag a Haq). auto.
    + rewrite Hn'. lia.
  - intros p Hp. rewrite Eq' in Hp. apply in_app_iff in Hp. destruct Hp as [Hp|[<-|[]]].
    + rewrite (Hag p Hp). auto.
    + rewrite Hn'. lia.
  - intros u Hu. apply closed_lower with (dist := bdist b); auto.
    apply Hag. unfold q. apply in_app_iff. left. exact Hu.
  - assert (Hseen' : closed_at dist' cur seen)
      by (apply closed_lower with (dist := bdist b); auto).
    intros e [<-|He]; [|apply Hseen'; exact He].
    intros _ _. fold n. rewrite Hn', (Hag cur Hcurin), Hcur. lia.
Qed.

(** The whole [for] loop. *)
Lemma relax_dirs_during cur d done dirs : forall seen pending b,
  queue b = done ++ cur :: pending ->
  during cur d seen (bdist b) done pending ->
  exists b' pending',
    relax_dirs blocked plain cur d dirs b = Ok b' /\
    qFront b' = qFront b /\
    queue b' = done ++ cur :: pending' /\
    during cur d (rev dirs ++ seen) (bdist b') done pending'.
Proof.
  induction dirs as [|dir rest IH]; intros seen pending b Hq Hd; simpl.
  - exists b, pending. split; [reflexivity|]. split; [reflexivity|]. split; [exact Hq|exact Hd].
  - destruct (relax_during cur d seen done pending b dir Hq Hd)
      as [b1 [p1 [E1 [F1 [Q1 D1]]]]].
    rewrite E1.
    destruct (IH (dir :: seen) p1 b1 Q1 D1) as [b2 [p2 [E2 [F2 [Q2 D2]]]]].
    exists b2, p2. rewrite <- app_assoc. simpl.
    split; [exact E2|]. split; [congruence|]. split; [exact Q2|exact D2].
Qed.

(** The [while] loop runs to completion, with every queued cell dequeued. *)
Lemma sweep_between : forall fuel b done pending,
  queue b = done ++ pending ->
  qFront b = length done ->
  between (bdist b) done pending ->
  (256 - length done < fuel)%nat ->
  exists b',
    sweep blocked plain fuel b = Ok b' /\
    qFront b' = length (queue b') /\
    between (bdist b') (queue b') [].
Proof.
  induction fuel as [|fuel IH]; intros b done pending Hq Hf Hb Hfuel; [lia|].
  rewrite sweep_unfold. unfold qBack. rewrite Hq, Hf, length_app.
  destruct pending as [|cur rest].
  - replace (length done <? length done + length (@nil Point))%nat with false
      by (symmetry; apply Nat.ltb_ge; simpl; lia).
    rewrite app_nil_r in Hq. exists b. rewrite Hq. auto.
  - replace (length done <? length done + length (cur :: rest))%nat with true
      by (symmetry; apply Nat.ltb_lt; simpl; lia).
    rewrite nth_middle.
    pose proof (between_pop _ _ _ _ Hb) as Hd.
    destruct (relax_dirs_during cur (bdist b cur) done all_dirs [] rest
                (mkBfs (bdist b) (done ++ cur :: rest) (S (length done))) eq_refl Hd)
      as [b1 [p1 [E1 [F1 [Q1 D1]]]]].
    rewrite E1. simpl in F1.
    apply during_finish in D1.
    2:{ intros dir. destruct dir; simpl; tauto. }
    assert (Q1' : queue b1 = (done ++ [cur]) ++ p1)
      by (rewrite Q1, <- app_assoc; reflexivity).
    assert (Hlen : (length (queue b1) <= 256)%nat).
    { destruct D1 as [[Hinb Hnd _ _ _ _] _ _ _]. rewrite <- Q1' in *.
      apply distinct_cells_bound; assumption. }
    apply (IH b1 (done ++ [cur]) p1 Q1').
    + rewrite F1, length_app. simpl. lia.
    + exact D1.
    + rewrite Q1' in Hlen. rewrite !length_app in Hlen. rewrite length_app.
      change (length [cur]) with 1%nat in *. lia.
Qed.

(** Distinct sources inside the grid, with distance 0 and everything else
    at the sentinel, satisfy the invariant. *)
Lemma between_seeded (dist : Grid Z) :
  srcs <> [] ->
  NoDup srcs ->
  Forall (fun p => is_within_bounds p = true) srcs ->
  (forall p, In p srcs -> dist p = 0) ->
  (forall p, ~ In p srcs -> dist p = MAX_CELLS) ->
  between dist [] srcs.
Proof.
  intros Hne Hnd Hinb H0 Hinf.
  assert (Hsorted : forall l, (forall p, In p l -> dist p = 0) ->
                              StronglySorted (fun a b => dist a <= dist b) l).
  { induction l as [|a l IH]; intros Hl; constructor.
    - apply IH. intros p Hp. apply Hl. right; exact Hp.
    - apply Forall_forall. intros p Hp.
      rewrite (Hl a (or_introl eq_refl)), (Hl p (or_intror Hp)). lia. }
  constructor; simpl.
  - constructor; auto.
    + intros p. split.
      * intros Hp. rewrite (H0 p Hp). unfold MAX_CELLS, MAZE_WIDTH, MAZE_HEIGHT. lia.
      * intros Hp. destruct (in_dec point_eq_dec p srcs) as [H|H]; [exact H|].
        elim Hp. auto.
    + intros p Hp. rewrite (H0 p Hp). destruct srcs; [contradiction|simpl; lia].
    + intros p Hp. rewrite (H0 p Hp). apply reach_source. exact Hp.
  - apply Hsorted. exact H0.
  - intros a p Ha Hp. rewrite (H0 a Ha), (H0 p Hp). lia.
  - intros u [].
Qed.

(** ** What the finished sweep has computed *)

Record flooded (dist : Grid Z) : Prop := mkFlooded {
  fl_sources : forall s, In s srcs -> dist s = 0;
  fl_range : forall p, dist p = MAX_CELLS \/ 0 <= dist p < MAX_CELLS;
  fl_sound : forall p, dist p <> MAX_CELLS -> reach blocked srcs (dist p) p;
  fl_least : forall n p, reach blocked srcs n p -> dist p <= n /\ dist p <> MAX_CELLS }.

Lemma reach_within n p :
  Forall (fun p => is_within_bounds p = true) srcs ->
  reach blocked srcs n p -> is_within_bounds p = true.
Proof.
  intros Hinb H. destruct H as [s Hs|n u d _ _ Hn]; [|exact Hn].
  rewrite Forall_forall in Hinb. auto.
Qed.

Lemma between_flooded dist q :
  Forall (fun p => is_within_bounds p = true) srcs ->
  between dist q [] -> flooded dist.
Proof.
  intros Hsrcin [Hs _ _ Hc]. rewrite app_nil_r in Hs.
  destruct Hs as [Hinb Hnd Hmem Hrange Hsound Hsrc].
  assert (Hlen : (length q <= 256)%nat) by (apply distinct_cells_bound; assumption).
  constructor.
  - intros s Hs'. apply Hsrc. exact Hs'.
  - intros p. destruct (Z.eq_dec (dist p) MAX_CELLS) as [E|E]; [left; exact E|right].
    apply Hmem in E. specialize (Hrange p E).
    unfold MAX_CELLS, MAZE_WIDTH, MAZE_HEIGHT. lia.
  - intros p Hp. apply Hsound, Hmem, Hp.
  - intros n p Hr. induction Hr as [s Hs'|n u d Hr IH Hb Hn].
    + destruct (Hsrc s Hs') as [H1 H2]. split; [lia|]. apply Hmem. exact H1.
    + destruct IH as [IH1 IH2]. apply Hmem in IH2.
      pose proof (Hc u IH2 d (all_dirs_complete d) Hb Hn) as Hcl.
      split; [lia|].
      intros Habs.
      assert (Hu : 0 <= dist u < Z.of_nat (length q)) by (apply Hrange; exact IH2).
      assert (Hfull : length q = 256%nat).
      { unfold MAX_CELLS, MAZE_WIDTH, MAZE_HEIGHT in Habs. lia. }
      pose proof (distinct_cells_full q Hnd Hinb Hfull (neighbor u d) Hn) as Hin.
      apply Hmem in Hin. contradiction.
Qed.

(** The sweep from a well-formed seed: it ends without a fault, the queue
    never held more than [MAX_CELLS] distinct cells, and the distances are
    the shortest hop counts. *)
Theorem plain_sweep_correct (dist0 : Grid Z) :
  srcs <> [] ->
  NoDup srcs ->
  Forall (fun p => is_within_bounds p = true) srcs ->
  (forall p, In p srcs -> dist0 p = 0) ->
  (forall p, ~ In p srcs -> dist0 p = MAX_CELLS) ->
  exists b,
    sweep blocked plain SWEEP_FUEL (mkBfs dist0 srcs 0) = Ok b /\
    flooded (bdist b) /\
    NoDup (queue b) /\
    (length (queue b) <= 256)%nat.
Proof.
  intros Hne Hnd Hinb H0 Hinf.
  destruct (sweep_between SWEEP_FUEL (mkBfs dist0 srcs 0) [] srcs eq_refl eq_refl
              (between_seeded dist0 Hne Hnd Hinb H0 Hinf)) as [b [E [F B]]].
  { unfold SWEEP_FUEL. simpl. lia. }
  exists b. split; [exact E|]. split; [eapply between_flooded; eauto|].
  destruct B as [[Hi Hn _ _ _ _] _ _ _]. rewrite app_nil_r in *.
  split; [exact Hn|]. apply distinct_cells_bound; assumption.
Qed.

End PlainSweep.

(** * Hop counts in the wall map *)

Lemma hops_nonneg w n a b : hops w n a b -> 0 <= n.
Proof. induction 1; lia. Qed.

Lemma hops_within_start w n a b : hops w n a b -> is_within_bounds a = true.
Proof. destruct 1 as [a Ha|n a b c [Ha _] _]; exact Ha. Qed.

Lemma reach_nonneg blocked srcs n p : reach blocked srcs n p -> 0 <= n.
Proof. induction 1; lia. Qed.

(** In a symmetric wall map an open edge can be walked both ways. *)
Lemma open_edge_sym w u v :
  wall_symmetric w -> open_edge w u v -> open_edge w v u.
Proof.
  intros Hsym [Hu [d [Hw [-> Hv]]]]. split; [exact Hv|].
  exists (get_opposite_direction d). rewrite neighbor_back.
  split; [|split; [reflexivity|exact Hu]].
  rewrite <- Hsym by assumption. exact Hw.
Qed.

Section ReachHops.

Variable w : Walls.
Variable blocked : Point -> Direction -> bool.
Variable srcs : list Point.

Hypothesis blocked_is_wall :
  forall u d, is_within_bounds u = true -> blocked u d = w u d.
Hypothesis srcs_within : Forall (fun p => is_within_bounds p = true) srcs.
Hypothesis w_sym : wall_symmetric w.

(** A chain of sweep steps from a source to [p] is, read backwards, a
    chain of open edges from [p] to that source. *)
Lemma reach_hops n p :
  reach blocked srcs n p -> exists g, In g srcs /\ hops w n p g.
Proof.
  induction 1 as [s Hs|n u d Hr [g [Hg Hh]] Hb Hn].
  - exists s. split; [exact Hs|]. apply hops_here.
    rewrite Forall_forall in srcs_within. auto.
  - exists g. split; [exact Hg|].
    assert (Hu : is_within_bounds u = true) by (eapply hops_within_start; eauto).
    apply hops_edge with (b := u); [|exact Hh].
    apply open_edge_sym; [exact w_sym|].
    split; [exact Hu|]. exists d. rewrite <- blocked_is_wall by exact Hu. auto.
Qed.

Lemma hops_reach n p g :
  In g srcs -> hops w n p g -> reach blocked srcs n p.
Proof.
  intros Hg Hh. induction Hh as [a Ha|n a b c He Hh IH].
  - apply reach_source. exact Hg.
  - specialize (IH Hg).
    apply (open_edge_sym w a b w_sym) in He.
    destruct He as [Hb [d [Hw [-> Ha]]]].
    apply reach_next; [exact IH| |exact Ha].
    rewrite blocked_is_wall by exact Hb. exact Hw.
Qed.

(** The distances of a finished sweep, read as hop counts to the sources. *)
Lemma flooded_min_hops (dist : Grid Z) :
  flooded blocked srcs dist ->
  forall c,
    (reachable w srcs c -> min_hops w srcs c (dist c)) /\
    (~ reachable w srcs c -> dist c = MAX_CELLS).
Proof.
  intros [Hsrc Hrange Hsound Hleast] c. split.
  - intros [n [g [Hg Hh]]].
    pose proof (Hleast n c (hops_reach n c g Hg Hh)) as [_ Hfin].
    split.
    + apply reach_hops. apply Hsound. exact Hfin.
    + intros n' g' Hg' Hh'. apply (Hleast n' c (hops_reach n' c g' Hg' Hh')).
  - intros Hnot. destruct (Z.eq_dec (dist c) MAX_CELLS) as [E|E]; [exact E|].
    exfalso. apply Hnot. destruct (reach_hops _ _ (Hsound c E)) as [g [Hg Hh]].
    exists (dist c), g. auto.
Qed.

End ReachHops.

(** * The flood fills of ffv3.c *)

Lemma has_wall_within m u d :
  is_within_bounds u = true -> FFv3.has_wall m u d = FFv3.walls m u d.
Proof. intros H. unfold FFv3.has_wall. rewrite H. reflexivity. Qed.

Lemma goal_cells_within : Forall (fun p => is_within_bounds p = true) goal_cells.
Proof. repeat constructor. Qed.

Lemma goal_cells_nodup : NoDup goal_cells.
Proof.
  unfold goal_cells. repeat constructor; simpl; intros H;
    repeat (destruct H as [H|H]; [discriminate H|]); exact H.
Qed.

Lemma seed_goal_shape :
  FFv3.seed_goal (fun _ => INVALID_DISTANCE) =
  mkBfs (bdist (FFv3.seed_goal (fun _ => INVALID_DISTANCE))) goal_cells 0.
Proof. reflexivity. Qed.

Lemma seed_goal_dist p :
  bdist (FFv3.seed_goal (fun _ => INVALID_DISTANCE)) p =
  if existsb (point_eqb p) goal_cells then 0 else MAX_CELLS.
Proof.
  unfold FFv3.seed_goal, goal_cells. simpl. unfold grid_set.
  destruct (point_eqb p (mkPoint GOAL_X2 GOAL_Y2)); simpl;
  destruct (point_eqb p (mkPoint GOAL_X2 GOAL_Y1)); simpl;
  destruct (point_eqb p (mkPoint GOAL_X1 GOAL_Y2)); simpl;
  destruct (point_eqb p (mkPoint GOAL_X1 GOAL_Y1)); simpl; reflexivity.
Qed.

Lemma existsb_point_eqb p l : existsb (point_eqb p) l = true <-> In p l.
Proof.
  rewrite existsb_exists. split.
  - intros [q [Hq E]]. apply point_eqb_eq in E. subst. exact Hq.
  - intros H. exists p. split; [exact H|apply point_eqb_refl].
Qed.

(** [flood_fill_goal] always runs to completion and leaves the shortest
    hop counts from the four goal cells. *)
Lemma flood_fill_goal_flooded (m : FFv3.Maze) :
  exists dist,
    FFv3.flood_fill_goal_maze m = Ok (FFv3.set_distances dist m) /\
    flooded (FFv3.has_wall m) goal_cells dist.
Proof.
  unfold FFv3.flood_fill_goal_maze, FFv3.search_from. rewrite seed_goal_shape.
  destruct (plain_sweep_correct (FFv3.has_wall m) goal_cells
              (bdist (FFv3.seed_goal (fun _ => INVALID_DISTANCE))))
    as [b [E [F _]]].
  - discriminate.
  - exact goal_cells_nodup.
  - exact goal_cells_within.
  - intros p Hp. rewrite seed_goal_dist. apply existsb_point_eqb in Hp. rewrite Hp. reflexivity.
  - intros p Hp. rewrite seed_goal_dist.
    destruct (existsb (point_eqb p) goal_cells) eqn:E; [|reflexivity].
    apply existsb_point_eqb in E. contradiction.
  - exists (bdist b). unfold plain in E. rewrite E. auto.
Qed.

Lemma single_seed_dist (target p : Point) :
  (In p [target] -> grid_set (fun _ : Point => MAX_CELLS) target 0 p = 0) /\
  (~ In p [target] -> grid_set (fun _ : Point => MAX_CELLS) target 0 p = MAX_CELLS).
Proof.
  split.
  - intros [<-|[]]. apply grid_set_same.
  - intros H. apply grid_set_other. intros ->. apply H. left; reflexivity.
Qed.

(** [flood_fill] from a target inside the grid. *)
Lemma flood_fill_flooded (target : Point) (m : FFv3.Maze) :
  is_within_bounds target = true ->
  exists dist,
    FFv3.flood_fill_maze target m = Ok (FFv3.set_distances dist m) /\
    flooded (FFv3.has_wall m) [target] dist.
Proof.
  intros Ht. unfold FFv3.flood_fill_maze, FFv3.search_from.
  destruct (plain_sweep_correct (FFv3.has_wall m) [target]
              (grid_set (fun _ => MAX_CELLS) target 0))
    as [b [E [F _]]].
  - discriminate.
  - repeat constructor. intros [].
  - repeat constructor. exact Ht.
  - intros p. apply single_seed_dist.
  - intros p. apply single_seed_dist.
  - exists (bdist b). unfold plain in E. unfold INVALID_DISTANCE. rewrite E. auto.
Qed.

(** * The plain flood fill of ff.c *)

Lemma floodFill_flooded (target : Point) (s : FF.State) :
  is_within_bounds target = true ->
  exists dist,
    FF.floodFill target s = Ok (FF.set_distances dist s) /\
    flooded (FF.walls s) [target] dist.
Proof.
  intros Ht. unfold FF.floodFill.
  destruct (plain_sweep_correct (FF.walls s) [target]
              (grid_set (fun _ => MAX_CELLS) target 0))
    as [b [E [F _]]].
  - discriminate.
  - repeat constructor. intros [].
  - repeat constructor. exact Ht.
  - intros p. apply single_seed_dist.
  - intros p. apply single_seed_dist.
  - exists (bdist b). unfold plain in E.
    change (MAZE_WIDTH * MAZE_HEIGHT) with MAX_CELLS. rewrite E. auto.
Qed.

(** The plain fill of ff.c enqueues every cell at most once and never
    writes past the end of the queue. *)
Lemma floodFill_queue_safe (target : Point) (s : FF.State) :
  is_within_bounds target = true ->
  exists b,
    sweep (FF.walls s) (fun d _ => d + 1) SWEEP_FUEL
          (mkBfs (grid_set (fun _ => MAZE_WIDTH * MAZE_HEIGHT) target 0) [target] 0) = Ok b /\
    NoDup (queue b) /\ (Z.of_nat (qBack b) <= MAX_CELLS).
Proof.
  intros Ht.
  destruct (plain_sweep_correct (FF.walls s) [target]
              (grid_set (fun _ => MAX_CELLS) target 0))
    as [b [E [_ [Hnd Hlen]]]].
  - discriminate.
  - repeat constructor. intros [].
  - repeat constructor. exact Ht.
  - intros p. apply single_seed_dist.
  - intros p. apply single_seed_dist.
  - exists b. split; [exact E|]. split; [exact Hnd|].
    unfold qBack, MAX_CELLS, MAZE_WIDTH, MAZE_HEIGHT. lia.
Qed.

Lemma goal_target_is_goal (i : Z) : In (FF.goal_target i) goal_cells.
Proof.
  unfold FF.goal_target, goal_cells.
  destruct (i =? 0); [simpl; tauto|].
  destruct (i =? 1); [simpl; tauto|].
  destruct (i =? 2); simpl; tauto.
Qed.

Lemma goal_target_within (i : Z) : is_within_bounds (FF.goal_target i) = true.
Proof.
  pose proof (goal_target_is_goal i) as H.
  pose proof goal_cells_within as G. rewrite Forall_forall in G. auto.
Qed.

(** The target of [floodFillToGoal]. *)
Definition ff_goal_target (s : FF.State) : Point :=
  FF.goal_target (FF.closest_goal_index (FF.posX s) (FF.posY s)).

Lemma floodFillToGoal_flooded (s : FF.State) :
  exists dist,
    FF.floodFillToGoal s = Ok (FF.set_distances dist s) /\
    flooded (FF.walls s) [ff_goal_target s] dist.
Proof. apply floodFill_flooded, goal_target_within. Qed.

Lemma floodFillToStart_flooded (s : FF.State) :
  exists dist,
    FF.floodFillToStart s = Ok (FF.set_distances dist s) /\
    flooded (FF.walls s) [mkPoint 0 0] dist.
Proof. apply floodFill_flooded. reflexivity. Qed.

(** * Writing a wall on both sides of an edge *)

(** The pattern shared by [set_wall] of ffv3.c and by [updateWalls] and
    the failed-move branch of ff.c: the flag of side [d] of [p] is written,
    and the flag of the facing side of the neighbour when the neighbour is
    inside the grid. *)
Definition mirror_set (w : Walls) (p : Point) (d : Direction) (v : bool) : Walls :=
  let w1 := walls_set w p d v in
  if is_within_bounds (neighbor p d)
  then walls_set w1 (neighbor p d) (get_opposite_direction d) v
  else w1.

Lemma opposite_neq (d : Direction) : get_opposite_direction d <> d.
Proof. destruct d; discriminate. Qed.

Lemma mirror_set_here w p d v : mirror_set w p d v p d = v.
Proof.
  unfold mirror_set. destruct (is_within_bounds (neighbor p d)).
  - rewrite walls_set_other; [apply walls_set_same|].
    right. intros H. symmetry in H. exact (opposite_neq d H).
  - apply walls_set_same.
Qed.

Lemma mirror_set_there w p d v :
  is_within_bounds (neighbor p d) = true ->
  mirror_set w p d v (neighbor p d) (get_opposite_direction d) = v.
Proof. intros H. unfold mirror_set. rewrite H. apply walls_set_same. Qed.

Lemma mirror_set_elsewhere w p d v c e :
  (c <> p \/ e <> d) ->
  (c <> neighbor p d \/ e <> get_opposite_direction d) ->
  mirror_set w p d v c e = w c e.
Proof.
  intros H1 H2. unfold mirror_set. destruct (is_within_bounds (neighbor p d)).
  - rewrite walls_set_other by exact H2. apply walls_set_other. exact H1.
  - apply walls_set_other. exact H1.
Qed.

(** Writing [true] never clears a flag. *)
Lemma mirror_set_true_mono w p d c e :
  w c e = true -> mirror_set w p d true c e = true.
Proof.
  intros H. unfold mirror_set. destruct (is_within_bounds (neighbor p d)).
  - apply walls_set_true_mono, walls_set_true_mono, H.
  - apply walls_set_true_mono, H.
Qed.

Lemma dir_eq_dec (a b : Direction) : {a = b} + {a <> b}.
Proof. decide equality. Qed.

Lemma opposite_inj (a b : Direction) :
  get_opposite_direction a = get_opposite_direction b -> a = b.
Proof. destruct a, b; simpl; intros H; try reflexivity; discriminate H. Qed.

(** A mirrored write keeps the wall map symmetric, whatever is written. *)
Lemma mirror_set_symmetric w p d v :
  wall_symmetric w -> wall_symmetric (mirror_set w p d v).
Proof.
  intros Hsym c e Hc Hn.
  destruct (point_eq_dec c p) as [->|Hcp].
  - destruct (dir_eq_dec e d) as [->|Hed].
    + rewrite mirror_set_here, mirror_set_there by exact Hn. reflexivity.
    + rewrite (mirror_set_elsewhere w p d v p e).
      * rewrite (mirror_set_elsewhere w p d v (neighbor p e)).
        -- apply Hsym; assumption.
        -- left. apply neighbor_neq.
        -- right. intros H. apply opposite_inj in H. contradiction.
      * right. exact Hed.
      * left. intros H. apply (neighbor_neq p d). symmetry. exact H.
  - destruct (point_eq_dec c (neighbor p d)) as [->|Hcn].
    + destruct (dir_eq_dec e (get_opposite_direction d)) as [->|Hed].
      * rewrite neighbor_back, opposite_involutive.
        rewrite mirror_set_here, mirror_set_there by exact Hc. reflexivity.
      * rewrite (mirror_set_elsewhere w p d v (neighbor p d) e).
        -- rewrite (mirror_set_elsewhere w p d v (neighbor (neighbor p d) e)).
           ++ apply Hsym; assumption.
           ++ right. intros H. apply Hed. rewrite <- H. symmetry. apply opposite_involutive.
           ++ left. apply neighbor_neq.
        -- left. exact Hcp.
        -- right. exact Hed.
    + rewrite (mirror_set_elsewhere w p d v c e).
      * rewrite (mirror_set_elsewhere w p d v (neighbor c e)).
        -- apply Hsym; assumption.
        -- destruct (dir_eq_dec (get_opposite_direction e) d) as [E|E]; [|right; exact E].
           left. intros H. apply Hcn. rewrite <- (neighbor_back c e), H, E. reflexivity.
        -- destruct (dir_eq_dec e d) as [->|E].
           ++ left. intros H. apply Hcp.
              destruct c as [cx cy], p as [qx qy], d; unfold neighbor in H; simpl in H;
                inversion H; f_equal; lia.
           ++ right. intros H. apply opposite_inj in H. contradiction.
      * left. exact Hcp.
      * left. exact Hcn.
Qed.

(** A mirrored write of [true] keeps the boundary walled. *)
Lemma mirror_set_true_boundary w p d :
  boundary_walled w -> boundary_walled (mirror_set w p d true).
Proof. intros Hb c e Hce. apply mirror_set_true_mono, Hb, Hce. Qed.

(** A mirrored write of a sensor reading at a cell of the grid keeps the
    boundary walled as long as the reading reports the wall of a boundary
    side. *)
Lemma mirror_set_boundary_truthful w p d v :
  is_within_bounds p = true ->
  (on_boundary p d -> v = true) ->
  boundary_walled w -> boundary_walled (mirror_set w p d v).
Proof.
  intros Hp Hv Hb c e Hce.
  destruct (point_eq_dec c p) as [->|Hcp].
  - destruct (dir_eq_dec e d) as [->|Hed].
    + rewrite mirror_set_here. auto.
    + rewrite mirror_set_elsewhere; auto.
      left. intros H. apply (neighbor_neq p d). symmetry. exact H.
  - destruct (point_eq_dec c (neighbor p d)) as [->|Hcn].
    + destruct (dir_eq_dec e (get_opposite_direction d)) as [->|Hed].
      * destruct Hce as [_ Hn]. rewrite neighbor_back in Hn. congruence.
      * rewrite mirror_set_elsewhere; auto.
    + rewrite mirror_set_elsewhere; auto.
Qed.

(** ** Decidable checks on concrete wall maps *)

Definition wall_symmetricb (w : Walls) : bool :=
  forallb (fun c =>
             forallb (fun d =>
                        implb (is_within_bounds (neighbor c d))
                              (Bool.eqb (w c d) (w (neighbor c d) (get_opposite_direction d))))
                     all_dirs)
          all_cells.

Lemma wall_symmetricb_sound w : wall_symmetricb w = true -> wall_symmetric w.
Proof.
  unfold wall_symmetricb. rewrite forallb_forall. intros H c d Hc Hn.
  specialize (H c (proj2 (in_all_cells c) Hc)).
  rewrite forallb_forall in H. specialize (H d (all_dirs_complete d)).
  rewrite Hn in H. simpl in H. apply eqb_prop in H. exact H.
Qed.

Definition boundary_walledb (w : Walls) : bool :=
  forallb (fun c =>
             forallb (fun d => is_within_bounds (neighbor c d) || w c d) all_dirs)
          all_cells.

Lemma boundary_walledb_sound w : boundary_walledb w = true -> boundary_walled w.
Proof.
  unfold boundary_walledb. rewrite forallb_forall. intros H c d [Hc Hn].
  specialize (H c (proj2 (in_all_cells c) Hc)).
  rewrite forallb_forall in H. specialize (H d (all_dirs_complete d)).
  rewrite Hn in H. exact H.
Qed.

(** ** The wall writers of the two programs are mirrored writes *)

Lemma set_wall_walls p d m :
  FFv3.walls (FFv3.set_wall p d m) =
  if is_within_bounds p then mirror_set (FFv3.walls m) p d true else FFv3.walls m.
Proof.
  unfold FFv3.set_wall, mirror_set. rewrite delta_neighbor.
  destruct (is_within_bounds p); simpl; [|reflexivity].
  destruct (is_within_bounds (neighbor p d)); reflexivity.
Qed.

Lemma set_wall_frame p d m :
  FFv3.distances (FFv3.set_wall p d m) = FFv3.distances m /\
  FFv3.visited (FFv3.set_wall p d m) = FFv3.visited m.
Proof.
  unfold FFv3.set_wall. rewrite delta_neighbor.
  destruct (is_within_bounds p); simpl; [|auto].
  destruct (is_within_bounds (neighbor p d)); auto.
Qed.

Lemma sense_side_walls dir reading s :
  FF.walls (FF.sense_side dir reading s) = mirror_set (FF.walls s) (FF.pos s) dir reading.
Proof. reflexivity. Qed.

Lemma record_blocked_walls s :
  FF.walls (FF.record_blocked s) = mirror_set (FF.walls s) (FF.pos s) (FF.direction s) true.
Proof. reflexivity. Qed.

(** ** The wall maps after initialisation *)

Lemma init_maze_symmetric m : wall_symmetric (FFv3.walls (FFv3.init_maze m)).
Proof. apply wall_symmetricb_sound. vm_compute. reflexivity. Qed.

Lemma init_maze_boundary m : boundary_walled (FFv3.walls (FFv3.init_maze m)).
Proof. apply boundary_walledb_sound. vm_compute. reflexivity. Qed.

Lemma set_boundary_symmetric : wall_symmetric (FF.set_boundary (fun _ _ => false)).
Proof. apply wall_symmetricb_sound. vm_compute. reflexivity. Qed.

Lemma set_boundary_boundary : boundary_walled (FF.set_boundary (fun _ _ => false)).
Proof. apply boundary_walledb_sound. vm_compute. reflexivity. Qed.

(** * Properties of the wall map kept by every operation *)

(** One step of a proof that a program keeps an invariant. *)
Ltac keeps_step :=
  lazymatch goal with
  | |- keeps _ (bind _ _) => apply keeps_bind; [|intros ?]
  | |- keeps _ (when _ _) => apply keeps_when
  | |- keeps _ (for_each _ _) => apply keeps_for_each; intros ?
  | |- keeps _ (while_do _ _ _) => apply keeps_while
  | |- keeps _ (match ?x with _ => _ end) => destruct x
  | |- keeps _ _ => first [assumption | solve [auto with keeps nocore]]
  end.

Ltac keeps_all := repeat keeps_step.

(** ** The flood fills leave walls and visited flags alone *)

Lemma search_from_frame b0 m m' :
  FFv3.search_from b0 m = Ok m' ->
  FFv3.walls m' = FFv3.walls m /\ FFv3.visited m' = FFv3.visited m.
Proof.
  unfold FFv3.search_from. destruct (sweep _ _ _ _); [|discriminate].
  intros H; inversion H; subst. auto.
Qed.

Lemma floodFill_frame target s s' :
  FF.floodFill target s = Ok s' ->
  exists dist, s' = FF.set_distances dist s.
Proof.
  unfold FF.floodFill. destruct (sweep _ _ _ _) as [b|]; [|discriminate].
  intros H; inversion H; subst. eauto.
Qed.

Lemma floodFillToStartWithExploration_frame s s' :
  FF.floodFillToStartWithExploration s = Ok s' ->
  exists dist, s' = FF.set_distances dist s.
Proof.
  unfold FF.floodFillToStartWithExploration. destruct (sweep _ _ _ _) as [b|]; [|discriminate].
  intros H; inversion H; subst. eauto.
Qed.

(** ** ffv3.c *)

Section KeepsV3.

Variable P : Walls -> Prop.
Hypothesis P_write : forall w p d, P w -> P (mirror_set w p d true).
Hypothesis P_init : forall m, P (FFv3.walls (FFv3.init_maze m)).

Definition holds3 (s : FFv3.State) : Prop := P (FFv3.walls (FFv3.maze s)).

Lemma holds3_set_wall p d m : P (FFv3.walls m) -> P (FFv3.walls (FFv3.set_wall p d m)).
Proof.
  intros H. rewrite set_wall_walls. destruct (is_within_bounds p); auto.
Qed.

Lemma keeps3_on_mouse f : keeps holds3 (FFv3.on_mouse f).
Proof. apply keeps_modify. intros s H. exact H. Qed.

Lemma keeps3_set_wall p d : keeps holds3 (FFv3.on_maze (FFv3.set_wall p d)).
Proof. apply keeps_modify. intros s H. apply holds3_set_wall, H. Qed.

Lemma keeps3_set_wall_here :
  keeps holds3
    (modify (fun s => FFv3.set_maze
                        (FFv3.set_wall (FFv3.pos (FFv3.mouse s)) (FFv3.orientation (FFv3.mouse s))
                                       (FFv3.maze s)) s)).
Proof. apply keeps_modify. intros s H. apply holds3_set_wall, H. Qed.

Lemma keeps3_set_distances d : keeps holds3 (FFv3.on_maze (FFv3.set_distances d)).
Proof. apply keeps_modify. intros s H. exact H. Qed.

Lemma keeps3_mark_visited : keeps holds3 FFv3.mark_visited.
Proof.
  unfold FFv3.mark_visited. apply keeps_bind; [apply keeps_gets|]. intros s.
  destruct (is_within_bounds _); [|apply keeps_fail].
  apply keeps_modify. intros s1 H. exact H.
Qed.

Lemma keeps3_flood_fill target : keeps holds3 (FFv3.flood_fill target).
Proof.
  unfold FFv3.flood_fill. destruct (is_within_bounds target).
  - apply keeps_lift. intros s s' H E.
    destruct (FFv3.flood_fill_maze target (FFv3.maze s)) as [m|] eqn:F; [|discriminate].
    inversion E; subst. apply search_from_frame in F. unfold holds3. simpl.
    destruct F as [-> _]. exact H.
  - apply keeps_bind; [apply keeps3_set_distances|]. intros _. apply keeps_emit.
Qed.

Lemma keeps3_flood_fill_goal : keeps holds3 FFv3.flood_fill_goal.
Proof.
  unfold FFv3.flood_fill_goal. destruct (_ =? _)%nat.
  - apply keeps_bind; [apply keeps3_set_distances|]. intros _. apply keeps_emit.
  - apply keeps_lift. intros s s' H E.
    destruct (FFv3.flood_fill_goal_maze (FFv3.maze s)) as [m|] eqn:F; [|discriminate].
    inversion E; subst. apply search_from_frame in F. unfold holds3. simpl.
    destruct F as [-> _]. exact H.
Qed.

Lemma keeps3_flood_fill_start : keeps holds3 FFv3.flood_fill_start.
Proof. apply keeps3_flood_fill. Qed.

Hint Resolve keeps3_on_mouse keeps3_set_wall keeps3_set_wall_here keeps3_set_distances
  keeps3_mark_visited keeps3_flood_fill keeps3_flood_fill_goal keeps3_flood_fill_start : keeps.

Lemma keeps3_update_walls : keeps holds3 FFv3.update_walls_current_cell.
Proof. unfold FFv3.update_walls_current_cell, API_wallFront, API_wallRight, API_wallLeft. keeps_all. Qed.

Lemma keeps3_init_mouse : keeps holds3 FFv3.init_mouse.
Proof.
  unfold FFv3.init_mouse. keeps_all; try (apply keeps_modify; intros s H; exact H).
Qed.

Lemma keeps3_choose : keeps holds3 FFv3.choose_next_direction.
Proof. unfold FFv3.choose_next_direction. keeps_all. Qed.

Lemma keeps3_turn d : keeps holds3 (FFv3.turn_to_direction d).
Proof.
  unfold FFv3.turn_to_direction, API_turnRight, API_turnLeft. keeps_all.
Qed.

Hint Resolve keeps3_update_walls keeps3_init_mouse keeps3_choose keeps3_turn : keeps.

Lemma keeps3_move : keeps holds3 FFv3.move_forward_update_state.
Proof. unfold FFv3.move_forward_update_state. keeps_all. Qed.

Lemma keeps3_trace_path fuel : forall cur, keeps holds3 (FFv3.trace_path fuel cur).
Proof.
  induction fuel as [|fuel IH]; intros cur; simpl; keeps_all.
Qed.

Hint Resolve keeps3_move keeps3_trace_path : keeps.

Lemma keeps3_compute : keeps holds3 FFv3.compute_shortest_path.
Proof. unfold FFv3.compute_shortest_path. keeps_all. Qed.

Lemma keeps3_verify_steps ms m idx : keeps holds3 (FFv3.verify_steps ms m idx).
Proof. induction idx as [|i rest IH]; simpl; keeps_all. Qed.

Hint Resolve keeps3_compute keeps3_verify_steps : keeps.

Lemma keeps3_verify : keeps holds3 FFv3.verify_path_exploration.
Proof. unfold FFv3.verify_path_exploration. keeps_all. Qed.

Lemma keeps3_display_cell c : keeps holds3 (FFv3.display_cell c).
Proof.
  unfold FFv3.display_cell, API_setText, API_setColor, API_setWall. keeps_all.
Qed.

Hint Resolve keeps3_verify keeps3_display_cell : keeps.

Lemma keeps3_display : keeps holds3 FFv3.update_display.
Proof. unfold FFv3.update_display. keeps_all. Qed.

Hint Resolve keeps3_display : keeps.

Lemma keeps3_follow_steps idx : keeps holds3 (FFv3.follow_steps idx).
Proof. induction idx as [|i rest IH]; simpl; keeps_all. Qed.

Hint Resolve keeps3_follow_steps : keeps.

Lemma keeps3_follow : keeps holds3 FFv3.follow_shortest_path.
Proof. unfold FFv3.follow_shortest_path, API_setColor. keeps_all. Qed.

(** [init_simulation] establishes the property from any state. *)
Lemma init_simulation_holds3 : establishes holds3 FFv3.init_simulation.
Proof.
  unfold FFv3.init_simulation.
  apply establishes_after. intros _.
  apply establishes_then.
  - intros s w a s' w' H. inversion H; subst. exact (P_init (FFv3.maze s)).
  - intros _. apply keeps_bind; [apply keeps3_init_mouse|intros _; apply keeps3_flood_fill_goal].
Qed.

Lemma keeps3_init_simulation : keeps holds3 FFv3.init_simulation.
Proof. apply establishes_keeps, init_simulation_holds3. Qed.

Lemma keeps3_return_at_start : keeps holds3 FFv3.return_at_start.
Proof. unfold FFv3.return_at_start. keeps_all. Qed.

Lemma keeps3_log_state : keeps holds3 FFv3.log_state.
Proof. unfold FFv3.log_state. keeps_all. Qed.

Hint Resolve keeps3_follow keeps3_init_simulation keeps3_return_at_start keeps3_log_state : keeps.

Lemma keeps3_tick : keeps holds3 FFv3.tick.
Proof. unfold FFv3.tick, API_wasReset, API_ackReset. keeps_all. Qed.

Lemma keeps3_ticks n : keeps holds3 (FFv3.ticks n).
Proof.
  induction n as [|n IH]; simpl; [apply keeps_ret|].
  apply keeps_bind; [apply keeps3_tick|]. intros go. destruct go; [exact IH|apply keeps_ret].
Qed.

(** Every state reached from the start of [main] has the property. *)
Lemma reachable3_holds n : establishes holds3 (bind FFv3.startup (fun _ => FFv3.ticks n)).
Proof.
  apply establishes_then.
  - unfold FFv3.startup. apply establishes_after. intros _. apply init_simulation_holds3.
  - intros _. apply keeps3_ticks.
Qed.

End KeepsV3.

(** ** ff.c *)

Section InitFF.

Variable P : Walls -> Prop.
Hypothesis P_init : P (FF.set_boundary (fun _ _ => false)).

(** [initializeMaze] clears the wall map and sets the boundary: whatever
    the state before, the walls after are the boundary walls alone. *)
Lemma initializeMaze_establishes :
  establishes (fun s => P (FF.walls s)) FF.initializeMaze.
Proof.
  apply triple_establishes. unfold FF.initializeMaze.
  apply triple_bind with (Mid := fun s => FF.walls s = (fun _ _ => false)).
  { apply triple_modify. intros s _. reflexivity. }
  intros _. apply triple_bind with (Mid := fun s => P (FF.walls s)).
  { apply triple_modify. intros s H.
    cbn [FF.walls FF.set_walls]. rewrite H. exact P_init. }
  intros _. apply triple_bind with (Mid := fun s => P (FF.walls s)).
  { apply triple_modify. intros s H. exact H. }
  intros _. intros t u x t' u' Ht E. unfold lift in E.
  destruct (FF.floodFillToGoal t) as [s3|] eqn:F; [|discriminate].
  inversion E; subst. apply floodFill_frame in F. destruct F as [dist ->]. exact Ht.
Qed.

Lemma startup_establishes : establishes (fun s => P (FF.walls s)) FF.startup.
Proof.
  unfold FF.startup. apply establishes_after. intros _.
  apply establishes_then; [apply initializeMaze_establishes|].
  intros _. apply keeps_modify. intros s H. exact H.
Qed.

End InitFF.

Section KeepsFF.

Variable P : Walls -> Prop.
Hypothesis P_write : forall w p d v, P w -> P (mirror_set w p d v).
Hypothesis P_init : P (FF.set_boundary (fun _ _ => false)).

Definition holdsF (s : FF.State) : Prop := P (FF.walls s).

Lemma keepsF_same f :
  (forall s, FF.walls (f s) = FF.walls s) -> keeps holdsF (modify f).
Proof. intros Hf. apply keeps_modify. intros s H. unfold holdsF. rewrite Hf. exact H. Qed.

Lemma keepsF_floodFill target : keeps holdsF (lift (FF.floodFill target)).
Proof.
  apply keeps_lift. intros s s' H E. apply floodFill_frame in E.
  destruct E as [dist ->]. exact H.
Qed.

Lemma keepsF_toGoal : keeps holdsF (lift FF.floodFillToGoal).
Proof.
  apply keeps_lift. intros s s' H E. apply floodFill_frame in E.
  destruct E as [dist ->]. exact H.
Qed.

Lemma keepsF_toStart : keeps holdsF (lift FF.floodFillToStart).
Proof. apply keepsF_floodFill. Qed.

Lemma keepsF_biased : keeps holdsF (lift FF.floodFillToStartWithExploration).
Proof.
  apply keeps_lift. intros s s' H E. apply floodFillToStartWithExploration_frame in E.
  destruct E as [dist ->]. exact H.
Qed.

Lemma keepsF_sense (dirf : FF.State -> Direction) reading :
  keeps holdsF (modify (fun s => FF.sense_side (dirf s) reading s)).
Proof. apply keeps_modify. intros s H. unfold holdsF. rewrite sense_side_walls. auto. Qed.

Lemma keepsF_record_blocked : keeps holdsF (modify FF.record_blocked).
Proof. apply keeps_modify. intros s H. unfold holdsF. rewrite record_blocked_walls. auto. Qed.

Lemma keepsF_set_direction (f : FF.State -> Direction) :
  keeps holdsF (modify (fun s => FF.set_direction (f s) s)).
Proof. apply keepsF_same. reflexivity. Qed.

Lemma keepsF_set_pos (f : FF.State -> Point) :
  keeps holdsF (modify (fun s => FF.set_pos (f s) s)).
Proof. apply keepsF_same. reflexivity. Qed.

Lemma keepsF_set_pos_const p : keeps holdsF (modify (FF.set_pos p)).
Proof. apply keepsF_same. reflexivity. Qed.

Lemma keepsF_set_mode m : keeps holdsF (modify (FF.set_currentMode m)).
Proof. apply keepsF_same. reflexivity. Qed.

Lemma keepsF_set_goalFound b : keeps holdsF (modify (FF.set_goalFound b)).
Proof. apply keepsF_same. reflexivity. Qed.

Lemma keepsF_set_epc b : keeps holdsF (modify (FF.set_explorePhaseComplete b)).
Proof. apply keepsF_same. reflexivity. Qed.

Lemma keepsF_set_jrg b : keeps holdsF (modify (FF.set_justReachedGoal b)).
Proof. apply keepsF_same. reflexivity. Qed.

Lemma keepsF_mark_goal : keeps holdsF (modify FF.mark_goal_visited).
Proof. apply keepsF_same. reflexivity. Qed.

Lemma keepsF_set_visited (f : FF.State -> Grid bool) :
  keeps holdsF (modify (fun s => FF.set_visited (f s) s)).
Proof. apply keepsF_same. reflexivity. Qed.

Lemma keepsF_set_path (f : FF.State -> Z -> Point) (g : FF.State -> Z) :
  keeps holdsF (modify (fun s => FF.set_path (f s) (g s) s)).
Proof. apply keepsF_same. reflexivity. Qed.

Hint Resolve keepsF_floodFill keepsF_toGoal keepsF_toStart keepsF_biased keepsF_sense
  keepsF_record_blocked keepsF_set_direction keepsF_set_pos keepsF_set_pos_const keepsF_set_mode
  keepsF_set_goalFound keepsF_set_epc keepsF_set_jrg keepsF_mark_goal keepsF_set_visited
  keepsF_set_path : keeps.

Lemma keepsF_updateWalls : keeps holdsF FF.updateWalls.
Proof.
  unfold FF.updateWalls, API_wallFront, API_wallRight, API_wallLeft. keeps_all.
Qed.

Lemma initializeMaze_holdsF : establishes holdsF FF.initializeMaze.
Proof. exact (initializeMaze_establishes P P_init). Qed.

Lemma keepsF_initializeMaze : keeps holdsF FF.initializeMaze.
Proof. apply establishes_keeps, initializeMaze_holdsF. Qed.

Lemma keepsF_turn_step d : keeps holdsF (FF.turn_step d).
Proof.
  unfold FF.turn_step, API_turnRight, API_turnLeft. keeps_all.
Qed.

Hint Resolve keepsF_updateWalls keepsF_initializeMaze keepsF_turn_step : keeps.

Lemma keepsF_turn_to d : keeps holdsF (FF.turn_to d).
Proof. unfold FF.turn_to. keeps_all. Qed.

Lemma keepsF_face_north : keeps holdsF FF.face_north.
Proof.
  unfold FF.face_north, API_turnRight. keeps_all.
Qed.

Hint Resolve keepsF_turn_to keepsF_face_north : keeps.

Lemma keepsF_step_forward :
  keeps holdsF (modify (fun s => FF.set_pos (neighbor (FF.pos s) (FF.direction s)) s)).
Proof. apply keepsF_same. reflexivity. Qed.

Hint Resolve keepsF_step_forward : keeps.

Lemma keepsF_moveToNextCell : keeps holdsF FF.moveToNextCell.
Proof. unfold FF.moveToNextCell. keeps_all. Qed.

Lemma keepsF_critical : keeps holdsF FF.criticalPathsExplored.
Proof. unfold FF.criticalPathsExplored. keeps_all. Qed.

Hint Resolve keepsF_moveToNextCell keepsF_critical : keeps.

Lemma keepsF_moveToNextCellReturn : keeps holdsF FF.moveToNextCellReturn.
Proof. unfold FF.moveToNextCellReturn. keeps_all. Qed.

Lemma keepsF_push_path :
  keeps holdsF
    (modify (fun s => FF.set_path (path_set (FF.fastestPath s) (FF.pathLength s) (mkPoint 0 0)) 1 s)).
Proof. apply keepsF_same. reflexivity. Qed.

Lemma keepsF_trace_path fuel : forall cur, keeps holdsF (FF.trace_path fuel cur).
Proof.
  induction fuel as [|fuel IH]; intros cur; simpl; keeps_all;
    try (apply keepsF_same; reflexivity).
Qed.

Hint Resolve keepsF_moveToNextCellReturn keepsF_trace_path : keeps.

Lemma keepsF_compute : keeps holdsF FF.computeShortestPath.
Proof.
  unfold FF.computeShortestPath. keeps_all; try (apply keepsF_same; reflexivity).
Qed.

Lemma keepsF_verify_steps idx : forall cur, keeps holdsF (FF.verify_steps idx cur).
Proof. induction idx as [|i rest IH]; intros cur; simpl; keeps_all. Qed.

Hint Resolve keepsF_compute keepsF_verify_steps : keeps.

Lemma keepsF_verify : keeps holdsF FF.verifyShortestPath.
Proof. unfold FF.verifyShortestPath. keeps_all. Qed.

Hint Resolve keepsF_verify : keeps.

Lemma keepsF_recompute : keeps holdsF FF.recomputePathIfNeeded.
Proof. unfold FF.recomputePathIfNeeded. keeps_all. Qed.

Hint Resolve keepsF_recompute : keeps.

Lemma keepsF_prepare : keeps holdsF FF.prepareForSpeedRun.
Proof.
  unfold FF.prepareForSpeedRun, API_wasReset, API_ackReset, API_clearAllColor, API_setColor.
  keeps_all.
Qed.

Lemma keepsF_display_cell c : keeps holdsF (FF.display_cell c).
Proof. unfold FF.display_cell, API_setText, API_setColor. keeps_all. Qed.

Lemma keepsF_display_walls c : keeps holdsF (FF.display_walls c).
Proof. unfold FF.display_walls, API_setWall. keeps_all. Qed.

Hint Resolve keepsF_prepare keepsF_display_cell keepsF_display_walls : keeps.

Lemma keepsF_display : keeps holdsF FF.updateDisplay.
Proof. unfold FF.updateDisplay. keeps_all. Qed.

Hint Resolve keepsF_display : keeps.

Lemma keepsF_follow_steps idx : keeps holdsF (FF.follow_steps idx).
Proof.
  induction idx as [|i rest IH]; simpl; unfold API_wallFront; keeps_all.
Qed.

Hint Resolve keepsF_follow_steps : keeps.

Lemma keepsF_follow : keeps holdsF FF.followShortestPath.
Proof. unfold FF.followShortestPath, API_setColor. keeps_all. Qed.

Hint Resolve keepsF_follow : keeps.

Lemma keepsF_search_case : keeps holdsF FF.search_case.
Proof. unfold FF.search_case. keeps_all. Qed.

Lemma keepsF_return_case : keeps holdsF FF.return_case.
Proof. unfold FF.return_case. keeps_all. Qed.

Lemma keepsF_speed_case : keeps holdsF FF.speed_case.
Proof. unfold FF.speed_case. keeps_all. Qed.

Hint Resolve keepsF_search_case keepsF_return_case keepsF_speed_case : keeps.

Lemma keepsF_tick : keeps holdsF FF.tick.
Proof.
  unfold FF.tick, API_wasReset, API_ackReset. keeps_all;
    try (apply keepsF_same; reflexivity).
Qed.

Lemma keepsF_ticks n : keeps holdsF (FF.ticks n).
Proof.
  induction n as [|n IH]; simpl; [apply keeps_ret|].
  apply keeps_bind; [apply keepsF_tick|]. intros go. destruct go; [exact IH|apply keeps_ret].
Qed.

(** Every state reached from the start of [main] has the property. *)
Lemma reachableF_holds n : establishes holdsF (bind FF.startup (fun _ => FF.ticks n)).
Proof.
  apply establishes_then.
  - unfold FF.startup. apply establishes_after. intros _.
    apply establishes_then; [apply initializeMaze_holdsF|].
    intros _. apply keepsF_set_epc.
  - intros _. apply keepsF_ticks.
Qed.

End KeepsFF.

(** * Runs that return

    [run m s w Q]: the program [m], started in state [s] against the
    simulator [w], returns, and its result, final state and final world
    satisfy [Q].  The rules below compute the condition on [s] and [w]
    backwards through a program. *)

Definition run {St A : Type} (m : M St A) (s : St) (w : World)
    (Q : A -> St -> World -> Prop) : Prop :=
  match m s w with
  | Ok (a, s', w') => Q a s' w'
  | Fail _ => False
  end.

(** The world after one more command. *)
Definition told (e : Event) (w : World) : World :=
  mkWorld (answers w) (asked w) (e :: trace w).

(** The world after one more query. *)
Definition queried (w : World) : World :=
  mkWorld (answers w) (S (asked w)) (trace w).

Lemma run_ok {St A : Type} (m : M St A) s w (Q : A -> St -> World -> Prop) :
  run m s w Q <-> exists a s' w', m s w = Ok (a, s', w') /\ Q a s' w'.
Proof.
  unfold run. split.
  - destruct (m s w) as [[[a s'] w']|]; [eauto|contradiction].
  - intros [a [s' [w' [E H]]]]. rewrite E. exact H.
Qed.

Lemma run_weaken {St A : Type} (m : M St A) s w (Q Q' : A -> St -> World -> Prop) :
  (forall a s' w', Q a s' w' -> Q' a s' w') -> run m s w Q -> run m s w Q'.
Proof. unfold run. intros H. destruct (m s w) as [[[a s'] w']|]; auto. Qed.

(** The result of a run may be used together with the fact that the run
    produced it. *)
Lemma run_strengthen {St A : Type} (m : M St A) s w (Q Q' : A -> St -> World -> Prop) :
  run m s w Q ->
  (forall a s' w', m s w = Ok (a, s', w') -> Q a s' w' -> Q' a s' w') ->
  run m s w Q'.
Proof.
  unfold run. destruct (m s w) as [[[a s'] w']|]; [|contradiction].
  intros H1 H2. exact (H2 a s' w' eq_refl H1).
Qed.

Lemma run_ret {St A : Type} (a : A) (s : St) w (Q : A -> St -> World -> Prop) :
  Q a s w -> run (ret a) s w Q.
Proof. intros H. exact H. Qed.

Lemma run_bind {St A B : Type} (m : M St A) (k : A -> M St B) s w
    (Q : B -> St -> World -> Prop) :
  run m s w (fun a s1 w1 => run (k a) s1 w1 Q) -> run (bind m k) s w Q.
Proof. unfold run, bind. destruct (m s w) as [[[a s1] w1]|]; auto. Qed.

Lemma run_gets {St A : Type} (f : St -> A) (s : St) w (Q : A -> St -> World -> Prop) :
  Q (f s) s w -> run (gets f) s w Q.
Proof. intros H. exact H. Qed.

Lemma run_modify {St : Type} (f : St -> St) (s : St) w (Q : unit -> St -> World -> Prop) :
  Q tt (f s) w -> run (modify f) s w Q.
Proof. intros H. exact H. Qed.

Lemma run_emit {St : Type} (e : Event) (s : St) w (Q : unit -> St -> World -> Prop) :
  Q tt s (told e w) -> run (emit e) s w Q.
Proof. intros H. exact H. Qed.

Lemma run_ask {St : Type} (s : St) w (Q : bool -> St -> World -> Prop) :
  Q (answers w (asked w)) s (queried w) -> run ask s w Q.
Proof. intros H. exact H. Qed.

Lemma run_lift {St : Type} (f : St -> Result St) (s s1 : St) w
    (Q : unit -> St -> World -> Prop) :
  f s = Ok s1 -> Q tt s1 w -> run (lift f) s w Q.
Proof. intros E H. unfold run, lift. rewrite E. exact H. Qed.

Lemma run_moveForward {St : Type} (s : St) w (Q : bool -> St -> World -> Prop) :
  Q (answers w (asked w)) s (told (MoveForward (answers w (asked w))) (queried w)) ->
  run API_moveForward s w Q.
Proof. intros H. exact H. Qed.

Lemma run_for_each {St A : Type} (I : St -> World -> Prop) (body : A -> M St unit) :
  (forall a s w, I s w -> run (body a) s w (fun _ => I)) ->
  forall l s w, I s w -> run (for_each l body) s w (fun _ => I).
Proof.
  intros Hb l. induction l as [|a l IH]; intros s w H.
  - exact H.
  - simpl. apply run_bind. apply run_weaken with (Q := fun _ => I).
    + intros _ s1 w1 H1. apply IH, H1.
    + apply Hb, H.
Qed.

(** One backward step through a program. *)
Ltac run_step :=
  lazymatch goal with
  | |- run (bind _ _) _ _ _ => apply run_bind
  | |- run (ret _) _ _ _ => apply run_ret
  | |- run (gets _) _ _ _ => apply run_gets
  | |- run (modify _) _ _ _ => apply run_modify
  | |- run (emit _) _ _ _ => apply run_emit
  | |- run (logMessage _) _ _ _ => apply run_emit
  | |- run (logFormat _ _) _ _ _ => apply run_emit
  | |- run API_turnRight _ _ _ => apply run_emit
  | |- run API_turnLeft _ _ _ => apply run_emit
  | |- run API_ackReset _ _ _ => apply run_emit
  | |- run ask _ _ _ => apply run_ask
  | |- run API_wallFront _ _ _ => apply run_ask
  | |- run API_wallRight _ _ _ => apply run_ask
  | |- run API_wallLeft _ _ _ => apply run_ask
  | |- run API_wasReset _ _ _ => apply run_ask
  | |- run API_moveForward _ _ _ => apply run_moveForward
  | |- run (FFv3.on_mouse _) _ _ _ => apply run_modify
  | |- run (FFv3.on_maze _) _ _ _ => apply run_modify
  end.

Ltac run_steps := repeat run_step.

(** ** What a run tells the simulator *)

(** [w'] is [w] after more commands and queries: the same answers, and
    the commands [later] after those of [w]. *)
Definition extends (w w' : World) (later : list Event) : Prop :=
  answers w' = answers w /\ trace w' = (later ++ trace w)%list.

Lemma extends_refl w : extends w w [].
Proof. split; reflexivity. Qed.

Lemma extends_told e w w' later :
  extends w w' later -> extends w (told e w') (e :: later).
Proof. intros [Ha Ht]. split; simpl; [exact Ha|rewrite Ht; reflexivity]. Qed.

Lemma extends_queried w w' later :
  extends w w' later -> extends w (queried w') later.
Proof. intros [Ha Ht]. split; simpl; assumption. Qed.

(** The actuator commands among the events. *)
Definition is_actuation (e : Event) : bool :=
  match e with
  | TurnLeft | TurnRight | MoveForward _ => true
  | _ => false
  end.

Definition actuations (l : list Event) : list Event := filter is_actuation l.

(** ** The flood fills of ffv3.c always return *)

Lemma run_flood_fill_goal s w (Q : unit -> FFv3.State -> World -> Prop) :
  (forall dist,
      flooded (FFv3.has_wall (FFv3.maze s)) goal_cells dist ->
      Q tt (FFv3.set_maze (FFv3.set_distances dist (FFv3.maze s)) s) w) ->
  run FFv3.flood_fill_goal s w Q.
Proof.
  intros H. unfold FFv3.flood_fill_goal.
  rewrite seed_goal_shape. change (qBack _ =? 0)%nat with false. cbv iota.
  destruct (flood_fill_goal_flooded (FFv3.maze s)) as [dist [E F]].
  eapply run_lift; [rewrite E; reflexivity|]. apply H, F.
Qed.

Lemma run_flood_fill target s w (Q : unit -> FFv3.State -> World -> Prop) :
  is_within_bounds target = true ->
  (forall dist,
      flooded (FFv3.has_wall (FFv3.maze s)) [target] dist ->
      Q tt (FFv3.set_maze (FFv3.set_distances dist (FFv3.maze s)) s) w) ->
  run (FFv3.flood_fill target) s w Q.
Proof.
  intros Ht H. unfold FFv3.flood_fill. rewrite Ht.
  destruct (flood_fill_flooded target (FFv3.maze s) Ht) as [dist [E F]].
  eapply run_lift; [rewrite E; reflexivity|]. apply H, F.
Qed.

Lemma run_flood_fill_start s w (Q : unit -> FFv3.State -> World -> Prop) :
  (forall dist,
      flooded (FFv3.has_wall (FFv3.maze s)) [mkPoint 0 0] dist ->
      Q tt (FFv3.set_maze (FFv3.set_distances dist (FFv3.maze s)) s) w) ->
  run FFv3.flood_fill_start s w Q.
Proof. apply run_flood_fill. reflexivity. Qed.

(** ** The plain flood fills of ff.c always return *)

Lemma run_floodFillToGoal s w (Q : unit -> FF.State -> World -> Prop) :
  (forall dist,
      flooded (FF.walls s) [ff_goal_target s] dist -> Q tt (FF.set_distances dist s) w) ->
  run (lift FF.floodFillToGoal) s w Q.
Proof.
  intros H. destruct (floodFillToGoal_flooded s) as [dist [E F]].
  eapply run_lift; [exact E|]. apply H, F.
Qed.

Lemma run_floodFillToStart s w (Q : unit -> FF.State -> World -> Prop) :
  (forall dist,
      flooded (FF.walls s) [mkPoint 0 0] dist -> Q tt (FF.set_distances dist s) w) ->
  run (lift FF.floodFillToStart) s w Q.
Proof.
  intros H. destruct (floodFillToStart_flooded s) as [dist [E F]].
  eapply run_lift; [exact E|]. apply H, F.
Qed.

(** ** Turning *)

(** The commands of [turn_to_direction] of ffv3.c, newest first. *)
Definition turn_events (from target : Direction) : list Event :=
  if dir_eqb from target then []
  else if dir_diff target from =? 1 then [TurnRight; Log "Turning right" []]
  else if dir_diff target from =? 3 then [TurnLeft; Log "Turning left" []]
  else [TurnRight; TurnRight; Log "Turning around (two rights)" []].

(** [turn_to_direction] ends facing its target, after at most two turn
    commands, and changes nothing else. *)
Lemma turn_to_direction_result (target : Direction) (s : FFv3.State) (w : World) :
  FFv3.turn_to_direction target s w =
  Ok (tt,
      FFv3.set_mouse (FFv3.set_orientation target (FFv3.mouse s)) s,
      mkWorld (answers w) (asked w)
              (turn_events (FFv3.orientation (FFv3.mouse s)) target ++ trace w)%list).
Proof.
  destruct s as [[p o r g sp pl] m], w as [ans n tr].
  destruct o, target; reflexivity.
Qed.

(** The turn commands of the loop of [moveToNextCell] of ff.c, newest
    first. *)
Definition turn_commands (from target : Direction) : list Event :=
  if dir_eqb from target then []
  else if dir_diff target from =? 1 then [TurnRight]
  else if dir_diff target from =? 3 then [TurnLeft]
  else [TurnRight; TurnRight].

(** The turning loop of ff.c ends facing its target after one round, and
    changes nothing but the heading. *)
Lemma turn_to_result (minDir : Direction) (s : FF.State) (w : World) :
  FF.turn_to minDir s w =
  Ok (tt, FF.set_direction minDir s,
      mkWorld (answers w) (asked w) (turn_commands (FF.direction s) minDir ++ trace w)%list).
Proof.
  destruct s as [x y d r g e ds ws vs fp pl j], w as [ans n tr].
  destruct d, minDir; reflexivity.
Qed.

(** * Choosing the lowest neighbour

    The direction scans of both programs keep the first direction, in the
    order North, East, South, West, whose value is below everything seen
    so far. *)

Section Scan.

Variable ok : Direction -> bool.
Variable val : Direction -> Z.

Definition scan_min (init : Z) : option Direction * Z :=
  fold_left (fun acc d => if ok d && (val d <? snd acc) then (Some d, val d) else acc)
            all_dirs (None, init).

(** The scan returns the first direction of least value among the
    admissible ones, provided that value is below the initial bound. *)
Lemma scan_min_spec (init : Z) :
  match scan_min init with
  | (Some d, v) =>
      ok d = true /\ v = val d /\ val d < init /\
      (forall e, ok e = true -> val d <= val e) /\
      (forall e, ok e = true -> dir_index e < dir_index d -> val d < val e)
  | (None, v) => v = init /\ forall e, ok e = true -> init <= val e
  end.
Proof.
  unfold scan_min, all_dirs. simpl.
  destruct (ok NORTH) eqn:ON, (ok EAST) eqn:OE, (ok SOUTH) eqn:OS, (ok WEST) eqn:OW; simpl;
    repeat match goal with
           | |- context [?a <? ?b] =>
               lazymatch b with
               | context [if _ then _ else _] => fail
               | _ => destruct (Z.ltb_spec a b); simpl
               end
           end;
    repeat split; try assumption; try lia;
    try (intros e He; destruct e; solve [congruence | simpl in *; lia]);
    try (intros e He Hi; destruct e; solve [congruence | simpl in *; lia]).
Qed.

End Scan.

Lemma fold_left_agree {A B : Type} (f g : A -> B -> A) (l : list B) :
  (forall a b, f a b = g a b) -> forall a, fold_left f l a = fold_left g l a.
Proof.
  intros H. induction l as [|b l IH]; intros a; simpl; [reflexivity|].
  rewrite H. apply IH.
Qed.

(** The admissible directions of the path scans: no wall, neighbour in the
    grid. *)
Definition open_dir (blocked : Point -> Direction -> bool) (p : Point) (d : Direction) : bool :=
  negb (blocked p d) && is_within_bounds (neighbor p d).

Lemma best_step_scan (m : FFv3.Maze) (cur : Point) :
  FFv3.best_step m cur =
  fst (scan_min (open_dir (FFv3.has_wall m) cur)
                (fun d => FFv3.distances m (neighbor cur d))
                (FFv3.distances m cur)).
Proof.
  unfold FFv3.best_step, scan_min. f_equal. apply fold_left_agree.
  intros acc d. unfold open_dir. destruct (FFv3.has_wall m cur d); reflexivity.
Qed.

Lemma lowest_neighbor_scan (s : FF.State) (cur : Point) :
  FF.lowest_neighbor s cur =
  option_map (neighbor cur)
    (fst (scan_min (open_dir (FF.walls s) cur)
                   (fun d => FF.distances s (neighbor cur d))
                   (MAZE_WIDTH * MAZE_HEIGHT))).
Proof.
  unfold FF.lowest_neighbor, scan_min.
  assert (G : forall l (acc : option Direction * Z),
             fst (fold_left
                    (fun (acc : option Point * Z) dir =>
                       if FF.walls s cur dir then acc
                       else if negb (FF.inside (neighbor cur dir)) then acc
                            else if FF.distances s (neighbor cur dir) <? snd acc
                                 then (Some (neighbor cur dir), FF.distances s (neighbor cur dir))
                                 else acc)
                    l (option_map (neighbor cur) (fst acc), snd acc)) =
             option_map (neighbor cur)
               (fst (fold_left
                       (fun acc d =>
                          if open_dir (FF.walls s) cur d &&
                             (FF.distances s (neighbor cur d) <? snd acc)
                          then (Some d, FF.distances s (neighbor cur d)) else acc)
                       l acc))).
  { induction l as [|d l IH]; intros acc; simpl; [reflexivity|].
    unfold open_dir at 2. rewrite inside_is_within.
    destruct (FF.walls s cur d); simpl; [apply IH|].
    destruct (is_within_bounds (neighbor cur d)); simpl; [|apply IH].
    destruct (FF.distances s (neighbor cur d) <? snd acc); [|apply IH].
    apply (IH (Some d, FF.distances s (neighbor cur d))). }
  apply (G all_dirs (None, MAZE_WIDTH * MAZE_HEIGHT)).
Qed.

(** * Walking down a flooded field *)

(** One step of the path tracer from [p] to [q]: [q] is an open in-bounds
    neighbour of [p] with a distance strictly below that of [p], least
    among the open in-bounds neighbours of [p], and first in the order
    North, East, South, West among those of least distance. *)
Definition greedy_step (blocked : Point -> Direction -> bool) (dist : Grid Z)
    (p q : Point) : Prop :=
  exists d,
    q = neighbor p d /\ blocked p d = false /\ is_within_bounds q = true /\
    dist q < dist p /\
    forall e, blocked p e = false -> is_within_bounds (neighbor p e) = true ->
              dist q <= dist (neighbor p e) /\
              (dir_index e < dir_index d -> dist q < dist (neighbor p e)).

Lemma is_at_goal_iff (p : Point) : is_at_goal p = true <-> In p goal_cells.
Proof.
  unfold is_at_goal, goal_cells, GOAL_X1, GOAL_X2, GOAL_Y1, GOAL_Y2. destruct p as [x y]. simpl.
  rewrite andb_true_iff, !orb_true_iff, !Z.eqb_eq. split.
  - intros [[-> | ->] [-> | ->]]; auto.
  - intros [H|[H|[H|[H|[]]]]]; inversion H; auto.
Qed.

Section Descent.

Variable blocked : Point -> Direction -> bool.
Variable srcs : list Point.
Variable dist : Grid Z.

Hypothesis srcs_within : Forall (fun p => is_within_bounds p = true) srcs.
Hypothesis blocked_sym :
  forall u d, is_within_bounds u = true -> is_within_bounds (neighbor u d) = true ->
              blocked u d = blocked (neighbor u d) (get_opposite_direction d).
Hypothesis F : flooded blocked srcs dist.

Lemma reach_cases (n : Z) (p : Point) :
  reach blocked srcs n p ->
  (n = 0 /\ In p srcs) \/
  (exists k u d, n = k + 1 /\ p = neighbor u d /\ reach blocked srcs k u /\
                 blocked u d = false /\ is_within_bounds p = true).
Proof. destruct 1; [left; auto|right; eauto 10]. Qed.

Lemma dist_zero_source (p : Point) : dist p = 0 -> In p srcs.
Proof.
  intros H.
  assert (R : reach blocked srcs (dist p) p).
  { apply (fl_sound _ _ _ F). rewrite H. discriminate. }
  destruct (reach_cases _ _ R) as [[_ Hs]|[k [u [d [Hk [_ [Hr _]]]]]]]; [assumption|].
  apply reach_nonneg in Hr. lia.
Qed.

Lemma neighbor_not_far (cur : Point) (e : Direction) :
  is_within_bounds cur = true ->
  blocked cur e = false ->
  is_within_bounds (neighbor cur e) = true ->
  dist cur - 1 <= dist (neighbor cur e).
Proof.
  intros Hc Hb Hn.
  destruct (Z.eq_dec (dist (neighbor cur e)) MAX_CELLS) as [E|E].
  - rewrite E. destruct (fl_range _ _ _ F cur); lia.
  - pose proof (fl_sound _ _ _ F _ E) as R.
    assert (R' : reach blocked srcs (dist (neighbor cur e) + 1)
                       (neighbor (neighbor cur e) (get_opposite_direction e))).
    { apply reach_next; [exact R| |rewrite neighbor_back; exact Hc].
      rewrite <- blocked_sym; assumption. }
    rewrite neighbor_back in R'. apply (fl_least _ _ _ F) in R'. lia.
Qed.

Lemma descent_exists (cur : Point) :
  dist cur <> MAX_CELLS -> dist cur <> 0 ->
  exists d, blocked cur d = false /\ is_within_bounds (neighbor cur d) = true /\
            dist (neighbor cur d) = dist cur - 1.
Proof.
  intros Hfin Hpos.
  pose proof (fl_sound _ _ _ F _ Hfin) as R.
  destruct (reach_cases _ _ R) as [[Hz _]|[n [u [d [Hz [Hu [Hr [Hb Hn]]]]]]]].
  - congruence.
  - assert (Hu' : is_within_bounds u = true) by (eapply reach_within; eauto).
    subst cur.
    exists (get_opposite_direction d). rewrite !neighbor_back.
    split; [|split; [exact Hu'|]].
    + rewrite (blocked_sym u d Hu' Hn) in Hb. exact Hb.
    + pose proof (fl_least _ _ _ F _ _ Hr) as [Hle Hfu].
      pose proof (fl_sound _ _ _ F _ Hfu) as Ru.
      pose proof (reach_next _ _ _ _ _ Ru Hb Hn) as Rc.
      apply (fl_least _ _ _ F) in Rc. lia.
Qed.

(** On a flooded field the scan bounded by [bound], any bound above the
    distance of the cell less one, finds the step down by one. *)
Lemma scan_descends (cur : Point) (bound : Z) :
  is_within_bounds cur = true ->
  dist cur <> MAX_CELLS -> dist cur <> 0 -> dist cur <= bound ->
  exists d,
    fst (scan_min (open_dir blocked cur) (fun d => dist (neighbor cur d)) bound) = Some d /\
    dist (neighbor cur d) = dist cur - 1 /\
    greedy_step blocked dist cur (neighbor cur d).
Proof.
  intros Hc Hfin Hpos Hb.
  destruct (descent_exists cur Hfin Hpos) as [d0 [Hb0 [Hn0 Hd0]]].
  pose proof (scan_min_spec (open_dir blocked cur) (fun d => dist (neighbor cur d)) bound) as S.
  destruct (scan_min _ _ bound) as [[d|] v].
  - destruct S as [Hok [_ [Hlt [Hmin Hfirst]]]]. exists d. split; [reflexivity|].
    unfold open_dir in Hok. apply andb_true_iff in Hok. destruct Hok as [Hw Hn].
    apply negb_true_iff in Hw.
    assert (Hle : dist (neighbor cur d) <= dist (neighbor cur d0)).
    { apply Hmin. unfold open_dir. rewrite Hb0, Hn0. reflexivity. }
    pose proof (neighbor_not_far cur d Hc Hw Hn) as Hge.
    split; [lia|].
    exists d. split; [reflexivity|]. split; [exact Hw|]. split; [exact Hn|]. split; [lia|].
    intros e He Hne. split.
    + apply Hmin. unfold open_dir. rewrite He, Hne. reflexivity.
    + apply Hfirst. unfold open_dir. rewrite He, Hne. reflexivity.
  - destruct S as [_ Hall]. exfalso.
    assert (H : bound <= dist (neighbor cur d0)).
    { apply Hall. unfold open_dir. rewrite Hb0, Hn0. reflexivity. }
    lia.
Qed.

Lemma neighbor_unreachable (cur : Point) (e : Direction) :
  is_within_bounds cur = true ->
  dist cur = MAX_CELLS ->
  blocked cur e = false ->
  is_within_bounds (neighbor cur e) = true ->
  dist (neighbor cur e) = MAX_CELLS.
Proof.
  intros Hc Hinf Hb Hn.
  destruct (Z.eq_dec (dist (neighbor cur e)) MAX_CELLS) as [E|E]; [exact E|exfalso].
  pose proof (fl_sound _ _ _ F _ E) as R.
  assert (R' : reach blocked srcs (dist (neighbor cur e) + 1)
                     (neighbor (neighbor cur e) (get_opposite_direction e))).
  { apply reach_next; [exact R| |rewrite neighbor_back; exact Hc].
    rewrite <- blocked_sym; assumption. }
  rewrite neighbor_back in R'. apply (fl_least _ _ _ F) in R'. tauto.
Qed.

(** From a cell out of reach the scan bounded by the sentinel finds
    nothing. *)
Lemma scan_unreachable (cur : Point) :
  is_within_bounds cur = true ->
  dist cur = MAX_CELLS ->
  fst (scan_min (open_dir blocked cur) (fun d => dist (neighbor cur d)) MAX_CELLS) = None.
Proof.
  intros Hc Hinf.
  pose proof (scan_min_spec (open_dir blocked cur) (fun d => dist (neighbor cur d)) MAX_CELLS) as S.
  destruct (scan_min _ _ MAX_CELLS) as [[d|] v]; [exfalso|reflexivity].
  destruct S as [Hok [_ [Hlt _]]].
  unfold open_dir in Hok. apply andb_true_iff in Hok. destruct Hok as [Hw Hn].
  apply negb_true_iff in Hw.
  rewrite (neighbor_unreachable cur d Hc Hinf Hw Hn) in Hlt. lia.
Qed.

End Descent.

(** * Tracing the path *)

Lemma has_wall_sym (m : FFv3.Maze) :
  wall_symmetric (FFv3.walls m) ->
  forall u d, is_within_bounds u = true -> is_within_bounds (neighbor u d) = true ->
              FFv3.has_wall m u d = FFv3.has_wall m (neighbor u d) (get_opposite_direction d).
Proof.
  intros Hs u d Hu Hn. rewrite !has_wall_within by assumption. apply Hs; assumption.
Qed.

(** The stored cells [path 0 .. path (len - 1)] lead from the start cell
    to a goal cell by steps of the path tracer. *)
Definition greedy_path (blocked : Point -> Direction -> bool) (dist : Grid Z)
    (path : Z -> Point) (len : Z) : Prop :=
  1 <= len /\ path 0 = mkPoint 0 0 /\
  (forall i, 1 <= i < len -> greedy_step blocked dist (path (i - 1)) (path i)) /\
  is_at_goal (path (len - 1)) = true.

(** The state of ffv3.c with another stored path. *)
Definition with_path3 (sp : Z -> Point) (len : Z) (s : FFv3.State) : FFv3.State :=
  FFv3.set_mouse
    (FFv3.mkMouse (FFv3.pos (FFv3.mouse s)) (FFv3.orientation (FFv3.mouse s))
                  (FFv3.mode (FFv3.mouse s)) (FFv3.goal_found (FFv3.mouse s)) sp len) s.

Lemma with_path3_same (s : FFv3.State) :
  with_path3 (FFv3.shortest_path (FFv3.mouse s)) (FFv3.path_length (FFv3.mouse s)) s = s.
Proof. destruct s as [[p o r g sp pl] m]. reflexivity. Qed.

(** The loop of [compute_shortest_path] on a flooded field: from a cell
    [cur] of finite distance it returns after [distances cur] steps down,
    the last of them onto a goal cell. *)
Lemma trace_path3_run : forall fuel cur s w,
  flooded (FFv3.has_wall (FFv3.maze s)) goal_cells (FFv3.distances (FFv3.maze s)) ->
  wall_symmetric (FFv3.walls (FFv3.maze s)) ->
  is_within_bounds cur = true ->
  FFv3.distances (FFv3.maze s) cur <> MAX_CELLS ->
  (Z.to_nat (FFv3.distances (FFv3.maze s) cur) < fuel)%nat ->
  1 <= FFv3.path_length (FFv3.mouse s) ->
  FFv3.path_length (FFv3.mouse s) + FFv3.distances (FFv3.maze s) cur <= MAX_CELLS ->
  FFv3.shortest_path (FFv3.mouse s) (FFv3.path_length (FFv3.mouse s) - 1) = cur ->
  run (FFv3.trace_path fuel cur) s w
      (fun _ s' _ =>
         let L := FFv3.path_length (FFv3.mouse s) in
         let k := FFv3.distances (FFv3.maze s) cur in
         exists sp',
           s' = with_path3 sp' (L + k) s /\
           (forall i, i < L -> sp' i = FFv3.shortest_path (FFv3.mouse s) i) /\
           (forall i, L <= i < L + k ->
                      greedy_step (FFv3.has_wall (FFv3.maze s)) (FFv3.distances (FFv3.maze s))
                                  (sp' (i - 1)) (sp' i)) /\
           is_at_goal (sp' (L + k - 1)) = true).
Proof.
  induction fuel as [|fuel IH]; intros cur s w F Hsym Hc Hfin Hfuel HL Hmax Hlast; [lia|].
  cbn [FFv3.trace_path].
  pose proof (fl_range _ _ _ F cur) as Hrange.
  destruct (is_at_goal cur) eqn:G.
  - assert (H0 : FFv3.distances (FFv3.maze s) cur = 0).
    { apply (fl_sources _ _ _ F). apply is_at_goal_iff. exact G. }
    run_steps. cbv zeta. rewrite H0, !Z.add_0_r.
    exists (FFv3.shortest_path (FFv3.mouse s)).
    split; [symmetry; apply with_path3_same|]. split; [reflexivity|].
    split; [intros i Hi; lia|]. rewrite Hlast. exact G.
  - assert (Hpos : FFv3.distances (FFv3.maze s) cur <> 0).
    { intros H0. apply (dist_zero_source _ _ _ F) in H0.
      apply is_at_goal_iff in H0. congruence. }
    destruct (scan_descends (FFv3.has_wall (FFv3.maze s)) goal_cells
                (FFv3.distances (FFv3.maze s)) goal_cells_within
                (has_wall_sym _ Hsym) F cur (FFv3.distances (FFv3.maze s) cur)
                Hc Hfin Hpos (Z.le_refl _)) as [d [Hscan [Hd Hg]]].
    apply run_bind, run_gets. rewrite best_step_scan, Hscan. rewrite delta_neighbor.
    assert (Hlt : (FFv3.path_length (FFv3.mouse s) <? MAX_CELLS) = true)
      by (apply Z.ltb_lt; lia).
    rewrite Hlt. apply run_bind, run_modify.
    set (s1 := FFv3.set_mouse (FFv3.push_path (neighbor cur d) (FFv3.mouse s)) s).
    assert (Hin : is_within_bounds (neighbor cur d) = true).
    { destruct Hg as [e [He [_ [Hi _]]]]. exact Hi. }
    refine (run_weaken _ _ _ _ _ _ (IH (neighbor cur d) s1 w F Hsym Hin _ _ _ _ _)).
    + intros _ s' _ [sp' [Hs' [Hpre [Hsteps Hgoal]]]].
      change (FFv3.maze s1) with (FFv3.maze s) in *.
      change (FFv3.path_length (FFv3.mouse s1))
        with (FFv3.path_length (FFv3.mouse s) + 1) in *.
      change (FFv3.shortest_path (FFv3.mouse s1))
        with (path_set (FFv3.shortest_path (FFv3.mouse s))
                       (FFv3.path_length (FFv3.mouse s)) (neighbor cur d)) in *.
      cbv zeta in *. rewrite Hd in *.
      replace (FFv3.path_length (FFv3.mouse s) + 1 +
               (FFv3.distances (FFv3.maze s) cur - 1))
        with (FFv3.path_length (FFv3.mouse s) + FFv3.distances (FFv3.maze s) cur) in * by lia.
      exists sp'. split; [exact Hs'|]. split; [|split; [|exact Hgoal]].
      * intros i Hi. rewrite Hpre by lia. unfold path_set.
        destruct (Z.eqb_spec i (FFv3.path_length (FFv3.mouse s))); [lia|reflexivity].
      * intros i Hi.
        destruct (Z.eq_dec i (FFv3.path_length (FFv3.mouse s))) as [->|Hne].
        -- rewrite !Hpre by lia. unfold path_set. rewrite Z.eqb_refl.
           destruct (Z.eqb_spec (FFv3.path_length (FFv3.mouse s) - 1)
                                (FFv3.path_length (FFv3.mouse s))); [lia|].
           rewrite Hlast. exact Hg.
        -- apply Hsteps. lia.
    + change (FFv3.maze s1) with (FFv3.maze s). rewrite Hd. unfold MAX_CELLS in *.
      unfold MAZE_WIDTH, MAZE_HEIGHT in *. lia.
    + change (FFv3.maze s1) with (FFv3.maze s). rewrite Hd. lia.
    + change (FFv3.path_length (FFv3.mouse s1)) with (FFv3.path_length (FFv3.mouse s) + 1). lia.
    + change (FFv3.maze s1) with (FFv3.maze s).
      change (FFv3.path_length (FFv3.mouse s1)) with (FFv3.path_length (FFv3.mouse s) + 1).
      rewrite Hd. lia.
    + change (FFv3.shortest_path (FFv3.mouse s1) (FFv3.path_length (FFv3.mouse s1) - 1))
        with (path_set (FFv3.shortest_path (FFv3.mouse s))
                       (FFv3.path_length (FFv3.mouse s)) (neighbor cur d)
                       (FFv3.path_length (FFv3.mouse s) + 1 - 1)).
      unfold path_set.
      replace (FFv3.path_length (FFv3.mouse s) + 1 - 1)
        with (FFv3.path_length (FFv3.mouse s)) by lia.
      rewrite Z.eqb_refl. reflexivity.
Qed.

Lemma set_path_same (s : FF.State) : FF.set_path (FF.fastestPath s) (FF.pathLength s) s = s.
Proof. destruct s. reflexivity. Qed.

(** The loop of [computeShortestPath] on a field flooded from one goal
    cell: from a cell [cur] of finite distance it returns after at most
    [distances cur] steps down, the last of them onto a goal cell. *)
Lemma trace_path_run : forall fuel cur s w g,
  In g goal_cells ->
  flooded (FF.walls s) [g] (FF.distances s) ->
  wall_symmetric (FF.walls s) ->
  is_within_bounds cur = true ->
  FF.distances s cur <> MAX_CELLS ->
  (Z.to_nat (FF.distances s cur) < fuel)%nat ->
  1 <= FF.pathLength s ->
  FF.pathLength s + FF.distances s cur <= MAX_CELLS ->
  FF.fastestPath s (FF.pathLength s - 1) = cur ->
  run (FF.trace_path fuel cur) s w
      (fun _ s' _ =>
         exists fp' len',
           s' = FF.set_path fp' len' s /\
           FF.pathLength s <= len' <= FF.pathLength s + FF.distances s cur /\
           (forall i, i < FF.pathLength s -> fp' i = FF.fastestPath s i) /\
           (forall i, FF.pathLength s <= i < len' ->
                      greedy_step (FF.walls s) (FF.distances s) (fp' (i - 1)) (fp' i)) /\
           is_at_goal (fp' (len' - 1)) = true).
Proof.
  induction fuel as [|fuel IH]; intros cur s w g Hg F Hsym Hc Hfin Hfuel HL Hmax Hlast; [lia|].
  cbn [FF.trace_path].
  assert (Hgin : Forall (fun p => is_within_bounds p = true) [g]).
  { constructor; [|constructor]. pose proof goal_cells_within as G.
    rewrite Forall_forall in G. auto. }
  pose proof (fl_range _ _ _ F cur) as Hrange.
  destruct (is_at_goal cur) eqn:G.
  - run_steps.
    exists (FF.fastestPath s), (FF.pathLength s).
    split; [symmetry; apply set_path_same|]. split; [lia|]. split; [reflexivity|].
    split; [intros i Hi; lia|]. rewrite Hlast. exact G.
  - assert (Hpos : FF.distances s cur <> 0).
    { intros H0. apply (dist_zero_source _ _ _ F) in H0. destruct H0 as [<-|[]].
      apply is_at_goal_iff in Hg. congruence. }
    destruct (scan_descends (FF.walls s) [g] (FF.distances s) Hgin Hsym F cur
                (MAZE_WIDTH * MAZE_HEIGHT) Hc Hfin Hpos) as [d [Hscan [Hd Hgs]]].
    { unfold MAX_CELLS in *. lia. }
    apply run_bind, run_gets. rewrite lowest_neighbor_scan, Hscan. cbn [option_map].
    assert (Hlt : (FF.pathLength s <? MAZE_WIDTH * MAZE_HEIGHT) = true)
      by (apply Z.ltb_lt; unfold MAX_CELLS in *; lia).
    rewrite Hlt. apply run_bind, run_modify. run_steps.
    set (s1 := FF.set_path (path_set (FF.fastestPath s) (FF.pathLength s) (neighbor cur d))
                           (FF.pathLength s + 1) s).
    assert (Hin : is_within_bounds (neighbor cur d) = true).
    { destruct Hgs as [e [He [_ [Hi _]]]]. exact Hi. }
    refine (run_weaken _ _ _ _ _ _ (IH (neighbor cur d) s1 _ g Hg F Hsym Hin _ _ _ _ _)).
    + intros _ s' _ [fp' [len' [Hs' [Hlen [Hpre [Hsteps Hgoal]]]]]].
      change (FF.walls s1) with (FF.walls s) in *.
      change (FF.distances s1) with (FF.distances s) in *.
      change (FF.pathLength s1) with (FF.pathLength s + 1) in *.
      change (FF.fastestPath s1)
        with (path_set (FF.fastestPath s) (FF.pathLength s) (neighbor cur d)) in *.
      rewrite Hd in *.
      exists fp', len'. split; [exact Hs'|]. split; [lia|]. split; [|split; [|exact Hgoal]].
      * intros i Hi. rewrite Hpre by lia. unfold path_set.
        destruct (Z.eqb_spec i (FF.pathLength s)); [lia|reflexivity].
      * intros i Hi.
        destruct (Z.eq_dec i (FF.pathLength s)) as [->|Hne].
        -- rewrite !Hpre by lia. unfold path_set. rewrite Z.eqb_refl.
           destruct (Z.eqb_spec (FF.pathLength s - 1) (FF.pathLength s)); [lia|].
           rewrite Hlast. exact Hgs.
        -- apply Hsteps. lia.
    + change (FF.distances s1) with (FF.distances s). rewrite Hd.
      unfold MAX_CELLS, MAZE_WIDTH, MAZE_HEIGHT in *. lia.
    + change (FF.distances s1) with (FF.distances s). rewrite Hd. lia.
    + change (FF.pathLength s1) with (FF.pathLength s + 1). lia.
    + change (FF.distances s1) with (FF.distances s).
      change (FF.pathLength s1) with (FF.pathLength s + 1). rewrite Hd. lia.
    + change (FF.fastestPath s1 (FF.pathLength s1 - 1))
        with (path_set (FF.fastestPath s) (FF.pathLength s) (neighbor cur d)
                       (FF.pathLength s + 1 - 1)).
      unfold path_set. replace (FF.pathLength s + 1 - 1) with (FF.pathLength s) by lia.
      rewrite Z.eqb_refl. reflexivity.
Qed.

(** * The path planners *)

(** [compute_shortest_path] of ffv3.c on a symmetric wall map: it
    returns; the distance field is the flood fill from the goal region;
    when the start cell is out of reach of the goal the stored path is
    empty and the error is logged, otherwise the stored path leads from the
    start cell to a goal cell by [distances start] greedy steps. *)
Lemma compute_shortest_path_run (s : FFv3.State) (w : World) :
  wall_symmetric (FFv3.walls (FFv3.maze s)) ->
  run FFv3.compute_shortest_path s w
      (fun _ s' w' =>
         exists dist sp len,
           s' = with_path3 sp len (FFv3.set_maze (FFv3.set_distances dist (FFv3.maze s)) s) /\
           flooded (FFv3.has_wall (FFv3.maze s)) goal_cells dist /\
           ((dist (mkPoint 0 0) = MAX_CELLS /\ len = 0 /\
             w' = told (Log "ERROR: Start cell is unreachable from goal!" [])
                       (told (Log "Computing shortest path from start to goal..." []) w)) \/
            (dist (mkPoint 0 0) <> MAX_CELLS /\ len = 1 + dist (mkPoint 0 0) /\
             greedy_path (FFv3.has_wall (FFv3.maze s)) dist sp len))).
Proof.
  intros Hsym. unfold FFv3.compute_shortest_path.
  apply run_bind, run_emit. apply run_bind, run_flood_fill_goal. intros dist F.
  apply run_bind, run_modify. apply run_bind, run_gets.
  cbn [FFv3.maze FFv3.mouse FFv3.set_maze FFv3.set_mouse FFv3.distances FFv3.set_distances].
  change INVALID_DISTANCE with MAX_CELLS.
  destruct (Z.eqb_spec (dist (mkPoint 0 0)) MAX_CELLS) as [E|E].
  - run_steps. exists dist, (FFv3.shortest_path (FFv3.mouse s)), 0.
    split; [reflexivity|]. split; [exact F|]. left. auto.
  - apply run_bind, run_modify.
    set (s1 := FFv3.set_mouse
                 (FFv3.push_path (mkPoint 0 0)
                    (FFv3.set_path_length 0 (FFv3.mouse s)))
                 (FFv3.set_maze (FFv3.set_distances dist (FFv3.maze s)) s)).
    pose proof (fl_range _ _ _ F (mkPoint 0 0)) as Hrange.
    refine (run_weaken _ _ _ _ _ _
              (trace_path3_run 257 (mkPoint 0 0) s1 _ F Hsym eq_refl E _ _ _ eq_refl)).
    + intros _ s' w' [sp' [Hs' [Hpre [Hsteps Hgoal]]]].
      change (FFv3.path_length (FFv3.mouse s1)) with 1 in *.
      change (FFv3.distances (FFv3.maze s1)) with dist in *.
      change (FFv3.has_wall (FFv3.maze s1)) with (FFv3.has_wall (FFv3.maze s)) in *.
      exists dist, sp', (1 + dist (mkPoint 0 0)).
      split; [exact Hs'|]. split; [exact F|]. right.
      split; [exact E|]. split; [reflexivity|].
      split; [lia|]. split; [apply (Hpre 0); lia|]. split; [exact Hsteps|exact Hgoal].
    + change (FFv3.distances (FFv3.maze s1)) with dist.
      unfold MAX_CELLS, MAZE_WIDTH, MAZE_HEIGHT in *. lia.
    + change (FFv3.path_length (FFv3.mouse s1)) with 1. lia.
    + change (FFv3.path_length (FFv3.mouse s1)) with 1.
      change (FFv3.distances (FFv3.maze s1)) with dist.
      unfold MAX_CELLS, MAZE_WIDTH, MAZE_HEIGHT in *. lia.
Qed.

(** [computeShortestPath] of ff.c on a symmetric wall map: it returns;
    the distance field is the flood fill from the goal cell closest to the
    mouse; when the start cell is out of reach of that cell the stored path
    is the start cell alone and the error is logged, otherwise the stored
    path leads from the start cell to a goal cell by at most
    [distances start] greedy steps. *)
Lemma computeShortestPath_run (s : FF.State) (w : World) :
  wall_symmetric (FF.walls s) ->
  run FF.computeShortestPath s w
      (fun _ s' w' =>
         exists dist fp len,
           s' = FF.set_path fp len (FF.set_distances dist s) /\
           flooded (FF.walls s) [ff_goal_target s] dist /\
           fp 0 = mkPoint 0 0 /\
           ((dist (mkPoint 0 0) = MAX_CELLS /\ len = 1 /\
             w' = told (Log "ERROR: Failed to compute shortest path!" [])
                       (told (Log "Computing shortest path from start to goal" []) w)) \/
            (dist (mkPoint 0 0) <> MAX_CELLS /\ len <= 1 + dist (mkPoint 0 0) /\
             greedy_path (FF.walls s) dist fp len))).
Proof.
  intros Hsym. unfold FF.computeShortestPath.
  apply run_bind, run_emit. apply run_bind, run_modify.
  apply run_bind, run_floodFillToGoal. intros dist F.
  set (s1 := FF.set_distances dist
               (FF.set_path (path_set (FF.fastestPath s) 0 (mkPoint 0 0)) 1 s)).
  change (ff_goal_target (FF.set_path (path_set (FF.fastestPath s) 0 (mkPoint 0 0)) 1 s))
    with (ff_goal_target s) in F.
  change (FF.walls (FF.set_path (path_set (FF.fastestPath s) 0 (mkPoint 0 0)) 1 s))
    with (FF.walls s) in F.
  pose proof (fl_range _ _ _ F (mkPoint 0 0)) as Hrange.
  destruct (Z.eq_dec (dist (mkPoint 0 0)) MAX_CELLS) as [E|E].
  - cbn [FF.trace_path]. change (is_at_goal (mkPoint 0 0)) with false. cbv iota.
    apply run_bind, run_gets. rewrite lowest_neighbor_scan.
    change (MAZE_WIDTH * MAZE_HEIGHT) with MAX_CELLS.
    rewrite (scan_unreachable (FF.walls s1) [ff_goal_target s] (FF.distances s1)).
    + cbn [option_map]. run_steps.
      exists dist, (path_set (FF.fastestPath s) 0 (mkPoint 0 0)), 1.
      split; [reflexivity|]. split; [exact F|]. split; [reflexivity|]. left. auto.
    + exact Hsym.
    + exact F.
    + reflexivity.
    + exact E.
  - refine (run_weaken _ _ _ _ _ _
              (trace_path_run 257 (mkPoint 0 0) s1 _ (ff_goal_target s)
                 (goal_target_is_goal _) F Hsym eq_refl E _ _ _ eq_refl)).
    + intros _ s' w' [fp' [len' [Hs' [Hlen [Hpre [Hsteps Hgoal]]]]]].
      change (FF.pathLength s1) with 1 in *.
      change (FF.distances s1) with dist in *.
      change (FF.walls s1) with (FF.walls s) in *.
      exists dist, fp', len'.
      split; [exact Hs'|]. split; [exact F|]. split; [apply (Hpre 0); lia|]. right.
      split; [exact E|]. split; [lia|].
      split; [lia|]. split; [apply (Hpre 0); lia|]. split; [exact Hsteps|exact Hgoal].
    + change (FF.distances s1) with dist.
      unfold MAX_CELLS, MAZE_WIDTH, MAZE_HEIGHT in *. lia.
    + change (FF.pathLength s1) with 1. lia.
    + change (FF.pathLength s1) with 1. change (FF.distances s1) with dist.
      unfold MAX_CELLS, MAZE_WIDTH, MAZE_HEIGHT in *. lia.
Qed.

(** * Checking the stored path *)

Lemma run_when {St : Type} (b : bool) (m : M St unit) s w (Q : unit -> St -> World -> Prop) :
  (b = true -> run m s w Q) -> (b = false -> Q tt s w) -> run (when b m) s w Q.
Proof. intros Ht Hf. destruct b; simpl; [apply Ht|apply Hf]; reflexivity. Qed.

(** [find_move] of ffv3.c finds the direction of a neighbouring cell. *)
Lemma find_move3_some (prev p : Point) (d : Direction) :
  FFv3.find_move prev p = Some d -> neighbor prev d = p.
Proof.
  unfold FFv3.find_move. intros H. apply find_some in H. destruct H as [_ H].
  apply andb_true_iff in H. destruct H as [Hx Hy].
  apply Z.eqb_eq in Hx, Hy. destruct p as [x y]. unfold neighbor. simpl in *. congruence.
Qed.

Lemma find_move3_none (prev p : Point) (d : Direction) :
  FFv3.find_move prev p = None -> neighbor prev d <> p.
Proof.
  unfold FFv3.find_move. intros H E.
  pose proof (find_none _ _ H d (all_dirs_complete d)) as Hd. simpl in Hd.
  rewrite <- E in Hd. unfold neighbor in Hd. simpl in Hd. rewrite !Z.eqb_refl in Hd.
  discriminate.
Qed.

(** The checks of [verify_path_exploration] on the path cell of index
    [i]: inside the grid, visited, and joined to its predecessor by an edge
    without a wall. *)
Definition cell_checked (ms : FFv3.MouseState) (m : FFv3.Maze) (i : Z) : Prop :=
  is_within_bounds (FFv3.shortest_path ms i) = true /\
  FFv3.visited m (FFv3.shortest_path ms i) = true /\
  (0 < i -> exists d, neighbor (FFv3.shortest_path ms (i - 1)) d = FFv3.shortest_path ms i /\
                      FFv3.has_wall m (FFv3.shortest_path ms (i - 1)) d = false).

(** The stored path has at least two cells and passes the checks at every
    index. *)
Definition path_explored (ms : FFv3.MouseState) (m : FFv3.Maze) : Prop :=
  1 < FFv3.path_length ms /\
  forall i, 0 <= i < FFv3.path_length ms -> cell_checked ms m i.

Lemma verify_steps_run (ms : FFv3.MouseState) (m : FFv3.Maze) :
  forall idx s w,
    run (FFv3.verify_steps ms m idx) s w
        (fun b s' _ => s' = s /\ (b = true <-> forall i, In i idx -> cell_checked ms m i)).
Proof.
  induction idx as [|i idx IH]; intros s w; cbn [FFv3.verify_steps].
  - run_steps. split; [reflexivity|]. split; [intros _ i []|reflexivity].
  - destruct (is_within_bounds (FFv3.shortest_path ms i)) eqn:Hin; cbn [negb].
    2:{ run_steps. split; [reflexivity|]. split; [discriminate|].
        intros H. destruct (H i (or_introl eq_refl)) as [H1 _]. congruence. }
    destruct (FFv3.visited m (FFv3.shortest_path ms i)) eqn:Hvis; cbn [negb].
    2:{ run_steps. split; [reflexivity|]. split; [discriminate|].
        intros H. destruct (H i (or_introl eq_refl)) as [_ [H1 _]]. congruence. }
    assert (Hedge : (0 < i -> exists d,
                        neighbor (FFv3.shortest_path ms (i - 1)) d = FFv3.shortest_path ms i /\
                        FFv3.has_wall m (FFv3.shortest_path ms (i - 1)) d = false) <->
                    (if i >? 0
                     then match FFv3.find_move (FFv3.shortest_path ms (i - 1))
                                               (FFv3.shortest_path ms i) with
                          | Some move_dir => FFv3.has_wall m (FFv3.shortest_path ms (i - 1)) move_dir
                          | None => true
                          end
                     else false) = false).
    { destruct (Z.gtb_spec i 0) as [Hi|Hi]; [|split; [reflexivity|intros _ Hc; lia]].
      destruct (FFv3.find_move _ _) as [md|] eqn:Hf.
      - pose proof (find_move3_some _ _ _ Hf) as Hmd. split.
        + intros H. destruct (H Hi) as [d [Hd Hw]].
          rewrite <- Hmd in Hd. apply neighbor_inj_dir in Hd. subst d. exact Hw.
        + intros Hw _. exists md. auto.
      - split; [|discriminate]. intros H. destruct (H Hi) as [d [Hd _]].
        exfalso. exact (find_move3_none _ _ d Hf Hd). }
    destruct (if i >? 0 then _ else false) eqn:Hbad.
    + run_steps. split; [reflexivity|]. split; [discriminate|].
      intros H. destruct (H i (or_introl eq_refl)) as [_ [_ H1]].
      apply Hedge in H1. discriminate.
    + refine (run_weaken _ _ _ _ _ _ (IH s w)).
      intros b s' _ [-> Hb]. split; [reflexivity|]. rewrite Hb. split.
      * intros H j [<-|Hj]; [|apply H, Hj].
        split; [exact Hin|]. split; [exact Hvis|]. apply Hedge. reflexivity.
      * intros H j Hj. apply H. right. exact Hj.
Qed.

(** [verify_path_exploration] returns, changes nothing, and answers
    [true] exactly when the stored path is explored. *)
Lemma verify_path_exploration_run (s : FFv3.State) (w : World) :
  run FFv3.verify_path_exploration s w
      (fun b s' _ => s' = s /\ (b = true <-> path_explored (FFv3.mouse s) (FFv3.maze s))).
Proof.
  unfold FFv3.verify_path_exploration. apply run_bind, run_gets.
  destruct (Z.leb_spec (FFv3.path_length (FFv3.mouse s)) 1) as [Hle|Hgt].
  - run_steps. split; [reflexivity|]. split; [discriminate|]. intros [H _]. lia.
  - apply run_bind, run_emit.
    refine (run_weaken _ _ _ _ _ _ (verify_steps_run _ _ _ _ _)).
    intros b s' _ [-> Hb]. split; [reflexivity|]. rewrite Hb. unfold path_explored. split.
    + intros H. split; [exact Hgt|]. intros i Hi. apply H, in_zrange. lia.
    + intros [_ H] i Hi. apply H. apply in_zrange in Hi. lia.
Qed.

(** The loop of [verifyShortestPath] of ff.c returns and changes nothing. *)
Lemma verify_steps_frame : forall idx cur s w,
  run (FF.verify_steps idx cur) s w (fun _ s' _ => s' = s).
Proof.
  induction idx as [|i idx IH]; intros cur s w; cbn [FF.verify_steps].
  - run_steps. reflexivity.
  - apply run_bind, run_gets.
    destruct (FF.find_move cur (FF.fastestPath s i)) as [d|]; [|run_steps; reflexivity].
    destruct (FF.walls s cur d); [run_steps; reflexivity|apply IH].
Qed.

Lemma verifyShortestPath_frame (s : FF.State) (w : World) :
  run FF.verifyShortestPath s w (fun _ s' _ => s' = s).
Proof.
  unfold FF.verifyShortestPath. apply run_bind, run_emit. apply run_bind, run_gets.
  apply verify_steps_frame.
Qed.

(** * Sensing at the current cell (ffv3.c) *)

(** What sensing may change in the maze [m0]: the walls, and those only
    by mirrored writes. *)
Definition sensed (m0 m : FFv3.Maze) : Prop :=
  FFv3.distances m = FFv3.distances m0 /\
  FFv3.visited m = FFv3.visited m0 /\
  (wall_symmetric (FFv3.walls m0) -> wall_symmetric (FFv3.walls m)) /\
  (forall c d, FFv3.walls m0 c d = true -> FFv3.walls m c d = true).

Lemma sensed_refl m0 : sensed m0 m0.
Proof. repeat split; auto. Qed.

Lemma sensed_set_wall m0 m p d : sensed m0 m -> sensed m0 (FFv3.set_wall p d m).
Proof.
  intros [H1 [H2 [H3 H4]]]. destruct (set_wall_frame p d m) as [F1 F2].
  split; [congruence|]. split; [congruence|]. split.
  - intros Hs. rewrite set_wall_walls. destruct (is_within_bounds p); auto.
    apply mirror_set_symmetric; auto.
  - intros c e Hw. rewrite set_wall_walls. destruct (is_within_bounds p); auto.
    apply mirror_set_true_mono; auto.
Qed.

Lemma update_walls_current_cell_run (s : FFv3.State) (w : World)
    (Q : unit -> FFv3.State -> World -> Prop) :
  (forall m' w', sensed (FFv3.maze s) m' -> Q tt (FFv3.set_maze m' s) w') ->
  run FFv3.update_walls_current_cell s w Q.
Proof.
  intros H. unfold FFv3.update_walls_current_cell. destruct s as [ms m0].
  cbn [FFv3.maze] in H.
  assert (Hstep : forall b p d (k : M FFv3.State unit) m w1,
             sensed m0 m ->
             (forall m', sensed m0 m' -> run k (FFv3.mkState ms m') w1 Q) ->
             run (bind (when b (FFv3.on_maze (FFv3.set_wall p d))) (fun _ => k))
                 (FFv3.mkState ms m) w1 Q).
  { intros b p d k m w1 Hm Hk. apply run_bind. destruct b; cbn [when].
    - apply run_modify. apply Hk, sensed_set_wall, Hm.
    - apply run_ret. apply Hk, Hm. }
  apply run_bind, run_gets. apply run_bind, run_ask.
  apply Hstep; [apply sensed_refl|]. intros m1 H1.
  apply run_bind, run_ask. apply Hstep; [exact H1|]. intros m2 H2.
  apply run_bind, run_ask.
  match goal with |- run (when ?b _) _ _ _ => destruct b end; cbn [when].
  - apply run_modify. apply (H (FFv3.set_wall _ _ m2)), sensed_set_wall, H2.
  - apply run_ret. apply (H m2), H2.
Qed.

(** * The exploration-biased fill of ff.c *)

(** ** Flooded fields and hop counts *)

(** On a flooded field the cells of finite distance are the cells that
    reach a source. *)
Lemma flooded_reachable (w : Walls) (blocked : Point -> Direction -> bool)
    (targets : list Point) (dist : Grid Z) (c : Point) :
  (forall u d, is_within_bounds u = true -> blocked u d = w u d) ->
  Forall (fun p => is_within_bounds p = true) targets ->
  wall_symmetric w ->
  flooded blocked targets dist ->
  (reachable w targets c <-> dist c <> MAX_CELLS).
Proof.
  intros Hb Ht Hs F. split.
  - intros [n [g [Hg Hh]]].
    apply (fl_least _ _ _ F n c). eapply hops_reach; eauto.
  - intros Hfin. destruct (reach_hops w blocked targets Hb Ht Hs _ _ (fl_sound _ _ _ F c Hfin))
      as [g [Hg Hh]].
    exists (dist c), g. auto.
Qed.

(** [dist] is the field of least open-edge hop counts to [targets] on the
    wall map [w], with the sentinel on the cells that reach no target. *)
Definition hop_field (w : Walls) (targets : list Point) (dist : Grid Z) : Prop :=
  forall c,
    (reachable w targets c -> min_hops w targets c (dist c)) /\
    (~ reachable w targets c -> dist c = MAX_CELLS).

(** A wall closes its edge. *)
Lemma walled_edge_closed (w : Walls) (p : Point) (d : Direction) :
  w p d = true -> ~ open_edge w p (neighbor p d).
Proof.
  intros Hw [_ [e [He [Hn _]]]]. apply neighbor_inj_dir in Hn. subst e. congruence.
Qed.

Lemma flooded_hop_field (w : Walls) (targets : list Point) (dist : Grid Z) :
  wall_symmetric w ->
  Forall (fun p => is_within_bounds p = true) targets ->
  flooded w targets dist -> hop_field w targets dist.
Proof.
  intros Hs Ht F c.
  exact (flooded_min_hops w w targets (fun u d _ => eq_refl) Ht Hs dist F c).
Qed.

Lemma flooded_hop_field3 (m : FFv3.Maze) (targets : list Point) (dist : Grid Z) :
  wall_symmetric (FFv3.walls m) ->
  Forall (fun p => is_within_bounds p = true) targets ->
  flooded (FFv3.has_wall m) targets dist -> hop_field (FFv3.walls m) targets dist.
Proof.
  intros Hs Ht F c.
  exact (flooded_min_hops (FFv3.walls m) (FFv3.has_wall m) targets
           (has_wall_within m) Ht Hs dist F c).
Qed.

(** ** The faults of a sweep *)

Section SweepFaults.

Variable blocked : Point -> Direction -> bool.
Variable candidate : Z -> Point -> Z.

Lemma enqueue_fault p b e : enqueue p b = Fail e -> e = QueueOverflow.
Proof. unfold enqueue. destruct (_ <? _); intros H; inversion H; reflexivity. Qed.

Lemma relax_fault cur d b dir e :
  relax blocked candidate cur d b dir = Fail e -> e = QueueOverflow.
Proof.
  unfold relax.
  destruct (blocked cur dir); [discriminate|].
  destruct (negb _); [discriminate|].
  destruct (_ >? _); [apply enqueue_fault|discriminate].
Qed.

Lemma relax_dirs_fault cur d dirs : forall b e,
  relax_dirs blocked candidate cur d dirs b = Fail e -> e = QueueOverflow.
Proof.
  induction dirs as [|dir rest IH]; simpl; intros b e H; [discriminate|].
  destruct (relax blocked candidate cur d b dir) as [b1|f] eqn:E.
  - exact (IH _ _ H).
  - inversion H; subst. exact (relax_fault _ _ _ _ _ E).
Qed.

Lemma sweep_fault : forall fuel b e,
  sweep blocked candidate fuel b = Fail e -> e = QueueOverflow \/ e = OutOfFuel.
Proof.
  induction fuel as [|fuel IH]; intros b e H.
  - inversion H. right. reflexivity.
  - rewrite sweep_unfold in H. destruct (qFront b <? qBack b)%nat; [|discriminate].
    destruct (relax_dirs blocked candidate _ _ _ _) as [b1|f] eqn:R.
    + exact (IH _ _ H).
    + inversion H; subst. left. exact (relax_dirs_fault _ _ _ _ _ R).
Qed.

(** A sweep started with one cell in the queue ends, or writes past the
    end of the queue: it never takes more rounds than the queue has
    entries. *)
Lemma sweep_ends_or_overflows (dist0 : Grid Z) (p : Point) (e : Fault) :
  sweep blocked candidate SWEEP_FUEL (mkBfs dist0 [p] 0) = Fail e -> e = QueueOverflow.
Proof.
  intros H. destruct (sweep_fault _ _ _ H) as [E|E]; [exact E|]. subst e. exfalso.
  revert H. apply sweep_never_out_of_fuel; unfold qBack, SWEEP_FUEL; simpl; lia.
Qed.

End SweepFaults.

(** ** Two candidate distances that agree where the sweep goes *)

Section SweepAgree.

Variable blocked : Point -> Direction -> bool.
Variables cand1 cand2 : Z -> Point -> Z.
Variable known : Point -> Prop.

Hypothesis known_step :
  forall u d, known u -> blocked u d = false -> is_within_bounds (neighbor u d) = true ->
              known (neighbor u d).
Hypothesis agree : forall d n, known n -> cand1 d n = cand2 d n.

Lemma relax_agree cur d b dir :
  known cur -> relax blocked cand1 cur d b dir = relax blocked cand2 cur d b dir.
Proof.
  intros Hc. unfold relax.
  destruct (blocked cur dir) eqn:Hb; [reflexivity|].
  destruct (is_within_bounds (neighbor cur dir)) eqn:Hn; simpl; [|reflexivity].
  rewrite (agree d _ (known_step _ _ Hc Hb Hn)). reflexivity.
Qed.

Lemma relax_known cur d b dir b' :
  known cur -> Forall known (queue b) ->
  relax blocked cand2 cur d b dir = Ok b' -> Forall known (queue b').
Proof.
  intros Hc Hq. unfold relax.
  destruct (blocked cur dir) eqn:Hb; [intros H; inversion H; subst; exact Hq|].
  destruct (is_within_bounds (neighbor cur dir)) eqn:Hn; simpl;
    [|intros H; inversion H; subst; exact Hq].
  destruct (_ >? _); [|intros H; inversion H; subst; exact Hq].
  unfold enqueue. simpl. destruct (_ <? _); [|discriminate].
  intros H; inversion H; subst; simpl. apply Forall_app. split; [exact Hq|].
  constructor; [|constructor]. exact (known_step _ _ Hc Hb Hn).
Qed.

Lemma relax_dirs_agree cur d dirs : forall b,
  known cur -> Forall known (queue b) ->
  relax_dirs blocked cand1 cur d dirs b = relax_dirs blocked cand2 cur d dirs b /\
  forall b', relax_dirs blocked cand2 cur d dirs b = Ok b' -> Forall known (queue b').
Proof.
  induction dirs as [|dir rest IH]; intros b Hc Hq; simpl.
  - split; [reflexivity|]. intros b' H; inversion H; subst; exact Hq.
  - rewrite (relax_agree cur d b dir Hc).
    destruct (relax blocked cand2 cur d b dir) as [b1|f] eqn:E.
    + apply (IH b1 Hc). eapply relax_known; eauto.
    + split; [reflexivity|discriminate].
Qed.

Lemma sweep_agree : forall fuel b,
  Forall known (queue b) ->
  sweep blocked cand1 fuel b = sweep blocked cand2 fuel b.
Proof.
  induction fuel as [|fuel IH]; intros b Hq; [reflexivity|].
  rewrite !sweep_unfold.
  destruct (qFront b <? qBack b)%nat eqn:E; [|reflexivity].
  apply Nat.ltb_lt in E. unfold qBack in E.
  assert (Hc : known (nth (qFront b) (queue b) origin)).
  { rewrite Forall_forall in Hq. apply Hq, nth_In. exact E. }
  destruct (relax_dirs_agree (nth (qFront b) (queue b) origin)
              (bdist b (nth (qFront b) (queue b) origin)) all_dirs
              (mkBfs (bdist b) (queue b) (S (qFront b))) Hc Hq) as [H1 H2].
  rewrite H1. destruct (relax_dirs blocked cand2 _ _ _ _) as [b1|f]; [|reflexivity].
  apply IH. apply H2. reflexivity.
Qed.

End SweepAgree.

(** ** A sweep whose candidate distance carries a bonus

    The candidate offered to a neighbour [n] from a cell at distance [d]
    is [d + 1 - bonus n].  The loop is a worklist iteration: when it ends,
    every cell that ever entered the queue has offered its final distance
    to all its neighbours. *)

Section BonusSweep.

Variable blocked : Point -> Direction -> bool.
Variable bonus : Point -> Z.
Variable start : Point.

Hypothesis blocked_sym :
  forall u d, is_within_bounds u = true -> is_within_bounds (neighbor u d) = true ->
              blocked u d = blocked (neighbor u d) (get_opposite_direction d).
Hypothesis start_within : is_within_bounds start = true.
Hypothesis bonus_nonneg : forall n, is_within_bounds n = true -> 0 <= bonus n.

Definition with_bonus (d : Z) (n : Point) : Z := d + 1 - bonus n.

(** [x] is still to be dequeued. *)
Definition pending (b : Bfs) (x : Point) : Prop :=
  exists i, (qFront b <= i < length (queue b))%nat /\ nth i (queue b) origin = x.

(** [x] has offered its distance to every neighbour. *)
Definition relaxed (dist : Grid Z) (x : Point) : Prop :=
  forall dir, blocked x dir = false -> is_within_bounds (neighbor x dir) = true ->
              dist (neighbor x dir) <= with_bonus (dist x) (neighbor x dir).

(** Between two iterations of the [while] loop. *)
Record working (b : Bfs) : Prop := mkWorking {
  wk_front : (qFront b <= length (queue b))%nat;
  wk_start : In start (queue b) /\ bdist b start <= 0;
  wk_member : forall c, bdist b c < MAX_CELLS -> In c (queue b);
  wk_relaxed : forall x, In x (queue b) -> pending b x \/ relaxed (bdist b) x }.

(** Inside the [for] loop over the directions of the dequeued cell [cur],
    whose distance was [d], after the directions [seen]. *)
Record relaxing (cur : Point) (d : Z) (seen : list Direction) (b : Bfs) : Prop := mkRelaxing {
  rx_front : (qFront b <= length (queue b))%nat;
  rx_start : In start (queue b) /\ bdist b start <= 0;
  rx_member : forall c, bdist b c < MAX_CELLS -> In c (queue b);
  rx_cur : In cur (queue b) /\ bdist b cur = d;
  rx_seen : forall dir, In dir seen -> blocked cur dir = false ->
                        is_within_bounds (neighbor cur dir) = true ->
                        bdist b (neighbor cur dir) <= with_bonus d (neighbor cur dir);
  rx_others : forall x, In x (queue b) -> x <> cur -> pending b x \/ relaxed (bdist b) x }.

Lemma relaxing_more cur d seen dir b :
  relaxing cur d seen b ->
  (blocked cur dir = false -> is_within_bounds (neighbor cur dir) = true ->
   bdist b (neighbor cur dir) <= with_bonus d (neighbor cur dir)) ->
  relaxing cur d (seen ++ [dir]) b.
Proof.
  intros [H1 H2 H3 H4 H5 H6] Hnew. constructor; try assumption.
  intros e He. apply in_app_or in He. destruct He as [He|[<-|[]]]; [apply H5, He|exact Hnew].
Qed.

Lemma relax_relaxing cur d seen b dir b' :
  relaxing cur d seen b ->
  relax blocked with_bonus cur d b dir = Ok b' ->
  relaxing cur d (seen ++ [dir]) b'.
Proof.
  intros R. unfold relax.
  destruct (blocked cur dir) eqn:Hb.
  { intros H; inversion H; subst. apply relaxing_more; [exact R|congruence]. }
  destruct (is_within_bounds (neighbor cur dir)) eqn:Hn; simpl.
  2:{ intros H; inversion H; subst. apply relaxing_more; [exact R|congruence]. }
  set (n := neighbor cur dir) in *. set (v := with_bonus d n).
  destruct (Z.gtb_spec (bdist b n) v) as [Hgt|Hle].
  2:{ intros H; inversion H; subst. apply relaxing_more; [exact R|]. intros _ _. exact Hle. }
  unfold enqueue, qBack. simpl. destruct (_ <? _); [|discriminate].
  intros H; inversion H; subst b'; clear H.
  destruct R as [H1 [H2a H2b] H3 [H4a H4b] H5 H6].
  assert (Hncur : n <> cur) by apply neighbor_neq.
  assert (Hlow : forall c, grid_set (bdist b) n v c <= bdist b c).
  { intros c. unfold grid_set. destruct (point_eqb c n) eqn:E; [|lia].
    apply point_eqb_eq in E. subst c. lia. }
  constructor; simpl.
  - rewrite length_app. simpl. lia.
  - split; [apply in_or_app; left; exact H2a|]. specialize (Hlow start). lia.
  - intros c Hc. unfold grid_set in Hc. destruct (point_eqb c n) eqn:E.
    + apply point_eqb_eq in E. subst c. apply in_or_app. right. left. reflexivity.
    + apply in_or_app. left. apply H3, Hc.
  - split; [apply in_or_app; left; exact H4a|].
    rewrite grid_set_other; [exact H4b|]. intros E. apply Hncur. symmetry. exact E.
  - intros e He Hbe Hne. apply in_app_or in He.
    destruct (point_eq_dec (neighbor cur e) n) as [E|E].
    + rewrite E, grid_set_same. unfold v. lia.
    + destruct He as [He|[<-|[]]]; [|contradiction E; reflexivity].
      specialize (Hlow (neighbor cur e)). specialize (H5 e He Hbe Hne). lia.
  - intros x Hx Hxc. apply in_app_or in Hx.
    destruct (point_eq_dec x n) as [->|Hxn].
    + left. unfold pending. simpl. exists (length (queue b)).
      split; [rewrite length_app; simpl; lia|].
      rewrite app_nth2 by lia. rewrite Nat.sub_diag. reflexivity.
    + destruct Hx as [Hx|[Hx|[]]]; [|contradiction Hxn; symmetry; exact Hx].
      destruct (H6 x Hx Hxc) as [[i [Hi Hnth]]|Hr].
      * left. unfold pending. simpl. exists i. split; [rewrite length_app; simpl; lia|].
        rewrite app_nth1 by lia. exact Hnth.
      * right. intros e Hbe Hne. specialize (Hr e Hbe Hne).
        specialize (Hlow (neighbor x e)).
        rewrite (grid_set_other (bdist b) n x v) by exact Hxn. lia.
Qed.

Lemma relax_dirs_relaxing cur d dirs : forall seen b b',
  relaxing cur d seen b ->
  relax_dirs blocked with_bonus cur d dirs b = Ok b' ->
  relaxing cur d (seen ++ dirs) b'.
Proof.
  induction dirs as [|dir rest IH]; simpl; intros seen b b' R H.
  - inversion H; subst. rewrite app_nil_r. exact R.
  - destruct (relax blocked with_bonus cur d b dir) as [b1|f] eqn:E; [|discriminate].
    pose proof (relax_relaxing _ _ _ _ _ _ R E) as R1.
    specialize (IH _ _ _ R1 H). rewrite <- app_assoc in IH. exact IH.
Qed.

Lemma sweep_working : forall fuel b bf,
  working b ->
  sweep blocked with_bonus fuel b = Ok bf ->
  working bf /\ (length (queue bf) <= qFront bf)%nat.
Proof.
  induction fuel as [|fuel IH]; intros b bf W H; [discriminate|].
  rewrite sweep_unfold in H.
  destruct (qFront b <? qBack b)%nat eqn:E.
  2:{ inversion H; subst. split; [exact W|]. apply Nat.ltb_ge in E. exact E. }
  apply Nat.ltb_lt in E. unfold qBack in E.
  set (cur := nth (qFront b) (queue b) origin) in *.
  destruct (relax_dirs blocked with_bonus cur (bdist b cur) all_dirs
              (mkBfs (bdist b) (queue b) (S (qFront b)))) as [b1|f] eqn:R; [|discriminate].
  apply (IH b1 bf); [|exact H].
  destruct W as [W1 W2 W3 W4].
  assert (R0 : relaxing cur (bdist b cur) [] (mkBfs (bdist b) (queue b) (S (qFront b)))).
  { constructor; simpl; try assumption.
    - split; [apply nth_In; exact E|reflexivity].
    - intros dir [].
    - intros x Hx Hxc. destruct (W4 x Hx) as [[i [Hi Hnth]]|Hr]; [left|right; exact Hr].
      exists i. split; [|exact Hnth].
      destruct (Nat.eq_dec i (qFront b)) as [->|Hne]; [contradiction Hxc; symmetry; exact Hnth|].
      unfold pending. simpl. lia. }
  pose proof (relax_dirs_relaxing _ _ _ _ _ _ R0 R) as [H1 H2 H3 [H4a H4b] H5 H6].
  constructor; try assumption.
  intros x Hx. destruct (point_eq_dec x cur) as [->|Hxc]; [|apply H6; assumption].
  right. intros dir Hb Hn. rewrite H4b. apply H5; [apply all_dirs_complete|exact Hb|exact Hn].
Qed.

(** After the sweep has ended, a cell reached by fewer than [MAX_CELLS]
    steps is in the queue with a distance of at most the number of
    steps. *)
Lemma ended_covers bf :
  working bf -> (length (queue bf) <= qFront bf)%nat ->
  forall k c, reach blocked [start] k c -> k < MAX_CELLS ->
              is_within_bounds c = true /\ In c (queue bf) /\ bdist bf c <= k /\
              relaxed (bdist bf) c.
Proof.
  intros [W1 [W2a W2b] W3 W4] Hend.
  assert (Hrel : forall x, In x (queue bf) -> relaxed (bdist bf) x).
  { intros x Hx. destruct (W4 x Hx) as [[i [Hi _]]|Hr]; [lia|exact Hr]. }
  induction 1 as [s Hs|n u d Hr IH Hb Hn]; intros Hk.
  - destruct Hs as [<-|[]]. split; [exact start_within|]. split; [exact W2a|].
    split; [exact W2b|]. apply Hrel, W2a.
  - destruct IH as [Hu [Hin [Hle Hru]]]; [lia|].
    pose proof (Hru d Hb Hn) as Hd. unfold with_bonus in Hd.
    pose proof (bonus_nonneg _ Hn) as H0.
    assert (Hq : In (neighbor u d) (queue bf)) by (apply W3; lia).
    split; [exact Hn|]. split; [exact Hq|]. split; [lia|]. apply Hrel, Hq.
Qed.

(** The sweep cannot end when a cell with a bonus above 2 is reached: the
    cell and the cell it was reached from would each lie below the
    other. *)
Lemma bonus_sweep_never_ends fuel b bf k u d :
  working b ->
  sweep blocked with_bonus fuel b = Ok bf ->
  reach blocked [start] k u -> k + 1 < MAX_CELLS ->
  blocked u d = false ->
  is_within_bounds (neighbor u d) = true ->
  2 < bonus (neighbor u d) ->
  False.
Proof.
  intros W H Hr Hk Hb Hn Hbonus.
  destruct (sweep_working _ _ _ W H) as [Wf Hend].
  destruct (ended_covers bf Wf Hend k u Hr) as [Hu [_ [_ Hru]]]; [lia|].
  destruct (ended_covers bf Wf Hend (k + 1) (neighbor u d)) as [_ [_ [_ Hrn]]];
    [apply reach_next; assumption|lia|].
  pose proof (Hru d Hb Hn) as H1.
  specialize (Hrn (get_opposite_direction d)). rewrite neighbor_back in Hrn.
  rewrite <- blocked_sym in Hrn by assumption.
  specialize (Hrn Hb Hu). unfold with_bonus in *.
  pose proof (bonus_nonneg u Hu). lia.
Qed.

Lemma seeded_working (reset : Grid Z) :
  (forall c, MAX_CELLS <= reset c) ->
  working (mkBfs (grid_set reset start 0) [start] 0).
Proof.
  intros Hreset. constructor; simpl.
  - lia.
  - split; [left; reflexivity|]. rewrite grid_set_same. lia.
  - intros c Hc. unfold grid_set in Hc. destruct (point_eqb c start) eqn:E.
    + apply point_eqb_eq in E. left. symmetry. exact E.
    + specialize (Hreset c). lia.
  - intros x [<-|[]]. left. exists 0%nat. split; [simpl; lia|reflexivity].
Qed.

End BonusSweep.

(** ** [floodFillToStartWithExploration] *)

(** The sum of the two weights taken off the distance offered to [n]. *)
Definition exploration_bonus (vis : Grid bool) (n : Point) : Z :=
  FF.explorationWeight vis n + FF.goalProximity vis n.

Lemma effectiveDistance_bonus vis d n :
  FF.effectiveDistance vis d n = with_bonus (exploration_bonus vis) d n.
Proof. unfold FF.effectiveDistance, with_bonus, exploration_bonus. lia. Qed.

Lemma exploration_bonus_visited vis n : vis n = true -> exploration_bonus vis n = 0.
Proof.
  intros H. unfold exploration_bonus, FF.explorationWeight, FF.goalProximity. rewrite H.
  reflexivity.
Qed.

(** An unvisited cell of the grid gets a bonus of at least 11: 2 for being
    unvisited and at least 9 for its place, no cell of the grid being farther
    than 14 from the nearest goal cell. *)
Lemma exploration_bonus_unvisited vis n :
  is_within_bounds n = true -> vis n = false -> 11 <= exploration_bonus vis n.
Proof.
  intros Hn Hv.
  assert (Hall : forallb (fun c => 11 <=? exploration_bonus (fun _ => false) c) all_cells = true)
    by (vm_compute; reflexivity).
  rewrite forallb_forall in Hall. specialize (Hall n (proj2 (in_all_cells n) Hn)).
  apply Z.leb_le in Hall.
  unfold exploration_bonus, FF.explorationWeight, FF.goalProximity in *. rewrite Hv.
  exact Hall.
Qed.

Lemma exploration_bonus_nonneg vis n :
  is_within_bounds n = true -> 0 <= exploration_bonus vis n.
Proof.
  intros Hn. destruct (vis n) eqn:Hv.
  - rewrite exploration_bonus_visited by exact Hv. lia.
  - pose proof (exploration_bonus_unvisited vis n Hn Hv). lia.
Qed.

Lemma start_cell_within : Forall (fun p => is_within_bounds p = true) [mkPoint 0 0].
Proof. repeat constructor. Qed.

(** Every cell that reaches the start cell through open edges has been
    visited. *)
Definition explored_around_start (w : Walls) (vis : Grid bool) : Prop :=
  forall c, reachable w [mkPoint 0 0] c -> vis c = true.

Lemma fold_min_nonneg (dist : Grid Z) : forall l m,
  (forall c, 0 <= dist c) -> 0 <= m ->
  0 <= fold_left (fun m c => if dist c <? m then dist c else m) l m.
Proof.
  induction l as [|a l IH]; intros m Hd Hm; simpl; [exact Hm|].
  apply IH; [exact Hd|]. destruct (dist a <? m); [apply Hd|exact Hm].
Qed.

(** The closing normalisation leaves a field without negative entries as
    it is. *)
Lemma normalize_flooded blocked srcs (dist : Grid Z) :
  flooded blocked srcs dist -> FF.normalize dist = dist.
Proof.
  intros F. unfold FF.normalize.
  assert (H : 0 <= fold_left (fun m c => if dist c <? m then dist c else m) all_cells 0).
  { apply fold_min_nonneg; [|lia]. intros c.
    destruct (fl_range _ _ _ F c) as [E|E]; [rewrite E; unfold MAX_CELLS, MAZE_WIDTH, MAZE_HEIGHT|];
      lia. }
  destruct (Z.ltb_spec (fold_left (fun m c => if dist c <? m then dist c else m) all_cells 0) 0);
    [lia|reflexivity].
Qed.

(** Where every cell that reaches the start has been visited, the biased
    fill is the plain fill toward the start. *)
Lemma biased_fill_plain (s : FF.State) :
  wall_symmetric (FF.walls s) ->
  explored_around_start (FF.walls s) (FF.visited s) ->
  FF.floodFillToStartWithExploration s = FF.floodFillToStart s.
Proof.
  intros Hsym Hex.
  destruct (floodFillToStart_flooded s) as [dist [E F]].
  rewrite E. unfold FF.floodFillToStart, FF.floodFill in E.
  unfold FF.floodFillToStartWithExploration.
  rewrite (sweep_agree (FF.walls s) (FF.effectiveDistance (FF.visited s)) (fun d _ => d + 1)
             (fun c => exists k, reach (FF.walls s) [mkPoint 0 0] k c)).
  - destruct (sweep _ _ _ _) as [b|e]; [|discriminate].
    inversion E as [Hd]. rewrite Hd.
    rewrite (normalize_flooded _ _ _ F). reflexivity.
  - intros u d [k Hr] Hb Hn. exists (k + 1). apply reach_next; assumption.
  - intros d n [k Hr].
    assert (Hv : FF.visited s n = true).
    { apply Hex.
      destruct (reach_hops (FF.walls s) (FF.walls s) [mkPoint 0 0] (fun _ _ _ => eq_refl)
                  start_cell_within Hsym k n Hr) as [g [Hg Hh]].
      exists k, g. auto. }
    rewrite effectiveDistance_bonus. unfold with_bonus.
    rewrite (exploration_bonus_visited _ _ Hv). lia.
  - constructor; [|constructor]. exists 0. apply reach_source. left. reflexivity.
Qed.

(** Where an unvisited cell other than the start reaches the start, the
    biased fill writes past the end of its queue: the cell and the cell
    before it on the way keep lowering each other's distance, and every
    lowering enqueues again. *)
Lemma biased_fill_overflows (s : FF.State) (u : Point) :
  wall_symmetric (FF.walls s) ->
  u <> mkPoint 0 0 ->
  reachable (FF.walls s) [mkPoint 0 0] u ->
  FF.visited s u = false ->
  FF.floodFillToStartWithExploration s = Fail QueueOverflow.
Proof.
  intros Hsym Hne Hreach Hv.
  destruct (floodFillToStart_flooded s) as [dist [_ F]].
  assert (Hfin : dist u <> MAX_CELLS).
  { apply (flooded_reachable (FF.walls s) (FF.walls s) [mkPoint 0 0] dist u
             (fun _ _ _ => eq_refl) start_cell_within Hsym F).
    exact Hreach. }
  pose proof (fl_sound _ _ _ F u Hfin) as Hr.
  destruct (fl_range _ _ _ F u) as [E|Hrange]; [contradiction|].
  destruct (reach_cases _ _ _ _ Hr) as [[_ [Hs|[]]]|[k [p [d [Hk [Hu [Hrp [Hb Hn]]]]]]]];
    [contradiction Hne; symmetry; exact Hs|].
  unfold FF.floodFillToStartWithExploration.
  destruct (sweep _ _ _ _) as [bf|e] eqn:S.
  - exfalso.
    assert (S' : sweep (FF.walls s) (with_bonus (exploration_bonus (FF.visited s))) SWEEP_FUEL
                       (mkBfs (grid_set (fun _ => MAZE_WIDTH * MAZE_HEIGHT) (mkPoint 0 0) 0)
                              [mkPoint 0 0] 0) = Ok bf).
    { rewrite <- S.
      apply (sweep_agree (FF.walls s) _ _ (fun _ => True)); [auto| |repeat constructor].
      intros d0 n _. symmetry. apply effectiveDistance_bonus. }
    refine (bonus_sweep_never_ends (FF.walls s) (exploration_bonus (FF.visited s)) (mkPoint 0 0)
              Hsym eq_refl (exploration_bonus_nonneg _)
              SWEEP_FUEL _ bf k p d _ S' Hrp _ Hb _ _).
    + apply seeded_working. intros c. unfold MAX_CELLS. lia.
    + lia.
    + rewrite <- Hu. exact Hn.
    + rewrite <- Hu.
      pose proof (exploration_bonus_unvisited (FF.visited s) u Hn Hv). lia.
  - f_equal. exact (sweep_ends_or_overflows _ _ _ _ _ S).
Qed.

(** * The return phase of ff.c *)

(** Backward steps through straight-line code with branches. *)
Ltac run_auto :=
  repeat lazymatch goal with
         | |- run (bind _ _) _ _ _ => apply run_bind
         | |- run (if ?b then _ else _) _ _ _ => destruct b
         | |- run (when ?b _) _ _ _ => destruct b; cbn [when]
         | |- run (match ?x with Some _ => _ | None => _ end) _ _ _ => destruct x
         | |- run _ _ _ _ => run_step
         end.

(** The world after commands only: the same answers, the same number of
    queries made. *)
Definition only_told (w w' : World) : Prop :=
  answers w' = answers w /\ asked w' = asked w.

Lemma only_told_refl w : only_told w w.
Proof. split; reflexivity. Qed.

Lemma only_told_told e w w' : only_told w w' -> only_told w (told e w').
Proof. intros [H1 H2]. split; assumption. Qed.

Lemma only_told_trans w1 w2 w3 : only_told w1 w2 -> only_told w2 w3 -> only_told w1 w3.
Proof. intros [H1 H2] [H3 H4]. split; congruence. Qed.

(** ** Scans and counts *)

Lemma select_direction_scan (s : FF.State) (adjust : Direction -> Z) :
  FF.select_direction s adjust =
  scan_min (open_dir (FF.walls s) (FF.pos s))
           (fun d => FF.distances s (neighbor (FF.pos s) d) - adjust d)
           (MAZE_WIDTH * MAZE_HEIGHT).
Proof.
  unfold FF.select_direction, scan_min. apply fold_left_agree.
  intros acc d. unfold open_dir. destruct (FF.walls s (FF.pos s) d); [reflexivity|].
  rewrite inside_is_within. destruct (is_within_bounds (neighbor (FF.pos s) d)); reflexivity.
Qed.

(** The scan of [moveToNextCellReturn], which takes no bonus off. *)
Lemma select_direction_plain (s : FF.State) :
  FF.select_direction s (fun _ => 0) =
  scan_min (open_dir (FF.walls s) (FF.pos s))
           (fun d => FF.distances s (neighbor (FF.pos s) d))
           MAX_CELLS.
Proof.
  rewrite select_direction_scan. unfold scan_min. apply fold_left_agree.
  intros acc d. rewrite Z.sub_0_r. reflexivity.
Qed.

Lemma count_from (p : Point -> bool) : forall l n,
  n <= fold_left (fun n c => if p c then n + 1 else n) l n /\
  (fold_left (fun n c => if p c then n + 1 else n) l n = n <->
   forall c, In c l -> p c = false).
Proof.
  induction l as [|a l IH]; intros n; simpl.
  - split; [lia|]. split; [intros _ c []|reflexivity].
  - destruct (p a) eqn:E.
    + destruct (IH (n + 1)) as [H1 _]. split; [lia|]. split.
      * intros H. lia.
      * intros H. specialize (H a (or_introl eq_refl)). congruence.
    + destruct (IH n) as [H1 H2]. split; [exact H1|]. rewrite H2. split.
      * intros H c [<-|Hc]; [exact E|apply H, Hc].
      * intros H c Hc. apply H. right. exact Hc.
Qed.

(** ** The display outside the exploring return *)

(** [updateDisplay] of ff.c runs its flood fills only in the return phase
    while exploration is incomplete. *)
Definition display_fills (s : FF.State) : bool :=
  match FF.currentMode s with RETURN_MODE => true | _ => false end
  && negb (FF.explorePhaseComplete s).

Lemma updateDisplay_frame (s : FF.State) (w : World) :
  display_fills s = false ->
  run FF.updateDisplay s w
      (fun _ s' w' => s' = s /\ answers w' = answers w /\ asked w' = asked w).
Proof.
  intros Hq. unfold FF.updateDisplay. apply run_bind.
  apply run_weaken with (Q := fun _ s' w' => s' = s /\ only_told w w').
  - intros _ s1 w1 [-> Hw1].
    apply (run_for_each (fun s' w' => s' = s /\ only_told w w')); [|split; [reflexivity|exact Hw1]].
    intros c s2 w2 [-> Hw2]. unfold FF.display_walls, API_setWall.
    run_auto; (split; [reflexivity|]); repeat apply only_told_told; exact Hw2.
  - apply (run_for_each (fun s' w' => s' = s /\ only_told w w'));
      [|split; [reflexivity|apply only_told_refl]].
    intros c s1 w1 [-> Hw1]. unfold FF.display_cell, API_setText, API_setColor.
    apply run_bind, run_gets. apply run_bind, run_emit. apply run_bind.
    + unfold display_fills in Hq. rewrite Hq.
      apply run_weaken with (Q := fun _ s' w' => s' = s /\ only_told w w').
      * intros _ s2 w2 [-> Hw2]. apply run_bind, run_gets.
        destruct (FF.currentMode s); [run_steps; auto|run_steps; auto|].
        match goal with |- run (when ?b _) _ _ _ => destruct b end; cbn [when]; run_steps;
          (split; [reflexivity|]); repeat apply only_told_told; exact Hw2.
      * run_auto; (split; [reflexivity|]); repeat apply only_told_told; exact Hw1.
Qed.

(** ** Sensing *)

(** [updateWalls] of ff.c returns after three queries; it changes the wall
    map only, by three mirrored writes. *)
Lemma updateWalls_run (s : FF.State) (w : World) :
  run FF.updateWalls s w
      (fun _ s' w' =>
         s' = FF.set_walls (FF.walls s') s /\
         (wall_symmetric (FF.walls s) -> wall_symmetric (FF.walls s')) /\
         answers w' = answers w /\ asked w' = (3 + asked w)%nat).
Proof.
  unfold FF.updateWalls. run_steps.
  split; [reflexivity|]. split; [|split; reflexivity].
  intros Hsym. rewrite !sense_side_walls. repeat apply mirror_set_symmetric. exact Hsym.
Qed.

(** ** [criticalPathsExplored] *)

Lemma criticalPathsExplored_run (s : FF.State) (w : World) :
  run FF.criticalPathsExplored s w
      (fun r s' w' =>
         exists dist,
           s' = FF.set_distances dist s /\
           FF.floodFillToGoal s = Ok s' /\
           only_told w w' /\
           (r = true <->
            forall c d,
              is_within_bounds c = true ->
              FF.visited s c = false ->
              dist c <= dist (mkPoint 0 0) ->
              FF.walls s c d = false ->
              is_within_bounds (neighbor c d) = true ->
              dist (neighbor c d) <> dist c - 1)).
Proof.
  unfold FF.criticalPathsExplored.
  destruct (floodFillToGoal_flooded s) as [dist [E F]].
  apply run_bind. eapply run_lift; [exact E|].
  apply run_bind, run_gets. run_steps.
  exists dist. split; [reflexivity|]. split; [exact E|].
  split; [apply only_told_told, only_told_refl|].
  set (s1 := FF.set_distances dist s).
  destruct (count_from (FF.unvisited_candidate s1) all_cells 0) as [Hge Hiff].
  rewrite Z.eqb_eq, Hiff. split.
  - intros H c d Hc Hv Hle Hw Hn Hd.
    specialize (H c (proj2 (in_all_cells c) Hc)). unfold FF.unvisited_candidate in H.
    apply andb_false_iff in H. destruct H as [H|H].
    + apply Z.leb_gt in H. change (FF.distances s1) with dist in H. lia.
    + assert (Hex : existsb
                      (fun dir =>
                         negb (FF.walls s1 c dir) && FF.inside (neighbor c dir) &&
                         (FF.distances s1 (neighbor c dir) =? FF.distances s1 c - 1) &&
                         negb (FF.visited s1 c)) all_dirs = true).
      { apply existsb_exists. exists d. split; [apply all_dirs_complete|].
        change (FF.walls s1) with (FF.walls s). change (FF.visited s1) with (FF.visited s).
        change (FF.distances s1) with dist. rewrite inside_is_within, Hw, Hn, Hv.
        simpl. rewrite andb_true_r. apply Z.eqb_eq, Hd. }
      congruence.
  - intros H c Hc. apply in_all_cells in Hc. unfold FF.unvisited_candidate.
    destruct (FF.distances s1 c <=? FF.distances s1 (mkPoint 0 0)) eqn:Hle; [|reflexivity].
    rewrite andb_true_l. apply Z.leb_le in Hle.
    match goal with |- ?b = false => destruct b eqn:Hex end; [|reflexivity]. exfalso.
    apply existsb_exists in Hex. destruct Hex as [d [_ Hd]].
    rewrite !andb_true_iff in Hd. destruct Hd as [[[Hw Hn] Hdist] Hv].
    apply negb_true_iff in Hw, Hv. apply Z.eqb_eq in Hdist.
    rewrite inside_is_within in Hn.
    exact (H c d Hc Hv Hle Hw Hn Hdist).
Qed.

(** ** The fills of the return phase on an explored map *)

(** [s1] is [s] with other distances and another exploration flag. *)
Definition refilled (s s1 : FF.State) : Prop :=
  exists dist epc, s1 = FF.set_explorePhaseComplete epc (FF.set_distances dist s).

Lemma refilled_refl s : refilled s s.
Proof. exists (FF.distances s), (FF.explorePhaseComplete s). destruct s. reflexivity. Qed.

Lemma refilled_distances s s1 dist : refilled s s1 -> refilled s (FF.set_distances dist s1).
Proof. intros [d0 [e ->]]. exists dist, e. reflexivity. Qed.

Lemma refilled_flag s s1 e : refilled s s1 -> refilled s (FF.set_explorePhaseComplete e s1).
Proof. intros [d0 [e0 ->]]. exists d0, e. reflexivity. Qed.

Lemma refilled_walls s s1 : refilled s s1 -> FF.walls s1 = FF.walls s.
Proof. intros [d0 [e ->]]. reflexivity. Qed.

Lemma refilled_visited s s1 : refilled s s1 -> FF.visited s1 = FF.visited s.
Proof. intros [d0 [e ->]]. reflexivity. Qed.

(** Closing an edge takes no cell nearer to the start. *)
Lemma hops_fewer_walls (w w' : Walls) n a b :
  (forall u d, w u d = true -> w' u d = true) ->
  hops w' n a b -> hops w n a b.
Proof.
  intros Hmono. induction 1 as [a Ha|n a b c [Ha [d [Hw [-> Hb]]]] _ IH].
  - apply hops_here, Ha.
  - apply hops_edge with (b := neighbor a d); [|exact IH].
    split; [exact Ha|]. exists d. split; [|auto].
    destruct (w a d) eqn:E; [|reflexivity]. apply Hmono in E. congruence.
Qed.

Lemma explored_after_wall (w : Walls) (vis : Grid bool) p d :
  explored_around_start w vis -> explored_around_start (mirror_set w p d true) vis.
Proof.
  intros Hex c [n [g [Hg Hh]]]. apply Hex. exists n, g. split; [exact Hg|].
  eapply hops_fewer_walls; [|exact Hh]. intros u e. apply mirror_set_true_mono.
Qed.

(** On an explored map the biased fill returns, with the field of the
    plain fill toward the start. *)
Lemma run_biased_explored s w (Q : unit -> FF.State -> World -> Prop) :
  wall_symmetric (FF.walls s) ->
  explored_around_start (FF.walls s) (FF.visited s) ->
  (forall dist,
      flooded (FF.walls s) [mkPoint 0 0] dist -> Q tt (FF.set_distances dist s) w) ->
  run (lift FF.floodFillToStartWithExploration) s w Q.
Proof.
  intros Hsym Hex H. destruct (floodFillToStart_flooded s) as [dist [E F]].
  eapply run_lift; [rewrite (biased_fill_plain s Hsym Hex); exact E|]. apply H, F.
Qed.

Lemma refilled_pos s s1 : refilled s s1 -> FF.pos s1 = FF.pos s.
Proof. intros [d0 [e ->]]. reflexivity. Qed.

(** ** A refused move in the return phase *)

(** [moveToNextCellReturn] on an explored symmetric map, with the mouse
    off the start cell on a cell that reaches it, when the simulator
    refuses the move: the handler floods toward the start, turns to the
    first neighbour of least distance, records the wall on both sides of
    the edge and floods again. *)
Lemma moveToNextCellReturn_refused (s : FF.State) (w : World) :
  FF.justReachedGoal s = false ->
  wall_symmetric (FF.walls s) ->
  explored_around_start (FF.walls s) (FF.visited s) ->
  reachable (FF.walls s) [mkPoint 0 0] (FF.pos s) ->
  FF.pos s <> mkPoint 0 0 ->
  answers w (asked w) = false ->
  run FF.moveToNextCellReturn s w
      (fun _ s' w' =>
         exists dist0,
           flooded (FF.walls s) [mkPoint 0 0] dist0 /\
           greedy_step (FF.walls s) dist0 (FF.pos s) (neighbor (FF.pos s) (FF.direction s')) /\
           refilled (FF.record_blocked (FF.set_direction (FF.direction s') s)) s' /\
           flooded (FF.walls s') [mkPoint 0 0] (FF.distances s') /\
           asked w' = S (asked w)).
Proof.
  intros Hj Hsym Hex Hreach Hne Hans.
  assert (Hin : is_within_bounds (FF.pos s) = true).
  { destruct Hreach as [n [g [_ Hh]]]. eapply hops_within_start; eauto. }
  unfold FF.moveToNextCellReturn.
  apply run_bind, run_gets. rewrite Hj. apply run_bind. cbn [when]. apply run_ret.
  apply run_bind, run_gets. apply run_bind, run_emit.
  apply run_bind.
  apply run_weaken with (Q := fun _ s1 w1 => refilled s s1 /\ only_told w w1).
  2:{ destruct (FF.coverage_above_threshold s).
      - run_steps. split; [apply refilled_refl|apply only_told_told, only_told_refl].
      - apply run_bind.
        refine (run_weaken _ _ _ _ _ _ (criticalPathsExplored_run _ _)).
        intros r s1 w1 [dist [-> [_ [Hw _]]]].
        assert (Hr : refilled s (FF.set_distances dist s))
          by (apply refilled_distances, refilled_refl).
        assert (Hw' : only_told w w1).
        { eapply only_told_trans; [|exact Hw]. apply only_told_told, only_told_refl. }
        destruct r; run_steps; auto. }
  intros direct s1 w1 [Hr1 Hw1]. apply run_bind.
  apply run_weaken
    with (Q := fun _ s2 w2 => refilled s s2 /\
                              flooded (FF.walls s) [mkPoint 0 0] (FF.distances s2) /\
                              only_told w w2).
  2:{ destruct direct.
      - apply run_bind, run_gets. apply run_bind.
        apply run_weaken with (Q := fun _ s1' w1' => refilled s s1' /\ only_told w w1').
        + intros _ s1' w1' [Hr Hw]. apply run_floodFillToStart. intros dist F.
          rewrite (refilled_walls _ _ Hr) in F.
          split; [apply refilled_distances, Hr|]. split; [exact F|exact Hw].
        + apply run_when; intros _.
          * run_steps. split; [apply refilled_flag, Hr1|apply only_told_told, Hw1].
          * split; assumption.
      - apply run_biased_explored.
        + rewrite (refilled_walls _ _ Hr1). exact Hsym.
        + rewrite (refilled_walls _ _ Hr1), (refilled_visited _ _ Hr1). exact Hex.
        + intros dist F. rewrite (refilled_walls _ _ Hr1) in F.
          split; [apply refilled_distances, Hr1|]. split; [exact F|exact Hw1]. }
  intros _ s2 w2 [Hr2 [F2 Hw2]].
  apply run_bind, run_gets. apply run_bind, run_emit. apply run_bind.
  apply run_weaken with (Q := fun _ s3 w3 => s3 = s2 /\ only_told w w3).
  2:{ apply (run_for_each (fun s3 w3 => s3 = s2 /\ only_told w w3));
        [|split; [reflexivity|apply only_told_told, Hw2]].
      intros dir s3 w3 [-> Hw3].
      run_auto; (split; [reflexivity|]); repeat apply only_told_told; exact Hw3. }
  intros _ s3 w3 [-> [Ha3 Hq3]].
  rewrite select_direction_plain.
  rewrite (refilled_walls _ _ Hr2), (refilled_pos _ _ Hr2).
  assert (Hfin : FF.distances s2 (FF.pos s) <> MAX_CELLS).
  { apply (flooded_reachable (FF.walls s) (FF.walls s) [mkPoint 0 0] _ _
             (fun _ _ _ => eq_refl) start_cell_within Hsym F2). exact Hreach. }
  assert (Hpos : FF.distances s2 (FF.pos s) <> 0).
  { intros H0. apply (dist_zero_source _ _ _ F2) in H0. destruct H0 as [H0|[]].
    apply Hne. symmetry. exact H0. }
  destruct (scan_descends (FF.walls s) [mkPoint 0 0] (FF.distances s2) start_cell_within
              Hsym F2 (FF.pos s) MAX_CELLS Hin Hfin Hpos) as [d [Hscan [Hd Hg]]].
  { destruct (fl_range _ _ _ F2 (FF.pos s)); lia. }
  rewrite Hscan.
  apply run_bind, run_emit.
  apply run_bind. unfold run at 1. rewrite turn_to_result.
  run_steps. cbn [answers asked trace told queried]. rewrite Ha3, Hq3, Hans.
  run_steps.
  destruct Hr2 as [d0 [e Hs2]].
  set (sb := FF.record_blocked (FF.set_direction d s2)).
  assert (Hwb : FF.walls sb = mirror_set (FF.walls s) (FF.pos s) d true)
    by (unfold sb; subst s2; reflexivity).
  assert (Hvb : FF.visited sb = FF.visited s) by (unfold sb; subst s2; reflexivity).
  assert (Hend : forall dist W,
             flooded (FF.walls sb) [mkPoint 0 0] dist ->
             asked W = S (asked w) ->
             exists dist0,
               flooded (FF.walls s) [mkPoint 0 0] dist0 /\
               greedy_step (FF.walls s) dist0 (FF.pos s)
                           (neighbor (FF.pos s) (FF.direction (FF.set_distances dist sb))) /\
               refilled (FF.record_blocked
                           (FF.set_direction (FF.direction (FF.set_distances dist sb)) s))
                        (FF.set_distances dist sb) /\
               flooded (FF.walls (FF.set_distances dist sb)) [mkPoint 0 0]
                       (FF.distances (FF.set_distances dist sb)) /\
               asked W = S (asked w)).
  { intros dist W F HW. exists (FF.distances s2).
    split; [exact F2|]. split; [exact Hg|].
    split; [unfold sb; subst s2; exists dist, e; reflexivity|].
    split; [exact F|exact HW]. }
  destruct (FF.explorePhaseComplete sb).
  - apply run_floodFillToStart. intros dist F. apply Hend; [exact F|reflexivity].
  - apply run_biased_explored.
    + rewrite Hwb. apply mirror_set_symmetric, Hsym.
    + rewrite Hwb, Hvb. apply explored_after_wall, Hex.
    + intros dist F. apply Hend; [exact F|reflexivity].
Qed.

(** ** The first call of [moveToNextCellReturn] *)

Lemma bind_assoc {St A B C : Type} (m : M St A) (f : A -> M St B) (g : B -> M St C) s w :
  bind (bind m f) g s w = bind m (fun a => bind (f a) g) s w.
Proof. unfold bind. destruct (m s w) as [[[a s1] w1]|]; reflexivity. Qed.

Lemma bind_ext {St A B : Type} (m : M St A) (k1 k2 : A -> M St B) s w :
  (forall a s1 w1, k1 a s1 w1 = k2 a s1 w1) -> bind m k1 s w = bind m k2 s w.
Proof. intros H. unfold bind. destruct (m s w) as [[[a s1] w1]|]; [apply H|reflexivity]. Qed.

Lemma bind_gets {St A B : Type} (f : St -> A) (k : A -> M St B) s w :
  bind (gets f) k s w = k (f s) s w.
Proof. reflexivity. Qed.

Lemma bind_modify {St B : Type} (f : St -> St) (k : unit -> M St B) s w :
  bind (modify f) k s w = k tt (f s) w.
Proof. reflexivity. Qed.

Lemma bind_ret {St A B : Type} (a : A) (k : A -> M St B) s w :
  bind (ret a) k s w = k a s w.
Proof. reflexivity. Qed.

Lemma bind_logMessage {St B : Type} (msg : string) (k : unit -> M St B) s w :
  bind (logMessage msg) k s w = k tt s (told (Log msg []) w).
Proof. reflexivity. Qed.

(** The first call of [moveToNextCellReturn] (the static flag
    [justReachedGoal] is still set) logs a line, senses the walls, clears
    the flag and goes on as every later call does. *)
Lemma moveToNextCellReturn_first (s : FF.State) (w : World) :
  FF.justReachedGoal s = true ->
  FF.moveToNextCellReturn s w =
  bind FF.updateWalls
       (fun _ => bind (modify (FF.set_justReachedGoal false))
                      (fun _ => FF.moveToNextCellReturn))
       s (told (Log "First move after reaching goal - updating wall knowledge" []) w).
Proof.
  intros Hj. unfold FF.moveToNextCellReturn at 1.
  rewrite bind_gets, Hj. cbn [when].
  rewrite bind_assoc, bind_logMessage, bind_assoc.
  apply bind_ext. intros _ s1 w1. rewrite !bind_modify.
  unfold FF.moveToNextCellReturn. rewrite (bind_gets FF.justReachedGoal).
  change (FF.justReachedGoal (FF.set_justReachedGoal false s1)) with false.
  cbn [when]. rewrite bind_ret. reflexivity.
Qed.

(** ** [verifyShortestPath] *)

(** The cells [cells], walked in order from [cur]: each is a neighbour of
    the one before it, across a side on which the map [w] records no
    wall. *)
Fixpoint joined_without_wall (w : Walls) (cur : Point) (cells : list Point) : Prop :=
  match cells with
  | [] => True
  | t :: rest => (exists d, neighbor cur d = t /\ w cur d = false) /\ joined_without_wall w t rest
  end.

(** The last line [verifyShortestPath] logs when it has found nothing
    wrong. *)
Definition verified : Event := Log "Path verification successful. No obstacles detected." [].

Lemma ff_find_move_spec (cur t : Point) :
  match FF.find_move cur t with
  | Some d => neighbor cur d = t
  | None => forall d, neighbor cur d <> t
  end.
Proof.
  unfold FF.find_move.
  destruct (find (fun dir => point_eqb (neighbor cur dir) t) all_dirs) as [d|] eqn:E.
  - apply find_some in E. apply point_eqb_eq. exact (proj2 E).
  - intros d Hd.
    pose proof (find_none _ _ E d (all_dirs_complete d)) as H. simpl in H.
    apply point_eqb_neq in H. contradiction.
Qed.

(** The loop of [verifyShortestPath] returns, changes nothing, and logs one
    line: the line [verified] exactly when the cells it walks are joined
    without a wall. *)
Lemma verify_steps_verdict : forall idx cur s w,
  run (FF.verify_steps idx cur) s w
      (fun _ s' w' =>
         s' = s /\
         exists verdict,
           w' = told verdict w /\
           (verdict = verified <->
            joined_without_wall (FF.walls s) cur (map (FF.fastestPath s) idx))).
Proof.
  induction idx as [|i idx IH]; intros cur s w; cbn [FF.verify_steps].
  - run_steps. split; [reflexivity|]. exists verified. split; [reflexivity|]. simpl. tauto.
  - apply run_bind, run_gets.
    pose proof (ff_find_move_spec cur (FF.fastestPath s i)) as Hm.
    destruct (FF.find_move cur (FF.fastestPath s i)) as [d|].
    + destruct (FF.walls s cur d) eqn:Hw.
      * run_steps. split; [reflexivity|]. eexists. split; [reflexivity|]. split; [discriminate|].
        simpl. intros [[e [He Hwe]] _]. rewrite <- Hm in He. apply neighbor_inj_dir in He.
        subst e. congruence.
      * refine (run_weaken _ _ _ _ _ _ (IH _ s w)).
        intros _ s' w' [-> [verdict [-> Hv]]]. split; [reflexivity|].
        exists verdict. split; [reflexivity|]. rewrite Hv. simpl. split.
        -- intros H. split; [exists d; auto|exact H].
        -- intros [_ H]. exact H.
    + run_steps. split; [reflexivity|]. eexists. split; [reflexivity|]. split; [discriminate|].
      simpl. intros [[e [He _]] _]. exfalso. exact (Hm e He).
Qed.

Lemma verifyShortestPath_verdict (s : FF.State) (w : World) :
  run FF.verifyShortestPath s w
      (fun _ s' w' =>
         s' = s /\
         exists verdict,
           w' = told verdict (told (Log "Verifying shortest path for consistency..." []) w) /\
           (verdict = verified <->
            joined_without_wall (FF.walls s) (mkPoint 0 0)
              (map (FF.fastestPath s) (FF.indices_from_1 (FF.pathLength s))))).
Proof.
  unfold FF.verifyShortestPath. apply run_bind, run_emit. apply run_bind, run_gets.
  apply verify_steps_verdict.
Qed.

(** The visited flags play no part in it. *)
Lemma verify_steps_ignores_visited (v : Grid bool) : forall idx cur s w,
  FF.verify_steps idx cur (FF.set_visited v s) w =
  match FF.verify_steps idx cur s w with
  | Ok (a, s', w') => Ok (a, FF.set_visited v s', w')
  | Fail f => Fail f
  end.
Proof.
  induction idx as [|i idx IH]; intros cur s w; cbn [FF.verify_steps].
  - reflexivity.
  - unfold bind, gets.
    change (FF.fastestPath (FF.set_visited v s)) with (FF.fastestPath s).
    change (FF.walls (FF.set_visited v s)) with (FF.walls s).
    destruct (FF.find_move cur (FF.fastestPath s i)) as [d|]; [|reflexivity].
    destruct (FF.walls s cur d); [reflexivity|apply IH].
Qed.

Lemma verifyShortestPath_ignores_visited (v : Grid bool) (s : FF.State) (w : World) :
  FF.verifyShortestPath (FF.set_visited v s) w =
  match FF.verifyShortestPath s w with
  | Ok (a, s', w') => Ok (a, FF.set_visited v s', w')
  | Fail f => Fail f
  end.
Proof.
  unfold FF.verifyShortestPath, bind, logMessage, emit, gets.
  apply verify_steps_ignores_visited.
Qed.

(** The cells of a greedy path are joined without a wall. *)
Lemma greedy_joined (w : Walls) (dist : Grid Z) (fp : Z -> Point) : forall n a,
  (forall i, Z.of_nat a < i <= Z.of_nat (a + n) -> greedy_step w dist (fp (i - 1)) (fp i)) ->
  joined_without_wall w (fp (Z.of_nat a)) (map fp (map Z.of_nat (seq (S a) n))).
Proof.
  induction n as [|n IH]; intros a H; cbn [seq map joined_without_wall]; [exact I|].
  split.
  - destruct (H (Z.of_nat (S a))) as [d [Hq [Hw _]]]; [lia|].
    replace (Z.of_nat (S a) - 1) with (Z.of_nat a) in * by lia.
    exists d. split; [symmetry; exact Hq|exact Hw].
  - apply (IH (S a)). intros i Hi. apply H. lia.
Qed.

(** [verifyShortestPath] never fails on the path [computeShortestPath] has
    just stored. *)
Lemma computed_path_verifies (s : FF.State) (w : World) :
  wall_symmetric (FF.walls s) ->
  run (bind FF.computeShortestPath (fun _ => FF.verifyShortestPath)) s w
      (fun _ s' w' =>
         FF.walls s' = FF.walls s /\ FF.visited s' = FF.visited s /\
         FF.pos s' = FF.pos s /\ FF.currentMode s' = FF.currentMode s /\
         FF.direction s' = FF.direction s /\
         exists earlier, trace w' = verified :: earlier).
Proof.
  intros Hsym. apply run_bind.
  refine (run_weaken _ _ _ _ _ _ (computeShortestPath_run s w Hsym)).
  intros _ s1 w1 [dist [fp [len [-> [F [H0 Hcase]]]]]].
  refine (run_weaken _ _ _ _ _ _ (verifyShortestPath_verdict _ w1)).
  intros _ s' w' [-> [verdict [-> Hv]]].
  repeat (split; [reflexivity|]).
  exists (trace (told (Log "Verifying shortest path for consistency..." []) w1)).
  simpl. f_equal. apply Hv.
  cbn [FF.walls FF.fastestPath FF.pathLength FF.set_path FF.set_distances].
  destruct Hcase as [[_ [-> _]]|[_ [_ [Hlen [_ [Hsteps _]]]]]]; [exact I|].
  unfold FF.indices_from_1. rewrite <- H0. change (fp 0) with (fp (Z.of_nat 0)).
  apply (greedy_joined (FF.walls s) dist fp (Z.to_nat (len - 1)) 0).
  intros i Hi. apply Hsteps. lia.
Qed.

(** ** Back on the start cell *)

(** The right turns of the loop [while (direction != NORTH)], newest
    first. *)
Definition north_turns (d : Direction) : list Event :=
  match d with
  | NORTH => []
  | EAST => [TurnRight; TurnRight; TurnRight]
  | SOUTH => [TurnRight; TurnRight]
  | WEST => [TurnRight]
  end.

Lemma face_north_result (s : FF.State) (w : World) :
  FF.face_north s w =
  Ok (tt, FF.set_direction NORTH s,
      mkWorld (answers w) (asked w) (north_turns (FF.direction s) ++ trace w)%list).
Proof.
  destruct s as [x y d r g e ds ws vs fp pl j], w as [ans n tr].
  destruct d; reflexivity.
Qed.

(** What the code run on the start cell keeps: a symmetric wall map, the
    position and the phase. *)
Definition settled_as (s s' : FF.State) : Prop :=
  wall_symmetric (FF.walls s') /\ FF.pos s' = FF.pos s /\
  FF.currentMode s' = FF.currentMode s.

Lemma recomputePathIfNeeded_run (s : FF.State) (w : World) :
  wall_symmetric (FF.walls s) ->
  run FF.recomputePathIfNeeded s w (fun _ s' _ => settled_as s s').
Proof.
  intros Hsym. unfold FF.recomputePathIfNeeded. apply run_bind.
  refine (run_weaken _ _ _ _ _ _ (updateWalls_run s w)).
  intros _ s1 w1 [Hs1 [Hsym1 _]]. specialize (Hsym1 Hsym).
  assert (H1 : settled_as s s1).
  { split; [exact Hsym1|]. rewrite Hs1. split; reflexivity. }
  apply run_bind, run_gets. apply run_when; intros _; [|exact H1].
  apply run_bind, run_emit. apply run_bind, run_floodFillToGoal. intros dist _.
  refine (run_weaken _ _ _ _ _ _
            (computed_path_verifies (FF.set_distances dist s1) _ Hsym1)).
  intros _ s2 _ [Hw [_ [Hp [Hm _]]]]. destruct H1 as [_ [Hp1 Hm1]].
  split; [rewrite Hw; exact Hsym1|]. split; [rewrite Hp; exact Hp1|rewrite Hm; exact Hm1].
Qed.

Lemma prepareForSpeedRun_run (s : FF.State) (w : World) :
  wall_symmetric (FF.walls s) ->
  run FF.prepareForSpeedRun s w (fun _ s' _ => settled_as s s').
Proof.
  intros Hsym. unfold FF.prepareForSpeedRun, API_clearAllColor, API_setColor.
  apply run_bind, run_emit. apply run_bind, run_gets.
  destruct (negb (FF.posX s =? 0) || negb (FF.posY s =? 0)).
  { run_steps. split; [exact Hsym|split; reflexivity]. }
  apply run_bind, run_ask. apply run_bind.
  apply run_weaken with (Q := fun _ s1 _ => s1 = s);
    [|apply run_when; intros _; [run_steps|]; reflexivity].
  intros _ s1 w1 ->. apply run_bind. unfold run at 1. rewrite face_north_result.
  apply run_bind.
  refine (run_weaken _ _ _ _ _ _ (updateWalls_run _ _)).
  intros _ s2 w2 [Hs2 [Hsym2 _]]. specialize (Hsym2 Hsym).
  apply run_bind.
  refine (run_weaken _ _ _ _ _ _ (recomputePathIfNeeded_run s2 w2 Hsym2)).
  intros _ s3 w3 [Hsym3 [Hp3 Hm3]].
  assert (H3 : settled_as s s3).
  { split; [exact Hsym3|]. rewrite Hp3, Hm3, Hs2. split; reflexivity. }
  apply run_bind, run_emit. apply run_bind, run_gets. apply run_bind.
  apply run_weaken with (Q := fun _ s4 _ => s4 = s3).
  2:{ apply (run_for_each (fun s4 _ => s4 = s3)); [|reflexivity].
      intros i s4 w4 ->. run_steps. reflexivity. }
  intros _ s4 w4 ->. apply run_bind, run_emit. apply run_bind, run_emit.
  apply run_weaken with (Q := fun _ s4 _ => s4 = s3); [intros _ s4 _ ->; exact H3|].
  apply (run_for_each (fun s4 _ => s4 = s3)); [|reflexivity].
  intros i s4 w5 ->. run_steps. reflexivity.
Qed.

(** [case RETURN_MODE] of ff.c with the mouse on the start cell of a
    symmetric map: the code returns, and the phase is the speed run,
    whatever path was found and whatever the checks logged. *)
Lemma return_case_run (s : FF.State) (w : World) :
  wall_symmetric (FF.walls s) ->
  FF.isAtStart s = true ->
  run FF.return_case s w
      (fun _ s' _ => FF.currentMode s' = SPEED_MODE /\ FF.pos s' = FF.pos s /\
                     wall_symmetric (FF.walls s')).
Proof.
  intros Hsym Hstart. unfold FF.return_case.
  apply run_bind, run_gets. rewrite Hstart.
  apply run_bind, run_emit.
  (* computeShortestPath;; verifyShortestPath;; rest *)
  match goal with
  | |- run (bind FF.computeShortestPath (fun _ => bind FF.verifyShortestPath ?k)) ?s0 ?w0 ?Q =>
      assert (Hcomp : run (bind (bind FF.computeShortestPath (fun _ => FF.verifyShortestPath)) k)
                          s0 w0 Q)
  end.
  2:{ revert Hcomp. unfold run, bind.
      destruct (FF.computeShortestPath s _) as [[[a1 s1] w1]|]; [|auto].
      destruct (FF.verifyShortestPath s1 w1) as [[[a2 s2] w2]|]; auto. }
  apply run_bind.
  refine (run_weaken _ _ _ _ _ _ (computed_path_verifies s _ Hsym)).
  intros _ s1 w1 [Hw1 [_ [Hp1 _]]].
  apply run_bind, run_gets. apply run_bind, run_emit. apply run_bind.
  refine (run_weaken _ _ _ _ _ _ (criticalPathsExplored_run s1 _)).
  intros critical s2 w2 [dist [-> _]].
  apply run_bind.
  apply run_weaken with (Q := fun _ s3 _ => s3 = FF.set_distances dist s1);
    [|apply run_when; intros _; [run_steps|]; reflexivity].
  intros _ s3 w3 ->. apply run_bind.
  refine (run_weaken _ _ _ _ _ _ (prepareForSpeedRun_run _ _ _)).
  - intros _ s4 w4 [Hsym4 [Hp4 _]]. apply run_modify.
    split; [reflexivity|]. split; [|exact Hsym4].
    change (FF.pos (FF.set_currentMode SPEED_MODE s4)) with (FF.pos s4).
    rewrite Hp4. exact Hp1.
  - change (FF.walls (FF.set_distances dist s1)) with (FF.walls s1). rewrite Hw1. exact Hsym.
Qed.

(** * Concrete runs *)

(** The run [r] returns, and its result satisfies [Q]. *)
Definition returns {A : Type} (r : Result A) (Q : A -> Prop) : Prop :=
  match r with Ok a => Q a | Fail _ => False end.

(** The run [r] of a program returns, and its final state satisfies [Q]. *)
Definition ends_in {St A : Type} (r : Result (A * St * World)) (Q : St -> Prop) : Prop :=
  match r with Ok (_, s, _) => Q s | Fail _ => False end.

Lemma returns_weaken {A : Type} (r : Result A) (Q Q' : A -> Prop) :
  (forall a, Q a -> Q' a) -> returns r Q -> returns r Q'.
Proof. intros H. destruct r; simpl; auto. Qed.

Lemma ends_in_weaken {St A : Type} (r : Result (A * St * World)) (Q Q' : St -> Prop) :
  (forall s, Q s -> Q' s) -> ends_in r Q -> ends_in r Q'.
Proof. intros H. destruct r as [[[a s] w]|]; simpl; auto. Qed.

Lemma ends_in_ok {St A : Type} (r : Result (A * St * World)) (Q : St -> Prop) :
  ends_in r Q -> exists a s w, r = Ok (a, s, w) /\ Q s.
Proof. destruct r as [[[a s] w]|]; simpl; [eauto|contradiction]. Qed.

(** A simulator that answers [false] to every query: no wall is ever
    sensed, no reset is requested, every move is refused. *)
Definition silent : World := mkWorld (fun _ => false) 0 [].

(** The answers of a simulator holding a maze without interior walls, to
    the mouse of ff.c on its way from the start to the goal region: five
    queries per iteration of the main loop (reset, front, right, left,
    move).  The mouse runs north along the west boundary for seven cells,
    then east; the only wall it ever senses is the west boundary on its
    left while it faces north. *)
Definition empty_maze_answers (n : nat) : bool :=
  match Nat.modulo n 5 with
  | 3%nat => (Nat.div n 5 <=? 7)%nat
  | 4%nat => true
  | _ => false
  end.

Definition empty_maze : World := mkWorld empty_maze_answers 0 [].

(** The answers of a simulator to the mouse of ff.c in a corridor that
    leads from the start cell north to (0,8) and east to the goal cell
    (7,8), a dead end, and back; the answers to one iteration of the main
    loop are the reset flag, the three sensors (front, right, left) and the
    move.  On every cell of the corridor the sensors report a wall on each
    side but the way on, so that the cells next to the corridor cannot be
    reached from it.  The readings are those of one maze, with one
    exception: back on the start cell (iteration 32) the sensor that faces
    east reports no wall, where it reported one in iteration 1. *)
Definition straight : list bool := [false; false; true; true; true].

Definition corridor_answers : list bool :=
  (concat (repeat straight 8) ++ [false; true; false; true; true] ++
   concat (repeat straight 6) ++ [false; true; true; true] ++
   [false; true; true; true; true; true; true; true] ++
   concat (repeat straight 6) ++ [false; true; true; false; true] ++
   concat (repeat straight 7) ++
   [false; true; true; false; false; false; false; true; false; false; true])%list.

Definition glitching_corridor : World :=
  mkWorld (fun n => nth n corridor_answers false) 0 [].

(** The state of ff.c after [n] iterations of the main loop in that
    corridor. *)
Definition corridor_state (n : nat) : FF.State :=
  match bind FF.startup (fun _ => FF.ticks n) FF.initial glitching_corridor with
  | Ok (_, s, _) => s
  | Fail _ => FF.initial
  end.

(** The state of ff.c with nothing but the boundary walls, as
    [initializeMaze] leaves the wall map. *)
Definition ff_bare : FF.State :=
  FF.set_walls (FF.set_boundary (fun _ _ => false)) FF.initial.

(** * C5: wall symmetry *)

(** A simulator that reports a wall in front, to the right and to the left
    of the start cell and then lets the mouse move: no reset, [true] to
    the queries 1 to 4 (the three sensors and the move of the first
    iteration), [false] to every other query. *)
Definition walled_then_open : World :=
  mkWorld (fun n => (0 <? n)%nat && (n <? 5)%nat) 0 [].

(** Byte offsets in [struct Maze], counted from the first byte of the
    member [walls].  [walls] and [visited] are arrays of [bool] declared
    one after the other, one byte per [bool]; arrays of bytes need no
    padding, so [visited] starts on the byte after the last byte of
    [walls]. *)
Definition walls_offset (p : Point) (d : Direction) : Z :=
  (px p * MAZE_HEIGHT + py p) * DIRECTION_COUNT + dir_index d.

Definition visited_offset (p : Point) : Z :=
  MAZE_WIDTH * MAZE_HEIGHT * DIRECTION_COUNT + (px p * MAZE_HEIGHT + py p).

(** C5, the code at a failing input.  Every wall write of both programs
    writes the two sides of an edge alike, every run of ff.c keeps the wall
    map symmetric, and a run of ffv3.c keeps it symmetric as long as it
    stays inside its arrays.  It does not always stay inside.  With the
    start cell reported walled in and a simulator that lets the next move
    through, the first iteration of the main loop of ffv3.c finds no
    direction, falls back to the opposite of the heading and moves the
    mouse to (0,-1), off the grid.  The second iteration executes
    [maze.visited[0][-1] = true], a write outside the array [visited]
    (reported as [OutOfBounds]).  In the layout of [struct Maze] the byte
    written is [walls[15][15][WEST]]; that flag and its mirror
    [walls[14][15][EAST]] are both clear before the write, so setting the
    one leaves the wall map asymmetric. *)
Theorem visited_write_off_grid :
  run (bind FFv3.startup (fun _ => FFv3.ticks 1)) FFv3.initial walled_then_open
      (fun _ s w =>
         FFv3.pos (FFv3.mouse s) = mkPoint 0 (-1) /\
         is_within_bounds (FFv3.pos (FFv3.mouse s)) = false /\
         FFv3.tick s w = Fail OutOfBounds /\
         visited_offset (FFv3.pos (FFv3.mouse s)) = walls_offset (mkPoint 15 15) WEST /\
         wall_symmetric (FFv3.walls (FFv3.maze s)) /\
         ~ wall_symmetric (walls_set (FFv3.walls (FFv3.maze s)) (mkPoint 15 15) WEST true)) /\
  bind FFv3.startup (fun _ => FFv3.ticks 2) FFv3.initial walled_then_open = Fail OutOfBounds /\
  (forall s0 n w b s' w',
      bind FFv3.startup (fun _ => FFv3.ticks n) s0 w = Ok (b, s', w') ->
      wall_symmetric (FFv3.walls (FFv3.maze s'))) /\
  (forall s0 n w b s' w',
      bind FF.startup (fun _ => FF.ticks n) s0 w = Ok (b, s', w') ->
      wall_symmetric (FF.walls s')) /\
  (forall m p d,
      is_within_bounds p = true ->
      is_within_bounds (neighbor p d) = true ->
      FFv3.has_wall (FFv3.set_wall p d m) p d = true /\
      FFv3.has_wall (FFv3.set_wall p d m) (neighbor p d) (get_opposite_direction d) = true) /\
  (forall s dir reading,
      is_within_bounds (neighbor (FF.pos s) dir) = true ->
      FF.walls (FF.sense_side dir reading s) (FF.pos s) dir = reading /\
      FF.walls (FF.sense_side dir reading s) (neighbor (FF.pos s) dir)
               (get_opposite_direction dir) = reading) /\
  (forall s,
      is_within_bounds (neighbor (FF.pos s) (FF.direction s)) = true ->
      FF.walls (FF.record_blocked s) (FF.pos s) (FF.direction s) = true /\
      FF.walls (FF.record_blocked s) (neighbor (FF.pos s) (FF.direction s))
               (get_opposite_direction (FF.direction s)) = true).
Proof.
  split; [|split; [|split; [|split; [|split; [|split]]]]].
  - assert (Hrun : run (bind FFv3.startup (fun _ => FFv3.ticks 1)) FFv3.initial walled_then_open
                       (fun _ s w =>
                          FFv3.pos (FFv3.mouse s) = mkPoint 0 (-1) /\
                          FFv3.tick s w = Fail OutOfBounds /\
                          FFv3.walls (FFv3.maze s) (mkPoint 15 15) WEST = false /\
                          FFv3.walls (FFv3.maze s) (mkPoint 14 15) EAST = false)).
    { vm_compute. repeat split; reflexivity. }
    refine (run_strengthen _ _ _ _ _ Hrun _). clear Hrun.
    intros a s w E [Hp [Ht [Hw He]]].
    split; [exact Hp|]. split; [rewrite Hp; reflexivity|]. split; [exact Ht|].
    split; [rewrite Hp; reflexivity|]. split.
    + exact (reachable3_holds wall_symmetric
               (fun w p d => mirror_set_symmetric w p d true) init_maze_symmetric
               1%nat FFv3.initial walled_then_open a s w E).
    + intros Hsym.
      specialize (Hsym (mkPoint 15 15) WEST eq_refl eq_refl).
      rewrite walls_set_same in Hsym.
      change (neighbor (mkPoint 15 15) WEST) with (mkPoint 14 15) in Hsym.
      change (get_opposite_direction WEST) with EAST in Hsym.
      rewrite walls_set_other in Hsym by (left; discriminate).
      congruence.
  - vm_compute. reflexivity.
  - intros s0 n w b s' w' H.
    exact (reachable3_holds wall_symmetric
             (fun w p d => mirror_set_symmetric w p d true) init_maze_symmetric
             n s0 w b s' w' H).
  - intros s0 n w b s' w' H.
    exact (reachableF_holds wall_symmetric mirror_set_symmetric set_boundary_symmetric
             n s0 w b s' w' H).
  - intros m p d Hp Hn. unfold FFv3.has_wall. rewrite Hp, Hn. simpl.
    rewrite set_wall_walls, Hp. split; [apply mirror_set_here|apply mirror_set_there, Hn].
  - intros s dir reading Hn. rewrite sense_side_walls.
    split; [apply mirror_set_here|apply mirror_set_there, Hn].
  - intros s Hn. rewrite record_blocked_walls.
    split; [apply mirror_set_here|apply mirror_set_there, Hn].
Qed.

(** One iteration of both main loops on the boundary-only maze and a wall
    write on the north side of the start cell, for the hypotheses of
    [visited_write_off_grid]. *)
Lemma visited_write_off_grid_witness :
  ends_in (bind FFv3.startup (fun _ => FFv3.ticks 1) FFv3.initial silent)
          (fun s => wall_symmetric (FFv3.walls (FFv3.maze s))) /\
  ends_in (bind FF.startup (fun _ => FF.ticks 1) FF.initial silent)
          (fun s => wall_symmetric (FF.walls s)) /\
  FFv3.has_wall (FFv3.set_wall (mkPoint 0 0) NORTH (FFv3.maze FFv3.initial))
                (mkPoint 0 1) SOUTH = true /\
  FF.walls (FF.sense_side NORTH true ff_bare) (mkPoint 0 1) SOUTH = true /\
  FF.walls (FF.record_blocked ff_bare) (mkPoint 0 1) SOUTH = true.
Proof.
  split; [|split; [|split; [|split]]].
  - assert (Hok : match bind FFv3.startup (fun _ => FFv3.ticks 1) FFv3.initial silent with
                  | Ok _ => true | Fail _ => false end = true) by (vm_compute; reflexivity).
    destruct (bind FFv3.startup (fun _ => FFv3.ticks 1) FFv3.initial silent)
      as [[[b s'] w']|] eqn:E; [|discriminate Hok].
    simpl.
    exact (proj1 (proj2 (proj2 visited_write_off_grid)) FFv3.initial 1%nat silent b s' w' E).
  - assert (Hok : match bind FF.startup (fun _ => FF.ticks 1) FF.initial silent with
                  | Ok _ => true | Fail _ => false end = true) by (vm_compute; reflexivity).
    destruct (bind FF.startup (fun _ => FF.ticks 1) FF.initial silent)
      as [[[b s'] w']|] eqn:E; [|discriminate Hok].
    simpl.
    exact (proj1 (proj2 (proj2 (proj2 visited_write_off_grid)))
                 FF.initial 1%nat silent b s' w' E).
  - exact (proj2 (proj1 (proj2 (proj2 (proj2 (proj2 visited_write_off_grid))))
                        (FFv3.maze FFv3.initial) (mkPoint 0 0) NORTH eq_refl eq_refl)).
  - exact (proj2 (proj1 (proj2 (proj2 (proj2 (proj2 (proj2 visited_write_off_grid)))))
                        ff_bare NORTH true eq_refl)).
  - exact (proj2 (proj2 (proj2 (proj2 (proj2 (proj2 (proj2 visited_write_off_grid)))))
                        ff_bare eq_refl)).
Defined.

(** * C6: boundary walls *)

(** C6, the claim as stated fails on ff.c: the mouse of ff.c stands on the
    start cell facing north, the left sensor reports no wall, and after
    one iteration of the main loop the west side of the start cell, a
    boundary side, has no wall recorded. *)
Lemma boundary_cleared_by_sensor :
  ends_in (bind FF.startup (fun _ => FF.ticks 1) FF.initial silent)
          (fun s => ~ boundary_walled (FF.walls s)).
Proof.
  apply ends_in_weaken with (Q := fun s => FF.walls s (mkPoint 0 0) WEST = false).
  - intros s H Hb. rewrite (Hb (mkPoint 0 0) WEST) in H; [discriminate|].
    split; reflexivity.
  - vm_compute. reflexivity.
Qed.

(** C6, amended.  In ffv3.c the boundary walls are permanent: every state
    reached from the start of [main] by any number of iterations of the
    main loop, whatever the simulator answers (resets included), has every
    boundary side walled.  In ff.c the start-up code sets them, the
    failed-move branch keeps them, and a block of [updateWalls] keeps them
    when the sensor reading it writes reports the wall of a boundary
    side. *)
Theorem boundary_walls_kept :
  (forall s0 n w b s' w',
      bind FFv3.startup (fun _ => FFv3.ticks n) s0 w = Ok (b, s', w') ->
      boundary_walled (FFv3.walls (FFv3.maze s'))) /\
  (forall s0 w a s' w',
      FF.startup s0 w = Ok (a, s', w') -> boundary_walled (FF.walls s')) /\
  (forall s,
      boundary_walled (FF.walls s) -> boundary_walled (FF.walls (FF.record_blocked s))) /\
  (forall s dir reading,
      is_within_bounds (FF.pos s) = true ->
      (on_boundary (FF.pos s) dir -> reading = true) ->
      boundary_walled (FF.walls s) ->
      boundary_walled (FF.walls (FF.sense_side dir reading s))).
Proof.
  split; [|split; [|split]].
  - intros s0 n w b s' w' H.
    exact (reachable3_holds boundary_walled mirror_set_true_boundary init_maze_boundary
             n s0 w b s' w' H).
  - exact (startup_establishes boundary_walled set_boundary_boundary).
  - intros s H. rewrite record_blocked_walls. apply mirror_set_true_boundary, H.
  - intros s dir reading Hp Hr H. rewrite sense_side_walls.
    apply mirror_set_boundary_truthful; assumption.
Qed.

(** A run of ffv3.c and a truthful reading in ff.c, for the hypotheses of
    [boundary_walls_kept]. *)
Lemma boundary_walls_kept_witness :
  ends_in (bind FFv3.startup (fun _ => FFv3.ticks 2) FFv3.initial silent)
          (fun s => boundary_walled (FFv3.walls (FFv3.maze s))) /\
  boundary_walled (FF.walls (FF.sense_side WEST true ff_bare)).
Proof.
  split.
  - assert (Hok : match bind FFv3.startup (fun _ => FFv3.ticks 2) FFv3.initial silent with
                  | Ok _ => true | Fail _ => false end = true) by (vm_compute; reflexivity).
    destruct (bind FFv3.startup (fun _ => FFv3.ticks 2) FFv3.initial silent)
      as [[[b s'] w']|] eqn:E; [|discriminate Hok].
    simpl. exact (proj1 boundary_walls_kept FFv3.initial 2%nat silent b s' w' E).
  - apply (proj2 (proj2 (proj2 boundary_walls_kept)) ff_bare WEST true).
    + reflexivity.
    + intros _. reflexivity.
    + exact set_boundary_boundary.
Defined.

(** * C1: the flood fill toward the goal *)

(** C1, the claim as stated fails on ff.c: with nothing but the boundary
    walls and the mouse on the start cell, [floodFillToGoal] leaves the
    goal cell (8,8) at distance 2, not 0: only the goal cell closest to the
    mouse is a source. *)
Lemma floodFillToGoal_single_source :
  In (mkPoint GOAL_X2 GOAL_Y2) goal_cells /\
  returns (FF.floodFillToGoal ff_bare)
          (fun s => FF.distances s (mkPoint GOAL_X2 GOAL_Y2) = 2).
Proof.
  split; [simpl; tauto|]. vm_compute. reflexivity.
Qed.

(** C1, amended.  On a symmetric wall map, [flood_fill_goal] of ffv3.c
    returns, leaves walls and visited flags alone, gives all four goal
    cells distance 0, gives every cell that reaches the goal region through
    open edges its least hop count to a goal cell, and every other cell
    the sentinel.  [floodFillToGoal] of ff.c does the same with a single
    source, the goal cell closest to the mouse. *)
Theorem flood_fill_toward_goal (m : FFv3.Maze) (s : FF.State) :
  wall_symmetric (FFv3.walls m) ->
  wall_symmetric (FF.walls s) ->
  (exists m',
      FFv3.flood_fill_goal_maze m = Ok m' /\
      FFv3.walls m' = FFv3.walls m /\
      FFv3.visited m' = FFv3.visited m /\
      (forall g, In g goal_cells -> FFv3.distances m' g = 0) /\
      (forall c, reachable (FFv3.walls m) goal_cells c ->
                 min_hops (FFv3.walls m) goal_cells c (FFv3.distances m' c)) /\
      (forall c, ~ reachable (FFv3.walls m) goal_cells c ->
                 FFv3.distances m' c = MAX_CELLS)) /\
  (exists s',
      FF.floodFillToGoal s = Ok s' /\
      FF.walls s' = FF.walls s /\
      FF.visited s' = FF.visited s /\
      In (ff_goal_target s) goal_cells /\
      FF.distances s' (ff_goal_target s) = 0 /\
      (forall c, reachable (FF.walls s) [ff_goal_target s] c ->
                 min_hops (FF.walls s) [ff_goal_target s] c (FF.distances s' c)) /\
      (forall c, ~ reachable (FF.walls s) [ff_goal_target s] c ->
                 FF.distances s' c = MAX_CELLS)).
Proof.
  intros Hm Hs. split.
  - destruct (flood_fill_goal_flooded m) as [dist [E F]].
    exists (FFv3.set_distances dist m). split; [exact E|].
    split; [reflexivity|]. split; [reflexivity|].
    pose proof (flooded_min_hops (FFv3.walls m) (FFv3.has_wall m) goal_cells
                  (has_wall_within m) goal_cells_within Hm dist F) as H.
    split; [|split].
    + intros g Hg. simpl. apply (fl_sources _ _ _ F), Hg.
    + intros c. apply H.
    + intros c. apply H.
  - destruct (floodFillToGoal_flooded s) as [dist [E F]].
    exists (FF.set_distances dist s). split; [exact E|].
    split; [reflexivity|]. split; [reflexivity|].
    split; [apply goal_target_is_goal|].
    assert (Hin : Forall (fun p => is_within_bounds p = true) [ff_goal_target s]).
    { constructor; [apply goal_target_within|constructor]. }
    pose proof (flooded_min_hops (FF.walls s) (FF.walls s) [ff_goal_target s]
                  (fun u d _ => eq_refl) Hin Hs dist F) as H.
    split; [|split].
    + simpl. apply (fl_sources _ _ _ F). left; reflexivity.
    + intros c. apply H.
    + intros c. apply H.
Qed.

(** The boundary-only mazes of both programs are symmetric: the conclusion
    of [flood_fill_toward_goal] holds of them. *)
Lemma flood_fill_toward_goal_witness :
  (exists m',
      FFv3.flood_fill_goal_maze (FFv3.init_maze (FFv3.maze FFv3.initial)) = Ok m' /\
      FFv3.walls m' = FFv3.walls (FFv3.init_maze (FFv3.maze FFv3.initial)) /\
      FFv3.visited m' = FFv3.visited (FFv3.init_maze (FFv3.maze FFv3.initial)) /\
      (forall g, In g goal_cells -> FFv3.distances m' g = 0) /\
      (forall c, reachable (FFv3.walls (FFv3.init_maze (FFv3.maze FFv3.initial))) goal_cells c ->
                 min_hops (FFv3.walls (FFv3.init_maze (FFv3.maze FFv3.initial))) goal_cells c
                          (FFv3.distances m' c)) /\
      (forall c, ~ reachable (FFv3.walls (FFv3.init_maze (FFv3.maze FFv3.initial))) goal_cells c ->
                 FFv3.distances m' c = MAX_CELLS)) /\
  (exists s',
      FF.floodFillToGoal ff_bare = Ok s' /\
      FF.walls s' = FF.walls ff_bare /\
      FF.visited s' = FF.visited ff_bare /\
      In (ff_goal_target ff_bare) goal_cells /\
      FF.distances s' (ff_goal_target ff_bare) = 0 /\
      (forall c, reachable (FF.walls ff_bare) [ff_goal_target ff_bare] c ->
                 min_hops (FF.walls ff_bare) [ff_goal_target ff_bare] c (FF.distances s' c)) /\
      (forall c, ~ reachable (FF.walls ff_bare) [ff_goal_target ff_bare] c ->
                 FF.distances s' c = MAX_CELLS)).
Proof.
  exact (flood_fill_toward_goal (FFv3.init_maze (FFv3.maze FFv3.initial)) ff_bare
           (init_maze_symmetric _) set_boundary_symmetric).
Defined.

(** * C7: the queue of the sweeps *)

(** C7, the code at a failing input.  In a maze without interior walls
    the mouse of ff.c reaches the goal cell (7,7) after fourteen iterations
    of the main loop.  The fifteenth iteration switches to the return phase
    and runs [floodFillToStartWithExploration]: its sweep writes past the
    end of [queue], both when called on the state the mouse is then in and
    in the run of the program itself. *)
Theorem biased_fill_overflows_queue :
  ends_in (bind FF.startup (fun _ => FF.ticks 14) FF.initial empty_maze)
          (fun s => FF.pos s = mkPoint 7 7 /\
                    FF.floodFillToStartWithExploration
                      (FF.mark_goal_visited s) = Fail QueueOverflow) /\
  bind FF.startup (fun _ => FF.ticks 15) FF.initial empty_maze = Fail QueueOverflow.
Proof.
  split.
  - vm_compute. split; reflexivity.
  - vm_compute. reflexivity.
Qed.

(** * C9: the empty 16 x 16 grid *)

(** The Manhattan distance from [(x, y)] to the nearest goal cell. *)
Definition nearest_goal_manhattan (x y : Z) : Z :=
  fold_left Z.min (goal_manhattan x y) (MAZE_WIDTH + MAZE_HEIGHT).

(** The path found on the empty grid: north along the west boundary, then
    east along row 7. *)
Definition north_then_east : list Point :=
  map (fun y => mkPoint 0 y) (zrange 8) ++ map (fun x => mkPoint (x + 1) 7) (zrange 7).

(** C9. On the grid whose only walls are the boundary walls, with the
    mouse on the start cell, [computeShortestPath] of ff.c and
    [compute_shortest_path] of ffv3.c return a path of 15 cells, 14 moves,
    from (0,0) to the goal cell (7,7); 14 is the Manhattan distance from
    the start to the nearest goal cell.  The other parts of the state
    (heading, mode, visited flags, old distances, old path) do not
    matter. *)
Theorem empty_grid_path
    (dir : Direction) (mode : RunMode) (gf epc jrg : bool)
    (dist : Grid Z) (vis : Grid bool) (path : Z -> Point) (len : Z) (w : World) :
  nearest_goal_manhattan 0 0 = 14 /\
  ends_in (FF.computeShortestPath
             (FF.mkState 0 0 dir mode gf epc dist (FF.set_boundary (fun _ _ => false))
                         vis path len jrg) w)
          (fun s => FF.pathLength s = 15 /\ FF.path_cells s = north_then_east) /\
  ends_in (FFv3.compute_shortest_path
             (FFv3.mkState (FFv3.mkMouse (mkPoint 0 0) dir mode gf path len)
                           (FFv3.mkMaze dist
                              (FFv3.walls (FFv3.init_maze (FFv3.mkMaze dist (fun _ _ => false) vis)))
                              vis)) w)
          (fun s => FFv3.path_length (FFv3.mouse s) = 15 /\
                    FFv3.path_cells (FFv3.mouse s) = north_then_east).
Proof.
  split; [reflexivity|]. split.
  - vm_compute. split; reflexivity.
  - vm_compute. split; reflexivity.
Qed.

(** * C10: the display update *)

(** The state of ff.c when the mouse has just found itself on the goal:
    the assignments of [case SEARCH_MODE] up to the call of
    [floodFillToStart]. *)
Definition goal_found_state (s : FF.State) : FF.State :=
  FF.set_explorePhaseComplete false
    (FF.mark_goal_visited (FF.set_currentMode RETURN_MODE (FF.set_goalFound true s))).

(** A state of the return phase of ff.c in which the start cell is walled
    in, every cell but (5,5) has been visited and every distance is 7. *)
Definition walled_in_state : FF.State :=
  FF.mkState 0 0 NORTH RETURN_MODE true false
             (fun _ => 7)
             (mirror_set (mirror_set (FF.set_boundary (fun _ _ => false))
                                     (mkPoint 0 0) NORTH true)
                         (mkPoint 0 0) EAST true)
             (fun c => negb (point_eqb c (mkPoint 5 5)))
             (fun _ => origin) 0 false.

(** C10, the code at failing inputs.  In the return phase with the
    exploration flag unset, [updateDisplay] of ff.c runs [floodFillToGoal]
    and [floodFillToStartWithExploration] for every unvisited cell it
    colours.  In the maze without interior walls, the call made when the
    mouse has reached the goal writes past the end of the sweep's queue.
    Where the call returns, the distance field on exit is the one the
    flood fill computed, not the one on entry: in [walled_in_state] cell
    (3,3) enters with distance 7 and leaves with the sentinel. *)
Theorem updateDisplay_runs_flood_fills :
  ends_in (bind FF.startup (fun _ => FF.ticks 14) FF.initial empty_maze)
          (fun s => returns (FF.floodFillToStart (goal_found_state s))
                            (fun s1 => FF.updateDisplay s1 silent = Fail QueueOverflow)) /\
  FF.distances walled_in_state (mkPoint 3 3) = 7 /\
  ends_in (FF.updateDisplay walled_in_state silent)
          (fun s => FF.distances s (mkPoint 3 3) = MAX_CELLS).
Proof.
  split; [|split].
  - vm_compute. reflexivity.
  - reflexivity.
  - vm_compute. reflexivity.
Qed.

(** * C8: no selectable direction *)





(** The start cell of ffv3.c with walls on its north and east sides, as
    the sensors of a walled-in mouse report them. *)
Definition boxed3 : FFv3.State :=
  FFv3.mkState
    (FFv3.mkMouse (mkPoint 0 0) NORTH SEARCH_MODE false (fun _ => origin) 0)
    (FFv3.set_wall (mkPoint 0 0) EAST
       (FFv3.set_wall (mkPoint 0 0) NORTH (FFv3.init_maze (FFv3.maze FFv3.initial)))).





(** The start cell of ff.c with walls on its north and east sides. *)
Definition boxed : FF.State :=
  FF.set_walls (mirror_set (mirror_set (FF.set_boundary (fun _ _ => false))
                                       (mkPoint 0 0) NORTH true)
                           (mkPoint 0 0) EAST true)
               FF.initial.


(** * C4: a refused move *)

(** The target set of the phase [r], where [goal] is the target set of the
    search phase. *)
Definition active_target (r : RunMode) (goal : list Point) : list Point :=
  match r with
  | SEARCH_MODE => goal
  | _ => [mkPoint 0 0]
  end.

(** The direction [move_forward_update_state] turns to: the one chosen by
    the scan, or the opposite of the heading when the scan finds none. *)
Definition chosen3 (s : FFv3.State) (d : Direction) : Prop :=
  fst (FFv3.scan_moves (FFv3.mouse s) (FFv3.maze s)) = Some d \/
  (fst (FFv3.scan_moves (FFv3.mouse s) (FFv3.maze s)) = None /\
   d = get_opposite_direction (FFv3.orientation (FFv3.mouse s))).

(** A simulator for the first iteration of the main loop on the start
    cell: no reset, no wall in front or to the right, a wall to the left,
    and the move refused. *)
Definition refused_at_start : World := mkWorld (fun n => (n =? 3)%nat) 0 [].

(** C4, the claim as stated fails on ff.c: in the search phase the
    distances are recomputed toward one goal cell, not toward the goal
    region.  The mouse stands on the start cell, the simulator refuses the
    first move, and [moveToNextCell] records the wall and floods again:
    the four goal cells end with the distances 0, 1, 1 and 2, which is not
    the field of hop counts to the goal region. *)
Lemma refused_move_floods_one_goal_cell :
  run (bind FF.startup (fun _ => FF.ticks 1)) FF.initial refused_at_start
      (fun _ s w =>
         FF.currentMode s = SEARCH_MODE /\
         FF.pos s = mkPoint 0 0 /\
         actuations (trace w) = [MoveForward false] /\
         FF.walls s (mkPoint 0 0) NORTH = true /\
         FF.walls s (mkPoint 0 1) SOUTH = true /\
         map (FF.distances s) goal_cells = [0; 1; 1; 2] /\
         ~ hop_field (FF.walls s) goal_cells (FF.distances s)).
Proof.
  assert (Hrun : run (bind FF.startup (fun _ => FF.ticks 1)) FF.initial refused_at_start
                     (fun _ s w =>
                        FF.currentMode s = SEARCH_MODE /\
                        FF.pos s = mkPoint 0 0 /\
                        actuations (trace w) = [MoveForward false] /\
                        FF.walls s (mkPoint 0 0) NORTH = true /\
                        FF.walls s (mkPoint 0 1) SOUTH = true /\
                        map (FF.distances s) goal_cells = [0; 1; 1; 2])).
  { vm_compute. repeat split; reflexivity. }
  refine (run_weaken _ _ _ _ _ _ Hrun). clear Hrun.
  intros _ s w [H1 [H2 [H3 [H4 [H5 H6]]]]].
  repeat (split; [assumption|]).
  intros Hf. destruct (Hf (mkPoint GOAL_X2 GOAL_Y2)) as [Hmin _].
  assert (Hg : In (mkPoint GOAL_X2 GOAL_Y2) goal_cells) by (simpl; tauto).
  assert (Hh : hops (FF.walls s) 0 (mkPoint GOAL_X2 GOAL_Y2) (mkPoint GOAL_X2 GOAL_Y2))
    by (apply hops_here; reflexivity).
  destruct Hmin as [_ Hleast]; [exists 0, (mkPoint GOAL_X2 GOAL_Y2); auto|].
  specialize (Hleast 0 _ Hg Hh).
  assert (Hd : FF.distances s (mkPoint GOAL_X2 GOAL_Y2) = 2).
  { unfold goal_cells in H6. simpl in H6. congruence. }
  rewrite Hd in Hleast. lia.
Qed.

(** What a refused move leaves behind, in terms of the state [s] before
    it and the direction [d] the mouse had turned to: the mouse is on the
    same cell, the wall is recorded on both sides of the edge, which is
    open in neither direction any more, the visited flags are as they
    were, and the distances are the hop counts to [targets] on the new
    map. *)
Definition wall_recorded (s s' : FF.State) (d : Direction) (targets : list Point) : Prop :=
  FF.pos s' = FF.pos s /\
  FF.walls s' = mirror_set (FF.walls s) (FF.pos s) d true /\
  FF.walls s' (FF.pos s) d = true /\
  (is_within_bounds (neighbor (FF.pos s) d) = true ->
   FF.walls s' (neighbor (FF.pos s) d) (get_opposite_direction d) = true) /\
  ~ open_edge (FF.walls s') (FF.pos s) (neighbor (FF.pos s) d) /\
  ~ open_edge (FF.walls s') (neighbor (FF.pos s) d) (FF.pos s) /\
  FF.visited s' = FF.visited s /\
  hop_field (FF.walls s') targets (FF.distances s').

Lemma wall_recorded_intro (s s' : FF.State) (d : Direction) (targets : list Point) :
  wall_symmetric (FF.walls s) ->
  Forall (fun p => is_within_bounds p = true) targets ->
  FF.pos s' = FF.pos s ->
  FF.walls s' = mirror_set (FF.walls s) (FF.pos s) d true ->
  FF.visited s' = FF.visited s ->
  flooded (FF.walls s') targets (FF.distances s') ->
  wall_recorded s s' d targets.
Proof.
  intros Hsym Ht Hp Hw Hv F. unfold wall_recorded. rewrite Hw in *.
  split; [exact Hp|]. split; [reflexivity|].
  split; [apply mirror_set_here|]. split; [apply mirror_set_there|].
  split; [apply walled_edge_closed, mirror_set_here|].
  split.
  - intros Ho. apply (open_edge_sym _ _ _ (mirror_set_symmetric _ _ _ _ Hsym)) in Ho.
    revert Ho. apply walled_edge_closed, mirror_set_here.
  - split; [exact Hv|].
    apply flooded_hop_field; [apply mirror_set_symmetric, Hsym|exact Ht|exact F].
Qed.

(** C4, amended.  When the simulator refuses the move, the mouse stays on
    its cell, the wall is recorded on the side it faces and on the facing
    side of the neighbour, the edge is open in neither direction any more,
    and the distances are recomputed on the new map, the sentinel where
    the target is out of reach:
    - [move_forward_update_state] of ffv3.c floods toward the four goal
      cells in the search phase and toward the start in the return phase;
    - [moveToNextCell] of ff.c floods toward one goal cell, the one
      closest to the mouse, in the search phase, and toward the start when
      called in the return phase;
    - [moveToNextCellReturn], which the main loop of ff.c calls in the
      return phase, floods toward the start, with the plain fill or with
      the exploration-biased fill; on a map where every cell that reaches
      the start has been visited both give the hop counts to the start,
      and the move it attempts is a step onto a neighbour one hop nearer
      to the start.  Its first call senses the walls and clears the static
      flag [justReachedGoal] before it goes on as every later call does.
      Where an unvisited cell other than the start reaches the start, the
      biased fill does not return: it writes past the end of its queue. *)
Theorem blocked_move_records_wall :
  (forall s w,
      FF.currentMode s <> SPEED_MODE ->
      wall_symmetric (FF.walls s) ->
      fst (FF.select_direction s (FF.bonus s)) <> None ->
      answers w (asked w) = false ->
      run FF.moveToNextCell s w
          (fun _ s' w' =>
             let d := FF.direction s' in
             FF.pos s' = FF.pos s /\
             fst (FF.select_direction s (FF.bonus s)) = Some d /\
             FF.walls s' = mirror_set (FF.walls s) (FF.pos s) d true /\
             FF.walls s' (FF.pos s) d = true /\
             (is_within_bounds (neighbor (FF.pos s) d) = true ->
              FF.walls s' (neighbor (FF.pos s) d) (get_opposite_direction d) = true) /\
             ~ open_edge (FF.walls s') (FF.pos s) (neighbor (FF.pos s) d) /\
             ~ open_edge (FF.walls s') (neighbor (FF.pos s) d) (FF.pos s) /\
             FF.visited s' = FF.visited s /\
             hop_field (FF.walls s')
                       (active_target (FF.currentMode s) [ff_goal_target s])
                       (FF.distances s'))) /\
  (forall s w,
      FFv3.mode (FFv3.mouse s) <> SPEED_MODE ->
      wall_symmetric (FFv3.walls (FFv3.maze s)) ->
      is_within_bounds (FFv3.pos (FFv3.mouse s)) = true ->
      answers w (asked w) = false ->
      run FFv3.move_forward_update_state s w
          (fun _ s' w' =>
             let p := FFv3.pos (FFv3.mouse s) in
             let d := FFv3.orientation (FFv3.mouse s') in
             FFv3.pos (FFv3.mouse s') = p /\
             chosen3 s d /\
             FFv3.walls (FFv3.maze s') = mirror_set (FFv3.walls (FFv3.maze s)) p d true /\
             FFv3.walls (FFv3.maze s') p d = true /\
             (is_within_bounds (neighbor p d) = true ->
              FFv3.walls (FFv3.maze s') (neighbor p d) (get_opposite_direction d) = true) /\
             ~ open_edge (FFv3.walls (FFv3.maze s')) p (neighbor p d) /\
             ~ open_edge (FFv3.walls (FFv3.maze s')) (neighbor p d) p /\
             FFv3.visited (FFv3.maze s') = FFv3.visited (FFv3.maze s) /\
             hop_field (FFv3.walls (FFv3.maze s'))
                       (active_target (FFv3.mode (FFv3.mouse s)) goal_cells)
                       (FFv3.distances (FFv3.maze s')))) /\
  (forall s w,
      FF.justReachedGoal s = false ->
      wall_symmetric (FF.walls s) ->
      explored_around_start (FF.walls s) (FF.visited s) ->
      reachable (FF.walls s) [mkPoint 0 0] (FF.pos s) ->
      FF.pos s <> mkPoint 0 0 ->
      answers w (asked w) = false ->
      run FF.moveToNextCellReturn s w
          (fun _ s' w' =>
             let d := FF.direction s' in
             open_edge (FF.walls s) (FF.pos s) (neighbor (FF.pos s) d) /\
             (exists k, min_hops (FF.walls s) [mkPoint 0 0] (FF.pos s) (k + 1) /\
                        min_hops (FF.walls s) [mkPoint 0 0] (neighbor (FF.pos s) d) k) /\
             wall_recorded s s' d [mkPoint 0 0] /\
             asked w' = S (asked w))) /\
  (forall s w,
      FF.justReachedGoal s = true ->
      FF.moveToNextCellReturn s w =
      bind FF.updateWalls
           (fun _ => bind (modify (FF.set_justReachedGoal false))
                          (fun _ => FF.moveToNextCellReturn))
           s (told (Log "First move after reaching goal - updating wall knowledge" []) w)) /\
  (forall s u,
      wall_symmetric (FF.walls s) ->
      u <> mkPoint 0 0 ->
      reachable (FF.walls s) [mkPoint 0 0] u ->
      FF.visited s u = false ->
      FF.floodFillToStartWithExploration s = Fail QueueOverflow).
Proof.
  split; [|split; [|split; [|split]]].
  - intros s w Hmode Hsym Hsel Hans. unfold FF.moveToNextCell.
    apply run_bind, run_gets.
    destruct (fst (FF.select_direction s (FF.bonus s))) as [minDir|] eqn:Esel;
      [clear Hsel|contradiction Hsel; reflexivity].
    apply run_bind. unfold run at 1. rewrite turn_to_result.
    run_steps. cbn [answers asked trace told queried]. rewrite Hans.
    run_steps.
    assert (Hpost : forall targets dist,
               Forall (fun p => is_within_bounds p = true) targets ->
               flooded (FF.walls (FF.record_blocked (FF.set_direction minDir s))) targets dist ->
               (fun (_ : unit) (s' : FF.State) (_ : World) =>
                  let d := FF.direction s' in
                  FF.pos s' = FF.pos s /\
                  Some minDir = Some d /\
                  FF.walls s' = mirror_set (FF.walls s) (FF.pos s) d true /\
                  FF.walls s' (FF.pos s) d = true /\
                  (is_within_bounds (neighbor (FF.pos s) d) = true ->
                   FF.walls s' (neighbor (FF.pos s) d) (get_opposite_direction d) = true) /\
                  ~ open_edge (FF.walls s') (FF.pos s) (neighbor (FF.pos s) d) /\
                  ~ open_edge (FF.walls s') (neighbor (FF.pos s) d) (FF.pos s) /\
                  FF.visited s' = FF.visited s /\
                  hop_field (FF.walls s') targets (FF.distances s'))
                 tt (FF.set_distances dist (FF.record_blocked (FF.set_direction minDir s))) w).
    { intros targets dist Ht F. cbv zeta.
      change (FF.walls (FF.set_distances dist (FF.record_blocked (FF.set_direction minDir s))))
        with (mirror_set (FF.walls s) (FF.pos s) minDir true) in *.
      change (FF.direction (FF.set_distances dist (FF.record_blocked (FF.set_direction minDir s))))
        with minDir.
      split; [reflexivity|]. split; [reflexivity|]. split; [reflexivity|].
      split; [apply mirror_set_here|]. split; [apply mirror_set_there|].
      split; [apply walled_edge_closed, mirror_set_here|].
      split.
      - intros Ho. apply (open_edge_sym _ _ _ (mirror_set_symmetric _ _ _ _ Hsym)) in Ho.
        revert Ho. apply walled_edge_closed, mirror_set_here.
      - split; [reflexivity|].
        apply flooded_hop_field; [apply mirror_set_symmetric, Hsym|exact Ht|exact F]. }
    destruct (FF.currentMode s) eqn:Emode.
    + cbn [FF.currentMode FF.record_blocked FF.set_walls FF.set_direction]. rewrite Emode.
      apply run_floodFillToGoal. intros dist F.
      refine (Hpost [ff_goal_target s] dist _ F).
      constructor; [apply goal_target_within|constructor].
    + cbn [FF.currentMode FF.record_blocked FF.set_walls FF.set_direction]. rewrite Emode.
      apply run_floodFillToStart. intros dist F.
      refine (Hpost [mkPoint 0 0] dist _ F).
      repeat constructor.
    + contradiction Hmode. reflexivity.
  - intros s w Hmode Hsym Hin Hans. unfold FFv3.move_forward_update_state.
    match goal with |- run (bind _ ?k) _ _ ?Q => set (rest := k); set (post := Q) end.
    assert (Hrest : forall d w1,
               chosen3 s d -> answers w1 (asked w1) = false -> run (rest d) s w1 post).
    { intros d w1 Hd Hans1. unfold rest. apply run_bind.
      unfold run at 1. rewrite turn_to_direction_result.
      run_steps. cbn [answers asked trace told queried]. rewrite Hans1.
      run_steps.
      cbn [FFv3.mode FFv3.mouse FFv3.maze FFv3.pos FFv3.orientation
           FFv3.set_maze FFv3.set_mouse FFv3.set_orientation].
      set (m2 := FFv3.set_wall (FFv3.pos (FFv3.mouse s)) d (FFv3.maze s)).
      set (s2 := FFv3.mkState (FFv3.set_orientation d (FFv3.mouse s)) m2).
      assert (Hw2 : FFv3.walls m2 =
                    mirror_set (FFv3.walls (FFv3.maze s)) (FFv3.pos (FFv3.mouse s)) d true).
      { unfold m2. rewrite set_wall_walls, Hin. reflexivity. }
      assert (Hv2 : FFv3.visited m2 = FFv3.visited (FFv3.maze s))
        by (apply set_wall_frame).
      assert (Hpost : forall targets dist,
                 Forall (fun p => is_within_bounds p = true) targets ->
                 flooded (FFv3.has_wall m2) targets dist ->
                 FFv3.mode (FFv3.mouse s) = SPEED_MODE \/
                 targets = active_target (FFv3.mode (FFv3.mouse s)) goal_cells ->
                 post tt (FFv3.set_maze (FFv3.set_distances dist (FFv3.maze s2)) s2) w1).
      { intros targets dist Ht F Htg. unfold post. cbv zeta.
        cbn [FFv3.mode FFv3.mouse FFv3.maze FFv3.pos FFv3.orientation FFv3.walls
             FFv3.visited FFv3.distances s2
             FFv3.set_maze FFv3.set_mouse FFv3.set_orientation FFv3.set_distances].
        rewrite Hw2.
        split; [reflexivity|]. split; [exact Hd|]. split; [reflexivity|].
        split; [apply mirror_set_here|]. split; [apply mirror_set_there|].
        split; [apply walled_edge_closed, mirror_set_here|].
        split.
        - intros Ho. apply (open_edge_sym _ _ _ (mirror_set_symmetric _ _ _ _ Hsym)) in Ho.
          revert Ho. apply walled_edge_closed, mirror_set_here.
        - split; [exact Hv2|].
          destruct Htg as [Habs| <-]; [contradiction|].
          rewrite <- Hw2. apply flooded_hop_field3; [|exact Ht|exact F].
          rewrite Hw2. apply mirror_set_symmetric, Hsym. }
      destruct (FFv3.mode (FFv3.mouse s)).
      - run_steps. apply run_flood_fill_goal. intros dist F.
        apply (Hpost goal_cells dist goal_cells_within F). right; reflexivity.
      - run_steps. apply run_flood_fill_start. intros dist F.
        refine (Hpost [mkPoint 0 0] dist _ F _); [repeat constructor|right; reflexivity].
      - contradiction Hmode. reflexivity. }
    apply run_bind. unfold FFv3.choose_next_direction. apply run_bind, run_gets.
    destruct (fst (FFv3.scan_moves (FFv3.mouse s) (FFv3.maze s))) as [best|] eqn:E.
    + run_steps. apply Hrest; [left; exact E|exact Hans].
    + run_steps. apply Hrest; [right; split; [exact E|reflexivity]|exact Hans].
  - intros s w Hj Hsym Hex Hreach Hne Hans.
    refine (run_weaken _ _ _ _ _ _
              (moveToNextCellReturn_refused s w Hj Hsym Hex Hreach Hne Hans)).
    intros _ s' w' [dist0 [F0 [Hg [Hr [F' Hq]]]]]. cbv zeta.
    set (d := FF.direction s') in *.
    destruct Hg as [e [He [Hw [Hn [Hlt _]]]]].
    apply neighbor_inj_dir in He. subst e.
    assert (Hin : is_within_bounds (FF.pos s) = true).
    { destruct Hreach as [n [g [_ Hh]]]. eapply hops_within_start; eauto. }
    pose proof (flooded_hop_field _ _ _ Hsym start_cell_within F0) as Hf0.
    pose proof (flooded_reachable (FF.walls s) (FF.walls s) [mkPoint 0 0] dist0
                  (FF.pos s) (fun _ _ _ => eq_refl) start_cell_within Hsym F0) as Hrp.
    pose proof (flooded_reachable (FF.walls s) (FF.walls s) [mkPoint 0 0] dist0
                  (neighbor (FF.pos s) d) (fun _ _ _ => eq_refl) start_cell_within Hsym F0)
      as Hrn.
    assert (Hfp : dist0 (FF.pos s) <> MAX_CELLS) by (apply Hrp, Hreach).
    assert (Hnear : dist0 (neighbor (FF.pos s) d) = dist0 (FF.pos s) - 1).
    { pose proof (neighbor_not_far (FF.walls s) [mkPoint 0 0] dist0 Hsym F0
                    (FF.pos s) d Hin Hw Hn). lia. }
    assert (Hfn : dist0 (neighbor (FF.pos s) d) <> MAX_CELLS).
    { destruct (fl_range _ _ _ F0 (FF.pos s)) as [E|E]; [contradiction|]. lia. }
    split; [|split; [|split]].
    + split; [exact Hin|]. exists d. auto.
    + exists (dist0 (neighbor (FF.pos s) d)). split.
      * replace (dist0 (neighbor (FF.pos s) d) + 1) with (dist0 (FF.pos s)) by lia.
        apply Hf0, Hreach.
      * apply Hf0, Hrn, Hfn.
    + destruct Hr as [dd [ee Hs']].
      apply wall_recorded_intro; [exact Hsym|exact start_cell_within| | | |exact F'];
        rewrite Hs'; reflexivity.
    + exact Hq.
  - exact moveToNextCellReturn_first.
  - exact biased_fill_overflows.
Qed.

(** The boundary-only maze of ffv3.c with the mouse on the start cell. *)
Definition bare3 : FFv3.State :=
  FFv3.mkState (FFv3.mouse FFv3.initial) (FFv3.init_maze (FFv3.maze FFv3.initial)).

(** The wall map of ff.c is symmetric in every state of the corridor. *)
Lemma corridor_state_symmetric (n : nat) : wall_symmetric (FF.walls (corridor_state n)).
Proof.
  unfold corridor_state.
  destruct (bind FF.startup (fun _ => FF.ticks n) FF.initial glitching_corridor)
    as [[[b s'] w']|] eqn:E.
  - exact (reachableF_holds wall_symmetric mirror_set_symmetric set_boundary_symmetric
             n FF.initial glitching_corridor b s' w' E).
  - intros c d _ _. reflexivity.
Qed.

(** A map is explored around the start when the plain fill toward the
    start leaves the sentinel on every unvisited cell. *)
Definition explored_by_fill_check (s : FF.State) : bool :=
  match FF.floodFillToStart s with
  | Ok s1 => forallb (fun c => (FF.distances s1 c =? MAX_CELLS) || FF.visited s c) all_cells
  | Fail _ => false
  end.

Lemma explored_by_fill (s : FF.State) :
  wall_symmetric (FF.walls s) ->
  explored_by_fill_check s = true ->
  explored_around_start (FF.walls s) (FF.visited s).
Proof.
  intros Hsym H c Hc. destruct (floodFillToStart_flooded s) as [dist [E F]].
  unfold explored_by_fill_check in H.
  rewrite E in H. rewrite forallb_forall in H.
  assert (Hin : is_within_bounds c = true).
  { destruct Hc as [n [g [_ Hh]]]. eapply hops_within_start; eauto. }
  specialize (H c (proj2 (in_all_cells c) Hin)). apply orb_true_iff in H.
  destruct H as [H|H]; [|exact H]. apply Z.eqb_eq in H. exfalso.
  apply (flooded_reachable (FF.walls s) (FF.walls s) [mkPoint 0 0] dist c
           (fun _ _ _ => eq_refl) start_cell_within Hsym F) in Hc.
  apply Hc. exact H.
Qed.

Definition at_reach_of_start_check (s : FF.State) : bool :=
  match FF.floodFillToStart s with
  | Ok s1 => negb (FF.distances s1 (FF.pos s) =? MAX_CELLS)
  | Fail _ => false
  end.

Lemma reaches_start_by_fill (s : FF.State) :
  wall_symmetric (FF.walls s) ->
  at_reach_of_start_check s = true ->
  reachable (FF.walls s) [mkPoint 0 0] (FF.pos s).
Proof.
  intros Hsym H. destruct (floodFillToStart_flooded s) as [dist [E F]].
  unfold at_reach_of_start_check in H.
  rewrite E in H. apply negb_true_iff, Z.eqb_neq in H.
  apply (flooded_reachable (FF.walls s) (FF.walls s) [mkPoint 0 0] dist (FF.pos s)
           (fun _ _ _ => eq_refl) start_cell_within Hsym F). exact H.
Qed.

(** The state of the corridor after 17 iterations: the mouse has reached
    the goal cell (7,8), turned around and made the first move back; it
    stands on (6,8) in the return phase, and the cells of the corridor are
    the cells that reach the start. *)
Lemma corridor_state_17 :
  FF.pos (corridor_state 17) = mkPoint 6 8 /\
  FF.currentMode (corridor_state 17) = RETURN_MODE /\
  FF.justReachedGoal (corridor_state 17) = false /\
  explored_around_start (FF.walls (corridor_state 17)) (FF.visited (corridor_state 17)) /\
  reachable (FF.walls (corridor_state 17)) [mkPoint 0 0] (FF.pos (corridor_state 17)).
Proof.
  split; [vm_compute; reflexivity|]. split; [vm_compute; reflexivity|].
  split; [vm_compute; reflexivity|]. split.
  - apply explored_by_fill; [apply corridor_state_symmetric|]. vm_compute. reflexivity.
  - apply reaches_start_by_fill; [apply corridor_state_symmetric|]. vm_compute. reflexivity.
Qed.

(** A refused first move in both boundary-only mazes, a refused move on
    the way back through the corridor, a first call of the return handler,
    and an unvisited cell next to the start of the boundary-only maze, for
    the hypotheses of
    [blocked_move_records_wall]. *)
Lemma blocked_move_records_wall_witness :
  run FF.moveToNextCell ff_bare silent
      (fun _ s' _ => FF.pos s' = mkPoint 0 0 /\
                     FF.walls s' (mkPoint 0 0) (FF.direction s') = true) /\
  run FFv3.move_forward_update_state bare3 silent
      (fun _ s' _ => FFv3.pos (FFv3.mouse s') = mkPoint 0 0 /\
                     FFv3.walls (FFv3.maze s') (mkPoint 0 0)
                                (FFv3.orientation (FFv3.mouse s')) = true) /\
  run FF.moveToNextCellReturn (corridor_state 17) silent
      (fun _ s' _ => FF.pos s' = FF.pos (corridor_state 17) /\
                     hop_field (FF.walls s') [mkPoint 0 0] (FF.distances s')) /\
  FF.moveToNextCellReturn ff_bare silent =
    bind FF.updateWalls
         (fun _ => bind (modify (FF.set_justReachedGoal false))
                        (fun _ => FF.moveToNextCellReturn))
         ff_bare
         (told (Log "First move after reaching goal - updating wall knowledge" []) silent) /\
  FF.floodFillToStartWithExploration ff_bare = Fail QueueOverflow.
Proof.
  split; [|split; [|split; [|split]]].
  - refine (run_weaken _ _ _ _ _ _
              (proj1 blocked_move_records_wall ff_bare silent _ set_boundary_symmetric _ eq_refl)).
    + intros _ s' _ [Hp [_ [_ [Hw _]]]]. split; [exact Hp|exact Hw].
    + discriminate.
    + vm_compute. discriminate.
  - refine (run_weaken _ _ _ _ _ _
              (proj1 (proj2 blocked_move_records_wall) bare3 silent _ (init_maze_symmetric _)
                     eq_refl eq_refl)).
    + intros _ s' _ [Hp [_ [_ [Hw _]]]]. split; [exact Hp|exact Hw].
    + discriminate.
  - destruct corridor_state_17 as [Hp [_ [Hj [Hex Hr]]]].
    refine (run_weaken _ _ _ _ _ _
              (proj1 (proj2 (proj2 blocked_move_records_wall)) (corridor_state 17) silent
                     Hj (corridor_state_symmetric 17) Hex Hr _ eq_refl)).
    + intros _ s' _ [_ [_ [[Hp' [_ [_ [_ [_ [_ [_ Hf]]]]]]] _]]]. split; [exact Hp'|exact Hf].
    + rewrite Hp. discriminate.
  - exact (proj1 (proj2 (proj2 (proj2 blocked_move_records_wall))) ff_bare silent eq_refl).
  - apply (proj2 (proj2 (proj2 (proj2 blocked_move_records_wall))) ff_bare (mkPoint 0 1)).
    + exact set_boundary_symmetric.
    + discriminate.
    + exists 1, (mkPoint 0 0). split; [left; reflexivity|].
      apply (hops_edge _ 0 (mkPoint 0 1) (mkPoint 0 0) (mkPoint 0 0)).
      * split; [reflexivity|]. exists SOUTH. repeat split; reflexivity.
      * apply hops_here. reflexivity.
    + reflexivity.
Defined.

(** * C3: the path planner *)

(** C3, the claim as stated fails on ff.c: with the start cell walled in,
    no neighbour can be stepped to, and [computeShortestPath] logs the
    error and leaves a stored path of one cell, the start cell. *)
Lemma failed_path_keeps_start :
  FF.lowest_neighbor boxed (mkPoint 0 0) = None /\
  run FF.computeShortestPath boxed silent
      (fun _ s w =>
         FF.pathLength s = 1 /\ FF.path_cells s = [mkPoint 0 0] /\
         In (Log "ERROR: Failed to compute shortest path!" []) (trace w)).
Proof.
  split; [vm_compute; reflexivity|].
  vm_compute. split; [reflexivity|]. split; [reflexivity|]. left. reflexivity.
Qed.

(** C3, amended.  On a symmetric wall map both planners return, with the
    distance field flooded from the goal (ffv3.c: the four goal cells;
    ff.c: the goal cell closest to the mouse).  When the start cell reaches
    the goal, the stored path starts at the start cell, ends on a goal
    cell, and every step goes to an open in-bounds neighbour of strictly
    smaller distance, least among the open neighbours and first in the
    order North, East, South, West among the least.  When it does not,
    ffv3.c logs an error and stores the empty path, while ff.c logs an
    error and keeps a stored path of one cell, the start cell.  In the loop
    itself, a cell off the goal without a usable neighbour ends the walk:
    ffv3.c empties the path, ff.c leaves the state as it is. *)
Theorem greedy_path_planning :
  (forall s w,
      wall_symmetric (FFv3.walls (FFv3.maze s)) ->
      run FFv3.compute_shortest_path s w
          (fun _ s' w' =>
             let m' := FFv3.maze s' in
             let ms' := FFv3.mouse s' in
             FFv3.walls m' = FFv3.walls (FFv3.maze s) /\
             FFv3.visited m' = FFv3.visited (FFv3.maze s) /\
             hop_field (FFv3.walls m') goal_cells (FFv3.distances m') /\
             (~ reachable (FFv3.walls m') goal_cells (mkPoint 0 0) ->
              FFv3.path_length ms' = 0 /\
              In (Log "ERROR: Start cell is unreachable from goal!" []) (trace w')) /\
             (reachable (FFv3.walls m') goal_cells (mkPoint 0 0) ->
              FFv3.path_length ms' = 1 + FFv3.distances m' (mkPoint 0 0) /\
              greedy_path (FFv3.has_wall m') (FFv3.distances m')
                          (FFv3.shortest_path ms') (FFv3.path_length ms')))) /\
  (forall s w,
      wall_symmetric (FF.walls s) ->
      run FF.computeShortestPath s w
          (fun _ s' w' =>
             FF.walls s' = FF.walls s /\
             FF.visited s' = FF.visited s /\
             hop_field (FF.walls s') [ff_goal_target s] (FF.distances s') /\
             FF.fastestPath s' 0 = mkPoint 0 0 /\
             (~ reachable (FF.walls s') [ff_goal_target s] (mkPoint 0 0) ->
              FF.pathLength s' = 1 /\
              In (Log "ERROR: Failed to compute shortest path!" []) (trace w')) /\
             (reachable (FF.walls s') [ff_goal_target s] (mkPoint 0 0) ->
              FF.pathLength s' <= 1 + FF.distances s' (mkPoint 0 0) /\
              greedy_path (FF.walls s') (FF.distances s')
                          (FF.fastestPath s') (FF.pathLength s')))) /\
  (forall fuel cur s w,
      is_at_goal cur = false ->
      (forall d, FFv3.has_wall (FFv3.maze s) cur d = false ->
                 is_within_bounds (neighbor cur d) = true ->
                 FFv3.distances (FFv3.maze s) cur <= FFv3.distances (FFv3.maze s) (neighbor cur d)) ->
      FFv3.trace_path (S fuel) cur s w =
      Ok (tt, FFv3.set_mouse (FFv3.set_path_length 0 (FFv3.mouse s)) s,
          told (Log "ERROR: Could not find next step while computing shortest path! Path broken?" [])
               w)) /\
  (forall fuel cur s w,
      is_at_goal cur = false ->
      (forall d, FF.walls s cur d = false ->
                 is_within_bounds (neighbor cur d) = true ->
                 MAX_CELLS <= FF.distances s (neighbor cur d)) ->
      FF.trace_path (S fuel) cur s w =
      Ok (tt, s, told (Log "ERROR: Failed to compute shortest path!" []) w)).
Proof.
  split; [|split; [|split]].
  - intros s w Hsym.
    refine (run_weaken _ _ _ _ _ _ (compute_shortest_path_run s w Hsym)).
    intros _ s' w' [dist [sp [len [-> [F Hcase]]]]]. cbv zeta.
    cbn [FFv3.maze FFv3.mouse FFv3.walls FFv3.visited FFv3.distances FFv3.path_length
         FFv3.shortest_path with_path3 FFv3.set_mouse FFv3.set_maze FFv3.set_distances].
    pose proof (flooded_reachable (FFv3.walls (FFv3.maze s)) (FFv3.has_wall (FFv3.maze s))
                  goal_cells dist (mkPoint 0 0) (has_wall_within _) goal_cells_within Hsym F)
      as Hreach.
    split; [reflexivity|]. split; [reflexivity|].
    split; [apply flooded_hop_field3; [exact Hsym|exact goal_cells_within|exact F]|].
    destruct Hcase as [[E [-> ->]]|[E [-> G]]].
    + split.
      * intros _. split; [reflexivity|]. left. reflexivity.
      * intros R. apply Hreach in R. contradiction.
    + split.
      * intros R. exfalso. apply R, Hreach, E.
      * intros _. split; [reflexivity|exact G].
  - intros s w Hsym.
    refine (run_weaken _ _ _ _ _ _ (computeShortestPath_run s w Hsym)).
    intros _ s' w' [dist [fp [len [-> [F [H0 Hcase]]]]]].
    cbn [FF.walls FF.visited FF.distances FF.pathLength FF.fastestPath
         FF.set_path FF.set_distances].
    assert (Hin : Forall (fun p => is_within_bounds p = true) [ff_goal_target s]).
    { constructor; [apply goal_target_within|constructor]. }
    pose proof (flooded_reachable (FF.walls s) (FF.walls s) [ff_goal_target s] dist
                  (mkPoint 0 0) (fun _ _ _ => eq_refl) Hin Hsym F) as Hreach.
    split; [reflexivity|]. split; [reflexivity|].
    split; [apply flooded_hop_field; assumption|]. split; [exact H0|].
    destruct Hcase as [[E [-> ->]]|[E [Hlen G]]].
    + split.
      * intros _. split; [reflexivity|]. left. reflexivity.
      * intros R. apply Hreach in R. contradiction.
    + split.
      * intros R. exfalso. apply R, Hreach, E.
      * intros _. split; [exact Hlen|exact G].
  - intros fuel cur s w G Hnone. cbn [FFv3.trace_path]. rewrite G.
    unfold bind at 1, gets at 1. rewrite best_step_scan.
    pose proof (scan_min_spec (open_dir (FFv3.has_wall (FFv3.maze s)) cur)
                  (fun d => FFv3.distances (FFv3.maze s) (neighbor cur d))
                  (FFv3.distances (FFv3.maze s) cur)) as S.
    destruct (scan_min _ _ _) as [[d|] v].
    + exfalso. destruct S as [Hok [_ [Hlt _]]].
      unfold open_dir in Hok. apply andb_true_iff in Hok. destruct Hok as [Hw Hn].
      apply negb_true_iff in Hw. specialize (Hnone d Hw Hn). lia.
    + reflexivity.
  - intros fuel cur s w G Hnone. cbn [FF.trace_path]. rewrite G.
    unfold bind at 1, gets at 1. rewrite lowest_neighbor_scan.
    pose proof (scan_min_spec (open_dir (FF.walls s) cur)
                  (fun d => FF.distances s (neighbor cur d))
                  (MAZE_WIDTH * MAZE_HEIGHT)) as S.
    destruct (scan_min _ _ _) as [[d|] v].
    + exfalso. destruct S as [Hok [_ [Hlt _]]].
      unfold open_dir in Hok. apply andb_true_iff in Hok. destruct Hok as [Hw Hn].
      apply negb_true_iff in Hw. specialize (Hnone d Hw Hn). unfold MAX_CELLS in Hnone. lia.
    + reflexivity.
Qed.

(** * C2: checking the path before the speed run *)

Lemma greedy_path_within blocked dist path len :
  greedy_path blocked dist path len ->
  forall i, 0 <= i < len -> is_within_bounds (path i) = true.
Proof.
  intros [_ [H0 [Hsteps _]]] i Hi.
  destruct (Z.eq_dec i 0) as [->|Hne]; [rewrite H0; reflexivity|].
  destruct (Hsteps i) as [d [_ [_ [Hin _]]]]; [lia|exact Hin].
Qed.

Lemma find_on_range (p : Point -> bool) (path : Z -> Point) : forall n a,
  match find p (map path (map Z.of_nat (seq a n))) with
  | Some t =>
      exists i, (a <= i < a + n)%nat /\ t = path (Z.of_nat i) /\ p t = true /\
                forall j, (a <= j < i)%nat -> p (path (Z.of_nat j)) = false
  | None => forall j, (a <= j < a + n)%nat -> p (path (Z.of_nat j)) = false
  end.
Proof.
  induction n as [|n IH]; intros a; simpl.
  - intros j Hj. lia.
  - destruct (p (path (Z.of_nat a))) eqn:E.
    + exists a. split; [lia|]. split; [reflexivity|]. split; [exact E|]. intros j Hj. lia.
    + specialize (IH (S a)). destruct (find p _) as [t|].
      * destruct IH as [i [Hi [Ht [Hp Hbefore]]]]. exists i.
        split; [lia|]. split; [exact Ht|]. split; [exact Hp|].
        intros j Hj. destruct (Nat.eq_dec j a) as [->|Hne]; [exact E|]. apply Hbefore. lia.
      * intros j Hj. destruct (Nat.eq_dec j a) as [->|Hne]; [exact E|]. apply IH. lia.
Qed.

(** [first_unvisited] is the first cell of the stored path that has not
    been visited. *)
Lemma first_unvisited_spec (ms : FFv3.MouseState) (m : FFv3.Maze) :
  match FFv3.first_unvisited ms m with
  | Some t =>
      exists i, 0 <= i < FFv3.path_length ms /\ t = FFv3.shortest_path ms i /\
                FFv3.visited m t = false /\
                forall j, 0 <= j < i -> FFv3.visited m (FFv3.shortest_path ms j) = true
  | None =>
      forall i, 0 <= i < FFv3.path_length ms -> FFv3.visited m (FFv3.shortest_path ms i) = true
  end.
Proof.
  unfold FFv3.first_unvisited, FFv3.path_cells, zrange.
  pose proof (find_on_range (fun p => negb (FFv3.visited m p)) (FFv3.shortest_path ms)
                (Z.to_nat (FFv3.path_length ms)) 0) as H.
  destruct (find _ _) as [t|].
  - destruct H as [i [Hi [Ht [Hp Hbefore]]]]. exists (Z.of_nat i).
    split; [lia|]. split; [exact Ht|]. split; [apply negb_true_iff, Hp|].
    intros j Hj. specialize (Hbefore (Z.to_nat j)). rewrite Z2Nat.id in Hbefore by lia.
    apply negb_false_iff, Hbefore. lia.
  - intros i Hi. specialize (H (Z.to_nat i)). rewrite Z2Nat.id in H by lia.
    apply negb_false_iff, H. lia.
Qed.

(** [case RETURN_MODE] of ffv3.c with the mouse on the start cell: the
    speed run is entered only with an explored path; otherwise the search
    phase is entered again, with the distances flooded from the first
    unvisited cell of the path (from the cell of the mouse when every cell
    of the path is visited, from the goal when no path was found). *)
Lemma return_at_start_run (s : FFv3.State) (w : World) :
  wall_symmetric (FFv3.walls (FFv3.maze s)) ->
  is_at_start (FFv3.pos (FFv3.mouse s)) = true ->
  run FFv3.return_at_start s w
      (fun _ s' _ =>
         let ms' := FFv3.mouse s' in
         let m' := FFv3.maze s' in
         FFv3.pos ms' = FFv3.pos (FFv3.mouse s) /\
         FFv3.visited m' = FFv3.visited (FFv3.maze s) /\
         wall_symmetric (FFv3.walls m') /\
         ((FFv3.mode ms' = SPEED_MODE /\ path_explored ms' m') \/
          (FFv3.mode ms' = SEARCH_MODE /\ 0 < FFv3.path_length ms' /\
           ~ path_explored ms' m' /\
           hop_field (FFv3.walls m')
                     [match FFv3.first_unvisited ms' m' with
                      | Some t => t
                      | None => FFv3.pos ms'
                      end]
                     (FFv3.distances m')) \/
          (FFv3.mode ms' = SEARCH_MODE /\ FFv3.path_length ms' = 0 /\
           hop_field (FFv3.walls m') goal_cells (FFv3.distances m')))).
Proof.
  intros Hsym Hstart. unfold FFv3.return_at_start.
  apply run_bind, run_emit. apply run_bind, update_walls_current_cell_run.
  intros m1 w1 [Hd1 [Hv1 [Hs1 _]]]. specialize (Hs1 Hsym).
  apply run_bind.
  refine (run_weaken _ _ _ _ _ _ (compute_shortest_path_run (FFv3.set_maze m1 s) w1 Hs1)).
  intros _ s2 w2 [dist [sp [len [-> [F Hcase]]]]].
  apply run_bind, run_gets.
  cbn [FFv3.path_length FFv3.mouse FFv3.maze with_path3 FFv3.set_mouse FFv3.set_maze] in *.
  destruct Hcase as [[E [-> Hw]]|[E [-> G]]].
  - change (0 >? 0) with false. cbv iota.
    apply run_bind, run_emit. apply run_bind, run_emit.
    apply run_bind, run_flood_fill_goal. intros dist2 F2. apply run_modify.
    cbv zeta.
    cbn [FFv3.path_length FFv3.mouse FFv3.maze FFv3.pos FFv3.mode FFv3.walls FFv3.visited
         FFv3.distances FFv3.set_mode FFv3.set_distances
         with_path3 FFv3.set_mouse FFv3.set_maze] in *.
    split; [reflexivity|]. split; [exact Hv1|]. split; [exact Hs1|].
    right. right. split; [reflexivity|]. split; [reflexivity|].
    apply flooded_hop_field3 with (m := m1); [exact Hs1|exact goal_cells_within|exact F2].
  - pose proof (fl_range _ _ _ F (mkPoint 0 0)) as Hrange.
    assert (Hlen : (1 + dist (mkPoint 0 0) >? 0) = true).
    { destruct (Z.gtb_spec (1 + dist (mkPoint 0 0)) 0); [reflexivity|].
      unfold MAX_CELLS, MAZE_WIDTH, MAZE_HEIGHT in *. lia. }
    rewrite Hlen. apply run_bind.
    refine (run_weaken _ _ _ _ _ _ (verify_path_exploration_run _ _)).
    intros b s' w' [-> Hb].
    cbn [FFv3.path_length FFv3.mouse FFv3.maze with_path3 FFv3.set_mouse FFv3.set_maze] in Hb.
    destruct b.
    + apply run_bind, run_emit. apply run_modify. cbv zeta.
      cbn [FFv3.path_length FFv3.mouse FFv3.maze FFv3.pos FFv3.mode FFv3.walls FFv3.visited
           FFv3.distances FFv3.set_mode FFv3.set_distances
           with_path3 FFv3.set_mouse FFv3.set_maze].
      split; [reflexivity|]. split; [exact Hv1|]. split; [exact Hs1|].
      left. split; [reflexivity|]. apply Hb. reflexivity.
    + apply run_bind, run_emit. apply run_bind, run_gets. cbv zeta.
      set (ms2 := FFv3.mkMouse (FFv3.pos (FFv3.mouse s)) (FFv3.orientation (FFv3.mouse s))
                               (FFv3.mode (FFv3.mouse s)) (FFv3.goal_found (FFv3.mouse s))
                               sp (1 + dist (mkPoint 0 0))) in *.
      set (m2 := FFv3.set_distances dist m1) in *.
      cbn [FFv3.mouse FFv3.maze FFv3.set_mouse FFv3.set_maze].
      set (target := match FFv3.first_unvisited ms2 m2 with
                     | Some p => p
                     | None => FFv3.pos ms2
                     end).
      assert (Htarget : is_within_bounds target = true).
      { unfold target. pose proof (first_unvisited_spec ms2 m2) as Hfu.
        destruct (FFv3.first_unvisited ms2 m2) as [t|].
        - destruct Hfu as [i [Hi [-> _]]].
          apply (greedy_path_within _ _ _ _ G). exact Hi.
        - cbn [FFv3.pos ms2]. unfold is_at_start in Hstart.
          apply andb_true_iff in Hstart. destruct Hstart as [Hx Hy].
          apply Z.eqb_eq in Hx, Hy. apply within_iff. lia. }
      assert (Hrest : forall w0,
                 run (bind (FFv3.flood_fill target)
                           (fun _ => FFv3.on_mouse (FFv3.set_mode SEARCH_MODE)))
                     (FFv3.mkState ms2 m2) w0
                     (fun _ s' _ =>
                        let ms' := FFv3.mouse s' in
                        let m' := FFv3.maze s' in
                        FFv3.pos ms' = FFv3.pos (FFv3.mouse s) /\
                        FFv3.visited m' = FFv3.visited (FFv3.maze s) /\
                        wall_symmetric (FFv3.walls m') /\
                        ((FFv3.mode ms' = SPEED_MODE /\ path_explored ms' m') \/
                         (FFv3.mode ms' = SEARCH_MODE /\ 0 < FFv3.path_length ms' /\
                          ~ path_explored ms' m' /\
                          hop_field (FFv3.walls m')
                                    [match FFv3.first_unvisited ms' m' with
                                     | Some t => t
                                     | None => FFv3.pos ms'
                                     end]
                                    (FFv3.distances m')) \/
                         (FFv3.mode ms' = SEARCH_MODE /\ FFv3.path_length ms' = 0 /\
                          hop_field (FFv3.walls m') goal_cells (FFv3.distances m'))))).
      { intros w0. apply run_bind, run_flood_fill; [exact Htarget|].
        intros dist2 F2. apply run_modify. cbv zeta.
        cbn [FFv3.path_length FFv3.mouse FFv3.maze FFv3.pos FFv3.mode FFv3.walls FFv3.visited
             FFv3.distances FFv3.set_mode FFv3.set_distances ms2 m2
             FFv3.set_mouse FFv3.set_maze].
        split; [reflexivity|]. split; [exact Hv1|]. split; [exact Hs1|].
        right. left. split; [reflexivity|]. split; [lia|]. split.
        - intros Hex. assert (false = true) by (apply Hb; exact Hex). discriminate.
        - apply flooded_hop_field3 with (m := m1);
            [exact Hs1|constructor; [exact Htarget|constructor]|exact F2]. }
      apply run_bind. apply run_when; intros _; [apply run_emit|]; apply Hrest.
Qed.

(** [verifyShortestPath] logs [verified] and nothing like it otherwise. *)
Definition is_verified (e : Event) : bool :=
  match e with
  | Log fmt [] => String.eqb fmt "Path verification successful. No obstacles detected."
  | _ => false
  end.

Lemma is_verified_sound (l : list Event) : existsb is_verified l = true -> In verified l.
Proof.
  intros H. apply existsb_exists in H. destruct H as [e [Hin He]].
  destruct e as [fmt args| | | | | | | |]; try discriminate He.
  destruct args; [|discriminate He]. apply String.eqb_eq in He. subst fmt. exact Hin.
Qed.

(** The cells between the start and the goal cell (7,7) along column 1
    and row 7. *)
Definition unexplored_route : list Point :=
  [mkPoint 0 0; mkPoint 1 0; mkPoint 1 1; mkPoint 1 2; mkPoint 1 3; mkPoint 1 4;
   mkPoint 1 5; mkPoint 1 6; mkPoint 1 7; mkPoint 2 7; mkPoint 3 7; mkPoint 4 7;
   mkPoint 5 7; mkPoint 6 7; mkPoint 7 7].

(** C2, the claim as stated fails on ff.c.  The program is run from the
    start of [main] against [glitching_corridor]: the sensors show a
    corridor, walled on both sides, north along column 0 and east along
    row 8 to the goal cell (7,8); the mouse follows it, comes back the
    same way, and on its return to the start cell the sensor reports no
    wall on the east side.  The 32nd iteration of the main loop then
    computes a path of 15 cells along column 1 and row 7, of which only the
    first and the last are visited, logs that the verification succeeded,
    and enters the speed-run mode. *)
Lemma unvisited_path_accepted :
  run (bind FF.startup (fun _ => FF.ticks 32)) FF.initial glitching_corridor
      (fun _ s w =>
         FF.currentMode s = SPEED_MODE /\
         FF.pos s = mkPoint 0 0 /\
         FF.path_cells s = unexplored_route /\
         map (FF.visited s) (FF.path_cells s) =
           [true; false; false; false; false; false; false; false; false; false;
            false; false; false; false; true] /\
         In verified (trace w)).
Proof.
  assert (Hrun : run (bind FF.startup (fun _ => FF.ticks 32)) FF.initial glitching_corridor
                     (fun _ s w =>
                        FF.currentMode s = SPEED_MODE /\
                        FF.pos s = mkPoint 0 0 /\
                        FF.path_cells s = unexplored_route /\
                        map (FF.visited s) (FF.path_cells s) =
                          [true; false; false; false; false; false; false; false; false;
                           false; false; false; false; false; true] /\
                        existsb is_verified (trace w) = true)).
  { vm_compute. repeat split; reflexivity. }
  refine (run_weaken _ _ _ _ _ _ Hrun).
  intros _ s w [H1 [H2 [H3 [H4 H5]]]].
  repeat (split; [assumption|]). apply is_verified_sound, H5.
Qed.

(** C2, amended.  In ffv3.c, [verify_path_exploration] changes nothing and
    accepts the stored path exactly when it has at least two cells, every
    cell is inside the grid and visited, and every cell is joined to its
    predecessor by an edge without a wall.  With the mouse back on the
    start cell of a symmetric map, the controller enters the speed run only
    with an accepted path; with a path it does not accept it enters the
    search phase again, the distances flooded from the first unvisited cell
    of the path (from the cell of the mouse when every cell of the path is
    visited); without a path it floods from the goal and searches again.
    In ff.c, [verifyShortestPath] changes nothing and logs one verdict,
    which is the success line exactly when every cell of the stored path
    after the first is a neighbour of its predecessor (of the start cell,
    for the second cell) across a side without a recorded wall; the
    visited flags have no influence on it.  On a symmetric map the check
    of a path that [computeShortestPath] has just stored succeeds, and
    with the mouse on the start cell the controller returns in the
    speed-run mode, the mouse still on the start cell. *)
Theorem path_verification :
  (forall s w,
      run FFv3.verify_path_exploration s w
          (fun b s' _ => s' = s /\
                         (b = true <-> path_explored (FFv3.mouse s) (FFv3.maze s)))) /\
  (forall s w,
      wall_symmetric (FFv3.walls (FFv3.maze s)) ->
      is_at_start (FFv3.pos (FFv3.mouse s)) = true ->
      run FFv3.return_at_start s w
          (fun _ s' _ =>
             let ms' := FFv3.mouse s' in
             let m' := FFv3.maze s' in
             FFv3.pos ms' = FFv3.pos (FFv3.mouse s) /\
             FFv3.visited m' = FFv3.visited (FFv3.maze s) /\
             wall_symmetric (FFv3.walls m') /\
             ((FFv3.mode ms' = SPEED_MODE /\ path_explored ms' m') \/
              (FFv3.mode ms' = SEARCH_MODE /\ 0 < FFv3.path_length ms' /\
               ~ path_explored ms' m' /\
               hop_field (FFv3.walls m')
                         [match FFv3.first_unvisited ms' m' with
                          | Some t => t
                          | None => FFv3.pos ms'
                          end]
                         (FFv3.distances m')) \/
              (FFv3.mode ms' = SEARCH_MODE /\ FFv3.path_length ms' = 0 /\
               hop_field (FFv3.walls m') goal_cells (FFv3.distances m'))))) /\
  (forall ms m,
      match FFv3.first_unvisited ms m with
      | Some t =>
          exists i, 0 <= i < FFv3.path_length ms /\ t = FFv3.shortest_path ms i /\
                    FFv3.visited m t = false /\
                    forall j, 0 <= j < i -> FFv3.visited m (FFv3.shortest_path ms j) = true
      | None =>
          forall i, 0 <= i < FFv3.path_length ms ->
                    FFv3.visited m (FFv3.shortest_path ms i) = true
      end) /\
  (forall s w,
      run FF.verifyShortestPath s w
          (fun _ s' w' =>
             s' = s /\
             exists verdict,
               w' = told verdict (told (Log "Verifying shortest path for consistency..." []) w) /\
               (verdict = verified <->
                joined_without_wall (FF.walls s) (mkPoint 0 0)
                  (map (FF.fastestPath s) (FF.indices_from_1 (FF.pathLength s)))))) /\
  (forall v s w,
      FF.verifyShortestPath (FF.set_visited v s) w =
      match FF.verifyShortestPath s w with
      | Ok (a, s', w') => Ok (a, FF.set_visited v s', w')
      | Fail f => Fail f
      end) /\
  (forall s w,
      wall_symmetric (FF.walls s) ->
      run (bind FF.computeShortestPath (fun _ => FF.verifyShortestPath)) s w
          (fun _ s' w' =>
             FF.walls s' = FF.walls s /\ FF.visited s' = FF.visited s /\
             FF.pos s' = FF.pos s /\ FF.currentMode s' = FF.currentMode s /\
             FF.direction s' = FF.direction s /\
             exists earlier, trace w' = verified :: earlier)) /\
  (forall s w,
      wall_symmetric (FF.walls s) ->
      FF.isAtStart s = true ->
      run FF.return_case s w
          (fun _ s' _ => FF.currentMode s' = SPEED_MODE /\ FF.pos s' = FF.pos s /\
                         wall_symmetric (FF.walls s'))).
Proof.
  split; [exact verify_path_exploration_run|].
  split; [exact return_at_start_run|].
  split; [exact first_unvisited_spec|].
  split; [exact verifyShortestPath_verdict|].
  split; [exact verifyShortestPath_ignores_visited|].
  split; [exact computed_path_verifies|].
  exact return_case_run.
Qed.

(** The mouse of ffv3.c back on the start cell of the boundary-only maze,
    in the return phase. *)
Definition back_at_start3 : FFv3.State :=
  FFv3.mkState (FFv3.mkMouse (mkPoint 0 0) NORTH RETURN_MODE true (fun _ => origin) 0)
               (FFv3.init_maze (FFv3.maze FFv3.initial)).

(** Both controllers on the start cell of the boundary-only maze, for
    the hypotheses of [path_verification]. *)
Lemma path_verification_witness :
  run FFv3.return_at_start back_at_start3 silent
      (fun _ s' _ => FFv3.pos (FFv3.mouse s') = mkPoint 0 0) /\
  run (bind FF.computeShortestPath (fun _ => FF.verifyShortestPath)) ff_bare silent
      (fun _ _ w' => exists earlier, trace w' = verified :: earlier) /\
  run FF.return_case ff_bare silent
      (fun _ s' _ => FF.currentMode s' = SPEED_MODE).
Proof.
  split; [|split].
  - refine (run_weaken _ _ _ _ _ _
              (proj1 (proj2 path_verification) back_at_start3 silent
                     (init_maze_symmetric _) eq_refl)).
    intros _ s' _ [H _]. exact H.
  - refine (run_weaken _ _ _ _ _ _
              (proj1 (proj2 (proj2 (proj2 (proj2 (proj2 path_verification)))))
                     ff_bare silent set_boundary_symmetric)).
    intros _ s' w' [_ [_ [_ [_ [_ H]]]]]. exact H.
  - refine (run_weaken _ _ _ _ _ _
              (proj2 (proj2 (proj2 (proj2 (proj2 (proj2 path_verification)))))
                     ff_bare silent set_boundary_symmetric eq_refl)).
    intros _ s' _ [H _]. exact H.
Defined.

(** Both planners on the boundary-only maze and both loops on the
    walled-in start cell, for the hypotheses of [greedy_path_planning]. *)
Lemma greedy_path_planning_witness :
  run FFv3.compute_shortest_path bare3 silent
      (fun _ s' _ => FFv3.walls (FFv3.maze s') = FFv3.walls (FFv3.maze bare3)) /\
  run FF.computeShortestPath ff_bare silent
      (fun _ s' _ => FF.fastestPath s' 0 = mkPoint 0 0) /\
  FFv3.trace_path 1 (mkPoint 0 0) boxed3 silent =
    Ok (tt, FFv3.set_mouse (FFv3.set_path_length 0 (FFv3.mouse boxed3)) boxed3,
        told (Log "ERROR: Could not find next step while computing shortest path! Path broken?" [])
             silent) /\
  FF.trace_path 1 (mkPoint 0 0) boxed silent =
    Ok (tt, boxed, told (Log "ERROR: Failed to compute shortest path!" []) silent).
Proof.
  split; [|split; [|split]].
  - refine (run_weaken _ _ _ _ _ _
              (proj1 greedy_path_planning bare3 silent (init_maze_symmetric _))).
    intros _ s' _ [H _]. exact H.
  - refine (run_weaken _ _ _ _ _ _
              (proj1 (proj2 greedy_path_planning) ff_bare silent set_boundary_symmetric)).
    intros _ s' _ [_ [_ [_ [H _]]]]. exact H.
  - apply (proj1 (proj2 (proj2 greedy_path_planning)) 0%nat (mkPoint 0 0) boxed3 silent).
    + reflexivity.
    + intros d Hd. destruct d; vm_compute in Hd; discriminate Hd.
  - apply (proj2 (proj2 (proj2 greedy_path_planning)) 0%nat (mkPoint 0 0) boxed silent).
    + reflexivity.
    + intros d Hd. destruct d; vm_compute in Hd; discriminate Hd.
Defined.

(** * ffv1.c *)

Lemma goal_cell_is_at_goal (c : Point) : FFv1.goal_cell c = is_at_goal c.
Proof. reflexivity. Qed.

Lemma seeds_goal_cells : FFv1.seeds = goal_cells.
Proof. reflexivity. Qed.

Lemma mark_wall_walls dir s :
  FFv1.walls (FFv1.mark_wall dir s) = mirror_set (FFv1.walls s) (FFv1.pos s) dir true.
Proof. reflexivity. Qed.

Lemma set_boundary1_symmetric : wall_symmetric (FFv1.set_boundary (fun _ _ => false)).
Proof. exact set_boundary_symmetric. Qed.

Lemma set_boundary1_boundary : boundary_walled (FFv1.set_boundary (fun _ _ => false)).
Proof. exact set_boundary_boundary. Qed.

(** [floodFill] of ffv1.c always runs to completion and leaves the
    shortest hop counts from the four goal cells. *)
Lemma floodFill1_flooded (s : FFv1.State) :
  exists dist,
    FFv1.floodFill s = Ok (FFv1.set_distances dist s) /\
    flooded (FFv1.walls s) goal_cells dist.
Proof.
  unfold FFv1.floodFill. rewrite seeds_goal_cells.
  destruct (plain_sweep_correct (FFv1.walls s) goal_cells
              (fun c => if FFv1.goal_cell c then 0 else MAZE_WIDTH * MAZE_HEIGHT))
    as [b [E [F _]]].
  - discriminate.
  - exact goal_cells_nodup.
  - exact goal_cells_within.
  - intros p Hp. apply is_at_goal_iff in Hp. rewrite goal_cell_is_at_goal, Hp. reflexivity.
  - intros p Hp. rewrite goal_cell_is_at_goal.
    destruct (is_at_goal p) eqn:G; [|reflexivity].
    apply is_at_goal_iff in G. contradiction.
  - exists (bdist b). unfold plain in E. rewrite E. auto.
Qed.

Lemma run_floodFill1 s w (Q : unit -> FFv1.State -> World -> Prop) :
  (forall dist,
      flooded (FFv1.walls s) goal_cells dist -> Q tt (FFv1.set_distances dist s) w) ->
  run (lift FFv1.floodFill) s w Q.
Proof.
  intros H. destruct (floodFill1_flooded s) as [dist [E F]].
  eapply run_lift; [exact E|]. apply H, F.
Qed.

Lemma turn_to1_result (minDir : Direction) (s : FFv1.State) (w : World) :
  FFv1.turn_to minDir s w =
  Ok (tt, FFv1.set_direction minDir s,
      mkWorld (answers w) (asked w) (turn_commands (FFv1.direction s) minDir ++ trace w)%list).
Proof.
  destruct s as [x y d ds ws vs], w as [ans n tr].
  destruct d, minDir; reflexivity.
Qed.

Lemma select_direction1_scan (s : FFv1.State) :
  FFv1.select_direction s =
  scan_min (open_dir (FFv1.walls s) (FFv1.pos s))
           (fun d => FFv1.distances s (neighbor (FFv1.pos s) d))
           (MAZE_WIDTH * MAZE_HEIGHT).
Proof.
  unfold FFv1.select_direction, scan_min. apply fold_left_agree.
  intros acc d. unfold open_dir.
  destruct (FFv1.walls s (FFv1.pos s) d); [reflexivity|].
  change (FFv1.inside (neighbor (FFv1.pos s) d)) with (is_within_bounds (neighbor (FFv1.pos s) d)).
  destruct (is_within_bounds (neighbor (FFv1.pos s) d)); reflexivity.
Qed.

Ltac run_whens :=
  repeat lazymatch goal with
         | |- run (bind (when ?b _) _) _ _ _ => apply run_bind; destruct b; cbn [when]; run_steps
         | |- run (when ?b _) _ _ _ => destruct b; cbn [when]; run_steps
         end.

(** The display of ffv1.c returns and changes nothing. *)
Lemma updateDisplay1_frame (s : FFv1.State) (w : World) :
  run FFv1.updateDisplay s w (fun _ s' _ => s' = s).
Proof.
  unfold FFv1.updateDisplay. apply run_bind.
  apply run_weaken with (Q := fun _ s' _ => s' = s).
  - intros _ s1 w1 ->.
    apply (run_for_each (fun s' _ => s' = s)); [|reflexivity].
    intros c s2 w2 ->. unfold FFv1.display_walls, API_setWall. apply run_bind, run_gets.
    run_whens; reflexivity.
  - apply (run_for_each (fun s' _ => s' = s)); [|reflexivity].
    intros c s1 w1 ->. unfold FFv1.display_cell, API_setText, API_setColor.
    apply run_bind, run_gets. apply run_bind, run_emit.
    destruct (_ && _); [apply run_emit; reflexivity|].
    destruct (FFv1.goal_cell c); [apply run_emit; reflexivity|].
    destruct (FFv1.visited s c); apply run_emit; reflexivity.
Qed.

(** ** The invariant of the search run *)

(** What every state of ffv1.c satisfies: a symmetric wall map, walls on
    the whole boundary, and the mouse inside the grid. *)
Definition sound_map (s : FFv1.State) : Prop :=
  wall_symmetric (FFv1.walls s) /\
  boundary_walled (FFv1.walls s) /\
  is_within_bounds (FFv1.pos s) = true.

Lemma sound_map_mark_wall dir s : sound_map s -> sound_map (FFv1.mark_wall dir s).
Proof.
  intros [Hs [Hb Hp]]. split; [|split].
  - rewrite mark_wall_walls. apply mirror_set_symmetric, Hs.
  - rewrite mark_wall_walls. apply mirror_set_true_boundary, Hb.
  - exact Hp.
Qed.

Lemma updateWalls1_run (s : FFv1.State) (w : World) :
  sound_map s ->
  run FFv1.updateWalls s w
      (fun _ s' _ =>
         sound_map s' /\ FFv1.pos s' = FFv1.pos s /\ FFv1.direction s' = FFv1.direction s /\
         FFv1.distances s' = FFv1.distances s /\ FFv1.visited s' = FFv1.visited s /\
         forall c d, FFv1.walls s c d = true -> FFv1.walls s' c d = true).
Proof.
  intros H. unfold FFv1.updateWalls.
  apply run_bind, run_ask. apply run_bind, run_ask. apply run_bind, run_ask.
  assert (Hmono : forall d s1 c e,
             FFv1.walls s1 c e = true -> FFv1.walls (FFv1.mark_wall d s1) c e = true).
  { intros d s1 c e Hw. rewrite mark_wall_walls. apply mirror_set_true_mono, Hw. }
  run_whens;
    (split; [repeat apply sound_map_mark_wall; exact H|]);
    (split; [reflexivity|]); (split; [reflexivity|]); (split; [reflexivity|]);
    (split; [reflexivity|]); intros c e Hw; repeat apply Hmono; exact Hw.
Qed.

Lemma moveToNextCell1_run (s : FFv1.State) (w : World) :
  sound_map s ->
  run FFv1.moveToNextCell s w (fun _ s' _ => sound_map s').
Proof.
  intros H. unfold FFv1.moveToNextCell. apply run_bind, run_gets.
  rewrite select_direction1_scan.
  pose proof (scan_min_spec (open_dir (FFv1.walls s) (FFv1.pos s))
                (fun d => FFv1.distances s (neighbor (FFv1.pos s) d))
                (MAZE_WIDTH * MAZE_HEIGHT)) as S.
  destruct (scan_min _ _ _) as [[d|] v]; cbn [fst].
  - destruct S as [Hok _]. unfold open_dir in Hok. apply andb_true_iff in Hok.
    destruct Hok as [_ Hin].
    apply run_bind. unfold run at 1. rewrite turn_to1_result.
    run_steps. cbn [answers asked trace told queried].
    destruct (answers w (asked w)).
    + run_steps. destruct H as [Hs [Hb Hp]]. split; [exact Hs|]. split; [exact Hb|].
      destruct s as [x y d0 ds ws vs]. exact Hin.
    + apply run_bind, run_modify. apply run_floodFill1. intros dist _.
      apply (sound_map_mark_wall d (FFv1.set_direction d s)). exact H.
  - run_steps. exact H.
Qed.

Lemma tick1_run (s : FFv1.State) (w : World) :
  sound_map s -> run FFv1.tick s w (fun _ s' _ => sound_map s').
Proof.
  intros H. unfold FFv1.tick. apply run_bind.
  refine (run_weaken _ _ _ _ _ _ (updateWalls1_run s w H)).
  intros _ s1 w1 [H1 _]. apply run_bind, run_modify. apply run_bind.
  refine (run_weaken _ _ _ _ _ _ (updateDisplay1_frame _ _)).
  intros _ s2 w2 ->. apply run_bind, run_gets.
  match goal with |- run (if ?b then _ else _) _ _ _ => destruct b end.
  - unfold API_setColor. run_steps. exact H1.
  - apply run_bind, run_floodFill1. intros dist _. apply run_bind.
    refine (run_weaken _ _ _ _ _ _ (moveToNextCell1_run _ _ _)).
    + intros _ s3 w3 H3. run_steps. exact H3.
    + exact H1.
Qed.

Lemma ticks1_run : forall n s w,
  sound_map s -> run (FFv1.ticks n) s w (fun _ s' _ => sound_map s').
Proof.
  induction n as [|n IH]; intros s w H; cbn [FFv1.ticks].
  - run_steps. exact H.
  - apply run_bind. refine (run_weaken _ _ _ _ _ _ (tick1_run s w H)).
    intros go s1 w1 H1. destruct go; [apply IH, H1|run_steps; exact H1].
Qed.

Lemma startup1_run (s : FFv1.State) (w : World) :
  is_within_bounds (FFv1.pos s) = true ->
  run FFv1.startup s w
      (fun _ s' _ => sound_map s' /\ FFv1.pos s' = FFv1.pos s /\
                     FFv1.distances s' = FFv1.seed_distance /\
                     FFv1.walls s' = FFv1.set_boundary (fun _ _ => false) /\
                     FFv1.visited s' = (fun _ => false)).
Proof.
  intros H. unfold FFv1.startup, FFv1.initializeMaze. run_steps.
  split; [|split; [reflexivity|split; [reflexivity|split; reflexivity]]].
  split; [exact set_boundary1_symmetric|]. split; [exact set_boundary1_boundary|exact H].
Qed.

(** ** Properties of ffv1.c *)

(** X1. ffv1.c never faults: started with the mouse inside the grid, the
    start-up code followed by any number of iterations of the main loop
    returns, whatever the simulator answers; no flood fill writes past the
    end of its queue, and the state reached has a symmetric wall map, walls
    on the whole boundary and the mouse inside the grid. *)
Theorem ffv1_never_faults (s0 : FFv1.State) (n : nat) (w : World) :
  is_within_bounds (FFv1.pos s0) = true ->
  run (bind FFv1.startup (fun _ => FFv1.ticks n)) s0 w
      (fun _ s _ =>
         wall_symmetric (FFv1.walls s) /\ boundary_walled (FFv1.walls s) /\
         is_within_bounds (FFv1.pos s) = true).
Proof.
  intros H. apply run_bind.
  refine (run_weaken _ _ _ _ _ _ (startup1_run s0 w H)).
  intros _ s1 w1 [H1 _]. apply ticks1_run, H1.
Qed.

Lemma ffv1_never_faults_witness :
  run (bind FFv1.startup (fun _ => FFv1.ticks 3)) FFv1.initial silent
      (fun _ s _ =>
         wall_symmetric (FFv1.walls s) /\ boundary_walled (FFv1.walls s) /\
         is_within_bounds (FFv1.pos s) = true).
Proof. exact (ffv1_never_faults FFv1.initial 3 silent eq_refl). Defined.

(** X2. [floodFill] of ffv1.c on a symmetric wall map returns, changes
    nothing but the distances, gives the four goal cells distance 0, every
    cell that reaches the goal region its least number of open-edge hops to
    a goal cell, and every other cell the sentinel. *)
Theorem ffv1_flood_fill (s : FFv1.State) :
  wall_symmetric (FFv1.walls s) ->
  exists dist,
    FFv1.floodFill s = Ok (FFv1.set_distances dist s) /\
    (forall g, In g goal_cells -> dist g = 0) /\
    hop_field (FFv1.walls s) goal_cells dist.
Proof.
  intros Hs. destruct (floodFill1_flooded s) as [dist [E F]].
  exists dist. split; [exact E|]. split; [apply (fl_sources _ _ _ F)|].
  apply flooded_hop_field; [exact Hs|exact goal_cells_within|exact F].
Qed.

(** The state of ffv1.c after [initializeMaze]. *)
Definition bare1 : FFv1.State :=
  FFv1.mkState 0 0 NORTH FFv1.seed_distance (FFv1.set_boundary (fun _ _ => false))
               (fun _ => false).

Lemma ffv1_flood_fill_witness :
  exists dist,
    FFv1.floodFill bare1 = Ok (FFv1.set_distances dist bare1) /\
    (forall g, In g goal_cells -> dist g = 0) /\
    hop_field (FFv1.walls bare1) goal_cells dist.
Proof. exact (ffv1_flood_fill bare1 set_boundary1_symmetric). Defined.

Lemma seed_hop_count (c : Point) :
  is_within_bounds c = true ->
  min_hops (FFv1.set_boundary (fun _ _ => false)) goal_cells c (FFv1.seed_distance c) /\
  returns (FFv1.floodFill bare1) (fun s' => FFv1.distances s' c = FFv1.seed_distance c).
Proof.
  intros Hc.
  assert (Hall : returns (FFv1.floodFill bare1)
                   (fun s' => forallb (fun c => FFv1.distances s' c =? FFv1.seed_distance c)
                                      all_cells = true))
    by (vm_compute; reflexivity).
  destruct (floodFill1_flooded bare1) as [dist [E F0]].
  pose proof (flooded_hop_field _ _ _ set_boundary1_symmetric goal_cells_within F0) as Hf.
  rewrite E in Hall |- *. cbn [returns FFv1.distances FFv1.set_distances] in Hall |- *.
  rewrite forallb_forall in Hall.
  assert (Hd : dist c = FFv1.seed_distance c).
  { apply Z.eqb_eq, Hall, in_all_cells, Hc. }
  split; [|exact Hd].
  rewrite <- Hd. apply Hf.
  destruct (floodFill1_flooded bare1) as [dist' [E' F']].
  rewrite E in E'. inversion E' as [Hdd].
  assert (Hsame : dist = dist').
  { change dist with (FFv1.distances (FFv1.set_distances dist bare1)).
    rewrite Hdd. reflexivity. }
  subst dist'.
  apply (flooded_reachable (FFv1.walls bare1) (FFv1.walls bare1) goal_cells dist c
           (fun _ _ _ => eq_refl) goal_cells_within set_boundary1_symmetric F').
  rewrite Hd.
  assert (Hlt : forallb (fun c => FFv1.seed_distance c <? MAX_CELLS) all_cells = true)
    by (vm_compute; reflexivity).
  rewrite forallb_forall in Hlt. specialize (Hlt c (proj2 (in_all_cells c) Hc)).
  apply Z.ltb_lt in Hlt. lia.
Qed.

(** X3. The distances [initializeMaze] of ffv1.c writes, Manhattan
    distances to the nearest goal cell, are the least hop counts to the
    goal region on the map that holds the boundary walls only: the first
    flood fill changes no distance of the grid. *)
Theorem ffv1_seed_is_hop_count (c : Point) :
  is_within_bounds c = true ->
  min_hops (FFv1.set_boundary (fun _ _ => false)) goal_cells c (FFv1.seed_distance c) /\
  returns (FFv1.floodFill bare1) (fun s' => FFv1.distances s' c = FFv1.seed_distance c).
Proof. apply seed_hop_count. Qed.

Lemma ffv1_seed_is_hop_count_witness :
  min_hops (FFv1.set_boundary (fun _ _ => false)) goal_cells (mkPoint 0 0)
           (FFv1.seed_distance (mkPoint 0 0)) /\
  returns (FFv1.floodFill bare1)
          (fun s' => FFv1.distances s' (mkPoint 0 0) = FFv1.seed_distance (mkPoint 0 0)).
Proof. exact (ffv1_seed_is_hop_count (mkPoint 0 0) eq_refl). Defined.

(** X4. One search step of ffv1.c ([floodFill] followed by
    [moveToNextCell]) on a symmetric map: when the mouse is inside the
    grid, off the goal, on a cell that reaches the goal, and the simulator
    accepts the move, the mouse crosses an open edge of the map to a cell
    exactly one hop closer to the goal region. *)
Theorem ffv1_search_step_descends (s : FFv1.State) (w : World) :
  wall_symmetric (FFv1.walls s) ->
  is_within_bounds (FFv1.pos s) = true ->
  FFv1.isAtGoal s = false ->
  reachable (FFv1.walls s) goal_cells (FFv1.pos s) ->
  answers w (asked w) = true ->
  run (bind (lift FFv1.floodFill) (fun _ => FFv1.moveToNextCell)) s w
      (fun _ s' _ =>
         open_edge (FFv1.walls s) (FFv1.pos s) (FFv1.pos s') /\
         FFv1.walls s' = FFv1.walls s /\
         FFv1.distances s' (FFv1.pos s') = FFv1.distances s' (FFv1.pos s) - 1 /\
         min_hops (FFv1.walls s) goal_cells (FFv1.pos s') (FFv1.distances s' (FFv1.pos s'))).
Proof.
  intros Hsym Hin Hgoal Hreach Hans.
  apply run_bind, run_floodFill1. intros dist F.
  set (s1 := FFv1.set_distances dist s).
  assert (Hfin : dist (FFv1.pos s) <> MAX_CELLS).
  { apply (flooded_reachable (FFv1.walls s) (FFv1.walls s) goal_cells dist (FFv1.pos s)
             (fun _ _ _ => eq_refl) goal_cells_within Hsym F). exact Hreach. }
  assert (Hpos : dist (FFv1.pos s) <> 0).
  { intros H0. apply (dist_zero_source _ _ _ F) in H0. apply is_at_goal_iff in H0.
    unfold FFv1.isAtGoal in Hgoal. rewrite goal_cell_is_at_goal in Hgoal. congruence. }
  destruct (scan_descends (FFv1.walls s) goal_cells dist goal_cells_within Hsym F
              (FFv1.pos s) (MAZE_WIDTH * MAZE_HEIGHT) Hin Hfin Hpos) as [d [Hscan [Hd Hg]]].
  { destruct (fl_range _ _ _ F (FFv1.pos s)); unfold MAX_CELLS in *; lia. }
  unfold FFv1.moveToNextCell. apply run_bind, run_gets.
  rewrite select_direction1_scan.
  change (FFv1.walls s1) with (FFv1.walls s). change (FFv1.pos s1) with (FFv1.pos s).
  change (FFv1.distances s1) with dist. rewrite Hscan.
  apply run_bind. unfold run at 1. rewrite turn_to1_result.
  run_steps. cbn [answers asked trace told queried]. rewrite Hans. run_steps.
  cbn [FFv1.pos FFv1.posX FFv1.posY FFv1.direction FFv1.walls FFv1.distances
       FFv1.set_pos FFv1.set_direction s1 FFv1.set_distances px py neighbor].
  change (mkPoint (FFv1.posX s + dx d) (FFv1.posY s + dy d)) with (neighbor (FFv1.pos s) d).
  change (mkPoint (FFv1.posX s) (FFv1.posY s)) with (FFv1.pos s).
  destruct Hg as [e [He [Hw [Hn _]]]].
  apply neighbor_inj_dir in He. subst e.
  split; [|split; [reflexivity|split; [exact Hd|]]].
  - split; [exact Hin|]. exists d. auto.
  - apply (flooded_hop_field _ _ _ Hsym goal_cells_within F).
    apply (flooded_reachable (FFv1.walls s) (FFv1.walls s) goal_cells dist _
             (fun _ _ _ => eq_refl) goal_cells_within Hsym F).
    change (dist (neighbor (FFv1.pos s) d) <> MAX_CELLS).
    rewrite Hd. destruct (fl_range _ _ _ F (FFv1.pos s)); lia.
Qed.

(** A simulator that accepts every move and reports no wall. *)
Definition open_field : World := mkWorld (fun _ => true) 0 [].

Lemma start_reaches_goal1 : reachable (FFv1.walls bare1) goal_cells (FFv1.pos bare1).
Proof.
  destruct (seed_hop_count (mkPoint 0 0) eq_refl) as [[[g [Hg Hh]] _] _].
  exists (FFv1.seed_distance (mkPoint 0 0)), g. split; [exact Hg|exact Hh].
Qed.

Lemma ffv1_search_step_descends_witness :
  run (bind (lift FFv1.floodFill) (fun _ => FFv1.moveToNextCell)) bare1 open_field
      (fun _ s' _ => FFv1.distances s' (FFv1.pos s') = FFv1.distances s' (FFv1.pos bare1) - 1).
Proof.
  refine (run_weaken _ _ _ _ _ _
            (ffv1_search_step_descends bare1 open_field set_boundary1_symmetric
               eq_refl eq_refl start_reaches_goal1 eq_refl)).
  intros _ s' _ [_ [_ [H _]]]. exact H.
Defined.



(** X22. [updateDisplay] of ffv1.c is output only: it returns and leaves
    the whole state as it was. *)
Theorem ffv1_display_is_pure (s : FFv1.State) (w : World) :
  run FFv1.updateDisplay s w (fun _ s' _ => s' = s).
Proof. apply updateDisplay1_frame. Qed.

(** * ffv3.c: the whole program *)

(** [update_display] of ffv3.c returns, changes nothing and asks nothing. *)
Lemma update_display_frame (s : FFv3.State) (w : World) :
  run FFv3.update_display s w (fun _ s' w' => s' = s /\ only_told w w').
Proof.
  unfold FFv3.update_display.
  apply (run_for_each (fun s' w' => s' = s /\ only_told w w')); [|split; [reflexivity|apply only_told_refl]].
  intros c s1 w1 [-> Hw]. unfold FFv3.display_cell, API_setText, API_setColor, API_setWall.
  cbv zeta. run_auto; (split; [reflexivity|]); repeat apply only_told_told; exact Hw.
Qed.

(** What every state of ffv3.c satisfies. *)
Definition sound_maze (s : FFv3.State) : Prop :=
  wall_symmetric (FFv3.walls (FFv3.maze s)) /\ boundary_walled (FFv3.walls (FFv3.maze s)).

Lemma sound_maze_walls (s s' : FFv3.State) :
  FFv3.walls (FFv3.maze s') = FFv3.walls (FFv3.maze s) -> sound_maze s -> sound_maze s'.
Proof. unfold sound_maze. intros ->. auto. Qed.

Lemma sound_maze_set_wall p d (s : FFv3.State) :
  sound_maze s -> sound_maze (FFv3.set_maze (FFv3.set_wall p d (FFv3.maze s)) s).
Proof.
  intros [Hs Hb]. unfold sound_maze. cbn [FFv3.maze FFv3.set_maze].
  rewrite set_wall_walls. destruct (is_within_bounds p); [|auto].
  split; [apply mirror_set_symmetric, Hs|apply mirror_set_true_boundary, Hb].
Qed.

(** [flood_fill] returns for every target, inside the grid or not, and
    changes the distances only. *)
Lemma run_flood_fill_any target s w (Q : unit -> FFv3.State -> World -> Prop) :
  (forall dist w',
      only_told w w' ->
      Q tt (FFv3.set_maze (FFv3.set_distances dist (FFv3.maze s)) s) w') ->
  run (FFv3.flood_fill target) s w Q.
Proof.
  intros H. destruct (is_within_bounds target) eqn:Ht.
  - apply run_flood_fill; [exact Ht|]. intros dist _. apply H, only_told_refl.
  - unfold FFv3.flood_fill. rewrite Ht. run_steps. apply H, only_told_told, only_told_refl.
Qed.

(** The end of [init_simulation], from a freshly initialised maze [M]. *)
Lemma init_mouse_then_flood (M : FFv3.Maze) (s : FFv3.State) (w : World) :
  wall_symmetric (FFv3.walls M) ->
  boundary_walled (FFv3.walls M) ->
  FFv3.visited M = (fun _ => false) ->
  run (bind FFv3.init_mouse (fun _ => FFv3.flood_fill_goal)) (FFv3.set_maze M s) w
      (fun _ s' w' =>
         sound_maze s' /\ only_told w w' /\
         FFv3.pos (FFv3.mouse s') = mkPoint 0 0 /\
         FFv3.orientation (FFv3.mouse s') = NORTH /\
         FFv3.mode (FFv3.mouse s') = SEARCH_MODE /\
         FFv3.goal_found (FFv3.mouse s') = false /\
         FFv3.path_length (FFv3.mouse s') = 0 /\
         FFv3.walls (FFv3.maze s') = FFv3.walls M /\
         (forall c, FFv3.visited (FFv3.maze s') c = point_eqb c (mkPoint 0 0)) /\
         hop_field (FFv3.walls (FFv3.maze s')) goal_cells (FFv3.distances (FFv3.maze s'))).
Proof.
  intros Hsym Hbd Hvis. unfold FFv3.init_mouse.
  apply run_bind. apply run_bind, run_modify. apply run_modify.
  apply run_flood_fill_goal. intros dist F.
  cbn [FFv3.maze FFv3.mouse FFv3.set_maze FFv3.set_mouse FFv3.walls FFv3.visited
       FFv3.distances FFv3.set_distances FFv3.set_visited FFv3.pos FFv3.orientation
       FFv3.mode FFv3.goal_found FFv3.path_length FFv3.set_path_length FFv3.set_goal_found
       FFv3.set_mode FFv3.set_orientation FFv3.set_pos] in *.
  split; [split; assumption|].
  split; [apply only_told_refl|].
  repeat (split; [reflexivity|]).
  split.
  - intros c. unfold grid_set. rewrite Hvis.
    destruct (point_eqb c (mkPoint 0 0)); reflexivity.
  - change (FFv3.has_wall
              (FFv3.set_visited (grid_set (FFv3.visited M) (mkPoint 0 0) true) M))
      with (FFv3.has_wall M) in F.
    apply (flooded_hop_field3 M goal_cells dist Hsym goal_cells_within F).
Qed.

Lemma init_maze_visited (m : FFv3.Maze) : FFv3.visited (FFv3.init_maze m) = (fun _ => false).
Proof. vm_compute. reflexivity. Qed.

Lemma init_simulation_run (s : FFv3.State) (w : World) :
  run FFv3.init_simulation s w
      (fun _ s' w' =>
         sound_maze s' /\ only_told w w' /\
         FFv3.pos (FFv3.mouse s') = mkPoint 0 0 /\
         FFv3.orientation (FFv3.mouse s') = NORTH /\
         FFv3.mode (FFv3.mouse s') = SEARCH_MODE /\
         FFv3.goal_found (FFv3.mouse s') = false /\
         FFv3.path_length (FFv3.mouse s') = 0 /\
         FFv3.walls (FFv3.maze s') = FFv3.walls (FFv3.init_maze (FFv3.maze s)) /\
         (forall c, FFv3.visited (FFv3.maze s') c = point_eqb c (mkPoint 0 0)) /\
         hop_field (FFv3.walls (FFv3.maze s')) goal_cells (FFv3.distances (FFv3.maze s'))).
Proof.
  unfold FFv3.init_simulation.
  apply run_bind, run_emit. apply run_bind, run_modify.
  refine (run_weaken _ _ _ _ _ _
            (init_mouse_then_flood (FFv3.init_maze (FFv3.maze s)) s _
               (init_maze_symmetric _) (init_maze_boundary _) (init_maze_visited _))).
  intros _ s' w' [H1 [H2 H3]]. split; [exact H1|]. split; [|exact H3].
  destruct H2 as [Ha Hb]. split; [exact Ha|exact Hb].
Qed.

Lemma move_forward_update_state_run (s : FFv3.State) (w : World) :
  sound_maze s ->
  run FFv3.move_forward_update_state s w
      (fun _ s' _ => sound_maze s' /\
                     FFv3.visited (FFv3.maze s') = FFv3.visited (FFv3.maze s) /\
                     FFv3.mode (FFv3.mouse s') = FFv3.mode (FFv3.mouse s)).
Proof.
  intros H. unfold FFv3.move_forward_update_state.
  match goal with |- run (bind _ ?k) _ _ ?Q => set (rest := k); set (post := Q) end.
  assert (Hrest : forall d w1, run (rest d) s w1 post).
  { intros d w1. unfold rest. apply run_bind.
    unfold run at 1. rewrite turn_to_direction_result.
    run_steps. cbn [answers asked trace told queried].
    destruct (answers w1 (asked w1)).
    - run_steps. unfold post. split; [exact H|]. split; reflexivity.
    - run_steps.
      cbn [FFv3.mode FFv3.mouse FFv3.maze FFv3.pos FFv3.orientation
           FFv3.set_maze FFv3.set_mouse FFv3.set_orientation].
      assert (H2 : sound_maze
                     (FFv3.mkState (FFv3.set_orientation d (FFv3.mouse s))
                                   (FFv3.set_wall (FFv3.pos (FFv3.mouse s)) d (FFv3.maze s)))).
      { apply (sound_maze_set_wall (FFv3.pos (FFv3.mouse s)) d) in H. exact H. }
      assert (Hv : FFv3.visited (FFv3.set_wall (FFv3.pos (FFv3.mouse s)) d (FFv3.maze s)) =
                   FFv3.visited (FFv3.maze s)) by apply set_wall_frame.
      destruct (FFv3.mode (FFv3.mouse s)) eqn:Em.
      + run_steps. apply run_flood_fill_goal. intros dist _. unfold post.
        split; [exact H2|]. split; [exact Hv|exact Em].
      + run_steps. apply run_flood_fill_start. intros dist _. unfold post.
        split; [exact H2|]. split; [exact Hv|exact Em].
      + run_steps. unfold post. split; [exact H2|]. split; [exact Hv|exact Em]. }
  apply run_bind. unfold FFv3.choose_next_direction. apply run_bind, run_gets.
  destruct (fst (FFv3.scan_moves (FFv3.mouse s) (FFv3.maze s))); run_steps; apply Hrest.
Qed.

Lemma follow_steps_run : forall idx s w,
  sound_maze s -> run (FFv3.follow_steps idx) s w (fun _ s' _ => sound_maze s').
Proof.
  induction idx as [|i idx IH]; intros s w H; cbn [FFv3.follow_steps].
  - run_steps. exact H.
  - apply run_bind, run_gets.
    destruct (FFv3.find_move _ _) as [d|]; [|run_steps; exact H].
    apply run_bind. unfold run at 1. rewrite turn_to_direction_result.
    run_steps. cbn [answers asked trace told queried].
    match goal with |- run (if ?b then _ else _) _ _ _ => destruct b end.
    + apply run_bind, run_modify. apply run_bind.
      refine (run_weaken _ _ _ _ _ _ (update_display_frame _ _)).
      intros _ s1 w1 [-> _]. run_steps. apply IH. exact H.
    + apply run_bind, run_gets. apply run_bind, run_emit. apply run_bind, run_modify.
      apply run_bind.
      refine (run_weaken _ _ _ _ _ _ (update_display_frame _ _)).
      intros _ s1 w1 [-> _]. run_steps.
      match goal with
      | |- sound_maze (FFv3.set_maze (FFv3.set_wall ?p ?o _) ?s0) =>
          apply (sound_maze_set_wall p o s0)
      end.
      exact H.
Qed.

Lemma follow_shortest_path_run (s : FFv3.State) (w : World) :
  sound_maze s -> run FFv3.follow_shortest_path s w (fun _ s' _ => sound_maze s').
Proof.
  intros H. unfold FFv3.follow_shortest_path. apply run_bind, run_emit.
  apply run_bind, run_gets.
  destruct (negb _); [run_steps; exact H|].
  apply run_bind. unfold run at 1. rewrite turn_to_direction_result.
  destruct (_ <=? 1); [run_steps; exact H|].
  apply run_bind.
  refine (run_weaken _ _ _ _ _ _ (follow_steps_run _ _ _ _)); [|exact H].
  intros finished s1 w1 H1. unfold API_setColor. destruct finished; cbn [when].
  - apply run_bind, run_gets. destruct (is_at_goal _); run_steps; exact H1.
  - run_steps. exact H1.
Qed.

Lemma sensed_sound (s : FFv3.State) (m' : FFv3.Maze) :
  sensed (FFv3.maze s) m' -> sound_maze s -> sound_maze (FFv3.set_maze m' s).
Proof.
  intros [_ [_ [Hs Hm]]] [H1 H2]. split; cbn [FFv3.maze FFv3.set_maze].
  - apply Hs, H1.
  - intros c d Hcd. apply Hm, H2, Hcd.
Qed.

Lemma return_at_start_sound (s : FFv3.State) (w : World) :
  sound_maze s -> run FFv3.return_at_start s w (fun _ s' _ => sound_maze s').
Proof.
  intros H. unfold FFv3.return_at_start.
  apply run_bind, run_emit. apply run_bind, update_walls_current_cell_run.
  intros m1 w1 Hsensed. pose proof (sensed_sound s m1 Hsensed H) as H1.
  apply run_bind.
  refine (run_weaken _ _ _ _ _ _
            (compute_shortest_path_run (FFv3.set_maze m1 s) w1 (proj1 H1))).
  intros _ s2 w2 [dist [sp [len [-> [F _]]]]].
  assert (H2 : forall ms dist', sound_maze (FFv3.mkState ms (FFv3.set_distances dist' m1))).
  { intros ms dist'. exact H1. }
  apply run_bind, run_gets.
  destruct (_ >? 0).
  - apply run_bind.
    refine (run_weaken _ _ _ _ _ _ (verify_path_exploration_run _ _)).
    intros b s' w' [-> _]. destruct b.
    + run_steps. apply H2.
    + apply run_bind, run_emit. apply run_bind, run_gets. cbv zeta.
      apply run_bind.
      assert (Hrest : forall target w0,
                 run (bind (FFv3.flood_fill target)
                           (fun _ => FFv3.on_mouse (FFv3.set_mode SEARCH_MODE)))
                     (with_path3 sp len
                        (FFv3.set_maze (FFv3.set_distances dist (FFv3.maze (FFv3.set_maze m1 s)))
                                       (FFv3.set_maze m1 s)))
                     w0 (fun _ s' _ => sound_maze s')).
      { intros target w0. apply run_bind, run_flood_fill_any. intros dist2 w3 _.
        apply run_modify. apply H2. }
      apply run_when; intros _; [apply run_emit|]; apply Hrest.
  - apply run_bind, run_emit. apply run_bind, run_emit.
    apply run_bind, run_flood_fill_goal. intros dist2 _. apply run_modify. apply H2.
Qed.

(** The write to [visited] with the mouse inside the grid. *)
Lemma mark_visited_run (s : FFv3.State) (w : World)
    (Q : unit -> FFv3.State -> World -> Prop) :
  is_within_bounds (FFv3.pos (FFv3.mouse s)) = true ->
  Q tt (FFv3.set_maze
          (FFv3.set_visited
             (grid_set (FFv3.visited (FFv3.maze s)) (FFv3.pos (FFv3.mouse s)) true)
             (FFv3.maze s)) s) w ->
  run FFv3.mark_visited s w Q.
Proof.
  intros Hin H. unfold FFv3.mark_visited. apply run_bind, run_gets. rewrite Hin.
  apply run_modify. exact H.
Qed.

(** A program fails when its first part returns into a failure. *)
Lemma bind_fails {St A B : Type} (m : M St A) (k : A -> M St B) s w (f : Fault) :
  run m s w (fun a s1 w1 => k a s1 w1 = Fail f) -> bind m k s w = Fail f.
Proof. unfold run, bind. destruct (m s w) as [[[a s1] w1]|]; [auto|contradiction]. Qed.

(** An iteration of the main loop that starts with a reset, or with the
    mouse inside the grid, returns. *)
Lemma tick3_run (s : FFv3.State) (w : World) :
  sound_maze s ->
  answers w (asked w) = true \/ is_within_bounds (FFv3.pos (FFv3.mouse s)) = true ->
  run FFv3.tick s w (fun _ s' _ => sound_maze s').
Proof.
  intros H Hstart. unfold FFv3.tick. apply run_bind, run_ask. apply run_bind.
  apply run_weaken
    with (Q := fun _ s' _ => sound_maze s' /\
                             is_within_bounds (FFv3.pos (FFv3.mouse s')) = true).
  2:{ destruct (answers w (asked w)); cbn [when].
      - apply run_bind, run_emit. apply run_bind, run_emit.
        refine (run_weaken _ _ _ _ _ _ (init_simulation_run _ _)).
        intros _ s' w' [H' [_ [Hp _]]]. split; [exact H'|rewrite Hp; reflexivity].
      - apply run_ret. split; [exact H|]. destruct Hstart as [E|E]; [discriminate E|exact E]. }
  clear s w H Hstart. intros _ s w [H Hin].
  apply run_bind, update_walls_current_cell_run.
  intros m1 w1 Hsensed. pose proof (sensed_sound s m1 Hsensed H) as H1.
  apply run_bind, mark_visited_run; [exact Hin|]. apply run_bind.
  refine (run_weaken _ _ _ _ _ _ (update_display_frame _ _)).
  intros _ s2 w2 [-> _].
  set (s3 := FFv3.set_maze _ (FFv3.set_maze m1 s)).
  assert (H3 : sound_maze s3) by exact H1.
  clearbody s3. clear H1 Hsensed m1 H Hin s.
  apply run_bind, run_gets.
  assert (Hlog : forall s' w', sound_maze s' ->
             run (bind FFv3.log_state (fun _ => ret true)) s' w' (fun _ s'' _ => sound_maze s'')).
  { intros s' w' H'. unfold FFv3.log_state. run_steps. exact H'. }
  destruct (FFv3.mode (FFv3.mouse s3)).
  - apply run_bind, run_gets. apply run_bind.
    apply run_weaken with (Q := fun _ s' _ => sound_maze s'); [intros _ s' w'; apply Hlog|].
    destruct (is_at_goal _).
    + apply run_bind, run_emit. apply run_bind, run_modify. apply run_bind, run_modify.
      apply run_flood_fill_start. intros dist _. exact H3.
    + apply run_bind, run_flood_fill_goal. intros dist _.
      refine (run_weaken _ _ _ _ _ _ (move_forward_update_state_run _ _ _)); [|exact H3].
      intros _ s' _ [H' _]. exact H'.
  - apply run_bind, run_gets. apply run_bind.
    apply run_weaken with (Q := fun _ s' _ => sound_maze s'); [intros _ s' w'; apply Hlog|].
    destruct (is_at_start _).
    + apply return_at_start_sound, H3.
    + apply run_bind, run_flood_fill_start. intros dist _.
      refine (run_weaken _ _ _ _ _ _ (move_forward_update_state_run _ _ _)); [|exact H3].
      intros _ s' _ [H' _]. exact H'.
  - apply run_bind, run_emit. apply run_bind.
    refine (run_weaken _ _ _ _ _ _ (follow_shortest_path_run _ _ H3)).
    intros _ s' w' H'. run_steps. exact H'.
Qed.

(** An iteration that starts without a reset and with the mouse off the
    grid stops at the write to [visited]. *)
Lemma tick3_off_grid (s : FFv3.State) (w : World) :
  answers w (asked w) = false ->
  is_within_bounds (FFv3.pos (FFv3.mouse s)) = false ->
  FFv3.tick s w = Fail OutOfBounds.
Proof.
  intros Hans Hout. unfold FFv3.tick.
  apply bind_fails, run_ask. rewrite Hans. cbn [when].
  apply bind_fails, run_ret.
  apply bind_fails, update_walls_current_cell_run. intros m1 w1 _.
  unfold bind at 1. unfold FFv3.mark_visited. unfold bind at 1. unfold gets.
  cbn [FFv3.mouse FFv3.set_maze]. rewrite Hout. reflexivity.
Qed.

(** The outcome of a run of ffv3.c: a sound state, or the stray write. *)
Definition sound_or_off_grid {A : Type} (r : Result (A * FFv3.State * World)) : Prop :=
  match r with
  | Ok (_, s, _) => sound_maze s
  | Fail f => f = OutOfBounds
  end.

Lemma outcome_after {A B : Type} (m : M FFv3.State A) (k : A -> M FFv3.State B) s w :
  run m s w (fun a s1 w1 => sound_or_off_grid (k a s1 w1)) ->
  sound_or_off_grid (bind m k s w).
Proof. unfold run, bind. destruct (m s w) as [[[a s1] w1]|]; [auto|contradiction]. Qed.

Lemma ticks3_outcome : forall n s w,
  sound_maze s -> sound_or_off_grid (FFv3.ticks n s w).
Proof.
  induction n as [|n IH]; intros s w H; cbn [FFv3.ticks].
  - exact H.
  - assert (Hret : answers w (asked w) = true \/
                   is_within_bounds (FFv3.pos (FFv3.mouse s)) = true ->
                   sound_or_off_grid
                     (bind FFv3.tick (fun go => if go then FFv3.ticks n else ret false) s w)).
    { intros Hstart. apply outcome_after.
      refine (run_weaken _ _ _ _ _ _ (tick3_run s w H Hstart)).
      intros go s1 w1 H1. destruct go; [apply IH, H1|exact H1]. }
    destruct (answers w (asked w)) eqn:Ea; [apply Hret; left; reflexivity|].
    destruct (is_within_bounds (FFv3.pos (FFv3.mouse s))) eqn:Ei;
      [apply Hret; right; reflexivity|].
    unfold bind. rewrite (tick3_off_grid s w Ea Ei). reflexivity.
Qed.

Lemma startup_ticks3_outcome (s0 : FFv3.State) (n : nat) (w : World) :
  sound_or_off_grid (bind FFv3.startup (fun _ => FFv3.ticks n) s0 w).
Proof.
  apply outcome_after. unfold FFv3.startup. apply run_bind, run_emit.
  refine (run_weaken _ _ _ _ _ _ (init_simulation_run _ _)).
  intros _ s1 w1 [H1 _]. apply ticks3_outcome, H1.
Qed.

Lemma sound_or_off_grid_cases {A : Type} (r : Result (A * FFv3.State * World)) :
  sound_or_off_grid r ->
  match r with
  | Ok (_, s, _) =>
      wall_symmetric (FFv3.walls (FFv3.maze s)) /\
      boundary_walled (FFv3.walls (FFv3.maze s))
  | Fail f => f = OutOfBounds
  end.
Proof. intros H. exact H. Qed.

(** X6. The one fault of ffv3.c.  From any contents of the globals, the
    start-up code followed by any number of iterations of the main loop,
    whatever the simulator answers (resets included), either returns, in
    a state with a symmetric wall map and walls on the whole boundary, or
    stops at the write to [visited] with the mouse off the grid: no flood
    fill writes past the end of its queue, no path is stored past the end
    of its array, every loop ends.  An iteration that starts with a reset
    or with the mouse inside the grid returns; one that starts without a
    reset and with the mouse off the grid stops at the write. *)
Theorem ffv3_faults_only_off_grid :
  (forall s0 n w,
      match bind FFv3.startup (fun _ => FFv3.ticks n) s0 w with
      | Ok (_, s, _) =>
          wall_symmetric (FFv3.walls (FFv3.maze s)) /\
          boundary_walled (FFv3.walls (FFv3.maze s))
      | Fail f => f = OutOfBounds
      end) /\
  (forall s w,
      wall_symmetric (FFv3.walls (FFv3.maze s)) ->
      boundary_walled (FFv3.walls (FFv3.maze s)) ->
      answers w (asked w) = true \/ is_within_bounds (FFv3.pos (FFv3.mouse s)) = true ->
      run FFv3.tick s w
          (fun _ s' _ => wall_symmetric (FFv3.walls (FFv3.maze s')) /\
                         boundary_walled (FFv3.walls (FFv3.maze s')))) /\
  (forall s w,
      answers w (asked w) = false ->
      is_within_bounds (FFv3.pos (FFv3.mouse s)) = false ->
      FFv3.tick s w = Fail OutOfBounds).
Proof.
  split; [|split].
  - intros s0 n w.
    exact (sound_or_off_grid_cases
             (bind FFv3.startup (fun _ => FFv3.ticks n) s0 w)
             (startup_ticks3_outcome s0 n w)).
  - intros s w Hs Hb Hstart. exact (tick3_run s w (conj Hs Hb) Hstart).
  - exact tick3_off_grid.
Qed.

(** The mouse of ffv3.c one cell south of the start cell, off the grid. *)
Definition below_start3 : FFv3.State :=
  FFv3.set_mouse (FFv3.set_pos (mkPoint 0 (-1)) (FFv3.mouse bare3)) bare3.

Lemma ffv3_faults_only_off_grid_witness :
  run FFv3.tick bare3 silent
      (fun _ s' _ => wall_symmetric (FFv3.walls (FFv3.maze s'))) /\
  FFv3.tick below_start3 silent = Fail OutOfBounds.
Proof.
  split.
  - refine (run_weaken _ _ _ _ _ _
              (proj1 (proj2 ffv3_faults_only_off_grid) bare3 silent
                     (init_maze_symmetric _) (init_maze_boundary _) (or_intror eq_refl))).
    intros _ s' _ [H _]. exact H.
  - exact (proj2 (proj2 ffv3_faults_only_off_grid) below_start3 silent eq_refl eq_refl).
Defined.

(** X7. [update_display] of ffv3.c is output only: it returns, leaves
    the whole state as it was, asks the simulator nothing and sends no
    actuator command. *)
Theorem ffv3_display_is_pure (s : FFv3.State) (w : World) :
  run FFv3.update_display s w
      (fun _ s' w' =>
         s' = s /\ answers w' = answers w /\ asked w' = asked w /\
         exists later, trace w' = (later ++ trace w)%list /\ actuations later = []).
Proof.
  unfold FFv3.update_display.
  apply run_weaken
    with (Q := fun _ s' w' =>
                 s' = s /\ only_told w w' /\
                 exists later, trace w' = (later ++ trace w)%list /\ actuations later = []).
  { intros _ s' w' [H1 [[H2 H3] H4]]. auto. }
  apply (run_for_each
           (fun s' w' =>
              s' = s /\ only_told w w' /\
              exists later, trace w' = (later ++ trace w)%list /\ actuations later = [])).
  2:{ split; [reflexivity|]. split; [apply only_told_refl|]. exists []. auto. }
  intros c s1 w1 [-> [Hw [later [Ht Ha]]]].
  assert (Hstep : forall e w2,
             is_actuation e = false ->
             (only_told w w2 /\
              exists later, trace w2 = (later ++ trace w)%list /\ actuations later = []) ->
             (only_told w (told e w2) /\
              exists later, trace (told e w2) = (later ++ trace w)%list /\ actuations later = [])).
  { intros e w2 He [Ho [l [Hl Hal]]]. split; [apply only_told_told, Ho|].
    exists (e :: l). split; [simpl; rewrite Hl; reflexivity|].
    unfold actuations in *. simpl. rewrite He. exact Hal. }
  unfold FFv3.display_cell, API_setText, API_setColor, API_setWall. cbv zeta.
  run_auto; (split; [reflexivity|]);
    repeat (apply Hstep; [reflexivity|]); (split; [exact Hw|]); exists later; auto.
Qed.

(** X8. [turn_to_direction] of ffv3.c ends facing its target and changes
    nothing else; it asks nothing, sends no move and at most two turn
    commands, and none at all when the mouse already faces the target. *)
Theorem ffv3_turn_to_direction (target : Direction) (s : FFv3.State) (w : World) :
  run (FFv3.turn_to_direction target) s w
      (fun _ s' w' =>
         s' = FFv3.set_mouse (FFv3.set_orientation target (FFv3.mouse s)) s /\
         answers w' = answers w /\ asked w' = asked w /\
         exists later,
           trace w' = (later ++ trace w)%list /\
           (length (actuations later) <= 2)%nat /\
           ~ In (MoveForward true) later /\ ~ In (MoveForward false) later /\
           (FFv3.orientation (FFv3.mouse s) = target -> later = [])).
Proof.
  unfold run. rewrite turn_to_direction_result.
  split; [reflexivity|]. split; [reflexivity|]. split; [reflexivity|].
  exists (turn_events (FFv3.orientation (FFv3.mouse s)) target).
  split; [reflexivity|].
  destruct (FFv3.orientation (FFv3.mouse s)), target; cbn;
    (split; [lia|]); (split; [intuition discriminate|]); (split; [intuition discriminate|]);
    intros H; try reflexivity; discriminate H.
Qed.

Lemma init_maze_no_inner_wall (m : FFv3.Maze) (c : Point) (d : Direction) :
  is_within_bounds c = true ->
  FFv3.walls (FFv3.init_maze m) c d = true ->
  is_within_bounds (neighbor c d) = false.
Proof.
  intros Hc Hw.
  assert (Hall : forallb (fun c =>
                    forallb (fun d =>
                       implb (FFv3.walls (FFv3.init_maze m) c d)
                             (negb (is_within_bounds (neighbor c d))))
                            all_dirs) all_cells = true) by (vm_compute; reflexivity).
  rewrite forallb_forall in Hall. specialize (Hall c (proj2 (in_all_cells c) Hc)).
  rewrite forallb_forall in Hall. specialize (Hall d (all_dirs_complete d)).
  rewrite Hw in Hall. simpl in Hall. apply negb_true_iff in Hall. exact Hall.
Qed.

(** X9. [init_simulation] of ffv3.c, from any contents of the globals:
    the mouse is on the start cell facing north in the search phase with
    no goal found and no stored path, the start cell is the only visited
    cell, the walls of the grid are the boundary walls and no others, and
    the distances are the least hop counts to the goal region.  The
    simulator is asked nothing. *)
Theorem ffv3_init_simulation (s : FFv3.State) (w : World) :
  run FFv3.init_simulation s w
      (fun _ s' w' =>
         FFv3.pos (FFv3.mouse s') = mkPoint 0 0 /\
         FFv3.orientation (FFv3.mouse s') = NORTH /\
         FFv3.mode (FFv3.mouse s') = SEARCH_MODE /\
         FFv3.goal_found (FFv3.mouse s') = false /\
         FFv3.path_length (FFv3.mouse s') = 0 /\
         (forall c, FFv3.visited (FFv3.maze s') c = true <-> c = mkPoint 0 0) /\
         (forall c d, is_within_bounds c = true ->
                      (FFv3.walls (FFv3.maze s') c d = true <->
                       is_within_bounds (neighbor c d) = false)) /\
         hop_field (FFv3.walls (FFv3.maze s')) goal_cells (FFv3.distances (FFv3.maze s')) /\
         asked w' = asked w).
Proof.
  refine (run_weaken _ _ _ _ _ _ (init_simulation_run s w)).
  intros _ s' w' [[Hs Hb] [[_ Hasked] [H1 [H2 [H3 [H4 [H5 [Hw [Hv Hh]]]]]]]]].
  repeat (split; [assumption|]).
  split.
  { intros c. rewrite Hv. split; [apply point_eqb_eq|intros ->; apply point_eqb_refl]. }
  split; [|split; [exact Hh|exact Hasked]].
  intros c d Hc. split.
  - rewrite Hw. apply init_maze_no_inner_wall, Hc.
  - intros Hn. apply Hb. split; assumption.
Qed.

(** X10. [flood_fill] of ffv3.c for any target.  It returns and changes
    the distances only.  For a target inside the grid of a symmetric map
    they become the least hop counts to the target, the sentinel for the
    cells that do not reach it; for a target outside the grid every
    distance becomes the sentinel and an error is logged. *)
Theorem ffv3_flood_fill_target (target : Point) (s : FFv3.State) (w : World) :
  run (FFv3.flood_fill target) s w
      (fun _ s' w' =>
         FFv3.mouse s' = FFv3.mouse s /\
         FFv3.walls (FFv3.maze s') = FFv3.walls (FFv3.maze s) /\
         FFv3.visited (FFv3.maze s') = FFv3.visited (FFv3.maze s) /\
         (is_within_bounds target = true ->
          wall_symmetric (FFv3.walls (FFv3.maze s)) ->
          w' = w /\
          hop_field (FFv3.walls (FFv3.maze s)) [target] (FFv3.distances (FFv3.maze s'))) /\
         (is_within_bounds target = false ->
          w' = told (Log "ERROR: Flood fill target out of bounds!" []) w /\
          forall c, FFv3.distances (FFv3.maze s') c = INVALID_DISTANCE)).
Proof.
  destruct (is_within_bounds target) eqn:Ht.
  - apply run_flood_fill; [exact Ht|]. intros dist F.
    split; [reflexivity|]. split; [reflexivity|]. split; [reflexivity|].
    split; [|discriminate]. intros _ Hsym. split; [reflexivity|].
    apply flooded_hop_field3; [exact Hsym|constructor; [exact Ht|constructor]|exact F].
  - unfold FFv3.flood_fill. rewrite Ht. run_steps.
    split; [reflexivity|]. split; [reflexivity|]. split; [reflexivity|].
    split; [discriminate|]. intros _. split; reflexivity.
Qed.



(** ** The speed run *)

Lemma find_move3_complete (prev p : Point) (d : Direction) :
  neighbor prev d = p -> FFv3.find_move prev p = Some d.
Proof.
  intros H. destruct (FFv3.find_move prev p) as [e|] eqn:E.
  - apply find_move3_some in E. rewrite <- H in E. apply neighbor_inj_dir in E. congruence.
  - exfalso. exact (find_move3_none prev p d E H).
Qed.

(** The loop of [follow_shortest_path] along a chain of neighbouring
    cells, against a simulator that accepts every move. *)
Lemma follow_steps_chain : forall n a s w,
  (1 <= a)%nat ->
  (forall k, answers w k = true) ->
  FFv3.pos (FFv3.mouse s) = FFv3.shortest_path (FFv3.mouse s) (Z.of_nat a - 1) ->
  (forall i, (a <= i < a + n)%nat ->
             exists d, neighbor (FFv3.shortest_path (FFv3.mouse s) (Z.of_nat i - 1)) d =
                       FFv3.shortest_path (FFv3.mouse s) (Z.of_nat i)) ->
  run (FFv3.follow_steps (map Z.of_nat (seq a n))) s w
      (fun finished s' w' =>
         finished = true /\
         FFv3.maze s' = FFv3.maze s /\
         FFv3.pos (FFv3.mouse s') = FFv3.shortest_path (FFv3.mouse s) (Z.of_nat (a + n) - 1) /\
         FFv3.shortest_path (FFv3.mouse s') = FFv3.shortest_path (FFv3.mouse s) /\
         FFv3.path_length (FFv3.mouse s') = FFv3.path_length (FFv3.mouse s) /\
         FFv3.mode (FFv3.mouse s') = FFv3.mode (FFv3.mouse s)).
Proof.
  induction n as [|n IH]; intros a s w Ha Hans Hpos Hchain; cbn [seq map FFv3.follow_steps].
  - run_steps. split; [reflexivity|]. split; [reflexivity|].
    split; [rewrite Nat.add_0_r; exact Hpos|]. auto.
  - apply run_bind, run_gets.
    destruct (Hchain a) as [d Hd]; [lia|].
    rewrite Hpos, (find_move3_complete _ _ d Hd).
    apply run_bind. unfold run at 1. rewrite turn_to_direction_result.
    run_steps. cbn [answers asked trace told queried]. rewrite Hans.
    apply run_bind, run_modify. apply run_bind.
    refine (run_weaken _ _ _ _ _ _ (update_display_frame _ _)).
    intros _ s1 w1 [-> [Hw1 _]]. run_steps.
    match goal with |- run _ ?s2 ?w2 _ => set (st := s2); set (wd := w2) end.
    assert (Hsp : FFv3.shortest_path (FFv3.mouse st) = FFv3.shortest_path (FFv3.mouse s))
      by reflexivity.
    refine (run_weaken _ _ _ _ _ _ (IH (S a) st wd _ _ _ _)).
    + intros fin s' w' [H1 [H2 [H3 [H4 [H5 H6]]]]].
      split; [exact H1|]. split; [exact H2|].
      split; [rewrite H3, Hsp; f_equal; lia|]. split; [rewrite H4; exact Hsp|].
      split; [rewrite H5; reflexivity|rewrite H6; reflexivity].
    + lia.
    + intros k. unfold wd. cbn [answers told]. rewrite Hw1. cbn [answers told queried]. apply Hans.
    + rewrite Hsp. unfold st. cbn [FFv3.pos FFv3.mouse FFv3.set_mouse FFv3.set_pos].
      f_equal. lia.
    + intros i Hi. rewrite Hsp. apply Hchain. lia.
Qed.

(** X12. The speed run of ffv3.c.  With the mouse on the start cell, a
    stored path of at least two cells that starts on the start cell, joins
    neighbouring cells and ends on a goal cell, and a simulator that
    accepts every move, [follow_shortest_path] returns with the mouse on
    the last cell of the path, a goal cell, leaves the maze as it was and
    logs the success. *)
Theorem ffv3_speed_run_reaches_goal (s : FFv3.State) (w : World) :
  let path := FFv3.shortest_path (FFv3.mouse s) in
  let len := FFv3.path_length (FFv3.mouse s) in
  1 < len ->
  FFv3.pos (FFv3.mouse s) = mkPoint 0 0 ->
  path 0 = mkPoint 0 0 ->
  (forall i, 1 <= i < len -> exists d, neighbor (path (i - 1)) d = path i) ->
  is_at_goal (path (len - 1)) = true ->
  (forall k, answers w k = true) ->
  run FFv3.follow_shortest_path s w
      (fun _ s' w' =>
         FFv3.pos (FFv3.mouse s') = path (len - 1) /\
         is_at_goal (FFv3.pos (FFv3.mouse s')) = true /\
         FFv3.maze s' = FFv3.maze s /\
         In (Log "=== Speed run complete! Goal successfully reached! ===" []) (trace w')).
Proof.
  intros path len Hlen Hpos H0 Hchain Hgoal Hans. unfold FFv3.follow_shortest_path.
  apply run_bind, run_emit. apply run_bind, run_gets.
  rewrite Hpos. change (negb (is_at_start (mkPoint 0 0))) with false. cbv iota.
  apply run_bind. unfold run at 1. rewrite turn_to_direction_result.
  fold len. destruct (Z.leb_spec len 1) as [Hle|_]; [lia|].
  apply run_bind.
  match goal with |- run _ ?s2 ?w2 _ => set (st := s2); set (wd := w2) end.
  assert (Hsp : FFv3.shortest_path (FFv3.mouse st) = path) by reflexivity.
  refine (run_weaken _ _ _ _ _ _
            (follow_steps_chain (Z.to_nat (len - 1)) 1 st wd (le_n 1) _ _ _)).
  - intros fin s' w' [-> [Hm [Hp _]]]. cbn [when]. apply run_bind, run_gets.
    rewrite Hsp in Hp.
    replace (Z.of_nat (1 + Z.to_nat (len - 1)) - 1) with (len - 1) in Hp by lia.
    rewrite Hp, Hgoal. unfold API_setColor. run_steps.
    split; [exact Hp|]. split; [rewrite Hp; exact Hgoal|]. split; [exact Hm|].
    right. left. reflexivity.
  - intros k. apply Hans.
  - rewrite Hsp. unfold st. cbn [FFv3.pos FFv3.mouse FFv3.set_mouse FFv3.set_orientation].
    rewrite Hpos. symmetry. exact H0.
  - intros i Hi. rewrite Hsp. apply Hchain. lia.
Qed.

(** The path north along the west boundary, then east along row 7, stored
    in a mouse of ffv3.c on the start cell. *)
Definition ready3 : FFv3.State :=
  FFv3.mkState
    (FFv3.mkMouse (mkPoint 0 0) NORTH SPEED_MODE true
                  (fun i => if i <=? 7 then mkPoint 0 i else mkPoint (i - 7) 7) 15)
    (FFv3.init_maze (FFv3.maze FFv3.initial)).

Lemma ffv3_speed_run_reaches_goal_witness :
  run FFv3.follow_shortest_path ready3 open_field
      (fun _ s' _ => FFv3.pos (FFv3.mouse s') = mkPoint 7 7).
Proof.
  refine (run_weaken _ _ _ _ _ _
            (ffv3_speed_run_reaches_goal ready3 open_field _ eq_refl eq_refl _ eq_refl _)).
  - intros _ s' _ [H _]. exact H.
  - reflexivity.
  - intros i Hi. cbn [FFv3.shortest_path FFv3.mouse ready3 FFv3.path_length] in *.
    destruct (Z.leb_spec i 7) as [H7|H7].
    + exists NORTH. destruct (Z.leb_spec (i - 1) 7); [|lia].
      unfold neighbor. simpl. f_equal; lia.
    + exists EAST. destruct (Z.leb_spec (i - 1) 7) as [H8|H8].
      * assert (i = 8) by lia. subst i. reflexivity.
      * unfold neighbor. simpl. f_equal; lia.
  - intros k. reflexivity.
Defined.

(** ** Choosing a direction *)

(** The distance [choose_next_direction] compares for direction [d]: the
    distance of the neighbour, less one in the search phase when the
    neighbour has not been visited. *)
Definition adjusted3 (s : FFv3.State) (d : Direction) : Z :=
  let n := neighbor (FFv3.pos (FFv3.mouse s)) d in
  if match FFv3.mode (FFv3.mouse s) with SEARCH_MODE => true | _ => false end
     && negb (FFv3.visited (FFv3.maze s) n)
  then FFv3.distances (FFv3.maze s) n - 1
  else FFv3.distances (FFv3.maze s) n.

Lemma scan_moves_scan (s : FFv3.State) :
  FFv3.scan_moves (FFv3.mouse s) (FFv3.maze s) =
  scan_min (open_dir (FFv3.has_wall (FFv3.maze s)) (FFv3.pos (FFv3.mouse s)))
           (adjusted3 s) (INVALID_DISTANCE + 10).
Proof.
  unfold FFv3.scan_moves, scan_min. apply fold_left_agree.
  intros acc d. unfold open_dir, adjusted3.
  destruct (FFv3.has_wall (FFv3.maze s) (FFv3.pos (FFv3.mouse s)) d); [reflexivity|].
  destruct (is_within_bounds (neighbor (FFv3.pos (FFv3.mouse s)) d)); reflexivity.
Qed.

(** X20. [choose_next_direction] of ffv3.c changes nothing and asks
    nothing.  When some side of the cell of the mouse has no wall and
    leads to a cell of the grid whose distance is at most the sentinel, it
    logs nothing and returns such a side, one of least adjusted distance,
    the first of them in the order North, East, South, West. *)
Theorem ffv3_choose_next_direction (s : FFv3.State) (w : World) :
  run FFv3.choose_next_direction s w
      (fun d s' w' =>
         let open := open_dir (FFv3.has_wall (FFv3.maze s)) (FFv3.pos (FFv3.mouse s)) in
         s' = s /\ answers w' = answers w /\ asked w' = asked w /\
         forall e,
           open e = true ->
           FFv3.distances (FFv3.maze s) (neighbor (FFv3.pos (FFv3.mouse s)) e)
             <= INVALID_DISTANCE ->
           w' = w /\ open d = true /\
           (forall e', open e' = true ->
                       adjusted3 s d <= adjusted3 s e' /\
                       (dir_index e' < dir_index d -> adjusted3 s d < adjusted3 s e'))).
Proof.
  unfold FFv3.choose_next_direction. apply run_bind, run_gets.
  rewrite scan_moves_scan.
  pose proof (scan_min_spec (open_dir (FFv3.has_wall (FFv3.maze s)) (FFv3.pos (FFv3.mouse s)))
                (adjusted3 s) (INVALID_DISTANCE + 10)) as S.
  destruct (scan_min _ _ _) as [[d|] v]; cbn [fst].
  - destruct S as [Hok [_ [_ [Hmin Hfirst]]]]. run_steps. cbv zeta.
    split; [reflexivity|]. split; [reflexivity|]. split; [reflexivity|].
    intros e He Hd. split; [reflexivity|]. split; [exact Hok|].
    intros e' He'. split; [apply Hmin, He'|apply Hfirst, He'].
  - destruct S as [_ Hall]. run_steps. cbv zeta.
    split; [reflexivity|]. split; [reflexivity|]. split; [reflexivity|].
    intros e He Hd. exfalso. specialize (Hall e He). unfold adjusted3 in Hall.
    destruct (_ && _); lia.
Qed.

(** * ff.c: more of the program *)

(** ** The closing normalisation of the biased fill *)

Lemma fold_min_le (dist : Grid Z) : forall l m,
  fold_left (fun m c => if dist c <? m then dist c else m) l m <= m /\
  forall c, In c l -> fold_left (fun m c => if dist c <? m then dist c else m) l m <= dist c.
Proof.
  induction l as [|a l IH]; intros m; simpl.
  - split; [lia|intros c []].
  - destruct (IH (if dist a <? m then dist a else m)) as [H1 H2].
    destruct (Z.ltb_spec (dist a) m) as [Hlt|Hge].
    + split; [lia|]. intros c [<-|Hc]; [exact H1|apply H2, Hc].
    + split; [lia|]. intros c [<-|Hc]; [lia|apply H2, Hc].
Qed.

Lemma normalize_nonneg (dist : Grid Z) (c : Point) :
  is_within_bounds c = true -> 0 <= FF.normalize dist c.
Proof.
  intros Hc. unfold FF.normalize.
  destruct (fold_min_le dist all_cells 0) as [H0 Hall].
  specialize (Hall c (proj2 (in_all_cells c) Hc)).
  destruct (Z.ltb_spec (fold_left (fun m c => if dist c <? m then dist c else m) all_cells 0) 0);
    lia.
Qed.

(** X13. [floodFillToStartWithExploration] of ff.c either returns or
    writes past the end of its queue; it never runs on for more rounds
    than the queue has entries.  When it returns it has changed the
    distances only, and no distance of the grid is negative. *)
Theorem ff_biased_fill_outcomes (s : FF.State) :
  match FF.floodFillToStartWithExploration s with
  | Ok s' =>
      (exists dist, s' = FF.set_distances dist s) /\
      forall c, is_within_bounds c = true -> 0 <= FF.distances s' c
  | Fail e => e = QueueOverflow
  end.
Proof.
  unfold FF.floodFillToStartWithExploration.
  destruct (sweep _ _ _ _) as [b|e] eqn:E.
  - split; [eexists; reflexivity|]. intros c Hc. apply normalize_nonneg, Hc.
  - exact (sweep_ends_or_overflows _ _ _ _ _ E).
Qed.

(** ** The plain fill *)

(** X14. The plain [floodFill] of ff.c, for any target inside the grid
    and any wall map, returns: every cell enters the queue at most once,
    so the queue never holds more than its 256 entries.  It changes the
    distances only; on a symmetric map they are the least hop counts to
    the target, the sentinel for the cells that do not reach it.
    [floodFillToStart] is the case of the start cell. *)
Theorem ff_plain_fill (target : Point) (s : FF.State) :
  is_within_bounds target = true ->
  (exists b,
      sweep (FF.walls s) (fun d _ => d + 1) SWEEP_FUEL
            (mkBfs (grid_set (fun _ => MAZE_WIDTH * MAZE_HEIGHT) target 0) [target] 0) = Ok b /\
      NoDup (queue b) /\ Z.of_nat (qBack b) <= MAX_CELLS /\
      FF.floodFill target s = Ok (FF.set_distances (bdist b) s) /\
      (wall_symmetric (FF.walls s) -> hop_field (FF.walls s) [target] (bdist b))) /\
  FF.floodFillToStart s = FF.floodFill (mkPoint 0 0) s.
Proof.
  intros Ht. split; [|reflexivity].
  destruct (plain_sweep_correct (FF.walls s) [target]
              (grid_set (fun _ => MAX_CELLS) target 0))
    as [b [E [F [Hnd Hlen]]]].
  - discriminate.
  - repeat constructor. intros [].
  - repeat constructor. exact Ht.
  - intros p. apply single_seed_dist.
  - intros p. apply single_seed_dist.
  - exists b. unfold plain in E. split; [exact E|]. split; [exact Hnd|].
    split; [unfold qBack, MAX_CELLS, MAZE_WIDTH, MAZE_HEIGHT; lia|].
    split.
    + unfold FF.floodFill. change (MAZE_WIDTH * MAZE_HEIGHT) with MAX_CELLS. rewrite E. reflexivity.
    + intros Hsym. apply flooded_hop_field; [exact Hsym| |exact F].
      constructor; [exact Ht|constructor].
Qed.

Lemma ff_plain_fill_witness :
  FF.floodFillToStart ff_bare = FF.floodFill (mkPoint 0 0) ff_bare.
Proof. exact (proj2 (ff_plain_fill (mkPoint 0 0) ff_bare eq_refl)). Defined.

(** ** The target of the fill toward the goal *)

(** The Manhattan distance between two cells. *)
Definition manhattan (p q : Point) : Z := Z.abs (px p - px q) + Z.abs (py p - py q).

(** The position of a goal cell in the order of [goalDistances]. *)
Definition goal_rank (g : Point) : Z :=
  (if px g =? GOAL_X1 then 0 else 2) + (if py g =? GOAL_Y1 then 0 else 1).

Lemma closest_goal_index_unfold (x y : Z) :
  FF.closest_goal_index x y =
  let g0 := Z.abs (x - 7) + Z.abs (y - 7) in
  let g1 := Z.abs (x - 7) + Z.abs (y - 8) in
  let g2 := Z.abs (x - 8) + Z.abs (y - 7) in
  let g3 := Z.abs (x - 8) + Z.abs (y - 8) in
  let acc1 := if g1 <? g0 then (g1, 1) else (g0, 0) in
  let acc2 := if g2 <? fst acc1 then (g2, 2) else acc1 in
  snd (if g3 <? fst acc2 then (g3, 3) else acc2).
Proof. reflexivity. Qed.

(** X15. The target [floodFillToGoal] of ff.c floods from is a goal cell
    of least Manhattan distance to the mouse, and among those the first in
    the order (7,7), (7,8), (8,7), (8,8). *)
Theorem ff_goal_target_is_closest (s : FF.State) (g : Point) :
  In g goal_cells ->
  In (ff_goal_target s) goal_cells /\
  manhattan (FF.pos s) (ff_goal_target s) <= manhattan (FF.pos s) g /\
  (goal_rank g < goal_rank (ff_goal_target s) ->
   manhattan (FF.pos s) (ff_goal_target s) < manhattan (FF.pos s) g).
Proof.
  intros Hg. split; [apply goal_target_is_goal|].
  unfold ff_goal_target. rewrite closest_goal_index_unfold.
  unfold manhattan, FF.pos. cbv zeta. cbn [px py].
  unfold goal_cells, GOAL_X1, GOAL_X2, GOAL_Y1, GOAL_Y2 in Hg.
  repeat match goal with
         | |- context [?a <? ?b] =>
             lazymatch b with
             | context [if _ then _ else _] => fail
             | _ => destruct (Z.ltb_spec a b); cbn [fst snd]
             end
         end;
    unfold FF.goal_target, goal_rank, GOAL_X1, GOAL_X2, GOAL_Y1, GOAL_Y2;
    destruct Hg as [<-|[<-|[<-|[<-|[]]]]]; simpl; lia.
Qed.

Lemma ff_goal_target_is_closest_witness :
  In (ff_goal_target ff_bare) goal_cells /\
  manhattan (FF.pos ff_bare) (ff_goal_target ff_bare) <=
    manhattan (FF.pos ff_bare) (mkPoint GOAL_X2 GOAL_Y2) /\
  (goal_rank (mkPoint GOAL_X2 GOAL_Y2) < goal_rank (ff_goal_target ff_bare) ->
   manhattan (FF.pos ff_bare) (ff_goal_target ff_bare) <
     manhattan (FF.pos ff_bare) (mkPoint GOAL_X2 GOAL_Y2)).
Proof.
  apply (ff_goal_target_is_closest ff_bare (mkPoint GOAL_X2 GOAL_Y2)).
  simpl. auto.
Defined.

(** ** The display outside the exploring return *)

(** X16. Outside the return phase, and in it once exploration is
    complete, [updateDisplay] of ff.c is output only: it returns, leaves
    the whole state as it was, and asks the simulator nothing. *)
Theorem ff_display_pure_outside_exploration (s : FF.State) (w : World) :
  display_fills s = false ->
  run FF.updateDisplay s w
      (fun _ s' w' => s' = s /\ answers w' = answers w /\ asked w' = asked w).
Proof. apply updateDisplay_frame. Qed.

Lemma ff_display_pure_outside_exploration_witness :
  run FF.updateDisplay ff_bare silent
      (fun _ s' w' => s' = ff_bare /\ answers w' = answers silent /\ asked w' = asked silent).
Proof. exact (ff_display_pure_outside_exploration ff_bare silent eq_refl). Defined.

(** ** Moving inside the grid *)

Lemma moveToNextCell_inside (s : FF.State) (w : World) :
  is_within_bounds (FF.pos s) = true ->
  run FF.moveToNextCell s w
      (fun _ s' _ =>
         is_within_bounds (FF.pos s') = true /\
         (FF.pos s' <> FF.pos s -> open_edge (FF.walls s) (FF.pos s) (FF.pos s'))).
Proof.
  intros Hin. unfold FF.moveToNextCell. apply run_bind, run_gets.
  rewrite select_direction_scan.
  pose proof (scan_min_spec (open_dir (FF.walls s) (FF.pos s))
                (fun d => FF.distances s (neighbor (FF.pos s) d) - FF.bonus s d)
                (MAZE_WIDTH * MAZE_HEIGHT)) as S.
  destruct (scan_min _ _ _) as [[d|] v]; cbn [fst].
  - destruct S as [Hok _]. unfold open_dir in Hok. apply andb_true_iff in Hok.
    destruct Hok as [Hw Hn]. apply negb_true_iff in Hw.
    apply run_bind. unfold run at 1. rewrite turn_to_result.
    run_steps. cbn [answers asked trace told queried].
    destruct (answers w (asked w)).
    + run_steps.
      change (FF.pos (FF.set_pos (neighbor (FF.pos (FF.set_direction d s))
                                           (FF.direction (FF.set_direction d s)))
                                 (FF.set_direction d s)))
        with (mkPoint (px (neighbor (FF.pos s) d)) (py (neighbor (FF.pos s) d))).
      assert (Heta : mkPoint (px (neighbor (FF.pos s) d)) (py (neighbor (FF.pos s) d)) =
                     neighbor (FF.pos s) d) by reflexivity.
      rewrite Heta. split; [exact Hn|]. intros _. split; [exact Hin|]. exists d. auto.
    + run_steps.
      cbn [FF.currentMode FF.record_blocked FF.set_walls FF.set_direction].
      destruct (FF.currentMode s).
      * apply run_floodFillToGoal. intros dist _. split; [exact Hin|]. intros H.
        contradiction H. reflexivity.
      * apply run_floodFillToStart. intros dist _. split; [exact Hin|]. intros H.
        contradiction H. reflexivity.
      * run_steps. split; [exact Hin|]. intros H. contradiction H. reflexivity.
  - run_steps. split; [exact Hin|]. intros H. contradiction H. reflexivity.
Qed.

(** X19. [moveToNextCell] of ff.c keeps the mouse inside the grid, and
    moves it only across an edge of the grid on which the map records no
    wall. *)
Theorem ff_move_stays_on_open_edges (s : FF.State) (w : World) :
  is_within_bounds (FF.pos s) = true ->
  run FF.moveToNextCell s w
      (fun _ s' _ =>
         is_within_bounds (FF.pos s') = true /\
         (FF.pos s' <> FF.pos s -> open_edge (FF.walls s) (FF.pos s) (FF.pos s'))).
Proof. apply moveToNextCell_inside. Qed.

Lemma ff_move_stays_on_open_edges_witness :
  run FF.moveToNextCell ff_bare open_field
      (fun _ s' _ => is_within_bounds (FF.pos s') = true).
Proof.
  refine (run_weaken _ _ _ _ _ _ (ff_move_stays_on_open_edges ff_bare open_field eq_refl)).
  intros _ s' _ [H _]. exact H.
Defined.

(** ** The search phase of ff.c *)

Lemma moveToNextCell_run (s : FF.State) (w : World) :
  run FF.moveToNextCell s w
      (fun _ s' _ =>
         FF.currentMode s' = FF.currentMode s /\
         FF.visited s' = FF.visited s /\
         (FF.pos s' = FF.pos s \/ FF.pos s' = neighbor (FF.pos s) (FF.direction s'))).
Proof.
  unfold FF.moveToNextCell. apply run_bind, run_gets.
  destruct (fst (FF.select_direction s (FF.bonus s))) as [d|]; [|run_steps; auto].
  apply run_bind. unfold run at 1. rewrite turn_to_result.
  run_steps. cbn [answers asked trace told queried].
  destruct (answers w (asked w)).
  - run_steps. split; [reflexivity|]. split; [reflexivity|]. right. reflexivity.
  - run_steps.
    cbn [FF.currentMode FF.record_blocked FF.set_walls FF.set_direction].
    destruct (FF.currentMode s) eqn:Em.
    + apply run_floodFillToGoal. intros dist _. split; [exact Em|]. split; [reflexivity|].
      left. reflexivity.
    + apply run_floodFillToStart. intros dist _. split; [exact Em|]. split; [reflexivity|].
      left. reflexivity.
    + run_steps. split; [exact Em|]. split; [reflexivity|]. left. reflexivity.
Qed.

Lemma run_conj {St A : Type} (m : M St A) s w (Q1 Q2 : A -> St -> World -> Prop) :
  run m s w Q1 -> run m s w Q2 -> run m s w (fun a s' w' => Q1 a s' w' /\ Q2 a s' w').
Proof. unfold run. destruct (m s w) as [[[a s'] w']|]; [auto|contradiction]. Qed.

(** X17. An iteration of the main loop of ff.c in the search phase with
    the mouse inside the grid and off the goal returns, whatever the
    simulator answers; the loop goes on, the phase is still the search
    phase and the mouse is still inside the grid.  Without a reset the cell
    of the mouse is marked visited and the mouse stays or moves to the
    neighbour it faces. *)
Theorem ff_search_iteration_returns (s : FF.State) (w : World) :
  FF.currentMode s = SEARCH_MODE ->
  is_within_bounds (FF.pos s) = true ->
  FF.isAtGoal s = false ->
  run FF.tick s w
      (fun go s' _ =>
         go = true /\ FF.currentMode s' = SEARCH_MODE /\
         is_within_bounds (FF.pos s') = true /\
         (answers w (asked w) = false ->
          FF.visited s' (FF.pos s) = true /\
          (FF.pos s' = FF.pos s \/ FF.pos s' = neighbor (FF.pos s) (FF.direction s')))).
Proof.
  intros Hm Hin Hg. unfold FF.tick. apply run_bind, run_ask. apply run_bind.
  apply run_weaken
    with (Q := fun _ s1 _ =>
                 FF.currentMode s1 = SEARCH_MODE /\ FF.isAtGoal s1 = false /\
                 is_within_bounds (FF.pos s1) = true /\
                 (answers w (asked w) = false -> s1 = s)).
  2:{ destruct (answers w (asked w)); cbn [when].
      - apply run_bind, run_emit. apply run_bind, run_emit. apply run_bind, run_modify.
        unfold FF.initializeMaze. run_steps. apply run_floodFillToGoal. intros dist _.
        split; [reflexivity|]. split; [reflexivity|]. split; [reflexivity|discriminate].
      - run_steps. auto. }
  intros _ s1 w1 [Hm1 [Hg1 [Hin1 Hs1]]].
  unfold FF.updateWalls. run_steps.
  match goal with |- run _ ?s2 ?w2 _ => set (st := s2); set (wd := w2) end.
  assert (Hst : FF.currentMode st = SEARCH_MODE) by exact Hm1.
  assert (Hpos : FF.pos st = FF.pos s1) by reflexivity.
  assert (Hinst : is_within_bounds (FF.pos st) = true) by exact Hin1.
  assert (Hgoal : FF.isAtGoal st = false) by exact Hg1.
  assert (Hvis : FF.visited st (FF.pos s1) = true).
  { unfold st. cbn [FF.visited FF.set_visited]. unfold grid_set.
    change (FF.pos (FF.sense_side _ _ (FF.sense_side _ _ (FF.sense_side _ _ s1))))
      with (FF.pos s1).
    rewrite point_eqb_refl. reflexivity. }
  clearbody st wd.
  refine (run_weaken _ _ _ _ _ _ (updateDisplay_frame st wd _)).
  2:{ unfold display_fills. rewrite Hst. reflexivity. }
  intros _ s2 w2 [-> _]. apply run_bind, run_gets. rewrite Hst.
  apply run_bind. unfold FF.search_case. apply run_bind, run_gets. rewrite Hgoal.
  apply run_bind, run_floodFillToGoal. intros dist _.
  refine (run_weaken _ _ _ _ _ _
            (run_conj _ _ _ _ _ (moveToNextCell_run (FF.set_distances dist st) _)
                      (moveToNextCell_inside (FF.set_distances dist st) _ Hinst))).
  intros _ s3 w3 [[H1 [H2 H3]] [H4 _]]. run_steps.
  split; [reflexivity|]. split; [rewrite H1; exact Hst|]. split; [exact H4|].
  intros Hans. specialize (Hs1 Hans). subst s1.
  split; [rewrite H2; exact Hvis|]. rewrite <- Hpos. exact H3.
Qed.

Lemma ff_search_iteration_returns_witness :
  run FF.tick ff_bare silent (fun go s' _ => go = true /\ FF.currentMode s' = SEARCH_MODE).
Proof.
  refine (run_weaken _ _ _ _ _ _ (ff_search_iteration_returns ff_bare silent eq_refl eq_refl eq_refl)).
  intros go s' _ [H1 [H2 _]]. auto.
Defined.

(** ** Counting cells *)

(** X18. [criticalPathsExplored] of ff.c returns and changes nothing but
    the distances, which it floods from the goal cell closest to the
    mouse.  Its answer is [true] exactly when the grid holds no unvisited
    cell that is at most as far from that goal cell as the start cell and
    has an open in-bounds neighbour exactly one step closer. *)
Theorem ff_critical_paths_explored (s : FF.State) (w : World) :
  run FF.criticalPathsExplored s w
      (fun r s' w' =>
         exists dist,
           s' = FF.set_distances dist s /\
           FF.floodFillToGoal s = Ok s' /\
           asked w' = asked w /\
           (r = true <->
            forall c d,
              is_within_bounds c = true ->
              FF.visited s c = false ->
              dist c <= dist (mkPoint 0 0) ->
              FF.walls s c d = false ->
              is_within_bounds (neighbor c d) = true ->
              dist (neighbor c d) <> dist c - 1)).
Proof.
  refine (run_weaken _ _ _ _ _ _ (criticalPathsExplored_run s w)).
  intros r s' w' [dist [H1 [H2 [[_ H3] H4]]]]. exists dist. auto.
Qed.

(** ** Facing north *)

(** X21. The loop of ff.c that turns the mouse north before the speed
    run ends with the mouse facing north, after right turns only, as many
    as quarter turns separate the heading from north clockwise; nothing
    else changes and the simulator is asked nothing. *)
Theorem ff_face_north (s : FF.State) (w : World) :
  FF.face_north s w =
    Ok (tt, FF.set_direction NORTH s,
        mkWorld (answers w) (asked w) (north_turns (FF.direction s) ++ trace w)%list) /\
  Z.of_nat (length (north_turns (FF.direction s))) =
    Z.modulo (4 - dir_index (FF.direction s)) 4.
Proof.
  split; [apply face_north_result|destruct (FF.direction s); reflexivity].
Qed.

(** ** The biased fill on an explored map *)

(** X23. On a symmetric map where every cell that reaches the start
    through open edges has been visited, [floodFillToStartWithExploration]
    of ff.c returns what [floodFillToStart] returns: the least hop counts
    to the start cell, the sentinel for the cells that do not reach it. *)
Theorem ff_biased_fill_on_explored_map (s : FF.State) :
  wall_symmetric (FF.walls s) ->
  explored_around_start (FF.walls s) (FF.visited s) ->
  FF.floodFillToStartWithExploration s = FF.floodFillToStart s /\
  exists dist,
    FF.floodFillToStart s = Ok (FF.set_distances dist s) /\
    hop_field (FF.walls s) [mkPoint 0 0] dist.
Proof.
  intros Hsym Hex. split; [exact (biased_fill_plain s Hsym Hex)|].
  destruct (floodFillToStart_flooded s) as [dist [E F]].
  exists dist. split; [exact E|].
  exact (flooded_hop_field _ _ _ Hsym start_cell_within F).
Qed.

Lemma ff_biased_fill_on_explored_map_witness :
  FF.floodFillToStartWithExploration (corridor_state 17) =
  FF.floodFillToStart (corridor_state 17).
Proof.
  destruct corridor_state_17 as [_ [_ [_ [Hex _]]]].
  exact (proj1 (ff_biased_fill_on_explored_map (corridor_state 17)
                  (corridor_state_symmetric 17) Hex)).
Defined.
